(* ===== verification/_CoqProject ===== *)
-Q . S2P
Prelude.v
GoNet.v
GoStrings.v
GoFloat.v
Digest.v
Metrics.v
Duplex.v
MySQLProtocol.v
ReaderMemory.v
MySQLResponse.v
MySQLAuth.v
PgProtocol.v
Config.v
TLSConfig.v
QueryLogger.v
Json.v
ConfigSettings.v
QueryLogFlush.v
Health.v
QueryFilter.v
FilterText.v
WorkerLifecycle.v
WorkerRegistry.v
ShadowSession.v
ShadowWorker.v
PgShadowWorker.v
PgShadowInit.v
Proxy.v
MySQLSession.v
ProxyMetrics.v
ShadowOutage.v
PgProxy.v
PgSession.v
PgProxyMetrics.v
EndToEnd.v
PgLog.v
Main.v
Shutdown.v
