(* ===== verification/Prelude.v ===== *)
(** * Verification of the StarRocks shadow traffic proxy

    The proxy (one Go package, src/) sits between database clients and a primary
    cluster. It relays every connection and mirrors a copy of the traffic to a
    shadow cluster, for MySQL (src/proxy.go) or for the PostgreSQL wire protocol
    (src/pg_proxy.go); it times every query, counts it and writes a log record.
    What it must guarantee is that the client cannot tell it is there: the shadow,
    the filter, the metrics and the log must not change one byte between client and
    primary; that the shadow receives what the filter lets through, in order and
    once; and that no peer can crash it.

    ** Parts and files

    Each file models the part of the program its title names; definitions have the
    names of the Go functions they translate.

    - Prelude, GoNet, GoStrings, GoFloat, Digest: what the program uses of Go.
      Bytes and machine integers with their wrap-around, error values, the result
      type [result] ([Ok], [Err], a run-time [Panic], or [Stuck] for exhausted
      fuel) and its sequencing [let?], slices with bounds checks; connections as
      the list of what successive reads find and the outcomes of successive writes
      ([Conn]), [io.ReadFull]; the string functions with UTF-8 decoding; IEEE 754
      comparison; MD5 and SHA-1 with their published test vectors.
    - MySQLProtocol (src/mysql_protocol.go): command classification,
      [readMySQLPacket], the buffered [MySQLPacketReader], [ReadMultiPacket]. The
      class [PacketSource] is the interface the response parsers are written
      against; the buffered reader and a plain list of packets are its instances.
      ReaderMemory: the size of the reader's buffer.
    - MySQLResponse (src/mysql_protocol.go): [ReadFullResponse],
      [ReadAndForwardResponse] and their helpers, and the grammar of responses.
    - MySQLAuth (src/mysql_auth.go): capabilities, scramble, native password.
    - PgProtocol (src/pg_protocol.go): message readers and the extraction
      functions, [parseStartupParams].
    - Config (src/config.go), and ConfigSettings: that settings written into the
      environment are loaded as they were meant; TLSConfig (src/pg_tls.go, and what src/proxy.go and
      src/pg_shadow_worker.go build): the TLS configurations.
    - Metrics (src/metrics.go): the declared metrics and their registration (the
      class [PrometheusRegistry]); an update is an event, and [well_used] says which
      events a declaration admits. ProxyMetrics and PgProxyMetrics follow the events
      of a whole connection.
    - Duplex: [proxyWithoutShadow] and [copyFallback], the two [io.Copy] goroutines as
      a step relation with peers that may be silent.
    - QueryLogger (src/query_logger.go): request metadata, log entries, and the
      logger as a step relation with its two goroutines. Json and QueryLogFlush:
      what a flush writes - object paths, JSON lines, the messages of the process log
      with the fallback -, opening and closing a logger.
    - Health (src/main.go, src/pg_main.go): the health checker and the HTTP handlers
      as a step relation.
    - QueryFilter (src/query_filter.go, src/pg_shadow_filter.go): statement
      splitting, comments, SQL operations, and the filter's decision; FilterText:
      its description.
    - WorkerLifecycle: the life cycle that src/shadow_worker.go and
      src/pg_shadow_worker.go share - [Send], [Close] and the worker goroutine with
      its queue and channels - as a step relation over both program counters.
      WorkerRegistry: all workers of the process, the registries, the queue-depth
      gauge as reads between which the workers go on, and the counters of [Send] and
      [Close].
    - ShadowSession, ShadowWorker (src/shadow_worker.go): what processing a request
      does to the MySQL shadow connection, and the worker around it.
    - PgShadowWorker (src/pg_shadow_worker.go): the same for pgwire frames, with
      the dead flag. PgShadowInit: opening the shadow session through pgconn.
    - Proxy (src/proxy.go): the login handshakes, plain and with TLS, the login to
      the shadow, the request and response loop with mirroring, [handleConnection].
      MySQLSession: a whole connection over TLS, and LOAD DATA LOCAL INFILE.
    - PgProxy (src/pg_proxy.go, src/pg_tls.go): startup, authentication relay, the
      loop with the sticky-statement filter, [handleConnection]. PgSession: a whole
      connection with TLS on either hop, and through COPY into [copyFallback]. PgLog:
      the records a connection and its worker leave in the query log.
    - ShadowOutage (src/proxy.go): [NewTCPProxy], and a connection without a shadow.
    - EndToEnd: the request loops composed with the workers.
    - Main (src/main.go, src/pg_main.go, [Start]): start-up with its outcomes, and the
      accept loop as a function of events. Shutdown: the running process from the first
      connection to its exit, as one step relation over [main], the signal goroutine,
      the listener, the logger of file QueryLogger and the workers of file
      WorkerLifecycle; a label tells the steps of the shutdown from those of the
      environment.

    ** What the theorems show

    Transparency: a connection through either proxy delivers to the primary exactly
    the client's bytes and to the client exactly the primary's, from handshake to
    last response, for any filter and shadow and any fragmentation of the streams
    (but for the two MySQL capabilities the proxy removes), in the clear, over TLS and,
    for pgwire, through COPY. Both loops refine a
    plain relay without shadow, metrics or log, on every input, and return.
    Mirroring: the requests given to the shadow are those given to the primary that the
    filter allows, under the same ids. Shadow workers: first in
    first out, nothing lost in a graceful shutdown, no use of a closed connection,
    [Close] returns. End to end: the bytes on the shadow connection are those of the
    commands written to the primary, less the filtered and the refused ones. Outages:
    without a shadow the connection is copied faithfully, in every interleaving of
    the copying goroutines. Parsing: the buffered
    reader equals a parser of the joined stream, the response reader consumes
    exactly one response, both are total on arbitrary bytes, the reader's memory is
    bounded; encodings and settings round trip.
    Filtering: the decision as a predicate of the configuration, operations found
    through comments and spacing, statements split outside quotes only, sticky
    statements stay filtered until they are closed or their table overflows. Logging:
    entries are conserved, also at shutdown; what is written, as objects or as fallback
    messages, reads back as the entries; objects do not overwrite each other; the
    records of primary and shadow correspond, one for one, under the same ids.
    Metrics: every update is of a declared metric and well typed; the byte counters
    are the bytes of the request loops; the queue-depth gauge is the sum of what each
    registered worker had waiting when it was read; every dropped request is counted.
    The process: when it starts, that readiness follows the primary, that
    TLS to the primary fails closed - in its configuration and on every connection -,
    that the pgwire shadow is opened as configured; that [Start] is the accept loop in
    every interleaving and returns only after a signal, that a signal ends the process
    within a bounded number of its own steps, with a complete query log.
    Where the code departs from what it means to do, a theorem states what it does:
    an error packet inside a result set, the reply to a prepare, a late answer of
    the shadow, a half-filtered unnamed statement, a truncated handshake, sizes that are
    used unchecked, TLS to the MySQL shadow, a client that leaves an unmirrored
    connection, the shadow queues at exit, the contents of a local file, COPY on the
    shadow, answers to Flush, a queue depth that there never was, and others.

    ** Fuel

    A loop that is not structural takes fuel computed by its caller from the input:
    the number of bytes or of packets still to be read, plus one, since every round
    takes at least one off. The totality theorems prove that this never runs out.
    [forwardStartup] alone takes its fuel as an argument, because a TLS upgrade
    replaces the stream; its theorem says how much is enough.

    ** Parameters

    Code that is not in src/ is an argument or an interface: the TLS library (a
    function from a connection to the encrypted one or an error; the class [TLSLib]
    adds its rule for client configurations), key pairs, files and certificate pools,
    pgconn, regular expressions (the class [RegexpLib]), the Prometheus registry (the
    class [PrometheusRegistry]), Unicode case tables above ASCII, [strconv.ParseFloat],
    the text of floating-point numbers, the [%q] and [%.4f] verbs, the clock and the
    calendar, [rand.Float64], fresh identifiers, the outcome of dialling or listening,
    and what object storage answers.

    ** Not modelled

    The HTTP server around the handlers, the pprof and "/metrics" handlers, and the
    lines of the process log other than those of a flush ([debugf] among them). A dial
    is its outcome. Processing a request by a shadow worker is one step of the life
    cycle, which therefore assumes that a write to the shadow, for which the code sets
    no deadline, returns. Read deadlines appear as the timeout errors of a stream, and a peer that stays silent as the end of its stream,
    except in the step relations, where it may send later. A signal that arrives before
    [signal.Notify] is outside the model. A channel or slice of a size beyond the
    address space, which panics in Go, is allocated in the model.

    ** Plan

    Every function of src/ that computes or changes state has its definition. What can
    still be joined is the log of many connections at once: file Shutdown lets any
    goroutine call [Log], without following which entries a connection has. *)

From stdpp Require Export base gmap sets list strings pretty countable.
From Stdlib Require Export ZArith Lia.
From Stdlib Require Strings.Byte.

#[export] Set Default Proof Using "Type".
#[export] Set Warnings "-clear-no-such-hyp".

(** ** Bytes

    Go's [byte] is the 256-element type of the Standard Library; Go strings and
    byte slices are both sequences of bytes ([string(b)] and [[]byte(s)] copy
    the bytes unchanged), so one type serves for both. *)

Abbreviation byte := Byte.byte.
Abbreviation bytes := (list Byte.byte).

#[export] Instance byte_eq_dec : EqDecision byte := Byte.byte_eq_dec.

#[export] Program Instance byte_countable : Countable byte :=
  inj_countable Byte.to_N Byte.of_N _.
Next Obligation. apply Byte.of_to_N. Qed.

#[export] Instance byte_inhabited : Inhabited byte := populate Byte.x00.

(** The value of a byte as an integer: Go's [int(b)], [uint16(b)], ... *)
Definition u8 (b : byte) : Z := Z.of_N (Byte.to_N b).

(** Go's conversion [byte(x)]: truncation to 8 bits. *)
Definition byte_of_Z (z : Z) : byte :=
  default Byte.x00 (Byte.of_N (Z.to_N (z mod 256))).

(** A string constant of the source as bytes. *)
Definition B (s : string) : bytes := String.list_byte_of_string s.

(** Wrap-around of the fixed-width integer types the code uses. *)
Definition wrapU (w z : Z) : Z := z mod 2 ^ w.
Definition wrapS (w z : Z) : Z := (z + 2 ^ (w - 1)) mod 2 ^ w - 2 ^ (w - 1).

(** Little- and big-endian words, as the code assembles them with shifts. *)
Definition le16 (b0 b1 : byte) : Z := Z.lor (u8 b0) (Z.shiftl (u8 b1) 8).
Definition le24 (b0 b1 b2 : byte) : Z :=
  Z.lor (Z.lor (u8 b0) (Z.shiftl (u8 b1) 8)) (Z.shiftl (u8 b2) 16).
Definition be32 (b0 b1 b2 b3 : byte) : Z :=
  Z.lor (Z.lor (Z.lor (Z.shiftl (u8 b0) 24) (Z.shiftl (u8 b1) 16))
           (Z.shiftl (u8 b2) 8)) (u8 b3).

Definition le24_bytes (z : Z) : bytes :=
  [byte_of_Z z; byte_of_Z (Z.shiftr z 8); byte_of_Z (Z.shiftr z 16)].
Definition le16_bytes (z : Z) : bytes := [byte_of_Z z; byte_of_Z (Z.shiftr z 8)].
Definition be32_bytes (z : Z) : bytes :=
  [byte_of_Z (Z.shiftr z 24); byte_of_Z (Z.shiftr z 16);
   byte_of_Z (Z.shiftr z 8); byte_of_Z z].

(** ** Errors and results

    The [error] values the program produces or passes on. [ErrTimeout] and
    [ErrConn] stand for the errors of the network library, with their text;
    [ErrMsg] is [fmt.Errorf] without and [ErrWrap] with a [%w] verb. *)
Inductive error :=
  | ErrEOF
  | ErrUnexpectedEOF
  | ErrTimeout (text : string)
  | ErrConn (text : string)
  | ErrMsg (text : string)
  | ErrWrap (text : string) (wrapped : error).

#[export] Instance error_eq_dec : EqDecision error.
Proof. solve_decision. Defined.

(** The [Error()] text of an error value. *)
Fixpoint Error_text (e : error) : string :=
  match e with
  | ErrEOF => "EOF"
  | ErrUnexpectedEOF => "unexpected EOF"
  | ErrTimeout s | ErrConn s => s
  | ErrMsg s => s
  | ErrWrap s e' => s +:+ ": " +:+ Error_text e'
  end.

(** The test [err.(net.Error); ok && err.Timeout()]: a type assertion, so it
    does not look through a wrapping [fmt.Errorf]. *)
Definition is_timeout (e : error) : bool :=
  match e with ErrTimeout _ => true | _ => false end.

(** The result of a Go function that returns [(T, error)] and uses only one of
    the two; [Panic] is a run-time panic (index or slice bound out of range),
    [Stuck] the exhaustion of a model's fuel. Every function with fuel comes
    with a lemma that rules [Stuck] out. *)
Inductive result (A : Type) :=
  | Ok (a : A)
  | Err (e : error)
  | Panic
  | Stuck.
Arguments Ok {A} _.
Arguments Err {A} _.
Arguments Panic {A}.
Arguments Stuck {A}.

#[export] Instance result_ret : MRet result := fun A a => Ok a.
#[export] Instance result_bind : MBind result := fun A C f m =>
  match m with
  | Ok a => f a
  | Err e => Err e
  | Panic => Panic
  | Stuck => Stuck
  end.

(** A call that may fail, in state-passing style: on success the rest of the
    function runs in the new state, otherwise it returns early. *)
Definition and_then {A C S : Type} (m : result A * S) (k : A -> S -> result C * S)
    : result C * S :=
  match m with
  | (Ok a, s) => k a s
  | (Err e, s) => (Err e, s)
  | (Panic, s) => (Panic, s)
  | (Stuck, s) => (Stuck, s)
  end.

Declare Scope go_scope.
Delimit Scope go_scope with go.
Open Scope go_scope.
Notation "'let?' x , s := m 'in' k" := (and_then m (fun x s => k))
  (at level 10, x name, s name, m at level 100, k at level 200,
   format "'let?'  x ,  s  :=  m  'in' '//' k") : go_scope.

#[export] Instance result_eq_dec `{EqDecision A} : EqDecision (result A).
Proof. solve_decision. Defined.

(** ** Indexing and slicing with Go's bounds checks *)

(** [l[i]] *)
Definition index (l : bytes) (i : Z) : result byte :=
  if bool_decide (0 <= i)%Z then
    match l !! Z.to_nat i with Some b => Ok b | None => Panic end
  else Panic.

(** [l[lo:hi]] where the capacity of [l] is its length *)
Definition slice (l : bytes) (lo hi : Z) : result bytes :=
  if bool_decide (0 <= lo /\ lo <= hi /\ hi <= Z.of_nat (length l))%Z
  then Ok (take (Z.to_nat hi - Z.to_nat lo) (drop (Z.to_nat lo) l))
  else Panic.

(** [make(chan T, n)]: the capacity of the channel; a negative size panics (as does
    one beyond the address space, which is not modelled). *)
Definition make_chan (n : Z) : result nat := if (n <? 0)%Z then Panic else Ok (Z.to_nat n).

(** ** Generic lemmas *)

Create HintDb go discriminated.

(** A closed decidable proposition, by evaluating its decision procedure. *)
Ltac vm_decide := apply (bool_decide_unpack _); vm_compute; exact I.

Section byte_lemmas.
Local Open Scope Z_scope.

Lemma u8_range b : 0 <= u8 b < 256.
Proof. unfold u8. pose proof (Byte.to_N_bounded b). lia. Qed.

Lemma byte_of_Z_u8 b : byte_of_Z (u8 b) = b.
Proof.
  unfold byte_of_Z. rewrite Z.mod_small by apply u8_range.
  unfold u8. rewrite N2Z.id, Byte.of_to_N. done.
Qed.

Lemma u8_byte_of_Z z : u8 (byte_of_Z z) = z mod 256.
Proof.
  unfold byte_of_Z, u8. pose proof (Z.mod_pos_bound z 256 eq_refl).
  destruct (Byte.of_N (Z.to_N (z mod 256))) as [b|] eqn:E; simpl.
  - apply Byte.to_of_N in E. lia.
  - apply Byte.of_N_None_iff in E. lia.
Qed.

Lemma u8_inj b c : u8 b = u8 c -> b = c.
Proof. intros E. rewrite <- (byte_of_Z_u8 b), <- (byte_of_Z_u8 c). by rewrite E. Qed.

(** Assembling disjoint bit fields with [|] is addition. *)
Lemma lor_shiftl_add a b k :
  0 <= k -> 0 <= a < 2 ^ k -> Z.lor a (Z.shiftl b k) = a + b * 2 ^ k.
Proof.
  intros Hk Ha. rewrite <- Z.shiftl_mul_pow2 by done.
  assert (Hd : Z.land a (Z.shiftl b k) = 0).
  { apply Z.bits_inj'; intros n Hn. rewrite Z.land_spec, Z.shiftl_spec, Z.bits_0 by done.
    destruct (decide (n < k)); [rewrite (Z.testbit_neg_r b) by lia; apply andb_false_r|].
    by rewrite (proj1 (Z.bounded_iff_bits_nonneg k a Hk (proj1 Ha)) (proj2 Ha)) by lia. }
  by rewrite Z.add_nocarry_lxor, Z.lxor_lor.
Qed.

Lemma le16_val b0 b1 : le16 b0 b1 = u8 b0 + u8 b1 * 2 ^ 8.
Proof. unfold le16. apply lor_shiftl_add; [lia|]. apply u8_range. Qed.

Lemma le24_val b0 b1 b2 : le24 b0 b1 b2 = u8 b0 + u8 b1 * 2 ^ 8 + u8 b2 * 2 ^ 16.
Proof.
  pose proof (u8_range b0). pose proof (u8_range b1).
  unfold le24. change (Z.lor (u8 b0) (Z.shiftl (u8 b1) 8)) with (le16 b0 b1).
  rewrite le16_val. apply lor_shiftl_add; lia.
Qed.

Lemma shiftl_lor_add a b k :
  0 <= k -> 0 <= b < 2 ^ k -> Z.lor (Z.shiftl a k) b = a * 2 ^ k + b.
Proof. intros. rewrite Z.lor_comm, lor_shiftl_add by done. lia. Qed.

Lemma be32_val b0 b1 b2 b3 :
  be32 b0 b1 b2 b3 = u8 b0 * 2 ^ 24 + u8 b1 * 2 ^ 16 + u8 b2 * 2 ^ 8 + u8 b3.
Proof.
  pose proof (u8_range b1). pose proof (u8_range b2). pose proof (u8_range b3).
  unfold be32.
  change 24 with (8 + 8 + 8). change 16 with (8 + 8).
  rewrite <- !Z.shiftl_shiftl, <- !Z.shiftl_lor by lia.
  rewrite !shiftl_lor_add by lia. lia.
Qed.

Lemma be32_range b0 b1 b2 b3 : 0 <= be32 b0 b1 b2 b3 < 2 ^ 32.
Proof.
  rewrite be32_val. pose proof (u8_range b0). pose proof (u8_range b1).
  pose proof (u8_range b2). pose proof (u8_range b3). lia.
Qed.

Lemma be32_be32_bytes z :
  0 <= z < 2 ^ 32 ->
  be32 (byte_of_Z (Z.shiftr z 24)) (byte_of_Z (Z.shiftr z 16))
       (byte_of_Z (Z.shiftr z 8)) (byte_of_Z z) = z.
Proof.
  intros Hz. rewrite be32_val, !u8_byte_of_Z, !Z.shiftr_div_pow2 by lia.
  change (2 ^ 8) with 256. change (2 ^ 16) with 65536. change (2 ^ 24) with 16777216.
  Z.div_mod_to_equations; lia.
Qed.

Lemma le16_range b0 b1 : 0 <= le16 b0 b1 < 2 ^ 16.
Proof. rewrite le16_val. pose proof (u8_range b0). pose proof (u8_range b1). lia. Qed.

Lemma le24_range b0 b1 b2 : 0 <= le24 b0 b1 b2 < 2 ^ 24.
Proof.
  rewrite le24_val. pose proof (u8_range b0). pose proof (u8_range b1).
  pose proof (u8_range b2). lia.
Qed.

(** The three length bytes of a MySQL header encode any 24-bit length. *)
Lemma le24_le24_bytes z :
  0 <= z < 2 ^ 24 ->
  le24 (byte_of_Z z) (byte_of_Z (Z.shiftr z 8)) (byte_of_Z (Z.shiftr z 16)) = z.
Proof.
  intros Hz. rewrite le24_val, !u8_byte_of_Z, !Z.shiftr_div_pow2 by lia.
  change (2 ^ 8) with 256. change (2 ^ 16) with 65536.
  Z.div_mod_to_equations; lia.
Qed.

Lemma le16_le16_bytes z :
  0 <= z < 2 ^ 16 -> le16 (byte_of_Z z) (byte_of_Z (Z.shiftr z 8)) = z.
Proof.
  intros Hz. rewrite le16_val, !u8_byte_of_Z, !Z.shiftr_div_pow2 by lia.
  change (2 ^ 8) with 256.
  Z.div_mod_to_equations; lia.
Qed.
End byte_lemmas.

Lemma make_chan_ok n : (0 <= n)%Z -> make_chan n = Ok (Z.to_nat n).
Proof. intros Hn. unfold make_chan. apply Z.ltb_ge in Hn. by rewrite Hn. Qed.

(** ** Indexing and slicing at the seam of a concatenation *)

Lemma index_app l b l' i : i = Z.of_nat (length l) -> index (l ++ b :: l') i = Ok b.
Proof.
  intros ->. unfold index. rewrite bool_decide_true by lia. rewrite Nat2Z.id.
  by rewrite list_lookup_middle.
Qed.

Lemma slice_app l m r lo hi :
  lo = Z.of_nat (length l) -> hi = (lo + Z.of_nat (length m))%Z -> slice (l ++ m ++ r) lo hi = Ok m.
Proof.
  intros -> ->. unfold slice. rewrite !length_app, bool_decide_true by lia.
  rewrite drop_app_length' by lia. by rewrite take_app_length' by lia.
Qed.
