(* ===== verification/GoNet.v ===== *)
(** * Connections

    The part of Go's [net] and [io] packages the proxy uses. A connection is
    what its peer does to it: the list of what successive [Read] calls find
    (data in pieces of any size, possibly with an error) and the list of
    outcomes of successive [Write] calls, together with the bytes written so
    far. Every fragmentation of a byte stream into TCP segments is such a list,
    so a theorem about all lists is a theorem about all fragmentations. *)

From S2P Require Import Prelude.

(** What one or more [Read] calls find next: data, and the error that comes
    with the last of it. [ReadEv d None] is a segment, [ReadEv [] (Some e)] a
    failing read. *)
Record read_ev := ReadEv { ev_data : bytes; ev_err : option error }.

(** [conn.Read(p)] with [len(p) = k]: the bytes read, the error, and the rest
    of the stream. An exhausted stream is one closed by the peer. *)
Definition conn_read (k : nat) (s : list read_ev) : bytes * option error * list read_ev :=
  if bool_decide (k = 0) then ([], None, s)
  else match s with
       | [] => ([], Some ErrEOF, [])
       | ReadEv d e :: s' =>
           if bool_decide (length d <= k) then (d, e, s')
           else (take k d, None, ReadEv (drop k d) e :: s')
       end.

(** [io.ReadFull(conn, buf)] with [len(buf) = want], as [io.ReadAtLeast] does
    it: read until the buffer is full or a read fails, then forgive an error
    that came with the last byte and report a short non-empty read as
    [io.ErrUnexpectedEOF]. *)
Definition read_full_error (got want : nat) (e : error) : option error :=
  if bool_decide (want <= got) then None
  else if bool_decide (0 < got /\ e = ErrEOF) then Some ErrUnexpectedEOF
  else Some e.

Fixpoint read_full_loop (fuel want : nat) (acc : bytes) (s : list read_ev)
    : result bytes * list read_ev :=
  match fuel with
  | O => (Stuck, s)
  | S fuel =>
      if bool_decide (length acc < want) then
        let '(d, e, s') := conn_read (want - length acc) s in
        match e with
        | None => read_full_loop fuel want (acc ++ d) s'
        | Some e =>
            match read_full_error (length (acc ++ d)) want e with
            | None => (Ok (acc ++ d), s')
            | Some e' => (Err e', s')
            end
        end
      else (Ok acc, s)
  end.

Definition ReadFull (want : nat) (s : list read_ev) : result bytes * list read_ev :=
  read_full_loop (S (S (length s))) want [] s.

(** A connection: what is still to be read, what has been written, and the
    outcomes of the next writes ([None] succeeds, [Some (n, e)] writes at most
    [n] bytes and fails; an exhausted list succeeds). *)
Record Conn := MkConn {
  c_in : list read_ev;
  c_out : bytes;
  c_wr : list (option (nat * error));
}.

(** [conn.Write(p)]: the number of bytes written and the error. *)
Definition conn_write (p : bytes) (c : Conn) : nat * option error * Conn :=
  match c_wr c with
  | [] => (length p, None, MkConn (c_in c) (c_out c ++ p) [])
  | None :: w => (length p, None, MkConn (c_in c) (c_out c ++ p) w)
  | Some (n, e) :: w =>
      (length (take n p), Some e, MkConn (c_in c) (c_out c ++ take n p) w)
  end.

(** ** Streams without read errors *)

Definition clean (s : list read_ev) : Prop := Forall (fun ev => ev_err ev = None) s.
Definition data (s : list read_ev) : bytes := concat (map ev_data s).

(** The stream cut into segments. *)
Definition segments (l : list bytes) : list read_ev := map (fun d => ReadEv d None) l.

Lemma clean_segments l : clean (segments l).
Proof. induction l; constructor; auto. Qed.

Lemma data_segments l : data (segments l) = concat l.
Proof. unfold data, segments. rewrite map_map. simpl. by rewrite map_id. Qed.

Lemma clean_cons_inv ev s : clean (ev :: s) -> ev_err ev = None /\ clean s.
Proof. intros H. by inversion H. Qed.

#[export] Hint Resolve clean_segments : go.

(** Reading from error-free segments delivers a prefix of their data, and
    either uses up a segment or fills the buffer. *)
Lemma conn_read_clean k cl tl :
  0 < k -> clean cl -> cl <> [] ->
  exists d cl', conn_read k (cl ++ tl) = (d, None, cl' ++ tl) /\ clean cl' /\
    d ++ data cl' = data cl /\ length d <= k /\
    (length cl' < length cl \/ length d = k).
Proof.
  intros Hk Hcl Hne. destruct cl as [|[d e] cl]; [done|].
  apply clean_cons_inv in Hcl as [He Hcl]. simpl in He; subst e.
  unfold conn_read. rewrite bool_decide_false by lia. simpl.
  destruct (bool_decide (length d <= k)) eqn:E.
  - apply bool_decide_eq_true in E. exists d, cl. simpl. auto with lia.
  - apply bool_decide_eq_false in E. exists (take k d), (ReadEv (drop k d) None :: cl).
    split; [done|]. split; [by constructor|]. unfold data; simpl.
    rewrite app_assoc, take_drop, length_take. split; [done|lia].
Qed.

Lemma read_full_loop_full fuel want acc s :
  length acc = want -> 0 < fuel -> read_full_loop fuel want acc s = (Ok acc, s).
Proof.
  intros <- Hf. destruct fuel as [|fuel]; [lia|]. simpl. by rewrite bool_decide_false by lia.
Qed.

Lemma read_full_loop_clean fuel : forall want acc cl tl,
  clean cl -> length cl < fuel -> length acc <= want <= length (acc ++ data cl) ->
  exists cl', read_full_loop fuel want acc (cl ++ tl)
              = (Ok (take want (acc ++ data cl)), cl' ++ tl)
    /\ clean cl' /\ data cl' = drop want (acc ++ data cl).
Proof.
  induction fuel as [|fuel IH]; intros want acc cl tl Hcl Hf [Hacc Hw]; [lia|].
  destruct (decide (length acc = want)) as [E|E].
  { rewrite (read_full_loop_full _ _ _ _ E) by lia. exists cl. subst want.
    rewrite take_app_length, drop_app_length. auto. }
  simpl. rewrite bool_decide_true by lia.
  assert (Hne : cl <> []).
  { intros ->. unfold data in Hw; simpl in Hw. rewrite app_nil_r in Hw. lia. }
  assert (0 < length cl) by (destruct cl; [done|simpl; lia]).
  destruct (conn_read_clean (want - length acc) cl tl) as (d & cl' & Er & Hcl' & Hd & Hk & Hprog);
    [lia|done|done|].
  rewrite Er, <- Hd, (app_assoc acc).
  rewrite <- Hd, !length_app in Hw.
  destruct Hprog as [Hprog|Hprog].
  - apply IH; [done|lia|rewrite !length_app; lia].
  - rewrite read_full_loop_full by (rewrite ?length_app; lia). exists cl'.
    rewrite (take_app_length' (acc ++ d)), (drop_app_length' (acc ++ d))
      by (rewrite length_app; lia). auto.
Qed.

(** On a stream that holds [want] bytes [ReadFull] returns them and leaves the
    rest, however the stream is cut into segments. *)
Lemma ReadFull_clean want cl tl :
  clean cl -> want <= length (data cl) ->
  exists cl', ReadFull want (cl ++ tl) = (Ok (take want (data cl)), cl' ++ tl)
    /\ clean cl' /\ data cl' = drop want (data cl).
Proof.
  intros Hcl Hw. apply (read_full_loop_clean _ want [] cl tl); [done| |simpl; lia].
  rewrite length_app. lia.
Qed.

Lemma read_full_loop_short fuel : forall want acc cl,
  clean cl -> S (length cl) < fuel -> length (acc ++ data cl) < want ->
  read_full_loop fuel want acc cl
  = (Err (if bool_decide (acc ++ data cl = []) then ErrEOF else ErrUnexpectedEOF), []).
Proof.
  induction fuel as [|fuel IH]; intros want acc cl Hcl Hf Hw; [lia|].
  simpl. rewrite length_app in Hw. rewrite bool_decide_true by lia.
  destruct cl as [|ev cl].
  { unfold conn_read. rewrite bool_decide_false by lia. unfold read_full_error.
    unfold data; simpl. rewrite app_nil_r. rewrite bool_decide_false by lia.
    by destruct acc. }
  destruct (conn_read_clean (want - length acc) (ev :: cl) []) as (d & cl' & Er & Hcl' & Hd & Hk & Hprog);
    [lia|done|done|].
  rewrite !app_nil_r in Er. rewrite Er.
  rewrite <- Hd, (app_assoc acc).
  rewrite <- Hd, length_app in Hw.
  destruct Hprog as [Hprog|Hprog]; [|simpl in *; lia].
  apply IH; [done|simpl in *; lia|rewrite !length_app; lia].
Qed.

(** A stream that ends too early gives [io.EOF] when nothing was read and
    [io.ErrUnexpectedEOF] otherwise. *)
Lemma ReadFull_short want cl :
  clean cl -> length (data cl) < want ->
  ReadFull want cl = (Err (if bool_decide (data cl = []) then ErrEOF else ErrUnexpectedEOF), []).
Proof. intros Hcl Hw. apply (read_full_loop_short _ want []); simpl; auto with lia. Qed.

(** With nothing to read before it, the stream's error is the result. *)
Lemma ReadFull_cut want cl e :
  clean cl -> data cl = [] -> 0 < want -> ReadFull want (cl ++ [ReadEv [] (Some e)]) = (Err e, []).
Proof.
  intros Hcl Hd Hw. unfold ReadFull. rewrite length_app. cbn [length].
  assert (forall fuel, length cl < fuel -> read_full_loop fuel want [] (cl ++ [ReadEv [] (Some e)]) = (Err e, [])) as H;
    [|apply H; lia].
  induction cl as [|[d er] cl IH]; intros fuel Hf; (destruct fuel as [|fuel]; [simpl in Hf; lia|]);
    cbn [read_full_loop app length]; rewrite bool_decide_true by lia; unfold conn_read; rewrite bool_decide_false by lia.
  - cbn [length]. rewrite bool_decide_true by lia. unfold read_full_error. cbn [length app].
    rewrite bool_decide_false by lia. by rewrite bool_decide_false by (intros [? _]; lia).
  - apply clean_cons_inv in Hcl as [Hc Hcl]. cbn in Hc. subst er. unfold data in Hd. cbn in Hd.
    apply app_eq_nil in Hd as [-> Hd]. cbn [length]. rewrite bool_decide_true by lia. apply IH; [done|done|simpl in Hf; lia].
Qed.

(** [ReadFull] never runs out of fuel, on any stream. *)
Lemma read_full_loop_not_stuck fuel : forall want acc s,
  S (length s) < fuel -> (read_full_loop fuel want acc s).1 <> Stuck.
Proof.
  induction fuel as [|fuel IH]; intros want acc s Hf; [lia|]. simpl.
  destruct (bool_decide (length acc < want)) eqn:E; [|done].
  apply bool_decide_eq_true in E.
  unfold conn_read. rewrite bool_decide_false by lia.
  destruct s as [|[d e] s]; [by destruct (read_full_error _ _ _)|].
  destruct (bool_decide (length d <= want - length acc)) eqn:E2.
  - destruct e; [by destruct (read_full_error _ _ _)|]. apply IH. simpl in *; lia.
  - apply bool_decide_eq_false in E2. rewrite read_full_loop_full; [done| |simpl in *; lia].
    rewrite length_app, length_take. lia.
Qed.

Lemma ReadFull_not_stuck want s : (ReadFull want s).1 <> Stuck.
Proof. apply read_full_loop_not_stuck. lia. Qed.

Lemma conn_read_any k s d e s' :
  0 < k -> conn_read k s = (d, e, s') ->
  length d <= k /\ length d + length (data s') = length (data s) /\
  (e = None -> length s' < length s \/ length d = k).
Proof.
  intros Hk. unfold conn_read. rewrite bool_decide_false by lia.
  destruct s as [|[d0 e0] s]; [by intros [= <- <- <-]; split_and!; simpl; lia || done|].
  case_bool_decide; intros [= <- <- <-]; unfold data; simpl;
    rewrite !length_app, ?length_take, ?length_drop; auto with lia.
Qed.

(** On every stream [ReadFull] returns a buffer of the requested length, taken
    off the stream, or an error. *)
Lemma read_full_loop_any fuel : forall want acc s res s',
  length acc <= want -> S (length s) < fuel -> read_full_loop fuel want acc s = (res, s') ->
  (exists buf, res = Ok buf /\ length buf = want /\
               want + length (data s') = length acc + length (data s))
  \/ (exists e, res = Err e /\ length (data s') <= length (data s)).
Proof.
  induction fuel as [|fuel IH]; intros want acc s res s' Ha Hf; [lia|].
  destruct (decide (length acc = want)) as [E|E].
  { rewrite read_full_loop_full by lia. intros [= <- <-]. left. exists acc. auto with lia. }
  simpl. rewrite bool_decide_true by lia.
  destruct (conn_read _ s) as [[d e] s1] eqn:Er.
  apply conn_read_any in Er as (Hd & Hs & Hp); [|lia].
  destruct e as [e|].
  - unfold read_full_error. rewrite length_app. case_bool_decide as Ew.
    + intros [= <- <-]. left. exists (acc ++ d). rewrite length_app. auto with lia.
    + case_bool_decide; intros [= <- <-]; right; eauto with lia.
  - intros H. destruct (Hp eq_refl) as [Hl|Hl].
    + apply IH in H as [(buf & -> & Hb & Hs')|(e & -> & Hs')];
        [|right; eauto with lia|rewrite length_app; lia|lia].
      rewrite length_app in Hs'. left. exists buf. auto with lia.
    + rewrite read_full_loop_full in H by (rewrite ?length_app; lia). simplify_eq.
      left. exists (acc ++ d). rewrite length_app. auto with lia.
Qed.

Lemma ReadFull_any want s res s' :
  ReadFull want s = (res, s') ->
  (exists buf, res = Ok buf /\ length buf = want /\ want + length (data s') = length (data s))
  \/ (exists e, res = Err e /\ length (data s') <= length (data s)).
Proof. intros H. apply read_full_loop_any in H; simpl in *; auto with lia. Qed.

(** A write sends a prefix of the buffer, all of it unless it fails. *)
Lemma conn_write_any p c n e c' :
  conn_write p c = (n, e, c') ->
  exists d, d `prefix_of` p /\ c_out c' = c_out c ++ d /\ n = length d /\
    (e = None -> d = p) /\ (c_wr c = [] -> e = None /\ c_wr c' = []).
Proof.
  unfold conn_write. destruct (c_wr c) as [|[[k er]|] w]; intros [= <- <- <-]; simpl.
  - exists p. by split_and!.
  - exists (take k p). split_and!; try done. apply prefix_take.
  - exists p. by split_and!.
Qed.
