(* ===== verification/GoStrings.v ===== *)
(** * Strings

    The part of Go's [strings], [bytes] and [unicode/utf8] packages the proxy
    uses, on byte sequences: prefix and substring search, splitting and
    joining, [TrimSpace] with the Unicode spaces, and case mapping rune by
    rune. The Unicode case tables are the one part left open: the functions
    that map case take the table for code points above 127 as an argument. *)

From S2P Require Import Prelude.

(** [strings.HasPrefix(s, p)] *)
Fixpoint HasPrefix (s p : bytes) {struct p} : bool :=
  match p, s with
  | [], _ => true
  | b :: p, c :: s => bool_decide (b = c) && HasPrefix s p
  | _ :: _, [] => false
  end.

(** [strings.Index(s, sub)], [None] for -1 *)
Fixpoint Index (s sub : bytes) : option nat :=
  if HasPrefix s sub then Some 0
  else match s with
       | [] => None
       | _ :: s => S <$> Index s sub
       end.

(** [strings.IndexByte(s, c)] and the loops that look for a byte *)
Fixpoint IndexByte (s : bytes) (c : byte) : option nat :=
  match s with
  | [] => None
  | b :: s => if bool_decide (b = c) then Some 0 else S <$> IndexByte s c
  end.

(** [strings.IndexAny(s, chars)] for ASCII [chars] *)
Fixpoint IndexAny (s chars : bytes) : option nat :=
  match s with
  | [] => None
  | b :: s => if bool_decide (b ∈ chars) then Some 0 else S <$> IndexAny s chars
  end.

(** [bytes.Split(s, []byte{c})] and [strings.Split] with a one-byte separator *)
Fixpoint SplitByte (c : byte) (s : bytes) : list bytes :=
  match s with
  | [] => [[]]
  | b :: s =>
      if bool_decide (b = c) then [] :: SplitByte c s
      else match SplitByte c s with
           | [] => [[b]]
           | p :: ps => (b :: p) :: ps
           end
  end.

(** [strings.Join(l, sep)] *)
Fixpoint Join (sep : bytes) (l : list bytes) : bytes :=
  match l with
  | [] => []
  | [w] => w
  | w :: l => w ++ sep ++ Join sep l
  end.

(** ** UTF-8 *)

Section utf8.
Local Open Scope Z_scope.

Definition RuneError : Z := 0xFFFD.

Definition cont_byte (lo hi : Z) (b : byte) : bool := (lo <=? u8 b) && (u8 b <=? hi).

(** [utf8.DecodeRuneInString] on a non-empty string: the rune and its width.
    An invalid sequence is [RuneError] of width 1. *)
Definition decode_rune (s : bytes) : Z * nat :=
  match s with
  | [] => (RuneError, 0%nat)
  | b0 :: s1 =>
      let r0 := u8 b0 in
      if r0 <? 0x80 then (r0, 1%nat)
      else if (r0 <? 0xC2) || (0xF4 <? r0) then (RuneError, 1%nat)
      else match s1 with
      | [] => (RuneError, 1%nat)
      | b1 :: s2 =>
          let lo := if r0 =? 0xE0 then 0xA0 else if r0 =? 0xF0 then 0x90 else 0x80 in
          let hi := if r0 =? 0xED then 0x9F else if r0 =? 0xF4 then 0x8F else 0xBF in
          if negb (cont_byte lo hi b1) then (RuneError, 1%nat)
          else if r0 <? 0xE0
          then (Z.land r0 0x1F * 64 + Z.land (u8 b1) 0x3F, 2%nat)
          else match s2 with
          | [] => (RuneError, 1%nat)
          | b2 :: s3 =>
              if negb (cont_byte 0x80 0xBF b2) then (RuneError, 1%nat)
              else if r0 <? 0xF0
              then (Z.land r0 0x0F * 4096 + Z.land (u8 b1) 0x3F * 64 + Z.land (u8 b2) 0x3F, 3%nat)
              else match s3 with
              | [] => (RuneError, 1%nat)
              | b3 :: _ =>
                  if negb (cont_byte 0x80 0xBF b3) then (RuneError, 1%nat)
                  else (Z.land r0 0x07 * 262144 + Z.land (u8 b1) 0x3F * 4096
                        + Z.land (u8 b2) 0x3F * 64 + Z.land (u8 b3) 0x3F, 4%nat)
              end
          end
      end
  end.

(** [utf8.AppendRune] *)
Definition encode_rune (r : Z) : bytes :=
  if (0 <=? r) && (r <? 0x80) then [byte_of_Z r]
  else if (0 <=? r) && (r <? 0x800) then [byte_of_Z (0xC0 + r / 64); byte_of_Z (0x80 + r mod 64)]
  else
    let r := if (r <? 0) || (0x10FFFF <? r) || ((0xD800 <=? r) && (r <=? 0xDFFF))
             then RuneError else r in
    if r <? 0x10000
    then [byte_of_Z (0xE0 + r / 4096); byte_of_Z (0x80 + r / 64 mod 64); byte_of_Z (0x80 + r mod 64)]
    else [byte_of_Z (0xF0 + r / 262144); byte_of_Z (0x80 + r / 4096 mod 64);
          byte_of_Z (0x80 + r / 64 mod 64); byte_of_Z (0x80 + r mod 64)].

(** [strings.Map(f, s)]: rune by rune, a rune mapped to a negative value is
    dropped and an invalid byte becomes [RuneError]. *)
Fixpoint map_runes_loop (fuel : nat) (f : Z -> Z) (s : bytes) : bytes :=
  match fuel, s with
  | O, _ | _, [] => []
  | S fuel, _ =>
      let '(r, w) := decode_rune s in
      let r' := f r in
      (if r' <? 0 then [] else encode_rune r') ++ map_runes_loop fuel f (drop w s)
  end.
Definition map_runes (f : Z -> Z) (s : bytes) : bytes := map_runes_loop (length s) f s.

(** [unicode.ToUpper] and [unicode.ToLower], with [table] for the code points
    above 127. *)
Definition upper_rune (table : Z -> Z) (r : Z) : Z :=
  if 127 <? r then table r else if (97 <=? r) && (r <=? 122) then r - 32 else r.
Definition lower_rune (table : Z -> Z) (r : Z) : Z :=
  if 127 <? r then table r else if (65 <=? r) && (r <=? 90) then r + 32 else r.

(** [strings.ToUpper] and [strings.ToLower] *)
Definition ToUpper (table : Z -> Z) (s : bytes) : bytes := map_runes (upper_rune table) s.
Definition ToLower (table : Z -> Z) (s : bytes) : bytes := map_runes (lower_rune table) s.
End utf8.

(** ** White space *)

(** The runes of [unicode.IsSpace], in UTF-8: the ASCII spaces, U+0085, U+00A0,
    U+1680, U+2000 to U+200A, U+2028, U+2029, U+202F, U+205F and U+3000. *)
Definition ascii_spaces : bytes := [Byte.x09; Byte.x0a; Byte.x0b; Byte.x0c; Byte.x0d; Byte.x20].
Definition spaces : list bytes :=
  map (fun b => [b]) ascii_spaces
  ++ [[Byte.xc2; Byte.x85]; [Byte.xc2; Byte.xa0]; [Byte.xe1; Byte.x9a; Byte.x80]]
  ++ map (fun b => [Byte.xe2; Byte.x80; b])
       [Byte.x80; Byte.x81; Byte.x82; Byte.x83; Byte.x84; Byte.x85; Byte.x86; Byte.x87;
        Byte.x88; Byte.x89; Byte.x8a; Byte.xa8; Byte.xa9; Byte.xaf]
  ++ [[Byte.xe2; Byte.x81; Byte.x9f]; [Byte.xe3; Byte.x80; Byte.x80]].

(** The width of the space rune [s] starts with, 0 if there is none. *)
Definition space_width (sp : list bytes) (s : bytes) : nat :=
  match List.find (HasPrefix s) sp with Some w => length w | None => 0 end.

Fixpoint trim_loop (fuel : nat) (sp : list bytes) (s : bytes) : bytes :=
  match fuel with
  | O => s
  | S fuel =>
      match space_width sp s with
      | O => s
      | w => trim_loop fuel sp (drop w s)
      end
  end.

Definition trim_left (s : bytes) : bytes := trim_loop (length s) spaces s.
Definition trim_right (s : bytes) : bytes :=
  reverse (trim_loop (length s) (map reverse spaces) (reverse s)).

(** [strings.TrimSpace(s)] *)
Definition TrimSpace (s : bytes) : bytes := trim_right (trim_left s).

(** ** Lemmas *)

Lemma HasPrefix_spec s p : HasPrefix s p = true <-> p `prefix_of` s.
Proof.
  revert s. induction p as [|b p IH]; intros [|c s]; simpl.
  - split; [intros _; apply prefix_nil|done].
  - split; [intros _; apply prefix_nil|done].
  - split; [done|intros [k [=]]].
  - rewrite andb_true_iff, bool_decide_eq_true, IH. split.
    + intros [-> H]. by apply prefix_cons.
    + intros H. by apply prefix_cons_inv_1 in H as ? ; apply prefix_cons_inv_2 in H.
Qed.

Lemma HasPrefix_app s p : HasPrefix (p ++ s) p = true.
Proof. apply HasPrefix_spec. by apply prefix_app_r. Qed.

Lemma IndexByte_app_no s c t : c ∉ s -> IndexByte (s ++ (c :: t)) c = Some (length s).
Proof.
  induction s as [|b s IH]; intros Hc; simpl; [by rewrite bool_decide_true|].
  apply not_elem_of_cons in Hc as [Hb Hc].
  rewrite bool_decide_false by done. by rewrite IH.
Qed.

Lemma IndexByte_None s c : IndexByte s c = None <-> c ∉ s.
Proof.
  induction s as [|b s IH]; simpl; [split; [intros _; apply not_elem_of_nil|done]|].
  rewrite not_elem_of_cons. case_bool_decide as E; [by split; [|intros [? _]]|].
  rewrite fmap_None, IH. split; [by auto|by intros [_ ?]].
Qed.

Lemma IndexByte_Some s c i :
  IndexByte s c = Some i -> (c ∉ take i s) /\ s = (take i s ++ c :: drop (S i) s).
Proof.
  revert i. induction s as [|b s IH]; intros i; simpl; [done|].
  case_bool_decide as E; [intros [= <-]; subst; simpl; split; [apply not_elem_of_nil|done]|].
  intros (j & Hj & ->)%fmap_Some. destruct (IH _ Hj) as [H1 H2]. simpl. split.
  - by apply not_elem_of_cons.
  - by f_equal.
Qed.

Lemma SplitByte_not_nil c s : SplitByte c s <> [].
Proof. destruct s; simpl; [done|]. case_bool_decide; [done|]. by destruct (SplitByte c s). Qed.

(** The parts joined by the separator give the string back, and are free of it. *)
Lemma Join_SplitByte c s : Join [c] (SplitByte c s) = s.
Proof.
  induction s as [|b s IH]; simpl; [done|]. pose proof (SplitByte_not_nil c s).
  case_bool_decide as E; destruct (SplitByte c s) as [|p ps]; try done; simpl in *.
  - by rewrite <- IH, E.
  - rewrite <- IH. by destruct ps.
Qed.

Lemma SplitByte_app c p s : c ∉ p -> SplitByte c (p ++ c :: s) = p :: SplitByte c s.
Proof.
  induction p as [|b p IH]; intros Hp; simpl; [by rewrite bool_decide_true|].
  apply not_elem_of_cons in Hp as [Hb Hp]. rewrite bool_decide_false by done. by rewrite IH.
Qed.

Lemma SplitByte_no c p : c ∉ p -> SplitByte c p = [p].
Proof.
  induction p as [|b p IH]; intros Hp; simpl; [done|].
  apply not_elem_of_cons in Hp as [Hb Hp]. rewrite bool_decide_false by done. by rewrite IH.
Qed.

Lemma Index_spec s sub i :
  Index s sub = Some i -> exists t, s = take i s ++ sub ++ t.
Proof.
  revert i. induction s as [|b s IH]; intros i; cbn [Index].
  - destruct (HasPrefix [] sub) eqn:E; [|done]. intros [= <-].
    apply HasPrefix_spec in E as [k E]. by exists k.
  - destruct (HasPrefix (b :: s) sub) eqn:E.
    + intros [= <-]. apply HasPrefix_spec in E as [k E]. by exists k.
    + intros (j & Hj & ->)%fmap_Some. destruct (IH _ Hj) as [t Ht]. exists t. simpl. by f_equal.
Qed.

Lemma HasPrefix_length s p : HasPrefix s p = true -> length p <= length s.
Proof. intros H%HasPrefix_spec. by apply prefix_length. Qed.

Lemma Index_bound s sub i : Index s sub = Some i -> i + length sub <= length s.
Proof.
  intros H. destruct (Index_spec _ _ _ H) as [t Ht].
  assert (i <= length s).
  { revert i H Ht. induction s as [|b s IH]; intros i; cbn [Index].
    - destruct (HasPrefix [] sub); [|done]. intros [= <-]. simpl. lia.
    - destruct (HasPrefix (b :: s) sub); [intros [= <-] _; lia|].
      intros (j & Hj & ->)%fmap_Some. simpl. intros [= Ht]. specialize (IH _ Hj Ht). lia. }
  apply (f_equal length) in Ht. rewrite !length_app, length_take in Ht. lia.
Qed.

Lemma IndexByte_bound s c i : IndexByte s c = Some i -> i < length s.
Proof.
  revert i. induction s as [|b s IH]; intros i; simpl; [done|].
  case_bool_decide; [intros [= <-]; lia|]. intros (j & Hj & ->)%fmap_Some. apply IH in Hj. lia.
Qed.

(** A prefix without the first byte of the pattern is skipped. *)
Lemma Index_skip a s c sub :
  c ∉ a -> Index (a ++ s) (c :: sub) = (fun i => length a + i) <$> Index s (c :: sub).
Proof.
  intros Ha. induction a as [|b a IH]; simpl.
  - by destruct (Index s (c :: sub)).
  - apply not_elem_of_cons in Ha as [Hb Ha]. rewrite bool_decide_false by done. simpl.
    rewrite IH by done. by destruct (Index s (c :: sub)).
Qed.

(** What follows the first occurrence does not matter. *)
Lemma Index_app s sub i t : Index s sub = Some i -> Index (s ++ t) sub = Some i.
Proof.
  revert i. induction s as [|b s IH]; intros i; cbn [Index app].
  - destruct (HasPrefix [] sub) eqn:E; [|done]. intros [= <-]. apply HasPrefix_length in E.
    destruct sub; [|simpl in E; lia]. by destruct t.
  - destruct (HasPrefix (b :: s) sub) eqn:E.
    + intros [= <-]. apply HasPrefix_spec in E as [k E].
      assert (HasPrefix (b :: s ++ t) sub = true) as ->; [|done].
      apply HasPrefix_spec. exists (k ++ t). change (b :: s ++ t) with ((b :: s) ++ t).
      by rewrite E, app_assoc.
    + intros (j & Hj & ->)%fmap_Some. rewrite (IH _ Hj).
      destruct (HasPrefix (b :: s ++ t) sub) eqn:E'; [|done].
      (* a match at 0 that needs more than [s] contradicts the match in [s] *)
      apply HasPrefix_spec in E' as [k Hk]. apply Index_bound in Hj.
      assert (HasPrefix (b :: s) sub = true) as E2; [|congruence].
      apply HasPrefix_spec. exists (drop (length sub) (b :: s)).
      rewrite <- (take_drop (length sub) (b :: s)) at 1. f_equal.
      apply (f_equal (take (length sub))) in Hk. rewrite take_app_length in Hk.
      etrans; [|exact Hk]. change (b :: s ++ t) with ((b :: s) ++ t).
      rewrite take_app_le; [done|simpl; lia].
Qed.

(** ** White space lemmas *)

Lemma space_width_ascii b s :
  (u8 b < 128)%Z ->
  space_width spaces (b :: s) = if bool_decide (b ∈ ascii_spaces) then 1 else 0.
Proof. destruct b; intros Hb; try (vm_compute in Hb; discriminate Hb); vm_compute; reflexivity. Qed.

Lemma trim_loop_zero fuel sp s : space_width sp s = 0 -> trim_loop fuel sp s = s.
Proof. destruct fuel; simpl; [done|]. by intros ->. Qed.

Lemma space_width_bound sp s : space_width sp s <= length s.
Proof.
  unfold space_width. destruct (List.find _ sp) as [w|] eqn:E; [|lia].
  apply List.find_some in E as [_ E]. by apply HasPrefix_length.
Qed.

(** The length of the string is enough fuel. *)
Lemma trim_loop_fuel sp f1 : forall f2 s,
  length s <= f1 -> length s <= f2 -> trim_loop f1 sp s = trim_loop f2 sp s.
Proof.
  induction f1 as [|f1 IH]; intros f2 s H1 H2.
  - destruct s; [|simpl in H1; lia]. pose proof (space_width_bound sp []).
    rewrite !trim_loop_zero; simpl in *; auto with lia.
  - destruct (space_width sp s) as [|w] eqn:E; [by rewrite !trim_loop_zero|].
    pose proof (space_width_bound sp s) as Hb. rewrite E in Hb.
    destruct f2 as [|f2]; [lia|]. cbn [trim_loop]. rewrite E.
    apply IH; rewrite length_drop; lia.
Qed.

Lemma trim_left_space b s : b ∈ ascii_spaces -> trim_left (b :: s) = trim_left s.
Proof.
  intros Hb. assert (u8 b < 128)%Z.
  { unfold ascii_spaces in Hb. set_unfold in Hb.
    repeat destruct Hb as [->|Hb]; try done. }
  unfold trim_left. cbn [length trim_loop]. rewrite space_width_ascii by done.
  by rewrite bool_decide_true.
Qed.

Lemma trim_left_word b s : (u8 b < 128)%Z -> b ∉ ascii_spaces -> trim_left (b :: s) = b :: s.
Proof.
  intros Hb Hs. unfold trim_left. apply trim_loop_zero.
  by rewrite space_width_ascii, bool_decide_false.
Qed.

(** A string without trailing white space. *)
Definition no_trailing_space (s : bytes) : Prop :=
  space_width (map reverse spaces) (reverse s) = 0.

Lemma trim_right_id s : no_trailing_space s -> trim_right s = s.
Proof. intros H. unfold trim_right. by rewrite trim_loop_zero, reverse_involutive. Qed.

Lemma no_trailing_space_app a s : no_trailing_space (a ++ s) -> no_trailing_space s.
Proof.
  unfold no_trailing_space, space_width. rewrite reverse_app.
  destruct (List.find (HasPrefix (reverse s)) _) as [w|] eqn:E; [|done].
  apply List.find_some in E as [Hw E]. apply HasPrefix_spec in E as [k Hk].
  destruct (List.find _ _) as [w'|] eqn:E'.
  - intros Hl. apply List.find_some in E' as [Hw' E'].
    destruct w'; [|done]. exfalso. revert Hw'. vm_compute. intuition discriminate.
  - intros _. exfalso. apply (List.find_none _ _) with (x := w) in E'; [|done].
    rewrite Hk, <- app_assoc in E'. by rewrite HasPrefix_app in E'.
Qed.

(** ** Case mapping lemmas *)

Definition ascii (b : byte) : Prop := (u8 b < 128)%Z.

(** [unicode.ToUpper] on an ASCII byte. *)
Definition upper_byte (b : byte) : byte :=
  if (97 <=? u8 b)%Z && (u8 b <=? 122)%Z then byte_of_Z (u8 b - 32) else b.

Lemma encode_upper_ascii table b :
  ascii b -> encode_rune (upper_rune table (u8 b)) = [upper_byte b].
Proof.
  destruct b; intros Hb; try (vm_compute in Hb; discriminate Hb); vm_compute; reflexivity.
Qed.

Lemma map_runes_loop_fuel f f1 : forall f2 s,
  length s <= f1 -> length s <= f2 -> map_runes_loop f1 f s = map_runes_loop f2 f s.
Proof.
  induction f1 as [|f1 IH]; intros f2 s H1 H2.
  - destruct s; [|simpl in H1; lia]. by destruct f2.
  - destruct s as [|b s]; [by destruct f2|]. destruct f2 as [|f2]; [simpl in H2; lia|].
    cbn [map_runes_loop]. destruct (decode_rune (b :: s)) as [r w] eqn:E.
    assert (1 <= w).
    { revert E. unfold decode_rune. repeat case_match; intros [= <- <-]; lia. }
    f_equal. apply IH; rewrite length_drop; simpl in *; lia.
Qed.

Lemma ToUpper_ascii_app table a s :
  Forall ascii a -> ToUpper table (a ++ s) = map upper_byte a ++ ToUpper table s.
Proof.
  unfold ToUpper, map_runes. induction 1 as [|b a Hb Ha IH]; [done|].
  cbn [app length map_runes_loop]. unfold ascii in Hb.
  assert (decode_rune (b :: a ++ s) = (u8 b, 1)) as ->.
  { unfold decode_rune. by rewrite (proj2 (Z.ltb_lt _ _) Hb). }
  assert ((upper_rune table (u8 b) <? 0)%Z = false) as ->.
  { pose proof (u8_range b). apply Z.ltb_ge. unfold upper_rune.
    destruct (127 <? u8 b)%Z eqn:E; [apply Z.ltb_lt in E; lia|].
    destruct (_ && _) eqn:E2; [|lia]. apply andb_true_iff in E2 as [E2 _]. apply Z.leb_le in E2. lia. }
  rewrite encode_upper_ascii by done. cbn [app drop]. rewrite drop_0. cbn [map app]. f_equal. exact IH.
Qed.

Lemma ToUpper_nil table : ToUpper table [] = [].
Proof. done. Qed.

(** ** UTF-8 lemmas *)

Section utf8_lemmas.
Local Open Scope Z_scope.

Lemma land_cont lo hi b : cont_byte lo hi b = true -> 0x80 <= lo -> hi <= 0xBF ->
  Z.land (u8 b) 0x3F = u8 b - 128 /\ lo <= u8 b <= hi.
Proof.
  unfold cont_byte. intros [Hl Hh] % andb_true_iff Hlo Hhi. apply Z.leb_le in Hl, Hh. split; [|lia].
  change 63 with (Z.ones 6). rewrite Z.land_ones by lia. change (2 ^ 6) with 64.
  Z.div_mod_to_equations; lia.
Qed.

(** The payload bits of a lead byte. *)
Lemma land_lead b k base : 0 < k -> base mod 2 ^ k = 0 -> base <= u8 b < base + 2 ^ k ->
  Z.land (u8 b) (Z.ones k) = u8 b - base.
Proof.
  intros Hk Hm Hr. rewrite Z.land_ones by lia. pose proof (Z.pow_pos_nonneg 2 k).
  apply Z.mod_divide in Hm as [q ->]; [|lia]. symmetry. apply (Z.mod_unique_pos _ _ q); nia.
Qed.

(** Runes of two, three and four bytes. *)
Lemma encode_rune_2 b b1 r :
  0xC2 <= u8 b < 0xE0 -> 0x80 <= u8 b1 <= 0xBF -> r = (u8 b - 192) * 64 + (u8 b1 - 128) ->
  encode_rune r = [b; b1] /\ 128 <= r.
Proof.
  intros H0 H1 Hr. split; [|lia]. unfold encode_rune.
  rewrite (proj2 (Z.leb_le 0 r)), (proj2 (Z.ltb_ge r 0x80)), (proj2 (Z.ltb_lt r 0x800)) by lia. cbn [andb].
  replace (0xC0 + r / 64) with (u8 b) by (Z.div_mod_to_equations; lia).
  replace (0x80 + r mod 64) with (u8 b1) by (Z.div_mod_to_equations; lia).
  by rewrite !byte_of_Z_u8.
Qed.

(** The branch of [encode_rune] for code points from U+0800. *)
Lemma encode_rune_long r :
  0x800 <= r <= 0x10FFFF -> ~ (0xD800 <= r <= 0xDFFF) ->
  encode_rune r =
    if r <? 0x10000
    then [byte_of_Z (0xE0 + r / 4096); byte_of_Z (0x80 + r / 64 mod 64); byte_of_Z (0x80 + r mod 64)]
    else [byte_of_Z (0xF0 + r / 262144); byte_of_Z (0x80 + r / 4096 mod 64);
          byte_of_Z (0x80 + r / 64 mod 64); byte_of_Z (0x80 + r mod 64)].
Proof.
  intros Hr Hs. unfold encode_rune.
  rewrite (proj2 (Z.leb_le 0 r)), (proj2 (Z.ltb_ge r 0x80)), (proj2 (Z.ltb_ge r 0x800)) by lia. cbn [andb].
  rewrite (proj2 (Z.ltb_ge r 0)), (proj2 (Z.ltb_ge 0x10FFFF r)) by lia. cbn [orb].
  assert ((0xD800 <=? r) && (r <=? 0xDFFF) = false) as ->; [|done].
  apply andb_false_iff. destruct (Z.leb_spec 0xD800 r), (Z.leb_spec r 0xDFFF); lia || tauto.
Qed.

Lemma encode_rune_3 b b1 b2 r :
  0xE0 <= u8 b < 0xF0 -> 0x80 <= u8 b1 <= 0xBF -> 0x80 <= u8 b2 <= 0xBF ->
  (u8 b = 0xE0 -> 0xA0 <= u8 b1) -> (u8 b = 0xED -> u8 b1 <= 0x9F) ->
  r = (u8 b - 224) * 4096 + (u8 b1 - 128) * 64 + (u8 b2 - 128) ->
  encode_rune r = [b; b1; b2] /\ 128 <= r.
Proof.
  intros H0 H1 H2 He Hd Hr.
  assert (Hb : 0x800 <= r < 0x10000 /\ ~ (0xD800 <= r <= 0xDFFF))
    by (destruct (Z.eq_dec (u8 b) 0xE0), (Z.eq_dec (u8 b) 0xED); lia).
  split; [|lia]. rewrite encode_rune_long by lia. rewrite (proj2 (Z.ltb_lt r 0x10000)) by lia.
  replace (0xE0 + r / 4096) with (u8 b) by (Z.div_mod_to_equations; lia).
  replace (0x80 + r / 64 mod 64) with (u8 b1) by (Z.div_mod_to_equations; lia).
  replace (0x80 + r mod 64) with (u8 b2) by (Z.div_mod_to_equations; lia).
  by rewrite !byte_of_Z_u8.
Qed.

Lemma encode_rune_4 b b1 b2 b3 r :
  0xF0 <= u8 b <= 0xF4 -> 0x80 <= u8 b1 <= 0xBF -> 0x80 <= u8 b2 <= 0xBF -> 0x80 <= u8 b3 <= 0xBF ->
  (u8 b = 0xF0 -> 0x90 <= u8 b1) -> (u8 b = 0xF4 -> u8 b1 <= 0x8F) ->
  r = (u8 b - 240) * 262144 + (u8 b1 - 128) * 4096 + (u8 b2 - 128) * 64 + (u8 b3 - 128) ->
  encode_rune r = [b; b1; b2; b3] /\ 128 <= r.
Proof.
  intros H0 H1 H2 H3 He Hd Hr.
  assert (Hb : 0x10000 <= r <= 0x10FFFF) by (destruct (Z.eq_dec (u8 b) 0xF0), (Z.eq_dec (u8 b) 0xF4); lia).
  split; [|lia]. rewrite encode_rune_long by lia. rewrite (proj2 (Z.ltb_ge r 0x10000)) by lia.
  replace (0xF0 + r / 262144) with (u8 b) by (Z.div_mod_to_equations; lia).
  replace (0x80 + r / 4096 mod 64) with (u8 b1) by (Z.div_mod_to_equations; lia).
  replace (0x80 + r / 64 mod 64) with (u8 b2) by (Z.div_mod_to_equations; lia).
  replace (0x80 + r mod 64) with (u8 b3) by (Z.div_mod_to_equations; lia).
  by rewrite !byte_of_Z_u8.
Qed.

(** What [decode_rune] can return on a non-empty string: an ASCII byte, an invalid
    byte, or a longer rune, which is encoded again as the same bytes. *)
Inductive rune_at (b : byte) (s : bytes) : Z * nat -> Prop :=
  | rune_ascii : u8 b < 128 -> rune_at b s (u8 b, 1%nat)
  | rune_invalid : 128 <= u8 b -> rune_at b s (RuneError, 1%nat)
  | rune_valid r w : 128 <= u8 b -> 128 <= r -> encode_rune r = take w (b :: s) -> (2 <= w <= length (b :: s))%nat ->
      rune_at b s (r, w).

Lemma decode_rune_at b s : rune_at b s (decode_rune (b :: s)).
Proof.
  unfold decode_rune. pose proof (u8_range b) as Hb.
  destruct (Z.ltb_spec (u8 b) 0x80) as [H0|H0]; [by constructor|].
  destruct ((u8 b <? 0xC2) || (0xF4 <? u8 b)) eqn:E1; [by constructor|].
  apply orb_false_iff in E1 as [E1 E2]. apply Z.ltb_ge in E1, E2.
  destruct s as [|b1 s]; [by constructor|].
  set (lo := if u8 b =? 0xE0 then _ else _). set (hi := if u8 b =? 0xED then _ else _).
  destruct (cont_byte lo hi b1) eqn:C1; [|by constructor]. cbn [negb].
  assert (Hlo : 0x80 <= lo /\ (u8 b = 0xE0 -> lo = 0xA0) /\ (u8 b = 0xF0 -> lo = 0x90)).
  { subst lo. destruct (Z.eqb_spec (u8 b) 0xE0), (Z.eqb_spec (u8 b) 0xF0); lia. }
  assert (Hhi : hi <= 0xBF /\ (u8 b = 0xED -> hi = 0x9F) /\ (u8 b = 0xF4 -> hi = 0x8F)).
  { subst hi. destruct (Z.eqb_spec (u8 b) 0xED), (Z.eqb_spec (u8 b) 0xF4); lia. }
  clearbody lo hi. destruct (land_cont _ _ _ C1) as [L1 R1]; [lia..|]. rewrite L1.
  destruct (Z.ltb_spec (u8 b) 0xE0) as [H2|H2].
  { change 0x1F with (Z.ones 5). rewrite (land_lead _ _ 192) by lia || done.
    edestruct (encode_rune_2 b b1) as [E R]; [lia..|reflexivity|]. constructor; [done|done|done|simpl; lia]. }
  destruct s as [|b2 s]; [by constructor|].
  destruct (cont_byte 0x80 0xBF b2) eqn:C2; [|by constructor]. cbn [negb].
  destruct (land_cont _ _ _ C2) as [L2 R2]; [lia..|]. rewrite L2.
  destruct (Z.ltb_spec (u8 b) 0xF0) as [H3|H3].
  { change 0x0F with (Z.ones 4). rewrite (land_lead _ _ 224) by lia || done.
    edestruct (encode_rune_3 b b1 b2) as [E R]; [lia..|reflexivity|]. constructor; [done|done|done|simpl; lia]. }
  destruct s as [|b3 s]; [by constructor|].
  destruct (cont_byte 0x80 0xBF b3) eqn:C3; [|by constructor]. cbn [negb].
  destruct (land_cont _ _ _ C3) as [L3 R3]; [lia..|]. rewrite L3.
  change 0x07 with (Z.ones 3). rewrite (land_lead _ _ 240) by lia || done.
  edestruct (encode_rune_4 b b1 b2 b3) as [E R]; [lia..|reflexivity|]. constructor; [done|done|done|simpl; lia].
Qed.
End utf8_lemmas.
