(* ===== verification/GoFloat.v ===== *)
(** * Floating point

    Go's [float64] as the executable IEEE 754 specification of the Standard
    Library, with the comparisons the code makes: a comparison with a NaN is
    false. *)

From Stdlib Require Export Floats.SpecFloat.
From S2P Require Import Prelude.

Abbreviation float64 := spec_float.

(** [float64(z)]: correctly rounded conversion. *)
Definition float64_of_Z (z : Z) : float64 := binary_normalize 53 1024 z 0 false.

Definition f_div (x y : float64) : float64 := SFdiv 53 1024 x y.
Definition f_lt (x y : float64) : bool := SFltb x y.
Definition f_ge (x y : float64) : bool := SFleb y x.
Definition f_gt (x y : float64) : bool := SFltb y x.

Definition f_zero : float64 := S754_zero false.
Definition f_one : float64 := float64_of_Z 1.

(** [float64(d.Nanoseconds()) / 1e6] *)
Definition duration_ms (ns : Z) : float64 := f_div (float64_of_Z ns) (float64_of_Z 1000000).

#[export] Instance float64_eq_dec : EqDecision float64.
Proof. solve_decision. Defined.

Example half_ms : duration_ms 500000 = f_div f_one (float64_of_Z 2).
Proof. vm_compute. reflexivity. Qed.

Example half_lt_one : f_lt (duration_ms 500000) f_one = true.
Proof. vm_compute. reflexivity. Qed.
