(* ===== verification/Digest.v ===== *)
(** * Message digests

    MD5 (RFC 1321) and SHA-1 (FIPS 180-4), which the proxy takes from Go's
    [crypto/md5] and [crypto/sha1]: the query hash of the log entries and MySQL's
    native password scheme. Words are integers below 2^32. The test vectors at
    the end are those of the standards. *)

From S2P Require Import Prelude.

Section words.
Local Open Scope Z_scope.

Definition add32 (a b : Z) : Z := wrapU 32 (a + b).
Definition not32 (a : Z) : Z := 0xffffffff - a.
Definition rotl32 (n a : Z) : Z := Z.lor (wrapU 32 (Z.shiftl a n)) (Z.shiftr a (32 - n)).

Definition le32_bytes (z : Z) : bytes :=
  [byte_of_Z z; byte_of_Z (Z.shiftr z 8); byte_of_Z (Z.shiftr z 16); byte_of_Z (Z.shiftr z 24)].

(** The padding of both digests: a 1 bit, zeros up to 56 bytes modulo 64, then
    the length in bits in eight bytes of the given byte order. *)
Definition pad_zeros (len : Z) : nat := Z.to_nat ((55 - len) mod 64).
Definition pad (len_bytes : Z -> bytes) (m : bytes) : bytes :=
  let len := Z.of_nat (length m) in
  m ++ Byte.x80 :: replicate (pad_zeros len) Byte.x00 ++ len_bytes (8 * len).

Fixpoint words (of4 : byte -> byte -> byte -> byte -> Z) (m : bytes) : list Z :=
  match m with
  | b0 :: b1 :: b2 :: b3 :: m => of4 b0 b1 b2 b3 :: words of4 m
  | _ => []
  end.

Fixpoint blocks (fuel : nat) (ws : list Z) : list (list Z) :=
  match fuel, ws with
  | O, _ | _, [] => []
  | S fuel, _ => take 16 ws :: blocks fuel (drop 16 ws)
  end.
End words.

Module MD5.
Local Open Scope Z_scope.

Definition K : list Z :=
 [
  0xd76aa478; 0xe8c7b756; 0x242070db; 0xc1bdceee; 0xf57c0faf; 0x4787c62a; 0xa8304613; 0xfd469501;
  0x698098d8; 0x8b44f7af; 0xffff5bb1; 0x895cd7be; 0x6b901122; 0xfd987193; 0xa679438e; 0x49b40821;
  0xf61e2562; 0xc040b340; 0x265e5a51; 0xe9b6c7aa; 0xd62f105d; 0x02441453; 0xd8a1e681; 0xe7d3fbc8;
  0x21e1cde6; 0xc33707d6; 0xf4d50d87; 0x455a14ed; 0xa9e3e905; 0xfcefa3f8; 0x676f02d9; 0x8d2a4c8a;
  0xfffa3942; 0x8771f681; 0x6d9d6122; 0xfde5380c; 0xa4beea44; 0x4bdecfa9; 0xf6bb4b60; 0xbebfbc70;
  0x289b7ec6; 0xeaa127fa; 0xd4ef3085; 0x04881d05; 0xd9d4d039; 0xe6db99e5; 0x1fa27cf8; 0xc4ac5665;
  0xf4292244; 0x432aff97; 0xab9423a7; 0xfc93a039; 0x655b59c3; 0x8f0ccc92; 0xffeff47d; 0x85845dd1;
  0x6fa87e4f; 0xfe2ce6e0; 0xa3014314; 0x4e0811a1; 0xf7537e82; 0xbd3af235; 0x2ad7d2bb; 0xeb86d391
 ].

Definition S : list Z :=
  [7; 12; 17; 22; 7; 12; 17; 22; 7; 12; 17; 22; 7; 12; 17; 22;
   5; 9; 14; 20; 5; 9; 14; 20; 5; 9; 14; 20; 5; 9; 14; 20;
   4; 11; 16; 23; 4; 11; 16; 23; 4; 11; 16; 23; 4; 11; 16; 23;
   6; 10; 15; 21; 6; 10; 15; 21; 6; 10; 15; 21; 6; 10; 15; 21].

Definition round (i b c d : Z) : Z * Z :=
  if i <? 16 then (Z.lor (Z.land b c) (Z.land (not32 b) d), i)
  else if i <? 32 then (Z.lor (Z.land d b) (Z.land (not32 d) c), (5 * i + 1) mod 16)
  else if i <? 48 then (Z.lxor b (Z.lxor c d), (3 * i + 5) mod 16)
  else (Z.lxor c (Z.lor b (not32 d)), (7 * i) mod 16).

Fixpoint steps (i : Z) (ks ss M : list Z) (a b c d : Z) : Z * Z * Z * Z :=
  match ks, ss with
  | k :: ks, s :: ss =>
      let '(f, g) := round i b c d in
      let x := add32 (add32 a f) (add32 k (nth (Z.to_nat g) M 0)) in
      steps (i + 1) ks ss M d (add32 b (rotl32 s x)) b c
  | _, _ => (a, b, c, d)
  end.

Definition block (h : Z * Z * Z * Z) (M : list Z) : Z * Z * Z * Z :=
  let '(a, b, c, d) := h in
  let '(a', b', c', d') := steps 0 K S M a b c d in
  (add32 a a', add32 b b', add32 c c', add32 d d').

Definition of4 (b0 b1 b2 b3 : byte) : Z := be32 b3 b2 b1 b0.
Definition len_bytes (n : Z) : bytes := le32_bytes n ++ le32_bytes (Z.shiftr n 32).

Definition sum (m : bytes) : bytes :=
  let ws := words of4 (pad len_bytes m) in
  let '(a, b, c, d) := fold_left block (blocks (length ws) ws)
                         (0x67452301, 0xefcdab89, 0x98badcfe, 0x10325476) in
  le32_bytes a ++ le32_bytes b ++ le32_bytes c ++ le32_bytes d.
End MD5.

Module SHA1.
Local Open Scope Z_scope.

(** The message schedule, most recent word first. *)
Fixpoint schedule (n : nat) (w : list Z) : list Z :=
  match n with
  | O => w
  | S n =>
      let x := Z.lxor (Z.lxor (nth 2 w 0) (nth 7 w 0)) (Z.lxor (nth 13 w 0) (nth 15 w 0)) in
      schedule n (rotl32 1 x :: w)
  end.

Definition round (i b c d : Z) : Z * Z :=
  if i <? 20 then (Z.lor (Z.land b c) (Z.land (not32 b) d), 0x5a827999)
  else if i <? 40 then (Z.lxor b (Z.lxor c d), 0x6ed9eba1)
  else if i <? 60 then (Z.lor (Z.lor (Z.land b c) (Z.land b d)) (Z.land c d), 0x8f1bbcdc)
  else (Z.lxor b (Z.lxor c d), 0xca62c1d6).

Fixpoint steps (i : Z) (ws : list Z) (a b c d e : Z) : Z * Z * Z * Z * Z :=
  match ws with
  | w :: ws =>
      let '(f, k) := round i b c d in
      let t := add32 (add32 (rotl32 5 a) f) (add32 (add32 e k) w) in
      steps (i + 1) ws t a (rotl32 30 b) c d
  | [] => (a, b, c, d, e)
  end.

Definition block (h : Z * Z * Z * Z * Z) (M : list Z) : Z * Z * Z * Z * Z :=
  let '(a, b, c, d, e) := h in
  let '(a', b', c', d', e') := steps 0 (rev (schedule 64 (rev M))) a b c d e in
  (add32 a a', add32 b b', add32 c c', add32 d d', add32 e e').

Definition len_bytes (n : Z) : bytes := be32_bytes (Z.shiftr n 32) ++ be32_bytes n.

Definition sum (m : bytes) : bytes :=
  let ws := words be32 (pad len_bytes m) in
  let '(a, b, c, d, e) := fold_left block (blocks (length ws) ws)
      (0x67452301, 0xefcdab89, 0x98badcfe, 0x10325476, 0xc3d2e1f0) in
  be32_bytes a ++ be32_bytes b ++ be32_bytes c ++ be32_bytes d ++ be32_bytes e.
End SHA1.

(** The verb [%x] on a byte slice or array. *)
Definition hex_char (d : Z) : byte := byte_of_Z (if d <? 10 then 48 + d else 87 + d)%Z.
Definition fmt_x (m : bytes) : bytes :=
  concat (map (fun b => [hex_char (u8 b / 16); hex_char (u8 b mod 16)]) m).

(** ** Test vectors and lengths *)

Example md5_abc : fmt_x (MD5.sum (B "abc")) = B "900150983cd24fb0d6963f7d28e17f72".
Proof. vm_compute. reflexivity. Qed.

Example md5_two_blocks :
  fmt_x (MD5.sum (B "12345678901234567890123456789012345678901234567890123456789012345678901234567890"))
  = B "57edf4a22be3c955ac49da2e2107b67a".
Proof. vm_compute. reflexivity. Qed.

Example sha1_abc : fmt_x (SHA1.sum (B "abc")) = B "a9993e364706816aba3e25717850c26c9cd0d89d".
Proof. vm_compute. reflexivity. Qed.

Example sha1_two_blocks :
  fmt_x (SHA1.sum (B "abcdbcdecdefdefgefghfghighijhijkijkljklmklmnlmnomnopnopq"))
  = B "84983e441c3bd26ebaae4aa1f95129e5e54670f1".
Proof. vm_compute. reflexivity. Qed.

Lemma length_sha1 m : length (SHA1.sum m) = 20.
Proof. unfold SHA1.sum. by destruct (fold_left _ _ _) as [[[[? ?] ?] ?] ?]. Qed.

Lemma length_md5 m : length (MD5.sum m) = 16.
Proof. unfold MD5.sum. by destruct (fold_left _ _ _) as [[[? ?] ?] ?]. Qed.
