(* ===== verification/Metrics.v ===== *)
(** * Metrics (src/metrics.go, src/query_logger.go)

    The declared metrics and their registration, and the updates. The counters,
    gauges and histograms are updated and never read back by the program, so an
    update is recorded as an event: the operation, the variable it goes to, its
    labels, and the amount added, set or observed.

    The Prometheus client is outside the repository. What it documents to panic
    on - an update whose labels do not fit the declaration or are not UTF-8, a
    negative amount added to a counter, a name registered twice, buckets that do
    not increase - is the discipline [well_used] and the class
    [PrometheusRegistry] below; the files of the proxies prove that every event
    they emit keeps to it. *)

From S2P Require Import Prelude.

(** ** Updates *)

Inductive metric_op := OpAdd | OpSet | OpObserve.
#[export] Instance metric_op_eq_dec : EqDecision metric_op.
Proof. solve_decision. Defined.

Record metric := MkMetric {
  m_op : metric_op;
  m_var : string;
  m_labels : list bytes;
  m_amount : Z;
}.

#[export] Instance metric_eq_dec : EqDecision metric.
Proof. solve_decision. Defined.

Definition Inc (var : string) (labels : list bytes) : metric := MkMetric OpAdd var labels 1.
Definition Dec (var : string) (labels : list bytes) : metric := MkMetric OpAdd var labels (-1).
Definition Add (var : string) (labels : list bytes) (n : Z) : metric := MkMetric OpAdd var labels n.
(** [Set(x)] on a gauge *)
Definition SetTo (var : string) (n : Z) : metric := MkMetric OpSet var [] n.
(** [Observe(duration.Seconds())], with the duration in nanoseconds; a count for
    the histogram of batch sizes. *)
Definition Observe (var : string) (labels : list bytes) (ns : Z) : metric := MkMetric OpObserve var labels ns.

(** ** Declarations *)

(** Buckets are in thousandths. *)
Inductive metric_kind := Counter | Gauge | Histogram (buckets : list Z).

Record metric_decl := MkDecl {
  d_var : string;
  d_kind : metric_kind;
  d_Name : string;
  d_labels : list string;
}.

(** The [var] block of src/metrics.go. *)
Definition proxy_metrics : list metric_decl :=
  [MkDecl "queryDuration" (Histogram [1; 5; 10; 25; 50; 100; 250; 500; 1000; 2500; 5000; 10000; 30000; 60000]%Z)
     "shadow_proxy_query_duration_seconds" ["target"];
   MkDecl "queryTotal" Counter "shadow_proxy_queries_total" ["target"];
   MkDecl "queryErrors" Counter "shadow_proxy_query_errors_total" ["target"];
   MkDecl "activeConnections" Gauge "shadow_proxy_active_connections" [];
   MkDecl "tlsUpgrades" Counter "shadow_proxy_tls_upgrades_total" [];
   MkDecl "tlsFailures" Counter "shadow_proxy_tls_failures_total" [];
   MkDecl "primaryUp" Gauge "shadow_proxy_primary_up" [];
   MkDecl "shadowUp" Gauge "shadow_proxy_shadow_up" [];
   MkDecl "shadowQueueDrops" Counter "shadow_proxy_queue_drops_total" [];
   MkDecl "connectionFailures" Counter "shadow_proxy_connection_failures_total" ["target"];
   MkDecl "authFailures" Counter "shadow_proxy_auth_failures_total" ["target"];
   MkDecl "connectionsWithoutShadow" Counter "shadow_proxy_connections_without_shadow_total" [];
   MkDecl "bytesTotal" Counter "shadow_proxy_bytes_total" ["target"; "direction"];
   MkDecl "shadowReadTimeouts" Counter "shadow_proxy_read_timeouts_total" [];
   MkDecl "shadowDrainTimeouts" Counter "shadow_proxy_drain_timeouts_total" [];
   MkDecl "shadowWriteErrors" Counter "shadow_proxy_write_errors_total" [];
   MkDecl "shadowDropped" Counter "shadow_proxy_shadow_dropped_total" ["reason"];
   MkDecl "totalConnections" Counter "shadow_proxy_connections_total" [];
   MkDecl "connectionsWithShadow" Counter "shadow_proxy_connections_with_shadow_total" [];
   MkDecl "shadowFilteredTotal" Counter "shadow_proxy_shadow_filtered_total" ["reason"];
   MkDecl "mysqlCommands" Counter "shadow_proxy_mysql_commands_total" ["target"; "command"];
   MkDecl "mysqlPackets" Counter "shadow_proxy_mysql_packets_total" ["target"];
   MkDecl "pgCommands" Counter "shadow_proxy_pg_commands_total" ["target"; "command"];
   MkDecl "pgPackets" Counter "shadow_proxy_pg_packets_total" ["target"];
   MkDecl "pgStickyStmtMapResets" Counter "shadow_proxy_pg_sticky_stmt_map_resets_total" []].

(** The [var] block of src/query_logger.go. *)
Definition query_logger_metrics : list metric_decl :=
  [MkDecl "queryLoggerBufferCapacity" Gauge "shadow_proxy_query_logger_buffer_capacity" [];
   MkDecl "queryLoggerEntriesTotal" Counter "shadow_proxy_query_logger_entries_total" ["status"];
   MkDecl "queryLoggerFlushesTotal" Counter "shadow_proxy_query_logger_flushes_total" ["status"];
   MkDecl "queryLoggerFlushDuration" (Histogram [10; 50; 100; 250; 500; 1000; 2500; 5000; 10000]%Z)
     "shadow_proxy_query_logger_flush_duration_seconds" [];
   MkDecl "queryLoggerEntriesPerFlush"
     (Histogram [1000; 10000; 50000; 100000; 250000; 500000; 1000000; 2000000]%Z)
     "shadow_proxy_query_logger_entries_per_flush" [];
   MkDecl "queryLoggerBytesWritten" Counter "shadow_proxy_query_logger_bytes_written_total" [];
   MkDecl "queryLoggerLastFlushTimestamp" Gauge "shadow_proxy_query_logger_last_flush_timestamp_seconds" [];
   MkDecl "queryLoggerFallbackWrites" Counter "shadow_proxy_query_logger_fallback_writes_total" []].

(** The [GaugeFunc] built inside [init], and the one of [NewQueryLogger]. *)
Definition queue_depth_gauge : metric_decl := MkDecl "" Gauge "shadow_proxy_queue_depth" [].
Definition buffer_depth_gauge : metric_decl :=
  MkDecl "bufferDepthGauge" Gauge "shadow_proxy_query_logger_buffer_depth" [].

Definition declared (decls : list metric_decl) (var : string) : option metric_decl :=
  List.find (fun d => bool_decide (d_var d = var)) decls.

(** ** Registration *)

(** The variables [init] registers, in its order; the empty name is the
    [GaugeFunc]. *)
Definition init_order : list string :=
  ["queryDuration"; "queryTotal"; "queryErrors"; "activeConnections"; "tlsUpgrades"; "tlsFailures"; "primaryUp";
   "shadowUp"; "shadowQueueDrops"; ""; "connectionFailures"; "authFailures"; "connectionsWithoutShadow";
   "bytesTotal"; "shadowReadTimeouts"; "shadowDrainTimeouts"; "shadowWriteErrors"; "shadowDropped";
   "totalConnections"; "connectionsWithShadow"; "shadowFilteredTotal"; "mysqlCommands"; "mysqlPackets";
   "pgCommands"; "pgPackets"; "pgStickyStmtMapResets"].

(** The default registerer of the Prometheus client: [MustRegister] accepts a
    metric whose name is new, [Register] returns an error for one that is
    registered, [Unregister] makes a name free again. *)
Class PrometheusRegistry (Reg : Type) := {
  reg_names : Reg -> list string;
  reg_empty : Reg;
  Register : metric_decl -> Reg -> option error * Reg;
  Unregister : metric_decl -> Reg -> Reg;
  reg_empty_names : reg_names reg_empty = [];
  Register_new d r : ~ In (d_Name d) (reg_names r) ->
    exists r', Register d r = (None, r') /\ Permutation (reg_names r') (d_Name d :: reg_names r);
  Register_error d r e r' : Register d r = (Some e, r') -> r' = r;
  Unregister_removes d r names : Permutation (reg_names r) (d_Name d :: names) -> ~ In (d_Name d) names ->
    Permutation (reg_names (Unregister d r)) names;
}.

Section registration.
Context `{PrometheusRegistry Reg}.

(** [MustRegister]: [Register] or panic. *)
Definition MustRegister (d : metric_decl) (r : Reg) : result unit * Reg :=
  match Register d r with
  | (None, r) => (Ok tt, r)
  | (Some _, r) => (Panic, r)
  end.

Fixpoint register_all (ds : list metric_decl) (r : Reg) : result unit * Reg :=
  match ds with
  | [] => (Ok tt, r)
  | d :: ds => let? _u, r := MustRegister d r in register_all ds r
  end.

(** [init] *)
Definition init (r : Reg) : result unit * Reg :=
  register_all (omap (declared (queue_depth_gauge :: proxy_metrics)) init_order) r.

(** [registerQueryLoggerMetrics]; the flag is [queryLoggerMetricsRegistered]. *)
Definition registerQueryLoggerMetrics (s : bool * Reg) : result unit * (bool * Reg) :=
  let '(registered, r) := s in
  if registered then (Ok tt, (registered, r))
  else match register_all query_logger_metrics r with
       | (Ok _, r) => (Ok tt, (true, r))
       | (Err e, r) => (Err e, (registered, r))
       | (Panic, r) => (Panic, (registered, r))
       | (Stuck, r) => (Stuck, (registered, r))
       end.

Lemma register_all_new ds : forall r,
  NoDup (map d_Name ds) -> (forall n, In n (map d_Name ds) -> ~ In n (reg_names r)) ->
  exists r', register_all ds r = (Ok tt, r') /\ Permutation (reg_names r') (map d_Name ds ++ reg_names r).
Proof.
  induction ds as [|d ds IH]; intros r Hn Hf; [by exists r|].
  cbn [map] in Hn. apply list.NoDup_cons in Hn as [Hd Hn]. rewrite list_elem_of_In in Hd.
  destruct (Register_new d r) as (r1 & E & Hp); [by apply Hf; left|].
  destruct (IH r1 Hn) as (r2 & E2 & Hp2).
  { intros n Hin Hr. apply (Permutation_in _ Hp) in Hr as [<- |Hr]; [done|]. by apply (Hf n); [right|]. }
  exists r2. cbn [register_all]. unfold MustRegister. rewrite E. cbn [and_then]. split; [done|].
  rewrite Hp2, Hp. cbn [map app]. by rewrite <- Permutation_middle.
Qed.

(** [init], and then the metrics of the query logger. *)
Lemma init_registers : exists r r',
  init reg_empty = (Ok tt, r) /\
  Permutation (reg_names r) (map d_Name (queue_depth_gauge :: proxy_metrics)) /\
  register_all query_logger_metrics r = (Ok tt, r') /\
  Permutation (reg_names r') (map d_Name (query_logger_metrics ++ queue_depth_gauge :: proxy_metrics)).
Proof.
  destruct (register_all_new (omap (declared (queue_depth_gauge :: proxy_metrics)) init_order) reg_empty)
    as (r & E & Hp); [vm_decide|by rewrite reg_empty_names; intros n _ []|].
  rewrite reg_empty_names, app_nil_r in Hp.
  assert (Hp1 : Permutation (reg_names r) (map d_Name (queue_depth_gauge :: proxy_metrics)))
    by (rewrite Hp; vm_decide).
  assert (Hnd : NoDup (map d_Name (query_logger_metrics ++ queue_depth_gauge :: proxy_metrics))) by vm_decide.
  rewrite map_app in Hnd. apply list.NoDup_app in Hnd as (Hn1 & Hdis & _).
  destruct (register_all_new query_logger_metrics r) as (r' & E' & Hp'); [done| |].
  { intros n Hin Hr. apply (Permutation_in _ Hp1) in Hr. apply (Hdis n); by rewrite list_elem_of_In. }
  exists r, r'. split; [done|]. split; [done|]. split; [done|]. by rewrite Hp', Hp1, map_app.
Qed.
End registration.

(** ** The discipline of the updates *)

Definition ascii_label (l : bytes) : bool := forallb (fun b => (u8 b <? 128)%Z) l.

(** What an update must satisfy not to panic and to mean something: a declared
    variable of a kind that has the operation, as many labels as declared, valid
    label text, and nothing subtracted from a counter. *)
Definition well_used (m : metric) : bool :=
  match declared (proxy_metrics ++ query_logger_metrics) (m_var m) with
  | None => false
  | Some d =>
      bool_decide (length (m_labels m) = length (d_labels d)) && forallb ascii_label (m_labels m) &&
      match d_kind d, m_op m with
      | Counter, OpAdd => (0 <=? m_amount m)%Z
      | Gauge, OpAdd | Gauge, OpSet => true
      | Histogram _, OpObserve => true
      | _, _ => false
      end
  end.

(** The value of a counter or the change of a gauge after some events. *)
Fixpoint total (var : string) (labels : list bytes) (ms : list metric) : Z :=
  match ms with
  | [] => 0
  | m :: ms =>
      (if bool_decide (m_op m = OpAdd /\ m_var m = var /\ m_labels m = labels) then m_amount m else 0)
      + total var labels ms
  end%Z.

(** The last value a gauge was set to. *)
Definition last_set (var : string) (ms : list metric) : option Z :=
  list.last (omap (fun m => if bool_decide (m_op m = OpSet /\ m_var m = var) then Some (m_amount m) else None) ms).

Lemma total_app var labels ms ms' :
  total var labels (ms ++ ms') = (total var labels ms + total var labels ms')%Z.
Proof. induction ms as [|m ms IH]; [done|]. cbn [app total]. rewrite IH. lia. Qed.

(** A metric of a variable no event names has no total. *)
Lemma total_other var labels ms : Forall (fun m => m_var m <> var) ms -> total var labels ms = 0%Z.
Proof.
  induction 1 as [|m ms Hm _ IH]; [done|]. cbn [total].
  rewrite bool_decide_false by tauto. by rewrite IH.
Qed.

Lemma well_used_Add d var labels n :
  declared (proxy_metrics ++ query_logger_metrics) var = Some d -> d_kind d = Counter ->
  length labels = length (d_labels d) -> forallb ascii_label labels = true -> (0 <= n)%Z ->
  well_used (Add var labels n) = true.
Proof.
  intros Hd Hk Hl Ha Hn. unfold well_used, Add. cbn [m_var m_labels m_op m_amount].
  rewrite Hd, Hk, Ha, bool_decide_true by done. apply Z.leb_le in Hn. by rewrite Hn.
Qed.

(** *** Tools for the files that emit events *)

Definition used (ms : list metric) : Prop := Forall (fun m => well_used m = true) ms.

Lemma used_app ms ms' : used (ms ++ ms') <-> used ms /\ used ms'.
Proof. apply Forall_app. Qed.

Lemma used_cons m ms : used (m :: ms) <-> well_used m = true /\ used ms.
Proof. apply Forall_cons_iff. Qed.

Lemma total_cons_same var labels n ms : total var labels (Add var labels n :: ms) = (n + total var labels ms)%Z.
Proof. cbn [total Add m_op m_var m_labels m_amount]. by rewrite bool_decide_true. Qed.

Lemma total_cons_other var labels m ms :
  m_var m <> var \/ m_labels m <> labels -> total var labels (m :: ms) = total var labels ms.
Proof. intros Hm. cbn [total]. rewrite bool_decide_false by tauto. done. Qed.

(** Evaluates [total] on events whose names and labels are known, and proves
    [used] for them. *)
Ltac total_tac :=
  rewrite ?total_app;
  repeat first [rewrite total_cons_same | rewrite total_cons_other by (first [left; vm_decide | right; vm_decide])];
  cbn [total].
Ltac used_tac :=
  repeat first [assumption | apply Forall_nil | apply used_app; split | apply used_cons; split];
  try match goal with |- well_used _ = true => vm_compute; reflexivity end.

(** What a counter says of an amount [n]: at most that, exactly that if [exact]. *)
Definition counts (exact : bool) (c n : Z) : Prop := (c <= n)%Z /\ (exact = true -> c = n).

Lemma counts_add b b' c n c' n' :
  counts b c n -> counts b' c' n' -> b = true -> counts b' (c + c') (n + n').
Proof. intros [H1 E1] [H2 E2] Hb. split; [lia|]. intros Hb'. rewrite E1, E2 by done. done. Qed.

(** Events of some variables only. *)
Definition only (vars : list string) (ms : list metric) : Prop := Forall (fun m => In (m_var m) vars) ms.

Lemma only_app vars ms ms' : only vars (ms ++ ms') <-> only vars ms /\ only vars ms'.
Proof. apply Forall_app. Qed.

Lemma only_total vars var labels ms : only vars ms -> ~ In var vars -> total var labels ms = 0%Z.
Proof. intros Ho Hv. apply total_other. eapply Forall_impl; [|exact Ho]. by intros m Hm <-. Qed.

Ltac only_tac := repeat first [apply Forall_nil | apply only_app; split | apply Forall_cons_iff; split]; try (simpl; tauto).

Definition emits (vars : list string) (ms : list metric) : Prop := used ms /\ only vars ms.

Lemma emits_app vars ms ms' : emits vars ms -> emits vars ms' -> emits vars (ms ++ ms').
Proof. intros [] []. split; [by apply used_app|by apply only_app]. Qed.

Ltac emits_tac := split; [used_tac|only_tac].

Lemma emits_nothing vars (l : list metric) : exists ms, l = l ++ ms /\ emits vars ms.
Proof. exists []. rewrite app_nil_r. by repeat constructor. Qed.

(** The totals of events of which only the variables are known. *)
Lemma emits_total vars var labels ms : emits vars ms -> existsb (String.eqb var) vars = false -> total var labels ms = 0%Z.
Proof.
  intros [_ Ho] Hv. eapply only_total; [exact Ho|]. intros Hin.
  assert (existsb (String.eqb var) vars = true); [|congruence].
  apply existsb_exists. exists var. split; [done|apply String.eqb_refl].
Qed.

Lemma emits_wider vars vars' ms : emits vars ms -> incl vars vars' -> emits vars' ms.
Proof. intros [Hu Ho] Hi. split; [done|]. eapply Forall_impl; [|exact Ho]. auto. Qed.

(** Events that say nothing of bytes. *)
Definition quiet (vars : list string) (ms : list metric) : Prop :=
  emits vars ms /\ forall labels, total "bytesTotal" labels ms = 0%Z.

Lemma quiet_nil vars : quiet vars [].
Proof. by repeat constructor. Qed.

Lemma quiet_emits vars' vars ms :
  emits vars' ms -> forallb (fun v => existsb (String.eqb v) vars) vars' = true ->
  existsb (String.eqb "bytesTotal") vars' = false -> quiet vars ms.
Proof.
  intros He Hv Hb. split; [|intros; by eapply emits_total].
  eapply emits_wider; [exact He|]. intros v Hin. rewrite forallb_forall in Hv. specialize (Hv v Hin).
  apply existsb_exists in Hv as (w & Hw & Heq). apply String.eqb_eq in Heq. by subst.
Qed.

(** The event of one direction, if it was counted. *)
Definition bytes_event (target : bytes) (direction : string) (n : option Z) : list metric :=
  match n with Some n => [Add "bytesTotal" [target; B direction] n] | None => [] end.

Lemma used_bytes target direction n :
  In target [B "primary"; B "shadow"] -> In direction ["sent"; "received"] -> (0 <= n)%Z ->
  well_used (Add "bytesTotal" [target; B direction] n) = true.
Proof.
  intros Ht Hd Hn.
  apply (well_used_Add (MkDecl "bytesTotal" Counter "shadow_proxy_bytes_total" ["target"; "direction"])); [done..| |done].
  repeat destruct Ht as [<- |Ht]; repeat destruct Hd as [<- |Hd]; by vm_compute.
Qed.

Lemma bytes_event_total target direction d n :
  In direction ["sent"; "received"] -> In d ["sent"; "received"] ->
  total "bytesTotal" [target; B d] (bytes_event target direction n)
  = if bool_decide (direction = d) then default 0%Z n else 0%Z.
Proof.
  intros Hd Hd'. destruct n as [n|]; [|by case_bool_decide]. cbn [bytes_event].
  case_bool_decide as E; [subst d; rewrite total_cons_same; cbn [total default from_option id]; lia|].
  rewrite total_cons_other; [done|]. right. cbn [Add m_labels]. intros [= Hb]. apply E. revert Hb.
  repeat destruct Hd as [<- |Hd]; repeat destruct Hd' as [<- |Hd']; done.
Qed.

(** The events of a request: some quiet ones, the bytes sent, more quiet ones, the
    bytes received, and the rest. *)
Definition round_events (target : bytes) (q1 : list metric) (sn : option Z) (q2 : list metric) (rn : option Z)
    (q3 : list metric) : list metric :=
  q1 ++ bytes_event target "sent" sn ++ q2 ++ bytes_event target "received" rn ++ q3.

Lemma round_events_spec vars target q1 sn q2 rn q3 :
  In target [B "primary"; B "shadow"] -> existsb (String.eqb "bytesTotal") vars = true ->
  quiet vars q1 -> quiet vars q2 -> quiet vars q3 -> (0 <= default 0 sn)%Z -> (0 <= default 0 rn)%Z ->
  emits vars (round_events target q1 sn q2 rn q3) /\
  total "bytesTotal" [target; B "sent"] (round_events target q1 sn q2 rn q3) = default 0%Z sn /\
  total "bytesTotal" [target; B "received"] (round_events target q1 sn q2 rn q3) = default 0%Z rn.
Proof.
  intros Ht Hv [E1 T1] [E2 T2] [E3 T3] Hsn Hrn.
  assert (He : forall d n, In d ["sent"; "received"] -> (0 <= default 0 n)%Z -> emits vars (bytes_event target d n)).
  { intros d [n|] Hd Hn; [|by repeat constructor]. split.
    - apply used_cons. split; [by apply used_bytes|constructor].
    - apply Forall_cons_iff. split; [|constructor]. apply existsb_exists in Hv as (w & Hw & Heq).
      apply String.eqb_eq in Heq. by subst. }
  unfold round_events. split; [repeat apply emits_app; try done; apply He; simpl; tauto|].
  rewrite !total_app, !bytes_event_total, T1, T2, T3, !T1, !T2, !T3 by (simpl; tauto).
  split; repeat case_bool_decide; try done; lia.
Qed.

(** ** Properties *)

Fixpoint increasing (buckets : list Z) : bool :=
  match buckets with
  | x :: (y :: _) as rest => (x <? y)%Z && increasing rest
  | _ => true
  end.

(** Registration cannot panic and misses no metric. On an empty registry [init]
    succeeds and registers every metric of src/metrics.go and the queue-depth gauge,
    each once; the query logger's metrics can then be registered - once, however
    often a logger is created - without a name clash; every histogram's buckets
    increase. *)
Theorem metrics_registered_once `{PrometheusRegistry Reg} (calls : nat) :
  exists r r' flag,
    init reg_empty = (Ok tt, r) /\
    Permutation (reg_names r) (map d_Name (queue_depth_gauge :: proxy_metrics)) /\
    Nat.iter (S calls) (fun s => registerQueryLoggerMetrics s.2) (Ok tt, (false, r)) = (Ok tt, (flag, r')) /\
    Permutation (reg_names r') (map d_Name (query_logger_metrics ++ queue_depth_gauge :: proxy_metrics)) /\
    NoDup (reg_names r') /\
    Forall (fun d => match d_kind d with Histogram buckets => increasing buckets = true | _ => True end)
      (proxy_metrics ++ query_logger_metrics).
Proof.
  destruct init_registers as (r & r' & E & Hp & E' & Hp').
  exists r, r', true. split_and!; [done|done| |done|rewrite Hp'; vm_decide|by repeat constructor].
  rewrite Nat.iter_succ_r. unfold registerQueryLoggerMetrics at 2. cbn [snd]. rewrite E'.
  induction calls as [|calls IH]; [done|]. rewrite Nat.iter_succ, IH. done.
Qed.

(** A registry as a list of names. *)
#[export] Program Instance list_registry : PrometheusRegistry (list string) := {|
  reg_names r := r;
  reg_empty := [];
  Register d r :=
    if bool_decide (d_Name d ∈ r) then (Some (ErrMsg "duplicate metrics collector registration attempted"), r)
    else (None, d_Name d :: r);
  Unregister d r := base.filter (fun n => n <> d_Name d) r;
|}.
Next Obligation. done. Qed.
Next Obligation. intros d r Hn. simpl in *. rewrite bool_decide_false by (by rewrite list_elem_of_In). by eexists. Qed.
Next Obligation. intros d r e r'. simpl. case_bool_decide; [by intros [= _ <-]|done]. Qed.
Next Obligation.
  intros d r names Hp Hn. simpl in *. rewrite Hp, filter_cons_False by tauto.
  clear Hp. induction names as [|n names IH]; [done|].
  rewrite filter_cons_True; [|by intros ->; apply Hn; left]. constructor. apply IH. by intros Hi; apply Hn; right.
Qed.

Lemma metrics_registered_once_witness : exists r r' flag,
    init (Reg := list string) reg_empty = (Ok tt, r) /\
    Permutation (reg_names r) (map d_Name (queue_depth_gauge :: proxy_metrics)) /\
    Nat.iter 3 (fun s => registerQueryLoggerMetrics s.2) (Ok tt, (false, r)) = (Ok tt, (flag, r')) /\
    Permutation (reg_names r') (map d_Name (query_logger_metrics ++ queue_depth_gauge :: proxy_metrics)) /\
    NoDup (reg_names r') /\
    Forall (fun d => match d_kind d with Histogram buckets => increasing buckets = true | _ => True end)
      (proxy_metrics ++ query_logger_metrics).
Proof. exact (metrics_registered_once (Reg := list string) 2). Defined.
