(* ===== verification/Duplex.v ===== *)
(** * Copying in both directions (src/proxy.go, src/pg_proxy.go)

    [proxyWithoutShadow], which serves a MySQL client whose shadow could not be
    reached, and [copyFallback], which serves a pgwire client from its first COPY
    on. Both start one goroutine per direction that runs [io.Copy]; they differ in
    what they wait for. Unlike in file GoNet a peer may be silent for a while, so a
    connection here has what has arrived and not been read yet, and a read with
    nothing to find blocks. The interleavings are the step relation [dx_step]. *)

From S2P Require Import Prelude GoNet.
From stdpp Require Import relations.

(** Where a goroutine is in [io.Copy]: in [src.Read], in [dst.Write] with what was
    read and the error that came with it, or returned. *)
Inductive copy_phase :=
  | Reading
  | Writing (d : bytes) (er : option error)
  | Finished (err : option error).

#[export] Instance copy_phase_eq_dec : EqDecision copy_phase.
Proof. solve_decision. Defined.

(** A direction: what arrived from the source and was not read, the goroutine, what
    was written to the destination, the outcomes of the next writes, whether the
    connections are closed, and - for the theorems - all that ever arrived. *)
Record Direction := MkDir {
  d_in : list read_ev;
  d_phase : copy_phase;
  d_out : bytes;
  d_wr : list (option (nat * error));
  d_closed : bool;
  d_arrived : list read_ev;
}.

Definition set_phase (p : copy_phase) (d : Direction) : Direction :=
  MkDir (d_in d) p (d_out d) (d_wr d) (d_closed d) (d_arrived d).

Definition errClosed : error := ErrConn "use of closed network connection".

(** [io.Copy]'s buffer. *)
Definition copy_buffer : nat := 32 * 1024.

(** [io.Copy] reports the end of the source as no error. *)
Definition copy_error (e : error) : option error := if bool_decide (e = ErrEOF) then None else Some e.

(** [io.Copy(dst, src)] from a read to the next blocking point. *)
Definition copy_read (d : Direction) : Direction :=
  if d_closed d then set_phase (Finished (Some errClosed)) d
  else
    let '(data, er, rest) := conn_read copy_buffer (d_in d) in
    let p := match data, er with
             | [], None => Reading
             | [], Some e => Finished (copy_error e)
             | _, _ => Writing data er
             end in
    MkDir rest p (d_out d) (d_wr d) (d_closed d) (d_arrived d).

Definition copy_write (data : bytes) (er : option error) (d : Direction) : Direction :=
  if d_closed d then set_phase (Finished (Some errClosed)) d
  else
    let after := match er with Some e => Finished (copy_error e) | None => Reading end in
    match d_wr d with
    | [] => MkDir (d_in d) after (d_out d ++ data) [] (d_closed d) (d_arrived d)
    | None :: w => MkDir (d_in d) after (d_out d ++ data) w (d_closed d) (d_arrived d)
    | Some (n, e) :: w =>
        MkDir (d_in d) (Finished (Some e)) (d_out d ++ take n data) w (d_closed d) (d_arrived d)
    end.

(** The peer sends more. *)
Definition arrive (ev : read_ev) (d : Direction) : Direction :=
  MkDir (d_in d ++ [ev]) (d_phase d) (d_out d) (d_wr d) (d_closed d) (d_arrived d ++ [ev]).

Definition close_dir (d : Direction) : Direction :=
  MkDir (d_in d) (d_phase d) (d_out d) (d_wr d) true (d_arrived d).

Definition finished (d : Direction) : bool := match d_phase d with Finished _ => true | _ => false end.

(** A step of the goroutine: a read that finds something, or a write. *)
Inductive copy_step : Direction -> Direction -> Prop :=
  | cs_read d : d_phase d = Reading -> d_in d <> [] \/ d_closed d = true -> copy_step d (copy_read d)
  | cs_write d data er : d_phase d = Writing data er -> copy_step d (copy_write data er d).

(** The two directions, and whether the function that started them has returned. *)
Record Duplex := MkDuplex { to_primary : Direction; to_client : Direction; dx_returned : bool }.

(** [wg.Wait()] of [proxyWithoutShadow], [<-done] of [copyFallback]. *)
Definition proxyWithoutShadow_waits (x : Duplex) : bool :=
  negb (finished (to_primary x) && finished (to_client x)).
Definition copyFallback_waits (x : Duplex) : bool :=
  negb (finished (to_primary x) || finished (to_client x)).

(** After the wait both connections are closed: by [copyFallback] itself, or by the
    deferred calls of [handleConnection]. *)
Definition dx_return (x : Duplex) : Duplex :=
  MkDuplex (close_dir (to_primary x)) (close_dir (to_client x)) true.

Section duplex.
Context (waits : Duplex -> bool).

(** Steps of the proxy. *)
Inductive dx_work : Duplex -> Duplex -> Prop :=
  | dx_to_primary d d' e r : copy_step d d' -> dx_work (MkDuplex d e r) (MkDuplex d' e r)
  | dx_to_client d e e' r : copy_step e e' -> dx_work (MkDuplex d e r) (MkDuplex d e' r)
  | dx_wait x : dx_returned x = false -> waits x = false -> dx_work x (dx_return x).

(** Steps of the peers; a peer whose stream has ended sends no more. *)
Inductive dx_peer : Duplex -> Duplex -> Prop :=
  | dx_from_client ev d e r : clean (d_arrived d) -> dx_peer (MkDuplex d e r) (MkDuplex (arrive ev d) e r)
  | dx_from_primary ev d e r : clean (d_arrived e) -> dx_peer (MkDuplex d e r) (MkDuplex d (arrive ev e) r).

Definition dx_step (x x' : Duplex) : Prop := dx_work x x' \/ dx_peer x x'.
End duplex.

(** The goroutines start with what the connections already hold. *)
Definition start_dir (src : list read_ev) (w : list (option (nat * error))) : Direction :=
  MkDir src Reading [] w false src.

Definition dx_start (client primary : Conn) : Duplex :=
  MkDuplex (start_dir (c_in client) (c_wr primary)) (start_dir (c_in primary) (c_wr client)) false.

Definition proxyWithoutShadow (client primary : Conn) (x : Duplex) : Prop :=
  rtc (dx_step proxyWithoutShadow_waits) (dx_start client primary) x.
Definition copyFallback (client primary : Conn) (x : Duplex) : Prop :=
  rtc (dx_step copyFallback_waits) (dx_start client primary) x.

(** ** One direction *)

(** What was read and not written. *)
Definition dir_in_hand (d : Direction) : bytes := match d_phase d with Writing x _ => x | _ => [] end.

(** The error the goroutine has in hand; an error is the last thing of a stream. *)
Definition read_error (d : Direction) : option error :=
  match d_phase d with Writing _ er => er | _ => None end.

(** A stream whose only error is at its end. *)
Fixpoint stream_ok (s : list read_ev) : Prop :=
  match s with
  | [] => True
  | ev :: s' => (ev_err ev = None \/ s' = []) /\ stream_ok s'
  end.

Record dir_inv (d : Direction) : Prop := {
  di_arrived : stream_ok (d_arrived d);
  di_in : stream_ok (d_in d);
  di_clean : clean (d_arrived d) -> clean (d_in d) /\ read_error d = None;
  di_err : read_error d <> None -> d_in d = [];
  di_hand : (exists x er, d_phase d = Writing x er) -> dir_in_hand d <> [];
  di_running : finished d = false -> d_out d ++ dir_in_hand d ++ data (d_in d) = data (d_arrived d);
  di_finished : d_phase d = Finished None -> d_out d = data (d_arrived d) /\ ~ clean (d_arrived d);
  di_prefix : d_out d `prefix_of` data (d_arrived d);
}.

Lemma data_app s1 s2 : data (s1 ++ s2) = data s1 ++ data s2.
Proof. unfold data. by rewrite map_app, concat_app. Qed.

Lemma data_cons ev s : data (ev :: s) = ev_data ev ++ data s.
Proof. done. Qed.

Lemma stream_ok_snoc s ev : clean s -> stream_ok s -> stream_ok (s ++ [ev]).
Proof.
  induction s as [|ev' s IH]; intros Hc Hs; [simpl; auto|].
  apply clean_cons_inv in Hc as [He Hc]. destruct Hs as [_ Hs]. simpl. auto.
Qed.

Lemma stream_ok_clean s : clean s -> stream_ok s.
Proof. induction 1; simpl; auto. Qed.

(** A read that finds something: it takes data off the front, and an error only with
    all of it. *)
Lemma conn_read_stream s data' er rest :
  s <> [] -> conn_read copy_buffer s = (data', er, rest) -> stream_ok s ->
  data s = data' ++ data rest /\ stream_ok rest /\ (clean s -> clean rest /\ er = None) /\
  (er <> None -> rest = [] /\ ~ clean s).
Proof.
  intros Hne Hr Hs. destruct s as [|[x e] s]; [done|]. unfold conn_read in Hr.
  rewrite bool_decide_false in Hr by (unfold copy_buffer; lia). destruct Hs as [He Hs]. simpl in He.
  case_bool_decide; simplify_eq; rewrite ?data_cons; cbn [ev_data].
  - split; [done|]. split; [done|]. split; [intros Hc; by apply clean_cons_inv in Hc as [? ?]|].
    intros Hn. destruct He as [He|He]; [done|]. split; [done|]. intros Hc. by apply clean_cons_inv in Hc as [? ?].
  - split; [by rewrite app_assoc, take_drop|]. split; [by split|]. split; [|done].
    intros Hc. apply clean_cons_inv in Hc as [? ?]. split; [by constructor|done].
Qed.

(** The clauses of the invariant a step leaves alone. *)
Ltac dir_clauses := split; simpl; auto; try done; try (by intros (? & ? & ?)); try (intros; split; tauto); try (intuition congruence).

Lemma start_dir_inv src w : clean src -> dir_inv (start_dir src w).
Proof.
  intros Hc. pose proof (stream_ok_clean _ Hc). dir_clauses. apply prefix_nil.
Qed.

Lemma copy_error_None e : copy_error e = None <-> e = ErrEOF.
Proof. unfold copy_error. case_bool_decide; by split. Qed.

Lemma copy_step_inv d d' : copy_step d d' -> dir_inv d -> dir_inv d'.
Proof.
  intros [d0 Hp Hin|d0 x er Hp] Hi; destruct d0 as [i p o w c a]; simpl in *; subst p; destruct Hi; simpl in *.
  - unfold copy_read; cbn [d_closed d_in]. destruct c; [by dir_clauses|].
    destruct Hin as [Hne|]; [|done].
    destruct (conn_read copy_buffer i) as [[x er] rest] eqn:Er.
    destruct (conn_read_stream _ _ _ _ Hne Er di_in0) as (Hd & Hs & Hc & He).
    specialize (di_running0 eq_refl). rewrite Hd in di_running0. unfold dir_in_hand in di_running0. simpl in di_running0.
    destruct x as [|b x]; [destruct er as [e|]|];
      dir_clauses.
    intros _. destruct (He ltac:(done)) as [-> Hcl]. split; [|tauto].
    unfold data in di_running0 at 1. simpl in di_running0. by rewrite app_nil_r in di_running0.
  - unfold copy_write; cbn [d_closed d_wr d_in d_out d_arrived].
    specialize (di_running0 eq_refl). unfold dir_in_hand, read_error in *. simpl in *.
    destruct c; [by dir_clauses|].
    assert (Hall : forall w', dir_inv (MkDir i (match er with Some e => Finished (copy_error e) | None => Reading end)
                                         (o ++ x) w' false a)).
    { intros w'. rewrite app_assoc in di_running0.
      destruct er as [e|]; dir_clauses.
      - intros _. rewrite (di_err0 ltac:(done)) in di_running0. unfold data in di_running0 at 1. simpl in di_running0.
        rewrite app_nil_r in di_running0. split; [done|]. intros Hc. by destruct (di_clean0 Hc).
      - rewrite <- di_running0. by apply prefix_app_r.
      - rewrite <- di_running0. by apply prefix_app_r. }
    destruct w as [|[[n e]|] w]; [apply Hall| |apply Hall].
    dir_clauses.
    rewrite <- di_running0. apply prefix_app. eapply transitivity; [apply prefix_take|]. by apply prefix_app_r.
Qed.

Lemma arrive_inv ev d : clean (d_arrived d) -> dir_inv d -> dir_inv (arrive ev d).
Proof.
  destruct d as [i p o w c a]. intros Hc []. simpl in *. destruct (di_clean0 Hc) as [Hci Her].
  unfold arrive; split; simpl; unfold finished, dir_in_hand, read_error in *; simpl in *; auto.
  - by apply stream_ok_snoc.
  - by apply stream_ok_snoc.
  - intros Hc'. apply Forall_app in Hc' as [_ Hc']. split; [by apply Forall_app|done].
  - by rewrite Her.
  - intros Hf. rewrite !data_app, !app_assoc. f_equal. rewrite <- app_assoc. by apply di_running0.
  - intros Hf. by destruct (di_finished0 Hf).
  - rewrite data_app. by apply prefix_app_r.
Qed.

Lemma close_dir_inv d : dir_inv d -> dir_inv (close_dir d).
Proof. destruct d. intros []. by split. Qed.

(** ** Both directions *)

Definition dx_inv (x : Duplex) : Prop := dir_inv (to_primary x) /\ dir_inv (to_client x).

Lemma dx_step_inv waits x x' : dx_step waits x x' -> dx_inv x -> dx_inv x'.
Proof.
  intros [Hs|Hs] [Hp Hc]; destruct Hs; simpl in *; split; simpl;
    eauto using copy_step_inv, arrive_inv, close_dir_inv.
Qed.

Lemma dx_start_inv client primary : clean (c_in client) -> clean (c_in primary) -> dx_inv (dx_start client primary).
Proof. intros. by split; apply start_dir_inv. Qed.

Lemma dx_reachable_inv waits client primary x :
  clean (c_in client) -> clean (c_in primary) ->
  rtc (dx_step waits) (dx_start client primary) x -> dx_inv x.
Proof.
  intros Hc Hp. revert x. apply (rtc_ind_r (fun x => dx_inv x)); [by apply dx_start_inv|].
  intros y z _ Hs Hi. by eapply dx_step_inv.
Qed.

(** What a direction promises: a prefix of the source's bytes, all of them at the
    source's end, and nothing held back while it waits. *)
Definition faithful (d : Direction) : Prop :=
  d_out d `prefix_of` data (d_arrived d) /\
  (d_phase d = Finished None -> d_out d = data (d_arrived d)) /\
  (d_phase d = Reading -> d_in d = [] -> d_out d = data (d_arrived d)).

Lemma dir_inv_faithful d : dir_inv d -> faithful d.
Proof.
  intros []. split; [done|]. split; [intros Hf; by apply di_finished0|]. intros Hr Hi.
  unfold finished, dir_in_hand in di_running0. rewrite Hr, Hi in di_running0. specialize (di_running0 eq_refl).
  unfold data in di_running0 at 1. simpl in di_running0. by rewrite app_nil_r in di_running0.
Qed.

(** What has arrived starts with what the connections held. *)
Lemma copy_step_arrived d d' : copy_step d d' -> d_arrived d' = d_arrived d.
Proof. destruct 1; unfold copy_read, copy_write; repeat case_match; done. Qed.

Lemma dx_arrived waits client primary x :
  rtc (dx_step waits) (dx_start client primary) x ->
  (exists more, d_arrived (to_primary x) = c_in client ++ more) /\
  (exists more, d_arrived (to_client x) = c_in primary ++ more).
Proof.
  revert x. apply (rtc_ind_r (fun x => (exists more, d_arrived (to_primary x) = c_in client ++ more) /\
    (exists more, d_arrived (to_client x) = c_in primary ++ more))).
  - split; exists []; by rewrite app_nil_r.
  - intros x x' _ [[d d' e r Hc%copy_step_arrived|d e e' r Hc%copy_step_arrived|y _ _]|[ev d e r _|ev d e r _]];
      intros [[m1 H1] [m2 H2]]; simpl in *; rewrite ?Hc, ?H1, ?H2, <- ?app_assoc; split; eexists; reflexivity.
Qed.

(** *** How many steps the goroutines can take without news from a peer *)

Definition stream_weight (s : list read_ev) : nat := sum_list_with (fun ev => 2 * (length (ev_data ev) + 1)) s.
Definition phase_steps (p : copy_phase) : nat := match p with Reading => 1 | Writing _ _ => 2 | Finished _ => 0 end.
Definition dir_weight (d : Direction) : nat := stream_weight (d_in d) + phase_steps (d_phase d).
Definition dx_weight (x : Duplex) : nat :=
  dir_weight (to_primary x) + dir_weight (to_client x) + (if dx_returned x then 0 else 1).

Lemma stream_weight_cons ev s : stream_weight (ev :: s) = 2 * (length (ev_data ev) + 1) + stream_weight s.
Proof. done. Qed.

Lemma conn_read_weight s x er rest :
  s <> [] -> conn_read copy_buffer s = (x, er, rest) -> stream_weight rest + 2 <= stream_weight s.
Proof.
  intros Hne Hr. destruct s as [|[y e] s]; [done|]. unfold conn_read in Hr.
  rewrite bool_decide_false in Hr by (unfold copy_buffer; lia).
  case_bool_decide; simplify_eq; rewrite !stream_weight_cons; cbn [ev_data]; [lia|].
  rewrite length_drop. unfold copy_buffer in *. lia.
Qed.

Lemma copy_step_weight d d' : copy_step d d' -> dir_weight d' < dir_weight d.
Proof.
  intros [d0 Hp Hin|d0 x er Hp]; destruct d0 as [i p o w c a]; simpl in *; subst p; unfold dir_weight.
  - unfold copy_read; cbn [d_closed d_in]. destruct c; [simpl; lia|]. destruct Hin as [Hne|]; [|done].
    destruct (conn_read copy_buffer i) as [[x er] rest] eqn:Er. pose proof (conn_read_weight _ _ _ _ Hne Er).
    simpl. destruct x, er; simpl; lia.
  - unfold copy_write; cbn [d_closed d_wr]. destruct c; [simpl; lia|].
    destruct w as [|[[n e]|] w], er; simpl; lia.
Qed.

Lemma dx_work_weight waits x x' : dx_work waits x x' -> dx_weight x' < dx_weight x.
Proof.
  intros [d d' e r Hs%copy_step_weight|d e e' r Hs%copy_step_weight|y Hr _]; unfold dx_weight; simpl; [lia|lia|].
  rewrite Hr. unfold dir_weight, close_dir. simpl. lia.
Qed.

Lemma dx_work_bound waits n : forall x x', nsteps (dx_work waits) n x x' -> n + dx_weight x' <= dx_weight x.
Proof.
  induction n as [|n IH]; intros x x' Hn; inversion Hn as [|? ? x1 ? Hs Hn']; subst; [lia|].
  apply IH in Hn'. apply dx_work_weight in Hs. lia.
Qed.

(** A direction that can do nothing has finished or waits for its source. *)
Lemma copy_stopped d : (forall d', ~ copy_step d d') -> finished d = true \/ (d_phase d = Reading /\ d_in d = []).
Proof.
  intros Hn. unfold finished. destruct (d_phase d) eqn:Ep; [|by destruct (Hn (copy_write d0 er d)); constructor|by left].
  right. split; [done|]. destruct (d_in d) eqn:Ei; [done|]. destruct (Hn (copy_read d)). constructor; [done|left]. by rewrite Ei.
Qed.

Lemma dx_stopped waits x : (forall x', ~ dx_work waits x x') ->
  (finished (to_primary x) = true \/ (d_phase (to_primary x) = Reading /\ d_in (to_primary x) = [])) /\
  (finished (to_client x) = true \/ (d_phase (to_client x) = Reading /\ d_in (to_client x) = [])) /\
  (waits x = false -> dx_returned x = true).
Proof.
  destruct x as [d e r]. intros Hn. split; [|split].
  - apply copy_stopped. intros d' Hs. by eapply Hn, dx_to_primary.
  - apply copy_stopped. intros e' Hs. by eapply Hn, dx_to_client.
  - intros Hw. destruct r; [done|]. by edestruct Hn; apply dx_wait.
Qed.

(** ** Properties *)


(** A client that sends a query and ends; a primary that answers and stays. *)
Definition dx_client : Conn := MkConn [ReadEv (B "query") None] [] [].
Definition dx_primary : Conn := MkConn [ReadEv (B "answer") None] [] [].
Definition dx_eof : read_ev := ReadEv [] (Some ErrEOF).

Definition client_gone : Duplex :=
  let d1 := copy_write (B "query") None (copy_read (to_primary (dx_start dx_client dx_primary))) in
  let e1 := copy_write (B "answer") None (copy_read (to_client (dx_start dx_client dx_primary))) in
  MkDuplex (copy_read (arrive dx_eof d1)) e1 false.

Lemma client_gone_reachable waits : rtc (dx_step waits) (dx_start dx_client dx_primary) client_gone.
Proof.
  eapply rtc_l; [left; apply dx_to_primary, cs_read; [done|by left]|].
  eapply rtc_l; [left; apply dx_to_primary, cs_write; reflexivity|].
  eapply rtc_l; [left; apply dx_to_client, cs_read; [done|by left]|].
  eapply rtc_l; [left; apply dx_to_client, cs_write; reflexivity|].
  eapply rtc_l; [right; apply (dx_from_client dx_eof); by repeat constructor|].
  eapply rtc_l; [left; apply dx_to_primary, cs_read; [done|by left]|].
  apply rtc_refl.
Qed.


(** [copyFallback] returns then. *)
Example copyFallback_returns : dx_work copyFallback_waits client_gone (dx_return client_gone).
Proof. by apply dx_wait. Qed.

(** *** The end of the client is not passed on *)

(** Without a word from the primary its direction does not move. *)
Lemma waiting_for_primary x x' :
  dx_work proxyWithoutShadow_waits x x' \/ (exists ev, x' = MkDuplex (arrive ev (to_primary x)) (to_client x) (dx_returned x)) ->
  d_phase (to_client x) = Reading -> d_in (to_client x) = [] -> d_closed (to_client x) = false ->
  to_client x' = to_client x /\ dx_returned x' = dx_returned x.
Proof.
  intros Hs Hp Hi Hc. destruct Hs as [Hs|[ev ->]]; [|done]. destruct Hs as [|? ? ? ? Hs|y Hr Hw]; [done| |].
  - simpl in *. inversion Hs; subst; [|congruence]. rewrite Hi, Hc in *. naive_solver.
  - unfold proxyWithoutShadow_waits, finished in Hw. rewrite Hp, andb_false_r in Hw. done.
Qed.

(** [proxyWithoutShadow] does not end with its client. While the primary is silent
    it cannot return, whatever the client does - disconnecting included: nothing
    closes or half-closes the connection to the primary when the client's direction
    has ended, so connection, goroutines and the active-connections gauge stay until
    the primary closes. [copyFallback] in the same situation returns. *)
Theorem proxyWithoutShadow_outlives_client x x' :
  d_phase (to_client x) = Reading -> d_in (to_client x) = [] -> d_closed (to_client x) = false ->
  dx_returned x = false ->
  rtc (fun y y' => dx_work proxyWithoutShadow_waits y y' \/
                   (exists ev, y' = MkDuplex (arrive ev (to_primary y)) (to_client y) (dx_returned y))) x x' ->
  dx_returned x' = false.
Proof.
  intros Hp Hi Hc Hr Hs. assert (to_client x' = to_client x /\ dx_returned x' = false) as [_ ?]; [|done].
  revert x' Hs. apply (rtc_ind_r (fun x' => to_client x' = to_client x /\ dx_returned x' = false)); [done|].
  intros y z _ Hs [Hy Hry]. rewrite <- Hy in *. rewrite <- Hry. by apply waiting_for_primary.
Qed.

(** The client of the example before and after it disconnects. *)
Definition client_served : Duplex :=
  MkDuplex (copy_write (B "query") None (copy_read (to_primary (dx_start dx_client dx_primary)))) (to_client client_gone) false.

Lemma proxyWithoutShadow_outlives_client_witness :
  finished (to_primary client_gone) = true /\ dx_returned client_gone = false /\
  dx_work copyFallback_waits client_gone (dx_return client_gone).
Proof.
  split; [reflexivity|]. split; [|by apply dx_wait].
  apply (proxyWithoutShadow_outlives_client client_served client_gone); [reflexivity..|].
  eapply rtc_l; [right; exists dx_eof; reflexivity|].
  eapply rtc_l; [left; apply dx_to_primary, cs_read; [done|by left]|]. apply rtc_refl.
Defined.
