(* ===== verification/MySQLProtocol.v ===== *)
(** * MySQL packets (src/mysql_protocol.go)

    Command classification, the unbuffered [readMySQLPacket], and the buffered
    [MySQLPacketReader] with its buffer compaction and growth. The reader is an
    instance of the class [PacketSource] against which the response parsers
    (file MySQLResponse) are written and proved. *)

From S2P Require Import Prelude GoNet.

(** ** Constants *)

Definition clientSSL : Z := 0x00000800.
Definition serverMoreResultsExist : Z := 0x0008.

Definition comSleep : Z := 0x00.
Definition comQuit : Z := 0x01.
Definition comInitDB : Z := 0x02.
Definition comQuery : Z := 0x03.
Definition comFieldList : Z := 0x04.
Definition comCreateDB : Z := 0x05.
Definition comDropDB : Z := 0x06.
Definition comRefresh : Z := 0x07.
Definition comShutdown : Z := 0x08.
Definition comStatistics : Z := 0x09.
Definition comProcessInfo : Z := 0x0A.
Definition comConnect : Z := 0x0B.
Definition comProcessKill : Z := 0x0C.
Definition comDebug : Z := 0x0D.
Definition comPing : Z := 0x0E.
Definition comChangeUser : Z := 0x11.
Definition comStmtPrepare : Z := 0x16.
Definition comStmtExecute : Z := 0x17.
Definition comStmtSendLongData : Z := 0x18.
Definition comStmtClose : Z := 0x19.
Definition comStmtReset : Z := 0x1A.
Definition comSetOption : Z := 0x1B.
Definition comStmtFetch : Z := 0x1C.
Definition comResetConnection : Z := 0x1F.

(** ** Commands *)

(** The verbs [%02X] and [%02x] on a byte. *)
Definition hex_digit (upper : bool) (d : Z) : Ascii.ascii :=
  Ascii.ascii_of_N (Z.to_N (if d <? 10 then 48 + d
                            else (if upper then 55 else 87) + d)%Z).
Definition fmt_02x (upper : bool) (b : byte) : string :=
  String (hex_digit upper (u8 b / 16)) (String (hex_digit upper (u8 b mod 16)) EmptyString).

Definition getMySQLCommandName (b : byte) : string :=
  let cmd := u8 b in
  if (cmd =? comSleep)%Z then "COM_SLEEP"
  else if (cmd =? comQuit)%Z then "COM_QUIT"
  else if (cmd =? comInitDB)%Z then "COM_INIT_DB"
  else if (cmd =? comQuery)%Z then "COM_QUERY"
  else if (cmd =? comFieldList)%Z then "COM_FIELD_LIST"
  else if (cmd =? comCreateDB)%Z then "COM_CREATE_DB"
  else if (cmd =? comDropDB)%Z then "COM_DROP_DB"
  else if (cmd =? comRefresh)%Z then "COM_REFRESH"
  else if (cmd =? comShutdown)%Z then "COM_SHUTDOWN"
  else if (cmd =? comStatistics)%Z then "COM_STATISTICS"
  else if (cmd =? comProcessInfo)%Z then "COM_PROCESS_INFO"
  else if (cmd =? comConnect)%Z then "COM_CONNECT"
  else if (cmd =? comProcessKill)%Z then "COM_PROCESS_KILL"
  else if (cmd =? comDebug)%Z then "COM_DEBUG"
  else if (cmd =? comPing)%Z then "COM_PING"
  else if (cmd =? comChangeUser)%Z then "COM_CHANGE_USER"
  else if (cmd =? comStmtPrepare)%Z then "COM_STMT_PREPARE"
  else if (cmd =? comStmtExecute)%Z then "COM_STMT_EXECUTE"
  else if (cmd =? comStmtSendLongData)%Z then "COM_STMT_SEND_LONG_DATA"
  else if (cmd =? comStmtClose)%Z then "COM_STMT_CLOSE"
  else if (cmd =? comStmtReset)%Z then "COM_STMT_RESET"
  else if (cmd =? comSetOption)%Z then "COM_SET_OPTION"
  else if (cmd =? comStmtFetch)%Z then "COM_STMT_FETCH"
  else if (cmd =? comResetConnection)%Z then "COM_RESET_CONNECTION"
  else "COM_UNKNOWN(0x" +:+ fmt_02x true b +:+ ")".

Definition isCountableCommand (cmd : byte) : bool :=
  (u8 cmd =? comQuery)%Z || (u8 cmd =? comStmtPrepare)%Z || (u8 cmd =? comStmtExecute)%Z.

Definition isSimpleResponseCommand (cmd : byte) : bool :=
  (u8 cmd =? comInitDB)%Z || (u8 cmd =? comPing)%Z
  || (u8 cmd =? comStmtReset)%Z || (u8 cmd =? comResetConnection)%Z.

Definition isNoResponseCommand (cmd : byte) : bool :=
  (u8 cmd =? comQuit)%Z || (u8 cmd =? comStmtClose)%Z || (u8 cmd =? comStmtSendLongData)%Z.

(** [(0, false)] is [None]; the callers that ignore the flag use byte 0. *)
Definition getMySQLCommand (packet : bytes) : option byte :=
  if bool_decide (length packet < 5) then None else packet !! 4.

(** [strings.ReplaceAll(s, old, new)] for a one-byte [old]. *)
Definition replace_byte (old : byte) (new s : bytes) : bytes :=
  concat (map (fun c => if bool_decide (c = old) then new else [c]) s).

Definition extractQueryPreview (packet : bytes) (maxLen : nat) : bytes :=
  match packet !! 4 with
  | None => B "<packet too short>"
  | Some cmd =>
      if negb (u8 cmd =? 0x03)%Z then
        B ("<not a query, cmd=0x" +:+ fmt_02x false cmd +:+ ">")
      else if bool_decide (length packet <= 5) then B "<empty query>"
      else
        let query := drop 5 packet in
        let query := if bool_decide (maxLen < length query)
                     then take maxLen query ++ B "..." else query in
        replace_byte Byte.x0d [] (replace_byte Byte.x0a (B " ") query)
  end.

(** ** Unbuffered packet reading *)

Definition readMySQLPacket (s : list read_ev) : result bytes * list read_ev :=
  let? header, s := ReadFull 4 s in
  match header with
  | b0 :: b1 :: b2 :: _ =>
      let? payload, s := ReadFull (Z.to_nat (le24 b0 b1 b2)) s in
      (Ok (header ++ payload), s)
  | _ => (Panic, s)
  end.

(** ** The buffered reader *)

Record MySQLPacketReader := MkReader {
  r_conn : list read_ev;
  r_buf : bytes;
  r_offset : nat;
  r_end : nat;
}.

Definition readerBufSize : nat := Z.to_nat (64 * 1024).
#[global] Opaque readerBufSize.

Definition NewMySQLPacketReader (conn : list read_ev) : MySQLPacketReader :=
  MkReader conn (replicate readerBufSize Byte.x00) 0 0.

(** [for r.end < n { Read(r.buf[r.end:]) }] *)
Fixpoint ensure_loop (fuel n : nat) (r : MySQLPacketReader) : result unit * MySQLPacketReader :=
  match fuel with
  | O => (Stuck, r)
  | S fuel =>
      if bool_decide (r_end r < n) then
        let '(d, e, conn') := conn_read (length (r_buf r) - r_end r) (r_conn r) in
        let buf' := take (r_end r) (r_buf r) ++ d ++ drop (r_end r + length d) (r_buf r) in
        match e with
        | Some e => (Err e, MkReader conn' buf' (r_offset r) (r_end r))
        | None => ensure_loop fuel n (MkReader conn' buf' (r_offset r) (r_end r + length d))
        end
      else (Ok tt, r)
  end.

Definition compact (r : MySQLPacketReader) : MySQLPacketReader :=
  let available := r_end r - r_offset r in
  if bool_decide (0 < r_offset r) then
    let moved := take available (drop (r_offset r) (r_buf r)) in
    let buf' := if bool_decide (0 < available)
                then moved ++ drop available (r_buf r) else r_buf r in
    MkReader (r_conn r) buf' 0 available
  else r.

Definition grow (n : nat) (r : MySQLPacketReader) : MySQLPacketReader :=
  if bool_decide (length (r_buf r) < n) then
    let newBuf := take (r_end r) (r_buf r) ++ replicate (n * 2 - r_end r) Byte.x00 in
    MkReader (r_conn r) newBuf (r_offset r) (r_end r)
  else r.

Definition ensureBytes (n : nat) (r : MySQLPacketReader) : result unit * MySQLPacketReader :=
  if bool_decide (n <= r_end r - r_offset r) then (Ok tt, r)
  else let r := grow n (compact r) in
       ensure_loop (S (S (length (r_conn r)))) n r.

Definition reader_ReadPacket (r : MySQLPacketReader) : result bytes * MySQLPacketReader :=
  let? _u, r := ensureBytes 4 r in
  match drop (r_offset r) (r_buf r) with
  | b0 :: b1 :: b2 :: _ =>
      let totalLen := 4 + Z.to_nat (le24 b0 b1 b2) in
      let? _u, r := ensureBytes totalLen r in
      let packet := take totalLen (drop (r_offset r) (r_buf r)) in
      (Ok packet, MkReader (r_conn r) (r_buf r) (r_offset r + totalLen) (r_end r))
  | _ => (Panic, r)
  end.

(** ** The reader's invariant and its view as a byte stream *)

Definition window (r : MySQLPacketReader) : bytes :=
  take (r_end r - r_offset r) (drop (r_offset r) (r_buf r)).

Definition reader_ok (r : MySQLPacketReader) : Prop :=
  r_offset r <= r_end r <= length (r_buf r).

(** The reader will see the bytes [w] next, coming from its buffer and the
    error-free segments at the head of its connection; [tl] follows them. *)
Definition will_read (r : MySQLPacketReader) (w : bytes) (tl : list read_ev) : Prop :=
  reader_ok r /\ exists cl, r_conn r = cl ++ tl /\ clean cl /\ window r ++ data cl = w.

Lemma length_window r : reader_ok r -> length (window r) = r_end r - r_offset r.
Proof. unfold reader_ok, window. rewrite length_take, length_drop. lia. Qed.

Lemma will_read_window r : reader_ok r -> will_read r (window r) (r_conn r).
Proof.
  intros Hok. split; [done|]. exists []. unfold data; simpl. rewrite app_nil_r.
  split_and!; auto. constructor.
Qed.

Lemma NewMySQLPacketReader_will_read cl tl :
  clean cl -> will_read (NewMySQLPacketReader (cl ++ tl)) (data cl) tl.
Proof.
  intros Hcl. split; [unfold reader_ok; simpl; lia|]. exists cl. unfold window; simpl. auto.
Qed.

Lemma compact_spec r :
  reader_ok r ->
  reader_ok (compact r) /\ window (compact r) = window r /\
  r_conn (compact r) = r_conn r /\ r_offset (compact r) = 0.
Proof.
  unfold reader_ok, compact, window. intros Hok.
  case_bool_decide as Ho; simpl; [|destruct r; simpl in *; auto with lia].
  case_bool_decide as Ha; simpl.
  - rewrite !length_app, length_take, !length_drop.
    split; [lia|]. split; [|done]. rewrite drop_0, Nat.sub_0_r.
    apply take_app_length'. rewrite length_take, length_drop. lia.
  - split; [lia|]. split; [|done]. assert (r_end r - r_offset r = 0) as -> by lia. done.
Qed.

Lemma grow_spec n r :
  reader_ok r -> r_offset r = 0 -> r_end r <= n ->
  reader_ok (grow n r) /\ window (grow n r) = window r /\
  r_conn (grow n r) = r_conn r /\ r_offset (grow n r) = 0 /\
  r_end (grow n r) = r_end r /\ n <= length (r_buf (grow n r)).
Proof.
  unfold reader_ok, grow, window. intros Hok Ho Hn.
  case_bool_decide as E; simpl; [|auto with lia].
  rewrite length_app, length_take, length_replicate, Ho, !drop_0, Nat.sub_0_r.
  repeat split; try lia. rewrite take_app_le by (rewrite length_take; lia).
  by rewrite take_take, Nat.min_id.
Qed.

Lemma ensure_loop_enough fuel n r :
  0 < fuel -> n <= r_end r -> ensure_loop fuel n r = (Ok tt, r).
Proof.
  intros Hf Hn. destruct fuel as [|fuel]; [lia|]. simpl. by rewrite bool_decide_false by lia.
Qed.

(** Reading [d] into the free part of the buffer extends the window by [d]. *)
Lemma window_fill r d conn' :
  reader_ok r -> r_offset r = 0 -> length d <= length (r_buf r) - r_end r ->
  let r' := MkReader conn' (take (r_end r) (r_buf r) ++ d ++ drop (r_end r + length d) (r_buf r))
              (r_offset r) (r_end r + length d) in
  reader_ok r' /\ window r' = window r ++ d /\ length (r_buf r') = length (r_buf r).
Proof.
  unfold reader_ok, window. simpl. intros Hok -> Hd.
  rewrite !length_app, length_take, length_drop, !drop_0, !Nat.sub_0_r.
  repeat split; try lia. rewrite app_assoc, take_app_length'; [done|].
  rewrite length_app, length_take. lia.
Qed.

Lemma ensure_loop_clean fuel : forall n r cl tl,
  reader_ok r -> r_offset r = 0 -> n <= length (r_buf r) ->
  r_conn r = cl ++ tl -> clean cl -> length cl < fuel ->
  n <= length (window r ++ data cl) ->
  exists r', ensure_loop fuel n r = (Ok tt, r') /\
    will_read r' (window r ++ data cl) tl /\ n <= length (window r').
Proof.
  induction fuel as [|fuel IH]; intros n r cl tl Hok Ho Hn Hc Hcl Hf Hlen; [lia|].
  pose proof (length_window r Hok) as Hw.
  destruct (decide (r_end r < n)) as [E|E].
  2: { rewrite ensure_loop_enough by lia. exists r. split; [done|].
       split; [|lia]. split; [done|]. exists cl. auto. }
  simpl. rewrite bool_decide_true by done.
  assert (Hne : cl <> []).
  { intros ->. unfold data in Hlen; simpl in Hlen. rewrite app_nil_r in Hlen. lia. }
  assert (0 < length cl) by (destruct cl; [done|simpl; lia]).
  destruct (conn_read_clean (length (r_buf r) - r_end r) cl tl)
    as (d & cl' & Er & Hcl' & Hd & Hk & Hprog); [lia|done|done|].
  rewrite Hc, Er.
  destruct (window_fill r d (cl' ++ tl) Hok Ho Hk) as (Hok' & Hw' & Hlb).
  set (r' := MkReader _ _ _ _) in *.
  assert (Hst : window r' ++ data cl' = window r ++ data cl).
  { by rewrite Hw', <- app_assoc, Hd. }
  rewrite <- Hst. destruct Hprog as [Hprog|Hprog].
  - apply IH; [done|done|lia|done|done|lia|by rewrite Hst].
  - rewrite ensure_loop_enough by (simpl; lia). exists r'.
    split; [done|]. split; [split; [done|by exists cl']|].
    rewrite length_window by done. simpl. lia.
Qed.

Lemma ensureBytes_clean n r w tl :
  will_read r w tl -> n <= length w ->
  exists r', ensureBytes n r = (Ok tt, r') /\ will_read r' w tl /\ n <= length (window r').
Proof.
  intros (Hok & cl & Hc & Hcl & <-) Hn. unfold ensureBytes.
  pose proof (length_window r Hok) as Hw.
  case_bool_decide as E.
  { exists r. split; [done|]. split; [|lia]. split; [done|by exists cl]. }
  destruct (compact_spec r Hok) as (Hok1 & Hw1 & Hc1 & Ho1).
  pose proof (length_window _ Hok1) as Hl1.
  destruct (grow_spec n (compact r) Hok1 Ho1) as (Hok2 & Hw2 & Hc2 & Ho2 & He2 & Hb2);
    [rewrite Hw1 in Hl1; lia|].
  rewrite <- Hw1, <- Hw2. eapply ensure_loop_clean; eauto.
  - by rewrite Hc2, Hc1.
  - rewrite Hc2, Hc1, Hc, length_app. lia.
  - by rewrite Hw2, Hw1.
Qed.

(** The next read fails with [e] once the segments are used up: the peer closed
    the connection, or a read error (such as a deadline) comes first. *)
Definition next_fails (tl : list read_ev) (e : error) (tl' : list read_ev) : Prop :=
  (tl = [] /\ e = ErrEOF /\ tl' = []) \/ tl = ReadEv [] (Some e) :: tl'.

Lemma conn_read_fails k tl e tl' :
  0 < k -> next_fails tl e tl' -> conn_read k tl = ([], Some e, tl').
Proof.
  intros Hk [(-> & -> & ->)| ->]; unfold conn_read; rewrite bool_decide_false by lia; [done|].
  case_bool_decide; [done|simpl in *; lia].
Qed.

Lemma ensure_loop_fails fuel : forall n r cl tl e tl',
  reader_ok r -> r_offset r = 0 -> n <= length (r_buf r) ->
  r_conn r = cl ++ tl -> clean cl -> S (length cl) < fuel ->
  next_fails tl e tl' -> length (window r ++ data cl) < n ->
  exists r', ensure_loop fuel n r = (Err e, r') /\ will_read r' (window r ++ data cl) tl'.
Proof.
  induction fuel as [|fuel IH]; intros n r cl tl e tl' Hok Ho Hn Hc Hcl Hf Hnf Hlen; [lia|].
  pose proof (length_window r Hok) as Hw. rewrite length_app in Hlen.
  simpl. rewrite bool_decide_true by lia.
  destruct cl as [|ev cl].
  { rewrite Hc. simpl. rewrite (conn_read_fails _ _ e tl') by (done || lia).
    eexists. split; [done|]. unfold data. simpl. rewrite app_nil_r, Nat.add_0_r, take_drop.
    split; [exact Hok|]. exists []. split; [done|]. split; [constructor|].
    unfold data; simpl. by rewrite app_nil_r. }
  destruct (conn_read_clean (length (r_buf r) - r_end r) (ev :: cl) tl)
    as (d & cl' & Er & Hcl' & Hd & Hk & Hprog); [lia|done|done|].
  rewrite Hc, Er.
  destruct (window_fill r d (cl' ++ tl) Hok Ho Hk) as (Hok' & Hw' & Hlb).
  set (r' := MkReader _ _ _ _) in *.
  assert (Hst : window r' ++ data cl' = window r ++ data (ev :: cl)).
  { by rewrite Hw', <- app_assoc, Hd. }
  rewrite <- Hst. destruct Hprog as [Hprog|Hprog].
  - eapply IH; eauto; [lia|simpl in *; lia|]. rewrite Hst, length_app. lia.
  - rewrite <- Hd, length_app in Hlen. lia.
Qed.

(** When the stream cannot supply [n] bytes, [ensureBytes] reports the read
    error and keeps every byte that did arrive. *)
Lemma ensureBytes_fails n r w tl e tl' :
  will_read r w tl -> next_fails tl e tl' -> length w < n ->
  exists r', ensureBytes n r = (Err e, r') /\ will_read r' w tl'.
Proof.
  intros (Hok & cl & Hc & Hcl & <-) Hnf Hn. unfold ensureBytes.
  pose proof (length_window r Hok) as Hw. rewrite length_app in Hn.
  rewrite bool_decide_false by lia.
  destruct (compact_spec r Hok) as (Hok1 & Hw1 & Hc1 & Ho1).
  pose proof (length_window _ Hok1) as Hl1.
  destruct (grow_spec n (compact r) Hok1 Ho1) as (Hok2 & Hw2 & Hc2 & Ho2 & He2 & Hb2);
    [rewrite Hw1 in Hl1; lia|].
  rewrite <- Hw1, <- Hw2. eapply ensure_loop_fails; eauto.
  - by rewrite Hc2, Hc1.
  - rewrite Hc2, Hc1, Hc, length_app.
    destruct Hnf as [(-> & _)| ->]; simpl; lia.
  - rewrite Hw2, Hw1, length_app. lia.
Qed.

(** ** Packets *)

(** A complete packet: the header's length field is the payload's length. *)
Definition valid_packet (p : bytes) : Prop :=
  match p with
  | b0 :: b1 :: b2 :: _ :: payload => Z.of_nat (length payload) = le24 b0 b1 b2
  | _ => False
  end.

#[export] Instance valid_packet_dec p : Decision (valid_packet p).
Proof. unfold valid_packet. repeat case_match; apply _. Defined.

(** The packet with sequence number [seq] and the given payload. *)
Definition mk_packet (seq : byte) (payload : bytes) : bytes :=
  le24_bytes (Z.of_nat (length payload)) ++ seq :: payload.

(** The reference parser: split the first packet off a byte stream. *)
Definition parse_packet (w : bytes) : option (bytes * bytes) :=
  match w with
  | b0 :: b1 :: b2 :: _ :: rest =>
      let totalLen := 4 + Z.to_nat (le24 b0 b1 b2) in
      if bool_decide (totalLen <= length w) then Some (take totalLen w, drop totalLen w)
      else None
  | _ => None
  end.

Lemma length_mk_packet seq payload : length (mk_packet seq payload) = 4 + length payload.
Proof. done. Qed.

Lemma valid_mk_packet seq payload :
  (Z.of_nat (length payload) < 2 ^ 24)%Z -> valid_packet (mk_packet seq payload).
Proof. intros H. unfold mk_packet; simpl. rewrite le24_le24_bytes; lia. Qed.

Lemma valid_packet_length p : valid_packet p -> 4 <= length p.
Proof. intros H. unfold valid_packet in H. repeat case_match; simpl; lia || done. Qed.

Lemma parse_packet_app p rest :
  valid_packet p -> parse_packet (p ++ rest) = Some (p, rest).
Proof.
  intros H. destruct p as [|b0 [|b1 [|b2 [|b3 pl]]]]; try done.
  simpl in H.
  change ((b0 :: b1 :: b2 :: b3 :: pl) ++ rest) with (b0 :: b1 :: b2 :: b3 :: (pl ++ rest)).
  unfold parse_packet.
  rewrite <- H, Nat2Z.id. rewrite bool_decide_true by (simpl; rewrite length_app; lia).
  simpl. by rewrite take_app_length, drop_app_length.
Qed.

Lemma parse_packet_Some w p rest :
  parse_packet w = Some (p, rest) -> valid_packet p /\ w = p ++ rest.
Proof.
  intros H. destruct w as [|b0 [|b1 [|b2 [|b3 pl]]]]; try done.
  unfold parse_packet in H. case_bool_decide as E; [|done]. simplify_eq.
  split; [|by rewrite take_drop]. simpl in *. rewrite length_take.
  pose proof (le24_range b0 b1 b2). lia.
Qed.

(** ** Reading packets from the buffered reader *)

Lemma window_head r w tl n :
  will_read r w tl -> n <= length (window r) ->
  take n (drop (r_offset r) (r_buf r)) = take n w.
Proof.
  intros (Hok & cl & _ & _ & <-) Hn. rewrite take_app_le by done.
  unfold window in *. rewrite length_take in Hn. rewrite take_take. f_equal. lia.
Qed.

Lemma window_header r w tl b0 b1 b2 b3 rest :
  will_read r w tl -> 4 <= length (window r) -> w = b0 :: b1 :: b2 :: b3 :: rest ->
  exists rest', drop (r_offset r) (r_buf r) = b0 :: b1 :: b2 :: rest'.
Proof.
  intros Hr Hn ->. pose proof (window_head _ _ _ 4 Hr Hn) as H. simpl in H.
  destruct (drop (r_offset r) (r_buf r)) as [|c0 [|c1 [|c2 [|c3 l]]]]; simplify_eq/=. eauto.
Qed.

(** Advancing the offset over the packet just returned. *)
Lemma will_read_advance r w tl n :
  will_read r w tl -> n <= length (window r) ->
  will_read (MkReader (r_conn r) (r_buf r) (r_offset r + n) (r_end r)) (drop n w) tl.
Proof.
  intros (Hok & cl & Hc & Hcl & <-) Hn. pose proof (length_window r Hok) as Hl.
  split; [unfold reader_ok in *; simpl; lia|]. exists cl. split; [done|]. split; [done|].
  rewrite drop_app_le by done. f_equal. unfold window. simpl.
  rewrite skipn_firstn_comm, drop_drop. f_equal; lia.
Qed.

(** On a stream that starts with a complete packet the reader returns it and
    leaves exactly the rest, whatever comes later. *)
Lemma reader_ReadPacket_ok r w tl p rest :
  will_read r w tl -> parse_packet w = Some (p, rest) ->
  exists r', reader_ReadPacket r = (Ok p, r') /\ will_read r' rest tl.
Proof.
  intros Hr Hp. unfold reader_ReadPacket.
  destruct w as [|b0 [|b1 [|b2 [|b3 w]]]]; try done.
  destruct (ensureBytes_clean 4 r _ tl Hr) as (r1 & -> & Hr1 & Hn1); [simpl; lia|]. simpl.
  destruct (window_header r1 _ tl b0 b1 b2 b3 w Hr1 Hn1 eq_refl) as [rest' ->].
  unfold parse_packet in Hp. set (totalLen := 4 + Z.to_nat (le24 b0 b1 b2)) in *.
  change (S (S (S (S (Z.to_nat (le24 b0 b1 b2)))))) with totalLen.
  case_bool_decide as Ht; simplify_eq.
  destruct (ensureBytes_clean totalLen r1 _ tl Hr1 Ht) as (r2 & -> & Hr2 & Hn2).
  cbn [and_then]. eexists. split; [by rewrite (window_head _ _ _ _ Hr2 Hn2)|].
  by apply will_read_advance.
Qed.

(** On a stream with no complete packet the reader reports the read error and
    loses no byte. *)
Lemma reader_ReadPacket_fails r w tl e tl' :
  will_read r w tl -> parse_packet w = None -> next_fails tl e tl' ->
  exists r', reader_ReadPacket r = (Err e, r') /\ will_read r' w tl'.
Proof.
  intros Hr Hp Hnf. unfold reader_ReadPacket.
  destruct (decide (4 <= length w)) as [H4|H4].
  2: { destruct (ensureBytes_fails 4 r w tl e tl' Hr Hnf) as (r' & -> & Hr'); [lia|]. eauto. }
  destruct (ensureBytes_clean 4 r w tl Hr H4) as (r1 & -> & Hr1 & Hn1). simpl.
  destruct w as [|b0 [|b1 [|b2 [|b3 w]]]]; try (simpl in H4; lia).
  destruct (window_header r1 _ tl b0 b1 b2 b3 w Hr1 Hn1 eq_refl) as [rest' ->].
  unfold parse_packet in Hp. set (totalLen := 4 + Z.to_nat (le24 b0 b1 b2)) in *.
  change (S (S (S (S (Z.to_nat (le24 b0 b1 b2)))))) with totalLen.
  case_bool_decide as Ht; simplify_eq.
  destruct (ensureBytes_fails totalLen r1 _ tl e tl' Hr1 Hnf) as (r2 & -> & Hr2); [lia|]. eauto.
Qed.

(** ** The reader on arbitrary streams *)

(** Bytes still to come: buffered, or anywhere in the connection. *)
Definition reader_size (r : MySQLPacketReader) : nat :=
  (r_end r - r_offset r) + length (data (r_conn r)).

Lemma ensure_loop_any fuel : forall n r res r',
  reader_ok r -> r_offset r = 0 -> n <= length (r_buf r) -> S (length (r_conn r)) < fuel ->
  ensure_loop fuel n r = (res, r') ->
  reader_ok r' /\ reader_size r' <= reader_size r /\ window r `prefix_of` window r' /\
  ((res = Ok tt /\ n <= length (window r')) \/ exists e, res = Err e).
Proof.
  induction fuel as [|fuel IH]; intros n r res r' Hok Ho Hn Hf H; [lia|].
  destruct (decide (r_end r < n)) as [E|E].
  2: { rewrite ensure_loop_enough in H by lia. simplify_eq. rewrite length_window by done.
       repeat split; [apply Hok..|done|done|]. left. split; [done|lia]. }
  simpl in H. rewrite bool_decide_true in H by done.
  destruct (conn_read _ (r_conn r)) as [[d e] s'] eqn:Er.
  apply conn_read_any in Er as (Hk & Hd & Hp); [|lia].
  destruct (window_fill r d s' Hok Ho Hk) as (Hok' & Hw' & Hlb).
  destruct e as [e|].
  - simplify_eq. unfold reader_ok, reader_size, window in *; simpl in *.
    rewrite Ho, Nat.sub_0_r in *. rewrite !drop_0, take_app_le, take_take, Nat.min_id
      by (rewrite length_take; lia).
    rewrite !length_app, length_take, length_drop.
    split; [lia|]. split; [lia|]. split; [done|eauto].
  - set (r1 := MkReader _ _ _ _) in *.
    assert (Hs : reader_size r1 = reader_size r).
    { unfold reader_size, r1; simpl. unfold reader_ok in Hok. lia. }
    assert (Hpre : window r `prefix_of` window r1) by (rewrite Hw'; by apply prefix_app_r).
    rewrite <- Hs. destruct (Hp eq_refl) as [Hp'|Hp'].
    + destruct (IH n r1 res r') as (? & ? & ? & ?); auto; [lia|simpl; lia|].
      split; [done|]. split; [done|]. split; [by etrans|done].
    + rewrite ensure_loop_enough in H by (simpl; lia). simplify_eq.
      split; [done|]. split; [done|]. split; [done|]. left. split; [done|].
      rewrite length_window by done. simpl; lia.
Qed.

Lemma ensureBytes_any n r res r' :
  reader_ok r -> ensureBytes n r = (res, r') ->
  reader_ok r' /\ reader_size r' <= reader_size r /\ window r `prefix_of` window r' /\
  ((res = Ok tt /\ n <= length (window r')) \/ exists e, res = Err e).
Proof.
  intros Hok. unfold ensureBytes. case_bool_decide as E.
  { intros [= <- <-]. rewrite length_window by done. split_and!; auto. }
  destruct (compact_spec r Hok) as (Hok1 & Hw1 & Hc1 & Ho1).
  pose proof (length_window _ Hok1) as Hl1. pose proof (length_window _ Hok) as Hl.
  destruct (grow_spec n (compact r) Hok1 Ho1) as (Hok2 & Hw2 & Hc2 & Ho2 & He2 & Hb2);
    [rewrite Hw1 in Hl1; lia|].
  intros H. apply ensure_loop_any in H as (? & Hs & Hpre & ?); try done; [|lia].
  rewrite Hw2, Hw1 in Hpre.
  split; [done|]. split; [|done]. etrans; [exact Hs|]. unfold reader_size.
  rewrite Hc2, Hc1, Ho2, He2. rewrite Hw1 in Hl1. lia.
Qed.

(** On every stream, errors and partial reads included, [ReadPacket] keeps the
    invariant and returns either a read error or a complete packet, and a
    returned packet has been taken off the stream. *)
Lemma reader_ReadPacket_any r res r' :
  reader_ok r -> reader_ReadPacket r = (res, r') ->
  reader_ok r' /\ reader_size r' <= reader_size r /\
  ((exists p, res = Ok p /\ valid_packet p /\ reader_size r' + length p <= reader_size r)
   \/ exists e, res = Err e).
Proof.
  intros Hok. unfold reader_ReadPacket.
  destruct (ensureBytes 4 r) as [res1 r1] eqn:E1.
  apply ensureBytes_any in E1 as (Hok1 & Hs1 & _ & H1); [|done].
  destruct H1 as [[-> H4]|[e ->]]; simpl; [|intros [= <- <-]; eauto].
  pose proof (will_read_window r1 Hok1) as Hr1.
  destruct (window r1) as [|b0 [|b1 [|b2 [|b3 l]]]] eqn:Ew1; try (simpl in H4; lia).
  destruct (window_header r1 _ _ b0 b1 b2 b3 l Hr1) as [rest' ->]; [by rewrite Ew1|done|].
  set (totalLen := S (S (S (S (Z.to_nat (le24 b0 b1 b2)))))).
  destruct (ensureBytes totalLen r1) as [res2 r2] eqn:E2.
  pose proof (ensureBytes_any _ _ _ _ Hok1 E2) as (Hok2 & Hs2 & Hpre & H2).
  destruct H2 as [[-> Ht]|[e ->]]; simpl; [|intros [= <- <-]; eauto with lia].
  pose proof (will_read_window r2 Hok2) as Hr2.
  intros [= <- <-].
  pose proof (will_read_advance _ _ _ _ Hr2 Ht) as (Hok3 & _).
  rewrite (window_head _ _ _ _ Hr2 Ht). destruct Hpre as [k Hk].
  pose proof (length_window _ Hok2) as Hl2. unfold reader_ok, reader_size in *; simpl in *.
  split; [done|]. split; [lia|]. left. exists (take totalLen (window r2)).
  split; [done|]. rewrite length_take. split; [|lia].
  rewrite Hk, Ew1 in Ht |- *. subst totalLen. simpl in *. rewrite length_take.
  pose proof (le24_range b0 b1 b2). lia.
Qed.

(** ** The interface to the response parsers

    A packet source delivers packets one at a time. [src_size] bounds what is
    left, so that the loops that read from a source terminate; [src_holds r ps]
    says that [ps] are the next packets it will deliver. The response parsers
    are defined for any source and proved against these laws alone. *)
Class PacketSource (R : Type) := {
  ReadPacket : R -> result bytes * R;
  src_size : R -> nat;
  src_inv : R -> Prop;
  src_holds : R -> list bytes -> Prop;
  src_any r res r' :
    src_inv r -> ReadPacket r = (res, r') ->
    src_inv r' /\ src_size r' <= src_size r /\
    ((exists p, res = Ok p /\ valid_packet p /\ src_size r' + length p <= src_size r)
     \/ exists e, res = Err e);
  src_holds_inv r ps : src_holds r ps -> src_inv r;
  src_next r p ps :
    src_holds r (p :: ps) -> exists r', ReadPacket r = (Ok p, r') /\ src_holds r' ps;
}.

(** The buffered reader as a packet source. *)
Definition reader_holds (r : MySQLPacketReader) (ps : list bytes) : Prop :=
  exists rest tl, will_read r (concat ps ++ rest) tl /\ Forall valid_packet ps.

#[export] Program Instance reader_source : PacketSource MySQLPacketReader := {|
  ReadPacket := reader_ReadPacket;
  src_size := reader_size;
  src_inv := reader_ok;
  src_holds := reader_holds;
|}.
Next Obligation. intros r res r'. apply reader_ReadPacket_any. Qed.
Next Obligation. by intros r ps (rest & tl & (Hok & _) & _). Qed.
Next Obligation.
  intros r p ps (rest & tl & Hr & Hv). apply Forall_cons_iff in Hv as [Hp Hv]. simpl in Hr.
  rewrite <- app_assoc in Hr.
  destruct (reader_ReadPacket_ok _ _ _ _ _ Hr (parse_packet_app p _ Hp)) as (r' & E & Hr').
  exists r'. split; [done|]. exists rest, tl. auto.
Qed.

(** The reference source: a list of packets, closed by the peer at its end. *)
Definition list_ReadPacket (ps : list bytes) : result bytes * list bytes :=
  match ps with
  | [] => (Err ErrEOF, [])
  | p :: ps => (Ok p, ps)
  end.

#[export] Program Instance list_source : PacketSource (list bytes) := {|
  ReadPacket := list_ReadPacket;
  src_size := fun ps => length (concat ps);
  src_inv := Forall valid_packet;
  src_holds := fun r ps => r = ps /\ Forall valid_packet ps;
|}.
Next Obligation.
  intros [|p ps] res r' Hinv [= <- <-]; [eauto|]. apply Forall_cons_iff in Hinv as [Hp Hinv].
  simpl. rewrite length_app. split; [done|]. split; [lia|]. left. exists p. auto with lia.
Qed.
Next Obligation. by intros r ps [-> ?]. Qed.
Next Obligation.
  intros r p ps [-> Hinv]. exists ps. apply Forall_cons_iff in Hinv as [_ Hinv]. auto.
Qed.

Lemma src_holds_size `{PacketSource R} ps : forall r,
  src_holds r ps -> length (concat ps) <= src_size r /\ Forall valid_packet ps.
Proof.
  induction ps as [|p ps IH]; intros r Hr; simpl; [split; [lia|constructor]|].
  destruct (src_next _ _ _ Hr) as (r' & E & Hr'). destruct (IH r' Hr') as [Hs Hv].
  destruct (src_any _ _ _ (src_holds_inv _ _ Hr) E) as (_ & _ & [(p' & [= <-] & Hp & Hl)|[e [=]]]).
  rewrite length_app. split; [lia|]. by constructor.
Qed.

Lemma length_concat_valid (ps : list bytes) :
  Forall valid_packet ps -> length ps <= length (concat ps).
Proof.
  induction 1 as [|p ps Hp _ IH]; simpl; [lia|]. apply valid_packet_length in Hp.
  rewrite length_app. lia.
Qed.

(** A source holds at least as many bytes as it has packets to deliver: the
    fuel of every loop over packets. *)
Lemma src_holds_length `{PacketSource R} r ps : src_holds r ps -> length ps <= src_size r.
Proof. intros Hr. destruct (src_holds_size _ _ Hr). etrans; [by apply length_concat_valid|done]. Qed.

(** ** Multi-packet commands *)

Section multi.
Context `{PacketSource R}.

(** The length field of a packet the reader returned. *)
Definition packet_length (packet : bytes) : Z :=
  match packet with
  | b0 :: b1 :: b2 :: _ => le24 b0 b1 b2
  | _ => 0
  end.

Fixpoint read_multi_loop (fuel : nat) (acc : bytes) (r : R) : result bytes * R :=
  match fuel with
  | O => (Stuck, r)
  | S fuel =>
      let? packet, r := ReadPacket r in
      let acc := acc ++ packet in
      if (packet_length packet <? 0xFFFFFF)%Z then (Ok acc, r)
      else read_multi_loop fuel acc r
  end.

Definition ReadMultiPacket (r : R) : result bytes * R :=
  read_multi_loop (S (src_size r)) [] r.

(** The packets of one command: full packets, then one that is not full. *)
Definition one_command (ps : list bytes) : Prop :=
  exists full last, ps = full ++ [last] /\
    Forall (fun p => packet_length p = 0xFFFFFF%Z) full /\
    (packet_length last < 0xFFFFFF)%Z.

Lemma read_multi_loop_ok fuel : forall acc r full last rest,
  src_holds r (full ++ last :: rest) ->
  Forall (fun p => packet_length p = 0xFFFFFF%Z) full ->
  (packet_length last < 0xFFFFFF)%Z -> length full < fuel ->
  exists r', read_multi_loop fuel acc r = (Ok (acc ++ concat full ++ last), r')
             /\ src_holds r' rest.
Proof.
  induction fuel as [|fuel IH]; intros acc r full last rest Hr Hf Hl Hfu; [lia|].
  destruct full as [|p full]; simpl in *.
  - destruct (src_next _ _ _ Hr) as (r' & -> & Hr'). simpl.
    exists r'. rewrite (proj2 (Z.ltb_lt _ _) Hl). auto.
  - destruct (src_next _ _ _ Hr) as (r' & -> & Hr'). simpl.
    apply Forall_cons_iff in Hf as [Hp Hf]. rewrite Hp. simpl.
    destruct (IH (acc ++ p) r' full last rest) as (r'' & -> & Hr''); auto with lia.
    exists r''. split; [|done]. f_equal. f_equal. by rewrite !app_assoc.
Qed.

Lemma ReadMultiPacket_ok r ps rest :
  one_command ps -> src_holds r (ps ++ rest) ->
  exists r', ReadMultiPacket r = (Ok (concat ps), r') /\ src_holds r' rest.
Proof.
  intros (full & last & -> & Hf & Hl) Hr. pose proof (src_holds_length _ _ Hr) as Hlen.
  rewrite <- app_assoc in Hr. rewrite !length_app in Hlen. simpl in *.
  destruct (read_multi_loop_ok (S (src_size r)) [] r full last rest) as (r' & E & Hr'); auto with lia.
  exists r'. rewrite concat_app; simpl. rewrite app_nil_r. auto.
Qed.

Lemma read_multi_loop_any fuel : forall acc r res r',
  src_inv r -> src_size r < fuel -> read_multi_loop fuel acc r = (res, r') ->
  src_inv r' /\ src_size r' <= src_size r /\
  ((exists ps, res = Ok (acc ++ concat ps) /\ one_command ps /\ Forall valid_packet ps /\
               src_size r' + length (concat ps) <= src_size r)
   \/ exists e, res = Err e).
Proof.
  induction fuel as [|fuel IH]; intros acc r res r' Hinv Hf; [lia|]. simpl.
  destruct (ReadPacket r) as [res1 r1] eqn:E.
  destruct (src_any _ _ _ Hinv E) as (Hinv1 & Hs1 & [(p & -> & Hp & Hl)|[e ->]]); simpl.
  2: { intros [= <- <-]. eauto. }
  pose proof (valid_packet_length _ Hp).
  destruct (Z.ltb_spec (packet_length p) 0xFFFFFF).
  - intros [= <- <-]. split; [done|]. split; [done|]. left. exists [p]. simpl.
    rewrite app_nil_r. split; [done|]. split; [by exists [], p|]. split; [by repeat constructor|done].
  - intros H2. apply IH in H2 as (Hinv2 & Hs2 & [(ps & -> & (full & last & -> & Hfu & Hla) & Hv & Hl2)|[e ->]]);
      [| |done|lia]; (split; [done|]; split; [lia|]); [left|eauto].
    exists (p :: full ++ [last]). simpl. rewrite app_assoc. split; [done|].
    split; [|split; [by constructor|rewrite length_app; lia]]. exists (p :: full), last. split; [done|]. split; [|done].
    constructor; [|done]. destruct p as [|b0 [|b1 [|b2 ?]]]; simpl in *; try lia.
    pose proof (le24_range b0 b1 b2). lia.
Qed.
End multi.

(** ** Properties *)

(** C9: Whatever way TCP cuts the byte stream into reads, the buffered reader
    behaves as the reference parser on the joined stream: it returns the first
    packet and leaves exactly the bytes after it, or, when the stream breaks off
    before a packet is complete, returns the read error (end of stream, or a
    deadline) and keeps every byte that had arrived. *)
Theorem buffered_reader_refines_parser (r : MySQLPacketReader) w tl e tl' :
  will_read r w tl -> next_fails tl e tl' ->
  match parse_packet w with
  | Some (p, rest) => exists r', reader_ReadPacket r = (Ok p, r') /\ will_read r' rest tl
  | None => exists r', reader_ReadPacket r = (Err e, r') /\ will_read r' w tl'
  end.
Proof.
  intros Hr Hnf. destruct (parse_packet w) as [[p rest]|] eqn:E.
  - by eapply reader_ReadPacket_ok.
  - by eapply reader_ReadPacket_fails.
Qed.

(** Two packets cut into four segments (one of them empty, one spanning both
    packets), then a deadline in the middle of a third. *)
Definition c1_stream : list read_ev :=
  segments [[Byte.x02; Byte.x00]; []; [Byte.x00; Byte.x07; Byte.x41; Byte.x42; Byte.x01];
            [Byte.x00; Byte.x00; Byte.x08; Byte.x0e; Byte.x09]].

Lemma buffered_reader_refines_parser_witness :
  exists r', reader_ReadPacket
      (NewMySQLPacketReader (c1_stream ++ [ReadEv [] (Some (ErrTimeout "i/o timeout"))]))
    = (Ok [Byte.x02; Byte.x00; Byte.x00; Byte.x07; Byte.x41; Byte.x42], r') /\
    will_read r' [Byte.x01; Byte.x00; Byte.x00; Byte.x08; Byte.x0e; Byte.x09]
      [ReadEv [] (Some (ErrTimeout "i/o timeout"))].
Proof.
  refine (buffered_reader_refines_parser _ (data c1_stream) _ (ErrTimeout "i/o timeout") [] _ _).
  - apply NewMySQLPacketReader_will_read. apply clean_segments.
  - by right.
Defined.

(** On every connection whatsoever - partial reads, errors in the middle of
    a packet, errors delivered together with data - the buffered reader keeps
    its index invariant, never indexes out of range and never loops for ever:
    [ReadPacket] returns a complete packet, taken off the stream, or the error. *)
Theorem reader_safe_on_any_stream (r : MySQLPacketReader) res r' :
  reader_ok r -> reader_ReadPacket r = (res, r') ->
  reader_ok r' /\ reader_size r' <= reader_size r /\
  ((exists p, res = Ok p /\ valid_packet p /\ reader_size r' + length p <= reader_size r)
   \/ exists e, res = Err e).
Proof. apply reader_ReadPacket_any. Qed.

Lemma reader_safe_on_any_stream_witness :
  let r := NewMySQLPacketReader [ReadEv [Byte.x01; Byte.x00; Byte.x00] None;
                                 ReadEv [Byte.x05; Byte.x61] (Some ErrEOF)] in
  reader_ok (reader_ReadPacket r).2.
Proof.
  refine (proj1 (reader_safe_on_any_stream _ (reader_ReadPacket _).1 _ _ (surjective_pairing _))).
  unfold reader_ok. simpl. lia.
Defined.

(** A command of more than 16 MB arrives as full packets of 0xFFFFFF bytes
    and a last one that is shorter. [ReadMultiPacket] returns all of its packets
    joined and nothing of the next command, however the stream is cut. *)
Theorem multi_packet_command `{PacketSource R} (r : R) ps rest :
  one_command ps -> src_holds r (ps ++ rest) ->
  exists r', ReadMultiPacket r = (Ok (concat ps), r') /\ src_holds r' rest.
Proof. apply ReadMultiPacket_ok. Qed.

(** A query of 16 MB and one byte, and a COM_PING behind it. *)
Definition full_payload : bytes := replicate (Z.to_nat 0xFFFFFF) Byte.x61.
Definition multi_example : list bytes :=
  [mk_packet Byte.x00 full_payload; mk_packet Byte.x01 [Byte.x62]].

Lemma length_full_payload : Z.of_nat (length full_payload) = 0xFFFFFF%Z.
Proof. unfold full_payload. rewrite length_replicate. apply Z2Nat.id. done. Qed.

Lemma packet_length_mk_packet seq payload :
  (Z.of_nat (length payload) < 2 ^ 24)%Z ->
  packet_length (mk_packet seq payload) = Z.of_nat (length payload).
Proof. intros Hp. unfold packet_length, mk_packet. apply le24_le24_bytes. lia. Qed.

#[local] Opaque full_payload.

Lemma multi_packet_command_witness :
  exists r', ReadMultiPacket (multi_example ++ [mk_packet Byte.x00 [Byte.x0e]])
             = (Ok (concat multi_example), r')
             /\ src_holds r' [mk_packet Byte.x00 [Byte.x0e]].
Proof.
  refine (multi_packet_command (R := list bytes) _ multi_example _ _ _).
  - exists [mk_packet Byte.x00 full_payload], (mk_packet Byte.x01 [Byte.x62]).
    split; [done|]. split; [|done]. constructor; [|done].
    rewrite packet_length_mk_packet, length_full_payload; [done|].
    rewrite length_full_payload. lia.
  - split; [done|]. unfold multi_example.
    constructor; [|by repeat constructor]. apply valid_mk_packet. rewrite length_full_payload. lia.
Defined.
