(* ===== verification/ReaderMemory.v ===== *)
(** * The memory of the packet reader (src/mysql_protocol.go)

    [MySQLPacketReader] grows its buffer when a packet does not fit. Whatever the
    peer sends, the length field of a packet has 24 bits: the buffer stays below a
    fixed size for the life of the connection. *)

From S2P Require Import Prelude GoNet MySQLProtocol.

(** The largest packet, and the largest buffer [ensureBytes] makes for it. *)
Definition max_packet : Z := 4 + 0xFFFFFF.
Definition max_buffer : Z := 2 * max_packet.

Definition buf_size (r : MySQLPacketReader) : Z := Z.of_nat (length (r_buf r)).

Lemma compact_buf r : reader_ok r -> length (r_buf (compact r)) = length (r_buf r).
Proof.
  unfold reader_ok, compact. intros Hok. repeat case_bool_decide; simpl; try done.
  rewrite length_app, length_take, !length_drop. lia.
Qed.

Lemma grow_buf n r : r_end r <= n -> length (r_buf (grow n r)) <= Nat.max (length (r_buf r)) (n * 2).
Proof.
  unfold grow. intros Hn. case_bool_decide; simpl; [|lia]. rewrite length_app, length_take, length_replicate. lia.
Qed.

Lemma ensure_loop_buf fuel : forall n r,
  reader_ok r -> r_offset r = 0 -> n <= length (r_buf r) -> length (r_buf (ensure_loop fuel n r).2) = length (r_buf r).
Proof.
  induction fuel as [|fuel IH]; intros n r Hok Ho Hn; [done|]. cbn [ensure_loop]. case_bool_decide as E; [|done].
  destruct (conn_read _ (r_conn r)) as [[d e] s'] eqn:Er. apply conn_read_any in Er as (Hk & _); [|unfold reader_ok in *; lia].
  destruct (window_fill r d s' Hok Ho Hk) as (Hok' & _ & Hlb). destruct e; cbn [snd r_buf] in *; [done|].
  rewrite IH; [done|done|done|]. cbn [r_buf]. lia.
Qed.

Lemma ensureBytes_buf n r : reader_ok r -> length (r_buf (ensureBytes n r).2) <= Nat.max (length (r_buf r)) (n * 2).
Proof.
  intros Hok. unfold ensureBytes. case_bool_decide as E; [simpl; lia|].
  destruct (compact_spec r Hok) as (Hok1 & Hw1 & _ & Ho1).
  pose proof (length_window _ Hok1) as Hl1. pose proof (length_window _ Hok) as Hl. rewrite Hw1, Ho1 in Hl1.
  destruct (grow_spec n (compact r)) as (Hok2 & _ & _ & Ho2 & _ & Hn2); [done|done|lia|].
  rewrite ensure_loop_buf by done. pose proof (grow_buf n (compact r)). pose proof (compact_buf r Hok). lia.
Qed.

Lemma reader_ReadPacket_buf r :
  reader_ok r -> (buf_size r <= max_buffer)%Z -> (buf_size (reader_ReadPacket r).2 <= max_buffer)%Z.
Proof.
  intros Hok Hb. unfold reader_ReadPacket, buf_size, max_buffer, max_packet in *.
  pose proof (ensureBytes_buf 4 r Hok) as H1. destruct (ensureBytes 4 r) as [res1 r1] eqn:E1.
  apply ensureBytes_any in E1 as (Hok1 & _); [|done]. cbn [snd] in H1.
  destruct res1; cbn [and_then]; try (simpl; lia).
  destruct (drop (r_offset r1) (r_buf r1)) as [|b0 [|b1 [|b2 l]]]; try (simpl; lia).
  set (totalLen := 4 + Z.to_nat (le24 b0 b1 b2)).
  assert (Z.of_nat totalLen <= 4 + 0xFFFFFF)%Z by (pose proof (le24_range b0 b1 b2); subst totalLen; lia).
  clearbody totalLen. pose proof (ensureBytes_buf totalLen r1 Hok1) as H2.
  destruct (ensureBytes totalLen r1) as [res2 r2]. cbn [snd] in H2. destruct res2; cbn [and_then snd r_buf]; lia.
Qed.

(** The results of [n] calls of [ReadPacket]. *)
Fixpoint read_packets (n : nat) (r : MySQLPacketReader) : list (result bytes) * MySQLPacketReader :=
  match n with
  | O => ([], r)
  | S n => let '(res, r) := reader_ReadPacket r in let '(rs, r) := read_packets n r in (res :: rs, r)
  end.

(** What a call may return. *)
Definition packet_or_error (res : result bytes) : Prop :=
  (exists p, res = Ok p /\ valid_packet p /\ (4 <= Z.of_nat (length p) <= max_packet)%Z) \/ (exists e, res = Err e).

Lemma valid_packet_max p : valid_packet p -> (4 <= Z.of_nat (length p) <= max_packet)%Z.
Proof.
  unfold valid_packet, max_packet. destruct p as [|b0 [|b1 [|b2 [|b3 payload]]]]; try done. intros Hp.
  pose proof (le24_range b0 b1 b2). cbn [length]. lia.
Qed.

Lemma read_packets_ok n : forall r,
  reader_ok r -> (buf_size r <= max_buffer)%Z ->
  let '(rs, r') := read_packets n r in
  Forall packet_or_error rs /\ reader_ok r' /\ (buf_size r' <= max_buffer)%Z.
Proof.
  induction n as [|n IH]; intros r Hok Hb; cbn [read_packets]; [by split|].
  pose proof (reader_ReadPacket_buf r Hok Hb) as Hb'. destruct (reader_ReadPacket r) as [res r1] eqn:E.
  apply reader_ReadPacket_any in E as (Hok1 & _ & Hres); [|done]. specialize (IH r1 Hok1 Hb').
  destruct (read_packets n r1) as [rs r']. destruct IH as (Hrs & Hr'). split; [|done]. constructor; [|done].
  destruct Hres as [(p & -> & Hp & _)|[e ->]]; [left|right; eauto]. exists p. split; [done|]. split; [done|].
  by apply valid_packet_max.
Qed.

(** C27: The reader's memory is bounded. On every connection - any data, any errors, any
    number of calls - each call of [ReadPacket] returns a complete packet of at most
    16,777,219 bytes or an error, and the buffer never exceeds twice that; its
    indices stay within it. *)
Theorem reader_memory_bounded stream n :
  let '(rs, r) := read_packets n (NewMySQLPacketReader stream) in
  Forall packet_or_error rs /\ r_offset r <= r_end r <= length (r_buf r) /\
  (Z.of_nat (length (r_buf r)) <= 33554438)%Z.
Proof.
  apply (read_packets_ok n (NewMySQLPacketReader stream)).
  - unfold reader_ok. simpl. lia.
  - unfold buf_size, NewMySQLPacketReader, max_buffer, max_packet. cbn [r_buf]. rewrite length_replicate.
    #[local] Transparent readerBufSize. unfold readerBufSize. lia.
Qed.
