(* ===== verification/MySQLResponse.v ===== *)
(** * MySQL responses (src/mysql_protocol.go)

    The protocol-aware response readers: [ReadFullResponse], which drains a
    response on the shadow side, and [ReadAndForwardResponse], which forwards
    each packet to the client as it is read, with the single-packet variants.
    They are defined over any [PacketSource]; the loops are bounded by the
    number of bytes the source can still deliver, which is always enough. *)

From S2P Require Import Prelude GoNet MySQLProtocol.

(** ** Length-encoded integers and status flags *)

Definition lenencIntSize (buf : bytes) : Z :=
  match buf with
  | [] => 0
  | b :: _ =>
      if (u8 b =? 0xFC)%Z then 3
      else if (u8 b =? 0xFD)%Z then 4
      else if (u8 b =? 0xFE)%Z then 9
      else 1
  end.

Definition readLengthEncodedInt (buf : bytes) : Z :=
  match buf with
  | [] => 0
  | b :: _ =>
      if (u8 b =? 0xFC)%Z then
        match buf with
        | _ :: b1 :: b2 :: _ => Z.lor (u8 b1) (Z.shiftl (u8 b2) 8)
        | _ => 0
        end
      else if (u8 b =? 0xFD)%Z then
        match buf with
        | _ :: b1 :: b2 :: b3 :: _ =>
            Z.lor (Z.lor (u8 b1) (Z.shiftl (u8 b2) 8)) (Z.shiftl (u8 b3) 16)
        | _ => 0
        end
      else if (u8 b =? 0xFE)%Z then
        match buf with
        | _ :: b1 :: b2 :: b3 :: b4 :: b5 :: b6 :: b7 :: b8 :: _ =>
            Z.lor (Z.lor (Z.lor (Z.lor (Z.lor (Z.lor (Z.lor
              (u8 b1) (Z.shiftl (u8 b2) 8)) (Z.shiftl (u8 b3) 16)) (Z.shiftl (u8 b4) 24))
              (Z.shiftl (u8 b5) 32)) (Z.shiftl (u8 b6) 40)) (Z.shiftl (u8 b7) 48))
              (Z.shiftl (u8 b8) 56)
        | _ => 0
        end
      else u8 b
  end.

Definition has_more (lo hi : byte) : bool :=
  negb (Z.land (le16 lo hi) serverMoreResultsExist =? 0)%Z.

Definition checkMoreResultsInEOFPacket (pkt : bytes) : result bool :=
  if bool_decide (length pkt < 9) then Ok false
  else lo ← index pkt 7; hi ← index pkt 8; Ok (has_more lo hi).

Definition checkMoreResultsInOKPacket (pkt : bytes) : result bool :=
  let len := Z.of_nat (length pkt) in
  if bool_decide (length pkt < 7) then Ok false
  else
    rest ← slice pkt 5 len;
    let pos := (5 + lenencIntSize rest)%Z in
    if (len <=? pos)%Z then Ok false
    else
      rest ← slice pkt pos len;
      let pos := (pos + lenencIntSize rest)%Z in
      if (len <? pos + 2)%Z then Ok false
      else lo ← index pkt pos; hi ← index pkt (pos + 1); Ok (has_more lo hi).

(** ** Control flow of the response loops

    A piece of the loop body either runs on with the byte count so far and a
    value ([Next]) or makes the function return its byte count and error. *)
Inductive step (A : Type) :=
  | Next (total : Z) (a : A)
  | Return (total : Z) (err : option error).
Arguments Next {A} _ _.
Arguments Return {A} _ _.

Definition after {A C S : Type} (m : result (step A) * S) (k : Z -> A -> S -> result (step C) * S)
    : result (step C) * S :=
  match m with
  | (Ok (Next total a), s) => k total a s
  | (Ok (Return total e), s) => (Ok (Return total e), s)
  | (Err e, s) => (Err e, s)
  | (Panic, s) => (Panic, s)
  | (Stuck, s) => (Stuck, s)
  end.

Notation "'let@' t , x , s := m 'in' k" := (after m (fun t x s => k))
  (at level 10, t name, x name, s name, m at level 100, k at level 200,
   format "'let@'  t ,  x ,  s  :=  m  'in' '//' k") : go_scope.

Definition too_short (packet : bytes) : error :=
  ErrMsg ("packet too short: " +:+ pretty (length packet) +:+ " bytes").

(** The test that ends the rows of a result set. *)
Definition is_row_end (pkt : bytes) : bool :=
  match pkt with
  | b0 :: b1 :: b2 :: _ :: marker :: _ => (u8 marker =? 0xFE)%Z && (le24 b0 b1 b2 <? 9)%Z
  | _ => false
  end.

(** [if hasMoreResults { continue }; return totalBytes, nil] *)
Definition done_or_more {S : Type} (total : Z) (more : result bool) (s : S) : result (step unit) * S :=
  match more with
  | Ok true => (Ok (Next total tt), s)
  | Ok false => (Ok (Return total None), s)
  | _ => (Panic, s)
  end.

Section response.
Context `{PacketSource R}.

(** *** ReadFullResponse *)

(** [pkt, err := r.ReadPacket()], returning [(totalBytes, err)] on an error
    and counting the packet otherwise. *)
Definition full_packet (total : Z) (r : R) : result (step bytes) * R :=
  match ReadPacket r with
  | (Ok packet, r) => (Ok (Next (total + Z.of_nat (length packet)) packet), r)
  | (Err e, r) => (Ok (Return total (Some e)), r)
  | (Panic, r) => (Panic, r)
  | (Stuck, r) => (Stuck, r)
  end.

(** [for i := uint64(0); i < columnCount; i++] *)
Fixpoint full_columns (fuel : nat) (i columnCount total : Z) (r : R) : result (step unit) * R :=
  match fuel with
  | O => (Stuck, r)
  | S fuel =>
      if (i <? columnCount)%Z then
        let@ total, _pkt, r := full_packet total r in
        full_columns fuel (i + 1) columnCount total r
      else (Ok (Next total tt), r)
  end.

(** The row loop; its value is [moreResults]. *)
Fixpoint full_rows (fuel : nat) (total : Z) (r : R) : result (step bool) * R :=
  match fuel with
  | O => (Stuck, r)
  | S fuel =>
      let@ total, pkt, r := full_packet total r in
      if is_row_end pkt then
        match checkMoreResultsInEOFPacket pkt with
        | Ok more => (Ok (Next total more), r)
        | _ => (Panic, r)
        end
      else full_rows fuel total r
  end.

(** One iteration of the outer loop: [Next] is [continue]. *)
Definition full_result (total : Z) (r : R) : result (step unit) * R :=
  let@ total, packet, r := full_packet total r in
  if bool_decide (length packet < 5) then (Ok (Return total (Some (too_short packet))), r)
  else
    match index packet 4 with
    | Ok t =>
        if (u8 t =? 0x00)%Z then done_or_more total (checkMoreResultsInOKPacket packet) r
        else if (u8 t =? 0xFF)%Z then (Ok (Return total None), r)
        else if (u8 t =? 0xFB)%Z then (Ok (Return total None), r)
        else if (u8 t =? 0xFE)%Z then done_or_more total (checkMoreResultsInEOFPacket packet) r
        else
          let columnCount := readLengthEncodedInt (drop 4 packet) in
          let@ total, _u, r := full_columns (S (src_size r)) 0 columnCount total r in
          let@ total, pkt, r := full_packet total r in
          if bool_decide (5 <= length pkt) && bool_decide (pkt !! 4 = Some Byte.x00)
          then done_or_more total (checkMoreResultsInOKPacket pkt) r
          else
            let@ total, more, r := full_rows (S (src_size r)) total r in
            done_or_more total (Ok more) r
    | _ => (Panic, r)
    end.

Fixpoint full_loop (fuel : nat) (total : Z) (r : R) : result (Z * option error) * R :=
  match fuel with
  | O => (Stuck, r)
  | S fuel =>
      match full_result total r with
      | (Ok (Next total _), r) => full_loop fuel total r
      | (Ok (Return total e), r) => (Ok (total, e), r)
      | (Err e, r) => (Err e, r)
      | (Panic, r) => (Panic, r)
      | (Stuck, r) => (Stuck, r)
      end
  end.

Definition ReadFullResponse (r : R) : result (Z * option error) * R :=
  full_loop (S (src_size r)) 0 r.

Definition ReadSimpleResponse (r : R) : result (Z * option error) * R :=
  match ReadPacket r with
  | (Ok packet, r) => (Ok (Z.of_nat (length packet), None), r)
  | (Err e, r) => (Ok (0%Z, Some e), r)
  | (Panic, r) => (Panic, r)
  | (Stuck, r) => (Stuck, r)
  end.

(** *** ReadAndForwardResponse

    The state is the packet source and the client connection. *)

(** Read a packet and write it to [dest]; a write error returns
    [(totalBytes, fmt.Errorf(msg + ": %w", err))] with the packet not counted. *)
Definition fwd_packet (msg : string) (total : Z) (s : R * Conn) : result (step bytes) * (R * Conn) :=
  match ReadPacket s.1 with
  | (Ok packet, r) =>
      let '(_, err, dest) := conn_write packet s.2 in
      match err with
      | Some e => (Ok (Return total (Some (ErrWrap msg e))), (r, dest))
      | None => (Ok (Next (total + Z.of_nat (length packet)) packet), (r, dest))
      end
  | (Err e, r) => (Ok (Return total (Some e)), (r, s.2))
  | (Panic, r) => (Panic, (r, s.2))
  | (Stuck, r) => (Stuck, (r, s.2))
  end.

Fixpoint fwd_columns (fuel : nat) (i columnCount total : Z) (s : R * Conn)
    : result (step unit) * (R * Conn) :=
  match fuel with
  | O => (Stuck, s)
  | S fuel =>
      if (i <? columnCount)%Z then
        let@ total, _pkt, s := fwd_packet "failed to forward column def" total s in
        fwd_columns fuel (i + 1) columnCount total s
      else (Ok (Next total tt), s)
  end.

Fixpoint fwd_rows (fuel : nat) (total : Z) (s : R * Conn) : result (step bool) * (R * Conn) :=
  match fuel with
  | O => (Stuck, s)
  | S fuel =>
      let@ total, pkt, s := fwd_packet "failed to forward row" total s in
      if is_row_end pkt then
        match checkMoreResultsInEOFPacket pkt with
        | Ok more => (Ok (Next total more), s)
        | _ => (Panic, s)
        end
      else fwd_rows fuel total s
  end.

Definition fwd_result (total : Z) (s : R * Conn) : result (step unit) * (R * Conn) :=
  let@ total, packet, s := fwd_packet "failed to forward packet" total s in
  if bool_decide (length packet < 5) then (Ok (Return total (Some (too_short packet))), s)
  else
    match index packet 4 with
    | Ok t =>
        if (u8 t =? 0x00)%Z then done_or_more total (checkMoreResultsInOKPacket packet) s
        else if (u8 t =? 0xFF)%Z then (Ok (Return total None), s)
        else if (u8 t =? 0xFB)%Z then (Ok (Return total None), s)
        else if (u8 t =? 0xFE)%Z then done_or_more total (checkMoreResultsInEOFPacket packet) s
        else
          let columnCount := readLengthEncodedInt (drop 4 packet) in
          let@ total, _u, s := fwd_columns (S (src_size s.1)) 0 columnCount total s in
          let@ total, pkt, s := fwd_packet "failed to forward column EOF" total s in
          if bool_decide (5 <= length pkt) && bool_decide (pkt !! 4 = Some Byte.x00)
          then done_or_more total (checkMoreResultsInOKPacket pkt) s
          else
            let@ total, more, s := fwd_rows (S (src_size s.1)) total s in
            done_or_more total (Ok more) s
    | _ => (Panic, s)
    end.

Fixpoint fwd_loop (fuel : nat) (total : Z) (s : R * Conn) : result (Z * option error) * (R * Conn) :=
  match fuel with
  | O => (Stuck, s)
  | S fuel =>
      match fwd_result total s with
      | (Ok (Next total _), s) => fwd_loop fuel total s
      | (Ok (Return total e), s) => (Ok (total, e), s)
      | (Err e, s) => (Err e, s)
      | (Panic, s) => (Panic, s)
      | (Stuck, s) => (Stuck, s)
      end
  end.

Definition ReadAndForwardResponse (s : R * Conn) : result (Z * option error) * (R * Conn) :=
  fwd_loop (S (src_size s.1)) 0 s.

Definition ReadAndForwardSimpleResponse (s : R * Conn) : result (Z * option error) * (R * Conn) :=
  match ReadPacket s.1 with
  | (Ok packet, r) =>
      let '(_, err, dest) := conn_write packet s.2 in
      match err with
      | Some e => (Ok (0%Z, Some (ErrWrap "failed to forward simple response" e)), (r, dest))
      | None => (Ok (Z.of_nat (length packet), None), (r, dest))
      end
  | (Err e, r) => (Ok (0%Z, Some e), (r, s.2))
  | (Panic, r) => (Panic, (r, s.2))
  | (Stuck, r) => (Stuck, (r, s.2))
  end.
End response.

(** ** Safety of the helpers *)

Lemma lenencIntSize_range buf : (0 <= lenencIntSize buf <= 9)%Z.
Proof. unfold lenencIntSize. repeat case_match; lia. Qed.

Lemma index_ok l i : (0 <= i < Z.of_nat (length l))%Z -> exists b, index l i = Ok b.
Proof.
  intros Hi. unfold index. rewrite bool_decide_true by lia.
  destruct (lookup_lt_is_Some_2 l (Z.to_nat i)) as [b ->]; [lia|eauto].
Qed.

Lemma slice_ok l lo hi :
  (0 <= lo <= hi)%Z -> (hi <= Z.of_nat (length l))%Z ->
  slice l lo hi = Ok (take (Z.to_nat hi - Z.to_nat lo) (drop (Z.to_nat lo) l)).
Proof. intros. unfold slice. by rewrite bool_decide_true by lia. Qed.

Lemma slice_to_end l lo :
  (0 <= lo <= Z.of_nat (length l))%Z ->
  slice l lo (Z.of_nat (length l)) = Ok (drop (Z.to_nat lo) l).
Proof.
  intros. rewrite slice_ok by lia. rewrite Nat2Z.id. f_equal.
  apply take_ge. rewrite length_drop. lia.
Qed.

Lemma checkMoreResultsInEOFPacket_total pkt :
  exists more, checkMoreResultsInEOFPacket pkt = Ok more.
Proof.
  unfold checkMoreResultsInEOFPacket. case_bool_decide; [eauto|].
  destruct (index_ok pkt 7) as [? ->]; [lia|]. destruct (index_ok pkt 8) as [? ->]; [lia|].
  simpl. eauto.
Qed.

Lemma checkMoreResultsInOKPacket_total pkt :
  exists more, checkMoreResultsInOKPacket pkt = Ok more.
Proof.
  unfold checkMoreResultsInOKPacket. case_bool_decide; [eauto|].
  rewrite slice_to_end by lia. cbn [mbind result_bind].
  pose proof (lenencIntSize_range (drop (Z.to_nat 5) pkt)).
  set (pos := (5 + _)%Z) in *. case_match; [eauto|].
  rewrite slice_to_end by lia. cbn [mbind result_bind].
  pose proof (lenencIntSize_range (drop (Z.to_nat pos) pkt)).
  set (pos' := (pos + _)%Z) in *. case_match; [eauto|].
  destruct (index_ok pkt pos') as [? ->]; [lia|].
  destruct (index_ok pkt (pos' + 1)) as [? ->]; [lia|].
  simpl. eauto.
Qed.

(** ** The parsers on arbitrary sources *)

Section any_source.
Context `{PacketSource R}.
Implicit Types (s : R * Conn) (c : Conn) (t : Z).

(** From byte count [t0] and client [c0] the loop got to [t] and [c]: what it
    wrote is what it counted. *)
Definition counted t0 c0 t c : Prop :=
  exists f, c_out c = c_out c0 ++ f /\ t = (t0 + Z.of_nat (length f))%Z /\
            (c_wr c0 = [] -> c_wr c = []).

(** The same on return with the error [e], when a failed write may have written
    uncounted bytes. *)
Definition returned t0 c0 (e : option error) t c : Prop :=
  exists f, c_out c = c_out c0 ++ f /\ (t0 <= t /\ t <= t0 + Z.of_nat (length f))%Z /\
            (c_wr c0 = [] \/ e = None -> t = (t0 + Z.of_nat (length f))%Z).

(** The outcome [m] of a piece of the loop: no panic, no exhausted fuel, the
    source stays usable and, unless the function returned, is smaller than [n]. *)
Definition fine {A} (n : nat) t0 c0 (m : result (step A) * (R * Conn)) : Prop :=
  match m with
  | (Ok (Next t _), s) => src_inv s.1 /\ src_size s.1 < n /\ counted t0 c0 t s.2
  | (Ok (Return t e), s) => src_inv s.1 /\ returned t0 c0 e t s.2
  | _ => False
  end.

Lemma counted_refl t c : counted t c t c.
Proof. exists []. rewrite app_nil_r. simpl. auto with lia. Qed.

Lemma counted_trans t0 c0 t1 c1 t2 c2 :
  counted t0 c0 t1 c1 -> counted t1 c1 t2 c2 -> counted t0 c0 t2 c2.
Proof.
  intros (f & E1 & -> & Hw1) (g & E2 & -> & Hw2). exists (f ++ g).
  rewrite E2, E1, app_assoc, length_app. split; [done|]. split; [lia|auto].
Qed.

Lemma counted_returned t0 c0 t1 c1 e t2 c2 :
  counted t0 c0 t1 c1 -> returned t1 c1 e t2 c2 -> returned t0 c0 e t2 c2.
Proof.
  intros (f & E1 & -> & Hw1) (g & E2 & Hle & Hw2). exists (f ++ g).
  rewrite E2, E1, app_assoc, length_app. split; [done|]. split; [lia|].
  intros Hw. rewrite Hw2 by intuition. lia.
Qed.

Lemma returned_refl t c e : returned t c e t c.
Proof. exists []. rewrite app_nil_r. simpl. auto with lia. Qed.

Lemma fine_after {A C} n n' t0 c0 (m : result (step A) * (R * Conn))
    (k : Z -> A -> R * Conn -> result (step C) * (R * Conn)) :
  fine n t0 c0 m ->
  (forall t a s, src_inv s.1 -> src_size s.1 < n -> fine n' t s.2 (k t a s)) ->
  fine n' t0 c0 (after m k).
Proof.
  destruct m as [[[t a|t e]|e| |] s]; simpl; try done. intros (Hi & Hs & Hc) Hk.
  specialize (Hk t a s Hi Hs). unfold fine in *.
  destruct (k t a s) as [[[t' a'|t' e']|e'| |] s']; try done.
  - destruct Hk as (? & ? & ?). split; [done|]. split; [done|]. by eapply counted_trans.
  - destruct Hk as (? & ?). split; [done|]. by eapply counted_returned.
Qed.

Lemma fine_mono {A} n n' t c (m : result (step A) * (R * Conn)) :
  fine n t c m -> n <= n' -> fine n' t c m.
Proof. unfold fine. destruct m as [[[]| | |] ?]; try done. intros (? & ? & ?). auto with lia. Qed.

Lemma fwd_packet_fine msg t s :
  src_inv s.1 -> fine (src_size s.1) t s.2 (fwd_packet msg t s).
Proof.
  intros Hi. unfold fwd_packet. destruct (ReadPacket s.1) as [res r] eqn:E.
  destruct (src_any _ _ _ Hi E) as (Hi' & Hs & [(p & -> & Hp & Hl)|[e ->]]).
  2: { split; [done|]. apply returned_refl. }
  apply valid_packet_length in Hp. unfold conn_write.
  destruct (c_wr s.2) as [|[[n e]|] w] eqn:Ew; simpl; (split; [done|]).
  - split; [lia|]. exists p. auto.
  - exists (take n p). simpl. rewrite Ew. split; [done|]. split; [lia|]. by intros [?|?].
  - split; [lia|]. exists p. rewrite Ew. by split_and!.
Qed.

Lemma fwd_columns_fine fuel : forall i cnt t s,
  src_inv s.1 -> src_size s.1 < fuel ->
  fine (S (src_size s.1)) t s.2 (fwd_columns fuel i cnt t s).
Proof.
  induction fuel as [|fuel IH]; intros i cnt t s Hi Hf; [lia|]. simpl.
  case_match; [|split; [done|]; split; [lia|apply counted_refl]].
  eapply fine_after; [by apply fwd_packet_fine|]. intros t' pkt s' Hi' Hs'.
  eapply fine_mono; [apply IH; auto with lia|lia].
Qed.

Lemma fwd_rows_fine fuel : forall t s,
  src_inv s.1 -> src_size s.1 < fuel -> fine (src_size s.1) t s.2 (fwd_rows fuel t s).
Proof.
  induction fuel as [|fuel IH]; intros t s Hi Hf; [lia|]. simpl.
  eapply fine_after; [by apply fwd_packet_fine|]. intros t' pkt s' Hi' Hs'.
  destruct (is_row_end pkt).
  - destruct (checkMoreResultsInEOFPacket_total pkt) as [m ->].
    split; [done|]. split; [done|]. apply counted_refl.
  - eapply fine_mono; [apply IH; auto with lia|lia].
Qed.

Lemma done_or_more_fine n t m s :
  src_inv s.1 -> src_size s.1 < n -> (exists more, m = Ok more) ->
  fine n t s.2 (done_or_more t m s).
Proof.
  intros Hi Hs [[] ->]; simpl; split; auto using counted_refl, returned_refl.
Qed.

Lemma fwd_result_fine t s : src_inv s.1 -> fine (src_size s.1) t s.2 (fwd_result t s).
Proof.
  intros Hi. unfold fwd_result. eapply fine_after; [by apply fwd_packet_fine|].
  clear t. intros t pkt s' Hi' Hs'. case_bool_decide as Hlen.
  { split; [done|apply returned_refl]. }
  destruct (index_ok pkt 4) as [ty ->]; [lia|].
  repeat case_match; auto using done_or_more_fine, checkMoreResultsInOKPacket_total,
    checkMoreResultsInEOFPacket_total.
  1,2: by split; [done|apply returned_refl].
  eapply fine_after; [by apply fwd_columns_fine; auto with lia|].
  clear t. intros t _ s1 Hi1 Hs1. eapply fine_after; [by apply fwd_packet_fine|].
  clear t. intros t pkt2 s2 Hi2 Hs2. case_match.
  { apply done_or_more_fine; auto using checkMoreResultsInOKPacket_total with lia. }
  eapply fine_after; [by apply fwd_rows_fine; auto with lia|].
  clear t. intros t more s3 Hi3 Hs3. apply done_or_more_fine; eauto with lia.
Qed.

Lemma fwd_loop_fine fuel : forall t s,
  src_inv s.1 -> src_size s.1 < fuel ->
  exists t' e s', fwd_loop fuel t s = (Ok (t', e), s') /\ src_inv s'.1 /\ returned t s.2 e t' s'.2.
Proof.
  induction fuel as [|fuel IH]; intros t s Hi Hf; [lia|]. simpl.
  pose proof (fwd_result_fine t s Hi) as Hfine. unfold fine in Hfine.
  destruct (fwd_result t s) as [[[t' a|t' e]|e| |] s']; try done.
  - destruct Hfine as (Hi' & Hs' & Hc).
    destruct (IH t' s' Hi') as (t2 & e2 & s2 & -> & Hi2 & Hr2); [lia|].
    do 3 eexists. split; [done|]. split; [done|]. by eapply counted_returned.
  - destruct Hfine. eauto 6.
Qed.
End any_source.

(** ** Draining is forwarding without the writes *)

Section same.
Context `{PacketSource R}.
Implicit Types (r : R) (c : Conn) (t : Z).

Definition same {A} (m : result A * R) (m' : result A * (R * Conn)) : Prop :=
  m'.1 = m.1 /\ m'.2.1 = m.2 /\ c_wr m'.2.2 = [].

Lemma same_after {A C} (m : result (step A) * R) m'
    (k : Z -> A -> R -> result (step C) * R) k' :
  same m m' -> (forall t a r c, c_wr c = [] -> same (k t a r) (k' t a (r, c))) ->
  same (after m k) (after m' k').
Proof.
  destruct m as [res r], m' as [res' [r' c]]. intros (E1 & E2 & E3) Hk. simpl in *; subst.
  destruct res as [[]| | |]; simpl; [by apply Hk|..]; by split_and!.
Qed.

Lemma same_packet msg t r c : c_wr c = [] -> same (full_packet t r) (fwd_packet msg t (r, c)).
Proof.
  intros Hc. unfold full_packet, fwd_packet, same, conn_write. simpl. rewrite Hc.
  by destruct (ReadPacket r) as [[] ?].
Qed.

Lemma same_columns fuel : forall i cnt t r c,
  c_wr c = [] -> same (full_columns fuel i cnt t r) (fwd_columns fuel i cnt t (r, c)).
Proof.
  induction fuel as [|fuel IH]; intros; simpl; [by split_and!|].
  case_match; [|by split_and!]. apply same_after; [by apply same_packet|auto].
Qed.

Lemma same_rows fuel : forall t r c,
  c_wr c = [] -> same (full_rows fuel t r) (fwd_rows fuel t (r, c)).
Proof.
  induction fuel as [|fuel IH]; intros; simpl; [by split_and!|].
  apply same_after; [by apply same_packet|]. intros t' pkt r' c' Hc'.
  case_match; [case_match; by split_and!|auto].
Qed.

Lemma same_done t m r c : c_wr c = [] -> same (done_or_more t m r) (done_or_more t m (r, c)).
Proof. intros. destruct m as [[]| | |]; by split_and!. Qed.

Lemma same_result t r c : c_wr c = [] -> same (full_result t r) (fwd_result t (r, c)).
Proof.
  intros Hc. unfold full_result, fwd_result. apply same_after; [by apply same_packet|].
  clear t. intros t pkt r' c' Hc'. case_match; [by split_and!|].
  case_match; try by split_and!. repeat case_match; auto using same_done; try by split_and!.
  apply same_after; [by apply same_columns|]. clear t. intros t _ r1 c1 Hc1.
  apply same_after; [by apply same_packet|]. clear t. intros t pkt2 r2 c2 Hc2.
  case_match; auto using same_done.
  apply same_after; [by apply same_rows|]. auto using same_done.
Qed.

Lemma same_loop fuel : forall t r c,
  c_wr c = [] -> same (full_loop fuel t r) (fwd_loop fuel t (r, c)).
Proof.
  induction fuel as [|fuel IH]; intros t r c Hc; simpl; [by split_and!|].
  pose proof (same_result t r c Hc) as (E1 & E2 & E3).
  destruct (full_result t r) as [res r'], (fwd_result t (r, c)) as [res' [r'' c']].
  simpl in *; subst. destruct res as [[]| | |]; auto; by split_and!.
Qed.
End same.

(** ** Responses as the MySQL protocol defines them *)

Definition le64_bytes (z : Z) : bytes :=
  map (fun i => byte_of_Z (Z.shiftr z (8 * i))) [0; 1; 2; 3; 4; 5; 6; 7]%Z.

(** The shortest length-encoded integer. *)
Definition lenenc (n : Z) : bytes :=
  if (n <? 251)%Z then [byte_of_Z n]
  else if (n <? 2 ^ 16)%Z then Byte.xfc :: le16_bytes n
  else if (n <? 2 ^ 24)%Z then Byte.xfd :: le24_bytes n
  else Byte.xfe :: le64_bytes n.

Definition ok_payload (affected last_id status warnings : Z) (info : bytes) : bytes :=
  Byte.x00 :: lenenc affected ++ lenenc last_id ++ le16_bytes status ++ le16_bytes warnings ++ info.
Definition eof_payload (warnings status : Z) : bytes :=
  Byte.xfe :: le16_bytes warnings ++ le16_bytes status.
Definition err_payload (rest : bytes) : bytes := Byte.xff :: rest.

(** SERVER_MORE_RESULTS_EXISTS is bit 3 of the status flags. *)
Definition more_flag (status : Z) : bool := Z.testbit status 3.

(** A row: not an EOF packet, which the protocol tells from a row by its size. *)
Definition row_packet (p : bytes) : Prop :=
  exists seq payload, p = mk_packet seq payload /\ (Z.of_nat (length payload) < 2 ^ 24)%Z /\
    (head payload <> Some Byte.xfe \/ 9 <= length payload).

Definition u16 (z : Z) : Prop := (0 <= z < 2 ^ 16)%Z.
Definition u64 (z : Z) : Prop := (0 <= z < 2 ^ 64)%Z.

Inductive mysql_response : list bytes -> Prop :=
  | resp_ok seq a l st w info :
      u64 a -> u64 l -> u16 st -> more_flag st = false ->
      mysql_response [mk_packet seq (ok_payload a l st w info)]
  | resp_ok_more seq a l st w info ps :
      u64 a -> u64 l -> u16 st -> more_flag st = true -> mysql_response ps ->
      mysql_response (mk_packet seq (ok_payload a l st w info) :: ps)
  | resp_err seq rest : mysql_response [mk_packet seq (err_payload rest)]
  | resp_infile seq name : mysql_response [mk_packet seq (Byte.xfb :: name)]
  | resp_eof seq w st :
      u16 st -> more_flag st = false -> mysql_response [mk_packet seq (eof_payload w st)]
  | resp_rows seq n defs seq1 w1 st1 rows seq2 w2 st2 :
      (1 <= n < 2 ^ 24)%Z -> Z.of_nat (length defs) = n -> Forall row_packet rows ->
      u16 st2 -> more_flag st2 = false ->
      mysql_response (mk_packet seq (lenenc n) :: defs ++ mk_packet seq1 (eof_payload w1 st1)
                      :: rows ++ [mk_packet seq2 (eof_payload w2 st2)])
  | resp_rows_more seq n defs seq1 w1 st1 rows seq2 w2 st2 ps :
      (1 <= n < 2 ^ 24)%Z -> Z.of_nat (length defs) = n -> Forall row_packet rows ->
      u16 st2 -> more_flag st2 = true -> mysql_response ps ->
      mysql_response (mk_packet seq (lenenc n) :: defs ++ mk_packet seq1 (eof_payload w1 st1)
                      :: rows ++ mk_packet seq2 (eof_payload w2 st2) :: ps).

Section lenenc_lemmas.
Local Open Scope Z_scope.

(** One base-256 digit. *)
Lemma digit z k : 0 <= k -> z / 2 ^ k = (z / 2 ^ k) mod 256 + 256 * (z / 2 ^ (k + 8)).
Proof.
  intros Hk. rewrite Z.pow_add_r, <- Z.div_div by (try apply Z.pow_pos_nonneg; lia).
  pose proof (Z.div_mod (z / 2 ^ k) 256). change (2 ^ 8) with 256. lia.
Qed.

Lemma le64_val z :
  0 <= z < 2 ^ 64 ->
  z = z mod 256 + (z / 2 ^ 8) mod 256 * 2 ^ 8 + (z / 2 ^ 16) mod 256 * 2 ^ 16
    + (z / 2 ^ 24) mod 256 * 2 ^ 24 + (z / 2 ^ 32) mod 256 * 2 ^ 32
    + (z / 2 ^ 40) mod 256 * 2 ^ 40 + (z / 2 ^ 48) mod 256 * 2 ^ 48
    + (z / 2 ^ 56) mod 256 * 2 ^ 56.
Proof.
  intros Hz. pose proof (digit z 0 ltac:(lia)). pose proof (digit z 8 ltac:(lia)).
  pose proof (digit z 16 ltac:(lia)). pose proof (digit z 24 ltac:(lia)).
  pose proof (digit z 32 ltac:(lia)). pose proof (digit z 40 ltac:(lia)).
  pose proof (digit z 48 ltac:(lia)). pose proof (digit z 56 ltac:(lia)).
  assert (z / 2 ^ (56 + 8) = 0) by (apply Z.div_small; lia).
  change (2 ^ 0) with 1 in *. rewrite Z.div_1_r in *. cbn [Z.add] in *.
  change (0 + 8) with 8 in *. change (8 + 8) with 16 in *. change (16 + 8) with 24 in *.
  change (24 + 8) with 32 in *. change (32 + 8) with 40 in *. change (40 + 8) with 48 in *.
  change (48 + 8) with 56 in *. lia.
Qed.

Lemma lor_byte_range a b k k' :
  k' = k + 8 -> 0 <= k -> 0 <= a < 2 ^ k -> 0 <= b < 256 -> 0 <= Z.lor a (Z.shiftl b k) < 2 ^ k'.
Proof. intros -> Hk Ha Hb. rewrite lor_shiftl_add, Z.pow_add_r by lia. nia. Qed.

Lemma readLengthEncodedInt_lenenc n rest :
  u64 n -> readLengthEncodedInt (lenenc n ++ rest) = n.
Proof.
  unfold u64. intros Hn. unfold lenenc.
  destruct (Z.ltb_spec n 251).
  { simpl. rewrite u8_byte_of_Z, Z.mod_small by lia.
    destruct (Z.eqb_spec n 0xFC), (Z.eqb_spec n 0xFD), (Z.eqb_spec n 0xFE); lia. }
  destruct (Z.ltb_spec n (2 ^ 16)); [apply le16_le16_bytes; lia|].
  destruct (Z.ltb_spec n (2 ^ 24)); [apply le24_le24_bytes; lia|].
  cbn -[Z.lor Z.shiftl Z.shiftr Z.mul byte_of_Z].
  rewrite !lor_shiftl_add;
    try lia; repeat (apply lor_byte_range; [lia..| |apply u8_range]); try apply u8_range.
  rewrite !u8_byte_of_Z, !Z.shiftr_div_pow2 by lia. rewrite (le64_val n) at 9 by lia.
  change (8 * 0) with 0. rewrite Z.div_1_r. done.
Qed.

Lemma lenencIntSize_lenenc n rest :
  u64 n -> lenencIntSize (lenenc n ++ rest) = Z.of_nat (length (lenenc n)).
Proof.
  unfold u64. intros Hn. unfold lenenc.
  destruct (Z.ltb_spec n 251); [|by repeat case_match].
  simpl. rewrite u8_byte_of_Z, Z.mod_small by lia.
  destruct (Z.eqb_spec n 0xFC), (Z.eqb_spec n 0xFD), (Z.eqb_spec n 0xFE); lia.
Qed.

Lemma length_lenenc n : (1 <= length (lenenc n) <= 9)%nat.
Proof. unfold lenenc. repeat case_match; simpl; lia. Qed.

Lemma has_more_flag st :
  u16 st -> has_more (byte_of_Z st) (byte_of_Z (Z.shiftr st 8)) = more_flag st.
Proof.
  unfold u16. intros Hs. unfold has_more, more_flag, serverMoreResultsExist.
  rewrite le16_le16_bytes by done. destruct (Z.testbit st 3) eqn:E.
  - apply negb_true_iff, Z.eqb_neq. intros E0.
    assert (Z.testbit (Z.land st 8) 3 = true) by (rewrite Z.land_spec, E; done).
    rewrite E0 in *. done.
  - apply negb_false_iff, Z.eqb_eq. apply Z.bits_inj'. intros n Hn.
    rewrite Z.land_spec, Z.bits_0. change 8 with (2 ^ 3). rewrite Z.pow2_bits_eqb by lia.
    destruct (Z.eqb_spec 3 n) as [<-|]; [by rewrite E|apply andb_false_r].
Qed.
End lenenc_lemmas.

(** ** The packets of the grammar as the parser sees them *)

Lemma mk_packet_4 seq b payload : mk_packet seq (b :: payload) !! 4 = Some b.
Proof. done. Qed.

Lemma index_mk_packet seq b payload : index (mk_packet seq (b :: payload)) 4 = Ok b.
Proof. done. Qed.

Lemma checkEOF_mk seq w st :
  u16 st -> checkMoreResultsInEOFPacket (mk_packet seq (eof_payload w st)) = Ok (more_flag st).
Proof. intros Hs. rewrite <- has_more_flag by done. done. Qed.

Lemma is_row_end_eof seq w st : is_row_end (mk_packet seq (eof_payload w st)) = true.
Proof. done. Qed.

Lemma is_row_end_row p : row_packet p -> is_row_end p = false.
Proof.
  intros (seq & payload & -> & Hlen & Hrow). destruct payload as [|b payload]; [done|].
  unfold mk_packet, le24_bytes, is_row_end. cbn [app].
  destruct Hrow as [Hb|Hl].
  - destruct (Z.eqb_spec (u8 b) 0xFE) as [E|]; [|done]. contradict Hb. simpl. f_equal.
    by apply u8_inj.
  - rewrite (le24_le24_bytes (Z.of_nat (length (b :: payload)))) by lia.
    destruct (Z.ltb_spec (Z.of_nat (length (b :: payload))) 9); [simpl in *; lia|].
    apply andb_false_r.
Qed.

Lemma checkOK_mk seq a l st w info :
  u64 a -> u64 l -> u16 st ->
  checkMoreResultsInOKPacket (mk_packet seq (ok_payload a l st w info)) = Ok (more_flag st).
Proof.
  intros Ha Hl Hs. unfold checkMoreResultsInOKPacket.
  pose proof (length_lenenc a). pose proof (length_lenenc l).
  set (pkt := mk_packet _ _). set (tail := le16_bytes st ++ le16_bytes w ++ info).
  assert (Epkt : exists h, pkt = h ++ lenenc a ++ lenenc l ++ tail /\ length h = 5).
  { exists (take 5 pkt). done. }
  destruct Epkt as (h & Epkt & Hh).
  assert (Hlen : length pkt = 5 + length (lenenc a) + length (lenenc l) + length tail).
  { rewrite Epkt, !length_app. lia. }
  assert (4 <= length tail) by (subst tail; rewrite !length_app; simpl; lia).
  rewrite bool_decide_false by lia. rewrite slice_to_end by lia. cbn [mbind result_bind].
  assert (drop (Z.to_nat 5) pkt = lenenc a ++ lenenc l ++ tail) as ->.
  { rewrite Epkt. by rewrite drop_app_length'. }
  rewrite lenencIntSize_lenenc by done.
  destruct (Z.leb_spec (Z.of_nat (length pkt)) (5 + Z.of_nat (length (lenenc a)))); [lia|].
  rewrite slice_to_end by lia. cbn [mbind result_bind].
  assert (drop (Z.to_nat (5 + Z.of_nat (length (lenenc a)))) pkt = lenenc l ++ tail) as ->.
  { rewrite Epkt, app_assoc. rewrite drop_app_length'; [done|]. rewrite length_app. lia. }
  rewrite lenencIntSize_lenenc by done.
  destruct (Z.ltb_spec (Z.of_nat (length pkt))
    (5 + Z.of_nat (length (lenenc a)) + Z.of_nat (length (lenenc l)) + 2)); [lia|].
  assert (Eq : pkt = (h ++ lenenc a ++ lenenc l) ++
     byte_of_Z st :: byte_of_Z (Z.shiftr st 8) :: le16_bytes w ++ info).
  { rewrite Epkt. subst tail. by rewrite <- !app_assoc. }
  assert (index pkt (5 + Z.of_nat (length (lenenc a)) + Z.of_nat (length (lenenc l)))
          = Ok (byte_of_Z st)) as ->.
  { rewrite Eq. apply index_app. rewrite !length_app. lia. }
  assert (index pkt (5 + Z.of_nat (length (lenenc a)) + Z.of_nat (length (lenenc l)) + 1)
          = Ok (byte_of_Z (Z.shiftr st 8))) as ->.
  { rewrite Eq, cons_middle, app_assoc. apply index_app.
    rewrite !length_app. cbn [length]. lia. }
  cbn [mbind result_bind]. by rewrite has_more_flag.
Qed.

(** ** Forwarding a response of the grammar *)

Section grammar.
Context `{PacketSource R}.
Implicit Types (r : R) (c : Conn) (t : Z).

(** The client after [bs] has been written to it without an error. *)
Definition sent (c : Conn) (bs : bytes) : Conn := MkConn (c_in c) (c_out c ++ bs) [].
Definition plus_len t (bs : bytes) : Z := (t + Z.of_nat (length bs))%Z.

Lemma sent_sent c a b : sent (sent c a) b = sent c (a ++ b).
Proof. unfold sent; simpl. by rewrite app_assoc. Qed.
Lemma plus_len_plus_len t a b : plus_len (plus_len t a) b = plus_len t (a ++ b).
Proof. unfold plus_len. rewrite length_app. lia. Qed.


(** The piece [m] of the loop reads exactly [bs], leaving [ps], with value [a]. *)
Definition reads {A} t c (bs : bytes) (ps : list bytes) (o : Z -> step A)
    (m : result (step A) * (R * Conn)) : Prop :=
  exists r', m = (Ok (o (plus_len t bs)), (r', sent c bs)) /\ src_holds r' ps.

Lemma reads_after {A C} t c bs bs' ps ps' (a : A) (o : Z -> step C) m k :
  reads t c bs ps (fun t => Next t a) m ->
  (forall r, src_holds r ps -> reads (plus_len t bs) (sent c bs) bs' ps' o
                                  (k (plus_len t bs) a (r, sent c bs))) ->
  reads t c (bs ++ bs') ps' o (after m k).
Proof.
  intros (r' & -> & Hr') Hk. destruct (Hk r' Hr') as (r2 & E & Hr2).
  exists r2. split; [|done]. simpl. rewrite E. by rewrite ?sent_sent, ?plus_len_plus_len.
Qed.

Lemma reads_packet msg t c r p ps :
  c_wr c = [] -> src_holds r (p :: ps) ->
  reads t c p ps (fun t => Next t p) (fwd_packet msg t (r, c)).
Proof.
  intros Hc Hr. destruct (src_next _ _ _ Hr) as (r' & E & Hr'). exists r'.
  split; [|done]. unfold fwd_packet, conn_write. simpl. by rewrite E, Hc.
Qed.

Lemma reads_columns fuel : forall defs ps i cnt t c r,
  c_wr c = [] -> src_holds r (defs ++ ps) -> Z.of_nat (length defs) = (cnt - i)%Z ->
  length defs < fuel ->
  reads t c (concat defs) ps (fun t => Next t tt) (fwd_columns fuel i cnt t (r, c)).
Proof.
  induction fuel as [|fuel IH]; intros defs ps i cnt t c r Hc Hr Hlen Hf; [lia|]. simpl.
  destruct defs as [|d defs]; simpl in *.
  - destruct (Z.ltb_spec i cnt); [lia|]. exists r. split; [|done].
    unfold plus_len, sent; simpl. rewrite Z.add_0_r, app_nil_r. by destruct c; simpl in *; subst.
  - destruct (Z.ltb_spec i cnt); [|lia]. eapply reads_after; [by apply reads_packet|].
    intros r' Hr'. apply IH; [done|done|lia|lia].
Qed.

Lemma reads_rows fuel : forall rows seq w st ps t c r,
  c_wr c = [] -> Forall row_packet rows -> u16 st ->
  src_holds r (rows ++ mk_packet seq (eof_payload w st) :: ps) -> length rows < fuel ->
  reads t c (concat rows ++ mk_packet seq (eof_payload w st)) ps
    (fun t => Next t (more_flag st)) (fwd_rows fuel t (r, c)).
Proof.
  induction fuel as [|fuel IH]; intros rows seq w st ps t c r Hc Hrows Hst Hr Hf; [lia|].
  cbn [fwd_rows]. destruct rows as [|p rows]; cbn [concat app] in *.
  - rewrite <- (app_nil_r (mk_packet _ _)). eapply reads_after; [by apply reads_packet|].
    intros r' Hr'. rewrite is_row_end_eof, checkEOF_mk by done.
    exists r'. split; [|done]. rewrite ?sent_sent, ?plus_len_plus_len. by rewrite app_nil_r.
  - apply Forall_cons_iff in Hrows as [Hp Hrows]. rewrite <- app_assoc.
    eapply reads_after; [by apply reads_packet|]. intros r' Hr'.
    rewrite is_row_end_row by done. simpl in Hf. apply IH; auto with lia.
Qed.

Lemma lenenc_head n :
  (1 <= n < 2 ^ 24)%Z ->
  exists b l, lenenc n = b :: l /\ u8 b <> 0x00%Z /\ u8 b <> 0xFF%Z /\
              u8 b <> 0xFB%Z /\ u8 b <> 0xFE%Z.
Proof.
  intros Hn. unfold lenenc. destruct (Z.ltb_spec n 251).
  { exists (byte_of_Z n), []. rewrite u8_byte_of_Z, Z.mod_small by lia. split; [done|lia]. }
  destruct (Z.ltb_spec n (2 ^ 16)); [by do 2 eexists; split_and!|].
  destruct (Z.ltb_spec n (2 ^ 24)); [by do 2 eexists; split_and!|lia].
Qed.

(** What an iteration of the outer loop does with a flag. *)
Definition next_if (more : bool) (t : Z) : step unit :=
  if more then Next t tt else Return t None.

Lemma done_or_more_next_if {S} t more (s : S) :
  done_or_more t (Ok more) s = (Ok (next_if more t), s).
Proof. by destruct more. Qed.

Lemma reads_nil {A} t c r ps (o : Z -> step A) :
  c_wr c = [] -> src_holds r ps -> reads t c [] ps o (Ok (o t), (r, c)).
Proof.
  intros Hc Hr. exists r. split; [|done]. unfold plus_len, sent. simpl.
  rewrite Z.add_0_r, app_nil_r. by destruct c; simpl in *; subst.
Qed.

(** A first packet that settles the response by itself. *)
Lemma reads_result_first t c r seq b payload ps more :
  c_wr c = [] -> src_holds r (mk_packet seq (b :: payload) :: ps) ->
  ((u8 b = 0x00%Z /\ checkMoreResultsInOKPacket (mk_packet seq (b :: payload)) = Ok more)
   \/ ((u8 b = 0xFF%Z \/ u8 b = 0xFB%Z) /\ more = false)
   \/ (u8 b = 0xFE%Z /\ checkMoreResultsInEOFPacket (mk_packet seq (b :: payload)) = Ok more)) ->
  reads t c (mk_packet seq (b :: payload)) ps (next_if more) (fwd_result t (r, c)).
Proof.
  intros Hc Hr Hb. unfold fwd_result. rewrite <- (app_nil_r (mk_packet _ _)).
  eapply reads_after; [by apply reads_packet|]. intros r' Hr'.
  rewrite bool_decide_false by (rewrite length_mk_packet; simpl; lia).
  rewrite index_mk_packet.
  destruct Hb as [[-> E]|[[[->| ->] ->]|[-> E]]]; simpl Z.eqb; cbv iota.
  1,4: rewrite E, done_or_more_next_if; by apply reads_nil.
  all: by apply (reads_nil _ _ r' ps (next_if false)).
Qed.

Definition loops t c (bs : bytes) (ps : list bytes) (m : result (Z * option error) * (R * Conn)) :=
  exists r', m = (Ok (plus_len t bs, None), (r', sent c bs)) /\ src_holds r' ps.

Lemma loops_last fuel t c r bs rest :
  reads t c bs rest (next_if false) (fwd_result t (r, c)) ->
  loops t c bs rest (fwd_loop (S fuel) t (r, c)).
Proof. intros (r' & E & Hr'). exists r'. split; [|done]. simpl. by rewrite E. Qed.

Lemma loops_more fuel t c r bs ps bs' rest :
  reads t c bs ps (next_if true) (fwd_result t (r, c)) ->
  (forall r, src_holds r ps -> loops (plus_len t bs) (sent c bs) bs' rest
                                  (fwd_loop fuel (plus_len t bs) (r, sent c bs))) ->
  loops t c (bs ++ bs') rest (fwd_loop (S fuel) t (r, c)).
Proof.
  intros (r' & E & Hr') Hk. destruct (Hk r' Hr') as (r2 & E2 & Hr2). exists r2.
  split; [|done]. simpl. rewrite E. simpl. rewrite E2. by rewrite sent_sent, plus_len_plus_len.
Qed.

(** The part of a result set before its rows. *)
Lemma reads_result_prefix t c r seq n defs seq1 w1 st1 ps bs ps' o :
  c_wr c = [] -> (1 <= n < 2 ^ 24)%Z -> Z.of_nat (length defs) = n ->
  src_holds r (mk_packet seq (lenenc n) :: defs ++ mk_packet seq1 (eof_payload w1 st1) :: ps) ->
  (forall t c r, c_wr c = [] -> src_holds r ps ->
     reads t c bs ps' o
       (let@ total, more, s := fwd_rows (S (src_size r)) t (r, c) in
        done_or_more total (Ok more) s)) ->
  reads t c (mk_packet seq (lenenc n) ++ concat defs ++ mk_packet seq1 (eof_payload w1 st1) ++ bs)
    ps' o (fwd_result t (r, c)).
Proof.
  intros Hc Hn Hdefs Hr Hk. unfold fwd_result.
  eapply reads_after; [by apply reads_packet|]. clear r Hr. intros r Hr.
  destruct (lenenc_head n Hn) as (b & l & El & H0 & H1 & H2 & H3).
  replace (drop 4 (mk_packet seq (lenenc n))) with (lenenc n ++ []) by (by rewrite app_nil_r).
  rewrite readLengthEncodedInt_lenenc by (unfold u64; lia).
  rewrite El, bool_decide_false by (rewrite length_mk_packet; simpl; lia).
  rewrite index_mk_packet. rewrite !(proj2 (Z.eqb_neq _ _)) by done.
  pose proof (src_holds_length _ _ Hr) as Hlen. rewrite length_app in Hlen. simpl in Hlen.
  eapply reads_after; [apply reads_columns; [done|done|lia|simpl; lia]|].
  clear r Hr Hlen. intros r Hr.
  eapply reads_after; [by apply reads_packet|]. clear r Hr. intros r Hr.
  rewrite (bool_decide_false (_ = Some Byte.x00)), andb_false_r by done.
  by apply Hk.
Qed.

Lemma reads_result_rows t c r seq n defs seq1 w1 st1 rows seq2 w2 st2 ps :
  c_wr c = [] -> (1 <= n < 2 ^ 24)%Z -> Z.of_nat (length defs) = n ->
  Forall row_packet rows -> u16 st2 ->
  src_holds r (mk_packet seq (lenenc n) :: defs ++ mk_packet seq1 (eof_payload w1 st1)
               :: rows ++ mk_packet seq2 (eof_payload w2 st2) :: ps) ->
  reads t c (mk_packet seq (lenenc n) ++ concat defs ++ mk_packet seq1 (eof_payload w1 st1)
             ++ concat rows ++ mk_packet seq2 (eof_payload w2 st2)) ps
    (next_if (more_flag st2)) (fwd_result t (r, c)).
Proof.
  intros Hc Hn Hdefs Hrows Hst Hr. eapply reads_result_prefix; [done..|].
  clear t c r Hc Hr. intros t c r Hc Hr.
  pose proof (src_holds_length _ _ Hr) as Hlen. rewrite length_app in Hlen.
  rewrite <- (app_nil_r (concat rows ++ _)).
  eapply reads_after; [apply reads_rows; [done..|exact Hr|simpl in *; lia]|].
  clear r Hr Hlen. intros r Hr. rewrite done_or_more_next_if. by apply reads_nil.
Qed.

Lemma reads_response ps : mysql_response ps -> forall fuel t c r rest,
  c_wr c = [] -> src_holds r (ps ++ rest) -> length ps < fuel ->
  loops t c (concat ps) rest (fwd_loop fuel t (r, c)).
Proof.
  induction 1 as [seq a l st w info Ha Hl Hst Hm
    |seq a l st w info ps Ha Hl Hst Hm _ IH|seq e|seq name|seq w st Hst Hm
    |seq n defs seq1 w1 st1 rows seq2 w2 st2 Hn Hd Hrows Hst Hm
    |seq n defs seq1 w1 st1 rows seq2 w2 st2 ps Hn Hd Hrows Hst Hm _ IH];
    intros fuel t c r rest Hc Hr Hf; (destruct fuel as [|fuel]; [lia|]);
    cbn [concat app] in *; rewrite ?app_nil_r.
  - apply loops_last, reads_result_first; [done..|]. left. split; [done|]. rewrite <- Hm. by apply checkOK_mk.
  - eapply loops_more.
    + apply reads_result_first; [done..|]. left. split; [done|]. rewrite <- Hm. by apply checkOK_mk.
    + intros r' Hr'. apply IH; [done..|simpl in Hf; lia].
  - apply loops_last, reads_result_first; [done..|]. right; left. split; [by left|done].
  - apply loops_last, reads_result_first; [done..|]. right; left. split; [by right|done].
  - apply loops_last, reads_result_first; [done..|]. right; right. split; [done|].
    rewrite <- Hm. by apply checkEOF_mk.
  - rewrite concat_app. cbn [concat]. rewrite concat_app. cbn [concat]. rewrite app_nil_r.
    apply loops_last. rewrite <- Hm. apply reads_result_rows; auto.
    by rewrite <- !app_assoc in Hr; cbn [app] in Hr; rewrite <- app_assoc in Hr.
  - rewrite concat_app. cbn [concat]. rewrite concat_app. cbn [concat].
    rewrite (app_assoc (concat rows)), (app_assoc (mk_packet seq1 _)), (app_assoc (concat defs)),
      (app_assoc (mk_packet seq _)).
    rewrite length_cons, length_app in Hf. cbn [length] in Hf. rewrite length_app in Hf.
    cbn [length] in Hf. eapply loops_more.
    + rewrite <- Hm. apply reads_result_rows; auto.
      by rewrite <- !app_assoc in Hr; cbn [app] in Hr; rewrite <- app_assoc in Hr.
    + intros r' Hr'. apply IH; [done..|lia].
Qed.
End grammar.

(** ** Where the parser's grammar and the protocol part

    The row loop looks only for EOF packets, and the first packet's type byte
    alone decides what the response is. *)

(** COM_STMT_PREPARE_OK: status 0, statement id, number of columns and of
    parameters, filler, warnings. The parameter and column definitions follow
    in packets of their own. *)
Definition prepare_ok_payload (stmt_id columns params warnings : Z) : bytes :=
  Byte.x00 :: byte_of_Z stmt_id :: byte_of_Z (Z.shiftr stmt_id 8)
    :: byte_of_Z (Z.shiftr stmt_id 16) :: byte_of_Z (Z.shiftr stmt_id 24)
    :: le16_bytes columns ++ le16_bytes params ++ Byte.x00 :: le16_bytes warnings.

Lemma checkOK_prepare seq id columns params warnings :
  (0 <= id < 251)%Z ->
  checkMoreResultsInOKPacket (mk_packet seq (prepare_ok_payload id columns params warnings))
  = Ok false.
Proof.
  intros Hid. unfold prepare_ok_payload. rewrite !Z.shiftr_div_pow2 by lia.
  rewrite (Z.div_small id (2 ^ 8)), (Z.div_small id (2 ^ 16)), (Z.div_small id (2 ^ 24)) by lia.
  assert (Hs : forall l, lenencIntSize (byte_of_Z id :: l) = 1%Z).
  { intros l. unfold lenencIntSize. rewrite u8_byte_of_Z, Z.mod_small by lia.
    by rewrite !(proj2 (Z.eqb_neq _ _)) by lia. }
  unfold checkMoreResultsInOKPacket. rewrite bool_decide_false by (simpl; lia).
  rewrite slice_to_end by (simpl; lia). cbn [mbind result_bind].
  set (pkt := mk_packet _ _).
  assert (lenencIntSize (drop (Z.to_nat 5) pkt) = 1%Z) as -> by apply Hs.
  done.
Qed.

(** On a list of packets the row loop that meets no EOF packet reads on to the
    end of the connection. *)
Lemma fwd_rows_no_end fuel : forall (rows : list bytes) t c,
  c_wr c = [] -> Forall row_packet rows -> length rows < fuel ->
  fwd_rows fuel t (rows, c)
  = (Ok (Return (plus_len t (concat rows)) (Some ErrEOF)), ([], sent c (concat rows))).
Proof.
  induction fuel as [|fuel IH]; intros rows t c Hc Hrows Hf; [lia|].
  cbn [fwd_rows]. destruct rows as [|p rows].
  - unfold fwd_packet, plus_len, sent. simpl. rewrite Z.add_0_r, app_nil_r.
    by destruct c; simpl in *; subst.
  - apply Forall_cons_iff in Hrows as [Hp Hrows]. unfold fwd_packet, conn_write. simpl.
    rewrite Hc. simpl. rewrite is_row_end_row by done.
    change (MkConn (c_in c) (c_out c ++ p) []) with (sent c p).
    change (t + Z.of_nat (length p))%Z with (plus_len t p).
    rewrite IH by (done || simpl in Hf; lia).
    by rewrite sent_sent, plus_len_plus_len.
Qed.

Lemma row_packet_valid p : row_packet p -> valid_packet p.
Proof. intros (seq & pl & -> & Hl & _). by apply valid_mk_packet. Qed.

Lemma row_packet_err seq e :
  (Z.of_nat (length (err_payload e)) < 2 ^ 24)%Z -> row_packet (mk_packet seq (err_payload e)).
Proof. intros He. exists seq, (err_payload e). split; [done|]. split; [done|by left]. Qed.

(** ** Properties *)

(** C8: Forwarding reads exactly one response. Given any packet source that will
    deliver a response of the MySQL protocol - OK, ERR, LOCAL INFILE or EOF, a
    result set of any number of columns and rows, or a chain of these linked by
    SERVER_MORE_RESULTS_EXISTS - followed by anything, [ReadAndForwardResponse]
    writes exactly the packets of that response to the client, returns their
    size, and leaves the rest unread. *)
Theorem forwards_exactly_one_response `{PacketSource R} (r : R) (c : Conn) ps rest :
  mysql_response ps -> src_holds r (ps ++ rest) -> c_wr c = [] ->
  exists r',
    ReadAndForwardResponse (r, c)
    = (Ok (Z.of_nat (length (concat ps)), None), (r', MkConn (c_in c) (c_out c ++ concat ps) []))
    /\ src_holds r' rest.
Proof.
  intros Hps Hr Hc. pose proof (src_holds_length _ _ Hr) as Hlen. rewrite length_app in Hlen.
  apply (reads_response ps Hps _ 0%Z c r rest Hc Hr). simpl. lia.
Qed.

(** A two-statement response: OK with the more-results flag, then a result set
    of one column and two rows, cut into three reads, with another packet behind. *)
Definition c3_response : list bytes :=
  mk_packet Byte.x01 (ok_payload 300 0 8 0 [])
  :: mk_packet Byte.x02 (lenenc 1) :: [mk_packet Byte.x03 (B "def")]
  ++ mk_packet Byte.x04 (eof_payload 0 2)
  :: [mk_packet Byte.x05 (B "a"); mk_packet Byte.x06 (B "b")]
  ++ [mk_packet Byte.x07 (eof_payload 0 2)].
Definition c3_stream : bytes := concat c3_response ++ mk_packet Byte.x01 (ok_payload 0 0 2 0 []).
Definition c3_segments : list read_ev :=
  segments [take 5 c3_stream; take 20 (drop 5 c3_stream); drop 25 c3_stream].
Definition c3_reader : MySQLPacketReader := NewMySQLPacketReader c3_segments.

Lemma c3_response_ok : mysql_response c3_response.
Proof.
  apply resp_ok_more; [done..|]. apply resp_rows; [done|done| |done|done].
  repeat constructor; do 2 eexists; (split; [done|]; split; [done|by left]).
Qed.

Lemma forwards_exactly_one_response_witness :
  exists r', ReadAndForwardResponse (c3_reader, MkConn [] [] [])
    = (Ok (53%Z, None), (r', MkConn [] (concat c3_response) []))
    /\ src_holds r' [mk_packet Byte.x01 (ok_payload 0 0 2 0 [])].
Proof.
  refine (forwards_exactly_one_response c3_reader (MkConn [] [] []) c3_response
            [mk_packet Byte.x01 (ok_payload 0 0 2 0 [])] c3_response_ok _ eq_refl).
  exists [], []. split; [|by repeat (apply Forall_cons_iff; split)].
  exact (NewMySQLPacketReader_will_read c3_segments [] (clean_segments _)).
Defined.

(** Draining and forwarding agree. On every packet source - malformed
    responses, truncated streams and read errors included - [ReadFullResponse]
    returns the byte count and error [ReadAndForwardResponse] returns when the
    client accepts all writes, and leaves the source in the same state. *)
Theorem drain_agrees_with_forward `{PacketSource R} (r : R) (c : Conn) :
  c_wr c = [] ->
  (ReadFullResponse r).1 = (ReadAndForwardResponse (r, c)).1 /\
  (ReadFullResponse r).2 = (ReadAndForwardResponse (r, c)).2.1.
Proof.
  intros Hc. destruct (same_loop (S (src_size r)) 0%Z r c Hc) as (E1 & E2 & _).
  split; symmetry; [exact E1|exact E2].
Qed.

Lemma drain_agrees_with_forward_witness :
  (ReadFullResponse c3_reader).1 = (ReadAndForwardResponse (c3_reader, MkConn [] [] [])).1 /\
  (ReadFullResponse c3_reader).2 = (ReadAndForwardResponse (c3_reader, MkConn [] [] [])).2.1.
Proof. exact (drain_agrees_with_forward c3_reader (MkConn [] [] []) eq_refl). Defined.

(** The response parser terminates without a panic on every packet source
    and every client, whatever bytes the server sends and however writes fail,
    and the byte count it reports is the number of bytes written to the client
    (at most that number when it reports the failure of a write). *)
Theorem response_parser_total `{PacketSource R} (r : R) (c : Conn) :
  src_inv r ->
  exists total err r' c' forwarded,
    ReadAndForwardResponse (r, c) = (Ok (total, err), (r', c')) /\ src_inv r' /\
    c_out c' = c_out c ++ forwarded /\ (0 <= total /\ total <= Z.of_nat (length forwarded))%Z /\
    (c_wr c = [] \/ err = None -> total = Z.of_nat (length forwarded)).
Proof.
  intros Hr. destruct (fwd_loop_fine (S (src_size r)) 0%Z (r, c) Hr) as (t & e & [r' c'] & E & Hr' & f & ?);
    [simpl; lia|]. exists t, e, r', c', f. auto.
Qed.

(** A column count of 250 with only two packets behind it and a client whose
    second write fails after one byte. *)
Lemma response_parser_total_witness :
  exists total err r' c' forwarded,
    ReadAndForwardResponse ([mk_packet Byte.x01 (lenenc 250); mk_packet Byte.x02 [Byte.x41]],
                            MkConn [] [] [None; Some (1, ErrConn "broken pipe")])
    = (Ok (total, err), (r', c')) /\ Forall valid_packet r' /\
    c_out c' = [] ++ forwarded /\ (0 <= total /\ total <= Z.of_nat (length forwarded))%Z /\
    ([None; Some (1, ErrConn "broken pipe")] = [] \/ err = None -> total = Z.of_nat (length forwarded)).
Proof.
  refine (response_parser_total (R := list bytes) _ (MkConn [] [] [None; Some (1, ErrConn "broken pipe")]) _).
  by repeat constructor.
Defined.

(** The length-encoded integer reader decodes every 64-bit integer, and the
    size function agrees with the encoding, so the status flags of an OK packet
    are found behind any affected-rows and last-insert-id values. *)
Theorem lenenc_roundtrip n rest :
  (0 <= n < 2 ^ 64)%Z ->
  readLengthEncodedInt (lenenc n ++ rest) = n /\
  lenencIntSize (lenenc n ++ rest) = Z.of_nat (length (lenenc n)).
Proof.
  intros Hn. split; [by apply readLengthEncodedInt_lenenc|by apply lenencIntSize_lenenc].
Qed.

Lemma lenenc_roundtrip_witness :
  readLengthEncodedInt (lenenc (2 ^ 40 + 7) ++ [Byte.x01]) = (2 ^ 40 + 7)%Z /\
  lenencIntSize (lenenc (2 ^ 40 + 7) ++ [Byte.x01]) = Z.of_nat (length (lenenc (2 ^ 40 + 7))).
Proof. apply (lenenc_roundtrip (2 ^ 40 + 7) [Byte.x01]). lia. Defined.

(** C38: An error in the middle of a result set does not end the response. When
    the server sends rows and then an ERR packet and waits for the next command,
    the parser has forwarded the ERR packet but goes on reading: it returns only
    when the connection is closed, with that read error. *)
Theorem err_packet_does_not_end_rows seq n (defs : list bytes) seq1 w1 st1 rows seq2 e c :
  (1 <= n < 2 ^ 24)%Z -> Z.of_nat (length defs) = n ->
  Forall valid_packet defs -> Forall row_packet rows ->
  (Z.of_nat (length (err_payload e)) < 2 ^ 24)%Z -> c_wr c = [] ->
  let ps := mk_packet seq (lenenc n) :: defs ++ mk_packet seq1 (eof_payload w1 st1)
            :: rows ++ [mk_packet seq2 (err_payload e)] in
  ReadAndForwardResponse (ps, c)
  = (Ok (Z.of_nat (length (concat ps)), Some ErrEOF), ([], MkConn (c_in c) (c_out c ++ concat ps) [])).
Proof.
  intros Hn Hd Hdv Hrows He Hc ps. set (rows' := rows ++ [mk_packet seq2 (err_payload e)]) in *.
  assert (Hrows' : Forall row_packet rows').
  { apply Forall_app. split; [done|]. constructor; [by apply row_packet_err|done]. }
  assert (Hv : Forall valid_packet ps).
  { constructor; [apply valid_mk_packet; pose proof (length_lenenc n); lia|].
    apply Forall_app. split; [done|]. constructor; [done|].
    eapply Forall_impl; [|exact Hrows']. apply row_packet_valid. }
  assert (Hh : src_holds ps ps) by (split; [done|exact Hv]).
  destruct (reads_result_prefix (R := list bytes) 0 c ps seq n defs seq1 w1 st1 rows' (concat rows') []
              (fun t => Return t (Some ErrEOF)) Hc Hn Hd Hh) as (r' & E & Hr').
  { clear c Hc. intros t c r Hc [-> Hvr]. exists []. split; [|done].
    rewrite fwd_rows_no_end; [done..|]. simpl. apply length_concat_valid in Hvr. lia. }
  destruct Hr' as [-> _].
  unfold ReadAndForwardResponse. cbn [fwd_loop]. rewrite E. subst ps. cbn [concat].
  rewrite concat_app. cbn [concat]. done.
Qed.

Lemma err_packet_does_not_end_rows_witness :
  let ps := [mk_packet Byte.x01 (lenenc 1); mk_packet Byte.x02 (B "def");
             mk_packet Byte.x03 (eof_payload 0 2); mk_packet Byte.x04 (B "row");
             mk_packet Byte.x05 (err_payload (B "killed"))] in
  ReadAndForwardResponse (ps, MkConn [] [] [])
  = (Ok (Z.of_nat (length (concat ps)), Some ErrEOF), ([], MkConn [] (concat ps) [])).
Proof.
  refine (err_packet_does_not_end_rows Byte.x01 1 [mk_packet Byte.x02 (B "def")] Byte.x03 0 2
            [mk_packet Byte.x04 (B "row")] Byte.x05 (B "killed") (MkConn [] [] []) _ _ _ _ _ _).
  1,2,5,6: done. 1: by repeat constructor.
  constructor; [|done]. do 2 eexists. split; [done|]. split; [done|by left].
Defined.

(** A prepared statement's parameter and column definitions are not
    forwarded. The reply to COM_STMT_PREPARE starts with byte 0, so the parser
    takes its first packet for an OK packet and returns, leaving the definition
    packets that complete the reply in the reader. *)
Theorem prepare_response_cut_short `{PacketSource R} (r : R) c seq id columns params w defs :
  (0 <= id < 251)%Z -> c_wr c = [] ->
  src_holds r (mk_packet seq (prepare_ok_payload id columns params w) :: defs) ->
  exists r',
    ReadAndForwardResponse (r, c)
    = (Ok (16%Z, None),
       (r', MkConn (c_in c) (c_out c ++ mk_packet seq (prepare_ok_payload id columns params w)) []))
    /\ src_holds r' defs.
Proof.
  intros Hid Hc Hr. 
  apply (loops_last (src_size r) 0%Z c r (mk_packet seq (prepare_ok_payload id columns params w)) defs).
  apply reads_result_first; [done|done|].
  left. split; [done|]. by apply checkOK_prepare.
Qed.

Lemma prepare_response_cut_short_witness :
  exists r', ReadAndForwardResponse
      ([mk_packet Byte.x01 (prepare_ok_payload 1 0 1 0); mk_packet Byte.x02 (B "?");
        mk_packet Byte.x03 (eof_payload 0 2)], MkConn [] [] [])
    = (Ok (16%Z, None), (r', MkConn [] (mk_packet Byte.x01 (prepare_ok_payload 1 0 1 0)) []))
    /\ src_holds r' [mk_packet Byte.x02 (B "?"); mk_packet Byte.x03 (eof_payload 0 2)].
Proof.
  refine (prepare_response_cut_short (R := list bytes) _ (MkConn [] [] []) Byte.x01 1 0 1 0 _ _ _ _);
    [done|done|]. split; [done|]. by repeat constructor.
Defined.
