(* ===== verification/MySQLAuth.v ===== *)
(** * MySQL authentication helpers (src/mysql_auth.go)

    Capability flags, the SSL request test, the scramble in the server's
    handshake, and the native password scheme. *)

From S2P Require Import Prelude MySQLProtocol Digest.

(** [binary.LittleEndian.Uint16(p[i:i+2])] and [PutUint16(p[i:i+2], v)] *)
Definition get16 (p : bytes) (i : nat) : result Z :=
  match p !! i, p !! S i with
  | Some b0, Some b1 => Ok (le16 b0 b1)
  | _, _ => Panic
  end.
Definition put16 (p : bytes) (i : nat) (v : Z) : bytes :=
  <[S i := byte_of_Z (Z.shiftr v 8)]> (<[i := byte_of_Z v]> p).

Definition clientDeprecateEOF : Z := 0x01000000.

(** The 32-bit capability flags after the header of a client packet. *)
Definition capabilities (packet : bytes) : result Z :=
  match get16 packet 4, get16 packet 6 with
  | Ok capLow, Ok capHigh => Ok (Z.lor capLow (Z.shiftl capHigh 16))
  | _, _ => Panic
  end.

Definition isSSLRequest (packet : bytes) : result bool :=
  if bool_decide (length packet < 8) then Ok false
  else
    match capabilities packet with
    | Ok caps =>
        let hasSSL := negb (Z.land caps clientSSL =? 0)%Z in
        let isMinimalPacket := bool_decide (length packet <= 40) in
        Ok (hasSSL && isMinimalPacket)
    | _ => Panic
    end.

Definition removeUnsupportedCapabilities (packet : bytes) : result bytes :=
  if bool_decide (length packet < 8) then Ok packet
  else
    match get16 packet 4, get16 packet 6 with
    | Ok capLow, Ok capHigh =>
        let capLow := Z.ldiff capLow (Z.land clientSSL 0xFFFF) in
        let capHigh := Z.ldiff capHigh (Z.land (Z.shiftr clientDeprecateEOF 16) 0xFFFF) in
        Ok (put16 (put16 packet 4 capLow) 6 capHigh)
    | _, _ => Panic
    end.

(** [for pos < len(packet) && packet[pos] != 0 { pos++ }], from [pos]: the
    number of bytes skipped *)
Fixpoint skip_cstring (s : bytes) : nat :=
  match s with
  | [] => 0
  | b :: s => if bool_decide (b = Byte.x00) then 0 else S (skip_cstring s)
  end.

Definition modifyHandshakeForSSL (packet : bytes) : result bytes :=
  let pos := 5 + skip_cstring (drop 5 packet) in
  let pos := pos + 1 in
  let pos := pos + (4 + 8 + 1) in
  if bool_decide (length packet < pos + 2) then Ok packet
  else
    match get16 packet pos with
    | Ok capLow => Ok (put16 packet pos (Z.lor capLow (Z.land clientSSL 0xFFFF)))
    | _ => Panic
    end.

(** The loop that combines the parts: the non-zero bytes of the second, up to a
    total of 20. *)
Fixpoint append_nonzero (scramble scramble2 : bytes) : bytes :=
  match scramble2 with
  | [] => scramble
  | b :: rest =>
      if bool_decide (20 <= length scramble) then scramble
      else append_nonzero (if bool_decide (b = Byte.x00) then scramble else scramble ++ [b]) rest
  end.

(** [None] is a nil slice. *)
Definition extractScrambleFromHandshake (packet : bytes) : result (option bytes) :=
  if bool_decide (length packet < 5) then Ok None
  else
    let pos := (5 + Z.of_nat (skip_cstring (drop 5 packet)) + 1)%Z in
    let len := Z.of_nat (length packet) in
    if (len <? pos + 4)%Z then Ok None
    else
      let pos := (pos + 4)%Z in
      if (len <? pos + 8)%Z then Ok None
      else
        match slice packet pos (pos + 8) with
        | Ok scramble1 =>
            let pos := (pos + 8 + 1 + 2 + 1 + 2 + 2)%Z in
            if (len <=? pos)%Z then Ok (Some scramble1)
            else
              match index packet pos with
              | Ok b =>
                  let authPluginDataLen := u8 b in
                  let pos := (pos + 1 + 10)%Z in
                  let scramble2Len := (authPluginDataLen - 8)%Z in
                  let scramble2Len := if (scramble2Len <? 12)%Z then 12%Z else scramble2Len in
                  let scramble2Len := if (len <? pos + scramble2Len)%Z then (len - pos)%Z else scramble2Len in
                  match slice packet pos (pos + scramble2Len) with
                  | Ok scramble2 => Ok (Some (append_nonzero scramble1 scramble2))
                  | _ => Panic
                  end
              | _ => Panic
              end
        | _ => Panic
        end.

Definition xor_byte (a b : byte) : byte := byte_of_Z (Z.lxor (u8 a) (u8 b)).

(** [for i := range hash1 { result[i] = hash1[i] ^ hash3[i] }] *)
Fixpoint xor_bytes (a b : bytes) : bytes :=
  match a, b with
  | x :: a, y :: b => xor_byte x y :: xor_bytes a b
  | _, _ => []
  end.

Definition mysqlNativePassword (password scramble : bytes) : option bytes :=
  match password with
  | [] => None
  | _ =>
      let hash1 := SHA1.sum password in
      let hash2 := SHA1.sum hash1 in
      let hash3 := SHA1.sum (scramble ++ hash2) in
      Some (xor_bytes hash1 hash3)
  end.

(** ** Lemmas *)

Lemma log2_u8 b : (Z.log2 (u8 b) < 8)%Z.
Proof. destruct b; reflexivity. Qed.

Lemma xor_byte_involutive a b : xor_byte (xor_byte a b) b = a.
Proof.
  unfold xor_byte. rewrite u8_byte_of_Z.
  assert (0 <= Z.lxor (u8 a) (u8 b) < 256)%Z.
  { pose proof (u8_range a). pose proof (u8_range b). split; [apply Z.lxor_nonneg; lia|].
    destruct (Z.eq_dec (Z.lxor (u8 a) (u8 b)) 0) as [->|Hne]; [lia|].
    assert (0 < Z.lxor (u8 a) (u8 b))%Z by (pose proof (proj2 (Z.lxor_nonneg (u8 a) (u8 b))); lia).
    apply (Z.log2_lt_pow2 _ 8); [done|].
    eapply Z.le_lt_trans; [apply Z.log2_lxor; lia|].
    apply Z.max_lub_lt; apply log2_u8. }
  rewrite Z.mod_small by done. rewrite Z.lxor_assoc, Z.lxor_nilpotent, Z.lxor_0_r.
  apply byte_of_Z_u8.
Qed.

Lemma xor_bytes_involutive a b : length a = length b -> xor_bytes (xor_bytes a b) b = a.
Proof.
  revert b. induction a as [|x a IH]; intros [|y b] Hl; simpl in *; try done.
  rewrite xor_byte_involutive, IH by lia. done.
Qed.

Lemma length_xor_bytes a b : length a = length b -> length (xor_bytes a b) = length a.
Proof. revert b. induction a as [|x a IH]; intros [|y b] Hl; simpl in *; try done. rewrite IH; lia. Qed.

Lemma skip_cstring_app v rest : Byte.x00 ∉ v -> skip_cstring (v ++ Byte.x00 :: rest) = length v.
Proof.
  induction v as [|b v IH]; intros Hv; simpl; [done|].
  apply not_elem_of_cons in Hv as [Hb Hv]. rewrite bool_decide_false by done. by rewrite IH.
Qed.

Lemma append_nonzero_fill s2 : forall s1 rest,
  Byte.x00 ∉ s2 -> length s1 + length s2 = 20 -> append_nonzero s1 (s2 ++ rest) = s1 ++ s2.
Proof.
  induction s2 as [|b s2 IH]; intros s1 rest Hz Hl; simpl in *.
  - rewrite app_nil_r. destruct rest; simpl; [done|]. by rewrite bool_decide_true by lia.
  - apply not_elem_of_cons in Hz as [Hb Hz]. rewrite bool_decide_false by lia.
    rewrite bool_decide_false by done. rewrite IH by (done || rewrite length_app; simpl; lia).
    by rewrite <- app_assoc.
Qed.

(** ** The server's handshake *)

Record handshake := MkHandshake {
  hs_seq : byte;
  hs_protocol : byte;
  hs_version : bytes;
  hs_connid : bytes;
  hs_part1 : bytes;
  hs_capLow : Z;
  hs_charset : byte;
  hs_status : bytes;
  hs_capHigh : bytes;
  hs_authlen : byte;
  hs_reserved : bytes;
  hs_rest : bytes;
}.

Record handshake_ok (h : handshake) : Prop := {
  hok_version : Byte.x00 ∉ hs_version h;
  hok_connid : length (hs_connid h) = 4;
  hok_part1 : length (hs_part1 h) = 8;
  hok_capLow : (0 <= hs_capLow h < 2 ^ 16)%Z;
  hok_status : length (hs_status h) = 2;
  hok_capHigh : length (hs_capHigh h) = 2;
}.

(** The packet up to the scramble, from there to the length of the plugin data,
    and whole. *)
Definition hs_head (h : handshake) (len : Z) : bytes :=
  le24_bytes len ++ hs_seq h :: hs_protocol h :: hs_version h ++ Byte.x00 :: hs_connid h.
Definition hs_flags (h : handshake) : bytes :=
  hs_charset h :: hs_status h ++ hs_capHigh h.
Definition hs_packet (h : handshake) (len : Z) : bytes :=
  hs_head h len ++ hs_part1 h ++ Byte.x00 :: le16_bytes (hs_capLow h) ++ hs_flags h
    ++ hs_authlen h :: hs_reserved h ++ hs_rest h.

Lemma length_hs_head h len : handshake_ok h -> length (hs_head h len) = 10 + length (hs_version h).
Proof.
  intros []. unfold hs_head. rewrite length_app. cbn [length]. rewrite length_app. cbn [length].
  change (length (le24_bytes len)) with 3. lia.
Qed.

Lemma skip_hs_packet h len : handshake_ok h ->
  skip_cstring (drop 5 (hs_packet h len)) = length (hs_version h).
Proof.
  intros []. unfold hs_packet, hs_head, le24_bytes. cbn [app drop]. rewrite drop_0, <- app_assoc. cbn [app].
  by apply skip_cstring_app.
Qed.

Lemma get16_at l b0 b1 r : get16 (l ++ b0 :: b1 :: r) (length l) = Ok (le16 b0 b1).
Proof.
  unfold get16. rewrite lookup_app_r, Nat.sub_diag by lia.
  by rewrite lookup_app_r, Nat.sub_succ_l, Nat.sub_diag by lia.
Qed.

Lemma put16_at l b0 b1 r v : put16 (l ++ b0 :: b1 :: r) (length l) v = l ++ le16_bytes v ++ r.
Proof.
  unfold put16. rewrite insert_app_r_alt by lia. rewrite Nat.sub_diag. cbn [insert list_insert].
  rewrite insert_app_r_alt by lia. by rewrite Nat.sub_succ_l, Nat.sub_diag by lia.
Qed.

Lemma modifyHandshakeForSSL_ok h len : handshake_ok h ->
  modifyHandshakeForSSL (hs_packet h len)
  = Ok (hs_packet (MkHandshake (hs_seq h) (hs_protocol h) (hs_version h) (hs_connid h) (hs_part1 h)
          (Z.lor (hs_capLow h) clientSSL) (hs_charset h) (hs_status h) (hs_capHigh h) (hs_authlen h)
          (hs_reserved h) (hs_rest h)) len).
Proof.
  intros Hok. unfold modifyHandshakeForSSL. rewrite skip_hs_packet by done.
  assert (Hpk : hs_packet h len = (hs_head h len ++ hs_part1 h ++ [Byte.x00])
     ++ byte_of_Z (hs_capLow h) :: byte_of_Z (Z.shiftr (hs_capLow h) 8)
     :: hs_flags h ++ hs_authlen h :: hs_reserved h ++ hs_rest h).
  { unfold hs_packet. by rewrite <- !app_assoc. }
  assert (Hlen : length (hs_head h len ++ hs_part1 h ++ [Byte.x00])
                 = 5 + length (hs_version h) + 1 + (4 + 8 + 1)).
  { rewrite !length_app, length_hs_head by done. destruct Hok. simpl. lia. }
  rewrite Hpk, bool_decide_false by (rewrite (length_app (_ ++ _)), Hlen; simpl; lia).
  rewrite <- Hlen, get16_at, put16_at.
  rewrite le16_le16_bytes by by destruct Hok.
  unfold hs_packet. cbn. by rewrite <- !app_assoc.
Qed.

Lemma extractScramble_ok h len part2 more :
  handshake_ok h -> length (hs_reserved h) = 10 -> hs_rest h = part2 ++ more ->
  length part2 = 12 -> Byte.x00 ∉ part2 ->
  extractScrambleFromHandshake (hs_packet h len) = Ok (Some (hs_part1 h ++ part2)).
Proof.
  intros Hok Hres Hrest Hp2 Hz. unfold extractScrambleFromHandshake.
  pose proof (length_hs_head h len Hok) as Hh. rewrite skip_hs_packet by done.
  pose proof Hok as [Hv Hci Hp1 _ Hst Hch].
  set (mid := Byte.x00 :: le16_bytes (hs_capLow h) ++ hs_flags h).
  assert (Hmid : length mid = 8) by (subst mid; unfold hs_flags; simpl; rewrite length_app; lia).
  assert (Hpk : hs_packet h len = hs_head h len ++ hs_part1 h ++ mid ++ hs_authlen h :: hs_reserved h ++ hs_rest h)
    by (unfold hs_packet, mid; cbn [app]; by rewrite <- app_assoc).
  assert (Hlen : length (hs_packet h len) = 49 + length (hs_version h) + length more).
  { rewrite Hpk, !length_app. cbn [length]. rewrite length_app, Hrest, length_app. lia. }
  rewrite bool_decide_false by lia.
  rewrite !(proj2 (Z.ltb_ge _ _)) by lia.
  rewrite Hpk at 1. rewrite slice_app by lia.
  rewrite (proj2 (Z.leb_gt _ _)) by lia.
  rewrite Hpk at 1. rewrite (app_assoc (hs_part1 h)), (app_assoc (hs_head h len)).
  rewrite index_app by (rewrite !length_app; lia).
  set (n := if (_ <? 12)%Z then 12%Z else _).
  assert (12 <= n)%Z by (subst n; destruct (Z.ltb_spec (u8 (hs_authlen h) - 8) 12); lia).
  clearbody n.
  set (p := (_ + 1 + 10)%Z). set (n' := if (_ <? _)%Z then _ else n).
  assert (Hn' : (12 <= n' <= 12 + Z.of_nat (length more))%Z).
  { subst n'. destruct (Z.ltb_spec (Z.of_nat (length (hs_packet h len))) (p + n)); subst p; lia. }
  assert (slice (hs_packet h len) p (p + n') = Ok (take (Z.to_nat n') (part2 ++ more))) as ->.
  { assert (Hpk' : hs_packet h len =
      ((hs_head h len ++ hs_part1 h ++ mid) ++ hs_authlen h :: hs_reserved h)
      ++ take (Z.to_nat n') (part2 ++ more) ++ drop (Z.to_nat n') (part2 ++ more))
      by (rewrite take_drop, Hpk, Hrest, <- !app_assoc; done).
    rewrite Hpk'. apply slice_app.
    - rewrite !length_app. cbn [length]. subst p. lia.
    - rewrite length_take, length_app. lia. }
  rewrite take_app_ge by lia. by rewrite append_nonzero_fill by (done || lia).
Qed.

(** ** Capability flags *)

Lemma testbit_high a n : (0 <= a < 2 ^ 16)%Z -> (16 <= n)%Z -> Z.testbit a n = false.
Proof. intros [Ha Hb] Hn. by apply (proj1 (Z.bounded_iff_bits_nonneg 16 a ltac:(lia) Ha) Hb). Qed.

Lemma ldiff_range a c : (0 <= a < 2 ^ 16)%Z -> (0 <= Z.ldiff a c < 2 ^ 16)%Z.
Proof.
  intros Ha. assert (0 <= Z.ldiff a c)%Z as H0 by (apply Z.ldiff_nonneg; lia). split; [done|].
  apply (Z.bounded_iff_bits_nonneg 16); [lia|done|]. intros n Hn.
  by rewrite Z.ldiff_spec, (testbit_high a n Ha Hn).
Qed.

(** Clearing bits of a 32-bit word half by half. *)
Lemma ldiff_halves a b c d :
  (0 <= a < 2 ^ 16)%Z -> (0 <= c < 2 ^ 16)%Z ->
  Z.lor (Z.ldiff a c) (Z.shiftl (Z.ldiff b d) 16)
  = Z.ldiff (Z.lor a (Z.shiftl b 16)) (Z.lor c (Z.shiftl d 16)).
Proof.
  intros Ha Hc. rewrite Z.shiftl_ldiff. apply Z.bits_inj'. intros n Hn.
  rewrite Z.lor_spec, !Z.ldiff_spec, !Z.lor_spec, !Z.shiftl_spec by done.
  destruct (decide (n < 16)%Z) as [Hl|Hl].
  - rewrite (Z.testbit_neg_r b), (Z.testbit_neg_r d) by lia.
    by destruct (Z.testbit a n), (Z.testbit c n).
  - rewrite (testbit_high a n), (testbit_high c n) by (done || lia). done.
Qed.

Lemma packet_caps (packet : bytes) : 8 <= length packet ->
  exists h b0 b1 b2 b3 t, packet = h ++ b0 :: b1 :: b2 :: b3 :: t /\ length h = 4.
Proof.
  intros Hl. destruct packet as [|x0 [|x1 [|x2 [|x3 [|b0 [|b1 [|b2 [|b3 t]]]]]]]]; simpl in Hl; try lia.
  by exists [x0; x1; x2; x3], b0, b1, b2, b3, t.
Qed.

Lemma capabilities_at h b0 b1 b2 b3 t : length h = 4 ->
  get16 (h ++ b0 :: b1 :: b2 :: b3 :: t) 4 = Ok (le16 b0 b1) /\
  get16 (h ++ b0 :: b1 :: b2 :: b3 :: t) 6 = Ok (le16 b2 b3).
Proof.
  intros Hh. rewrite <- Hh at 1. rewrite get16_at. split; [done|].
  replace 6 with (length (h ++ [b0; b1])) by (rewrite length_app, Hh; done).
  change (b0 :: b1 :: b2 :: b3 :: t) with ([b0; b1] ++ b2 :: b3 :: t).
  by rewrite app_assoc, get16_at.
Qed.

Lemma removeUnsupported_at h b0 b1 b2 b3 t : length h = 4 ->
  removeUnsupportedCapabilities (h ++ b0 :: b1 :: b2 :: b3 :: t)
  = Ok (h ++ le16_bytes (Z.ldiff (le16 b0 b1) 0x800) ++ le16_bytes (Z.ldiff (le16 b2 b3) 0x100) ++ t).
Proof.
  intros Hh. unfold removeUnsupportedCapabilities.
  rewrite bool_decide_false by (rewrite length_app; simpl; lia).
  destruct (capabilities_at h b0 b1 b2 b3 t Hh) as [-> ->].
  change (Z.land clientSSL 0xFFFF) with 0x800%Z.
  change (Z.land (Z.shiftr clientDeprecateEOF 16) 0xFFFF) with 0x100%Z.
  set (lo := Z.ldiff (le16 b0 b1) 0x800). set (hi := Z.ldiff (le16 b2 b3) 0x100).
  rewrite <- Hh at 1. rewrite put16_at.
  replace 6 with (length (h ++ le16_bytes lo)) by (rewrite length_app, Hh; done).
  by rewrite app_assoc, put16_at, <- app_assoc.
Qed.

(** ** Properties *)

Lemma removeUnsupported_spec packet caps :
  8 <= length packet -> capabilities packet = Ok caps ->
  exists packet', removeUnsupportedCapabilities packet = Ok packet' /\
    capabilities packet' = Ok (Z.ldiff caps (Z.lor clientSSL clientDeprecateEOF)) /\
    take 4 packet' = take 4 packet /\ drop 8 packet' = drop 8 packet /\
    removeUnsupportedCapabilities packet' = Ok packet'.
Proof.
  intros Hl Hcaps. destruct (packet_caps packet Hl) as (h & b0 & b1 & b2 & b3 & t & -> & Hh).
  rewrite removeUnsupported_at by done. eexists. split; [reflexivity|].
  unfold capabilities in *. destruct (capabilities_at h b0 b1 b2 b3 t Hh) as [E1 E2].
  rewrite E1, E2 in Hcaps. injection Hcaps as <-.
  pose proof (le16_range b0 b1) as Hr0. pose proof (le16_range b2 b3) as Hr2.
  set (lo := Z.ldiff (le16 b0 b1) 0x800). set (hi := Z.ldiff (le16 b2 b3) 0x100).
  assert (Hlo : (0 <= lo < 2 ^ 16)%Z) by by apply ldiff_range.
  assert (Hhi : (0 <= hi < 2 ^ 16)%Z) by by apply ldiff_range.
  destruct (capabilities_at h (byte_of_Z lo) (byte_of_Z (Z.shiftr lo 8)) (byte_of_Z hi)
              (byte_of_Z (Z.shiftr hi 8)) t Hh) as [F1 F2].
  cbn [le16_bytes app] in *. rewrite F1, F2, !le16_le16_bytes by done. split_and!.
  - f_equal. subst lo hi. rewrite ldiff_halves by (done || lia). done.
  - rewrite !take_app_length' by done. done.
  - rewrite !drop_app_ge by lia. rewrite Hh. done.
  - rewrite removeUnsupported_at, !le16_le16_bytes by done. subst lo hi.
    rewrite !Z.ldiff_ldiff_l, !Z.lor_diag. done.
Qed.

(** The proxy strips exactly two capabilities. Of every client packet that has
    a capability word, [removeUnsupportedCapabilities] clears CLIENT_SSL and
    CLIENT_DEPRECATE_EOF and nothing else: the other 30 flags, the header and the
    rest of the packet are unchanged, and doing it again changes nothing. *)
Theorem capabilities_stripped packet caps :
  8 <= length packet -> capabilities packet = Ok caps ->
  exists packet', removeUnsupportedCapabilities packet = Ok packet' /\
    capabilities packet' = Ok (Z.ldiff caps (Z.lor clientSSL clientDeprecateEOF)) /\
    take 4 packet' = take 4 packet /\ drop 8 packet' = drop 8 packet /\
    removeUnsupportedCapabilities packet' = Ok packet'.
Proof. apply removeUnsupported_spec. Qed.

(** A login packet with all 32 flags set. *)
Definition login_packet : bytes :=
  mk_packet Byte.x01 ([Byte.xff; Byte.xff; Byte.xff; Byte.xff] ++ B "user").

Lemma capabilities_stripped_witness :
  exists packet', removeUnsupportedCapabilities login_packet = Ok packet' /\
    capabilities packet' = Ok (Z.ldiff 0xFFFFFFFF (Z.lor clientSSL clientDeprecateEOF)) /\
    take 4 packet' = take 4 login_packet /\ drop 8 packet' = drop 8 login_packet /\
    removeUnsupportedCapabilities packet' = Ok packet'.
Proof.
  apply (capabilities_stripped login_packet 0xFFFFFFFF); [simpl; lia|vm_compute; reflexivity].
Defined.

(** The handshake shown to the client advertises TLS and is otherwise the
    server's: [modifyHandshakeForSSL] sets CLIENT_SSL in the capability flags of
    every well-formed handshake and changes nothing else. *)
Theorem handshake_advertises_ssl h len :
  handshake_ok h ->
  modifyHandshakeForSSL (hs_packet h len)
  = Ok (hs_packet (MkHandshake (hs_seq h) (hs_protocol h) (hs_version h) (hs_connid h) (hs_part1 h)
          (Z.lor (hs_capLow h) clientSSL) (hs_charset h) (hs_status h) (hs_capHigh h) (hs_authlen h)
          (hs_reserved h) (hs_rest h)) len).
Proof. apply modifyHandshakeForSSL_ok. Qed.

Definition example_handshake : handshake :=
  MkHandshake Byte.x00 Byte.x0a (B "5.1.0") [Byte.x01; Byte.x00; Byte.x00; Byte.x00] (B "abcdefgh")
    0xF7FF Byte.x21 [Byte.x02; Byte.x00] [Byte.x0f; Byte.x00] Byte.x15 (replicate 10 Byte.x00)
    (B "ijklmnopqrst" ++ [Byte.x00] ++ B "mysql_native_password" ++ [Byte.x00]).

Lemma example_handshake_ok : handshake_ok example_handshake.
Proof.
  split; try reflexivity; [|vm_compute; split; congruence].
  vm_decide.
Qed.

Lemma handshake_advertises_ssl_witness :
  modifyHandshakeForSSL (hs_packet example_handshake 77)
  = Ok (hs_packet (MkHandshake Byte.x00 Byte.x0a (B "5.1.0") [Byte.x01; Byte.x00; Byte.x00; Byte.x00]
          (B "abcdefgh") 0xFFFF Byte.x21 [Byte.x02; Byte.x00] [Byte.x0f; Byte.x00] Byte.x15
          (replicate 10 Byte.x00) (hs_rest example_handshake)) 77).
Proof. exact (handshake_advertises_ssl example_handshake 77 example_handshake_ok). Defined.

(** The scramble is found. For every well-formed handshake with a 20-byte
    scramble (8 bytes, then 12 without a zero byte, then anything), whatever length
    the server announces for it, [extractScrambleFromHandshake] returns those 20
    bytes. *)
Theorem scramble_found h len part2 more :
  handshake_ok h -> length (hs_reserved h) = 10 -> hs_rest h = part2 ++ more ->
  length part2 = 12 -> Byte.x00 ∉ part2 ->
  extractScrambleFromHandshake (hs_packet h len) = Ok (Some (hs_part1 h ++ part2)).
Proof. apply extractScramble_ok. Qed.

Lemma scramble_found_witness :
  extractScrambleFromHandshake (hs_packet example_handshake 77) = Ok (Some (B "abcdefghijklmnopqrst")).
Proof.
  refine (scramble_found example_handshake 77 (B "ijklmnopqrst")
           ([Byte.x00] ++ B "mysql_native_password" ++ [Byte.x00]) example_handshake_ok eq_refl eq_refl eq_refl _).
  vm_decide.
Defined.

(** The server's check of mysql_native_password: it stores the double hash of the
    password, recovers the single hash from the token, and compares. *)
Definition server_accepts (stored scramble token : bytes) : Prop :=
  SHA1.sum (xor_bytes token (SHA1.sum (scramble ++ stored))) = stored.

Lemma native_password_ok password scramble :
  match mysqlNativePassword password scramble with
  | Some token =>
      length token = 20 /\ server_accepts (SHA1.sum (SHA1.sum password)) scramble token
  | None => password = []
  end.
Proof.
  unfold mysqlNativePassword. destruct password as [|c password]; [done|].
  set (pw := c :: password). rewrite length_xor_bytes by by rewrite !length_sha1.
  split; [apply length_sha1|]. unfold server_accepts.
  by rewrite xor_bytes_involutive by by rewrite !length_sha1.
Qed.

(** The shadow accepts the right password. The token [mysqlNativePassword]
    computes is 20 bytes long and passes the check of a server that stores the
    double SHA-1 hash of the password, for every password and every scramble; for
    the empty password no token is sent. *)
Theorem native_password_accepted password scramble :
  match mysqlNativePassword password scramble with
  | Some token =>
      length token = 20 /\ server_accepts (SHA1.sum (SHA1.sum password)) scramble token
  | None => password = []
  end.
Proof. apply native_password_ok. Qed.

(** A truncated handshake crashes the proxy. When the packet of a shadow server
    ends inside the ten reserved bytes, the scramble extraction slices beyond the
    end of the packet - a run-time panic in the connection's goroutine, which
    nothing recovers from - where the checks around it return nil for shorter
    packets. *)
Theorem truncated_handshake_panics h len :
  handshake_ok h -> length (hs_reserved h) < 10 -> hs_rest h = [] ->
  extractScrambleFromHandshake (hs_packet h len) = Panic.
Proof.
  intros Hok Hres Hrest. unfold extractScrambleFromHandshake.
  pose proof (length_hs_head h len Hok) as Hh. rewrite skip_hs_packet by done.
  pose proof Hok as [Hv Hci Hp1 _ Hst Hch].
  set (mid := Byte.x00 :: le16_bytes (hs_capLow h) ++ hs_flags h).
  assert (Hmid : length mid = 8) by (subst mid; unfold hs_flags; simpl; rewrite length_app; lia).
  assert (Hpk : hs_packet h len = hs_head h len ++ hs_part1 h ++ mid ++ hs_authlen h :: hs_reserved h)
    by (unfold hs_packet, mid; cbn [app]; rewrite <- app_assoc, Hrest, app_nil_r; done).
  assert (Hlen : length (hs_packet h len) = 27 + length (hs_version h) + length (hs_reserved h))
    by (rewrite Hpk, !length_app; cbn [length]; lia).
  rewrite bool_decide_false by lia. rewrite !(proj2 (Z.ltb_ge _ _)) by lia.
  rewrite Hpk at 1. rewrite slice_app by lia. rewrite (proj2 (Z.leb_gt _ _)) by lia.
  rewrite Hpk at 1. rewrite (app_assoc (hs_part1 h)), (app_assoc (hs_head h len)).
  rewrite index_app by (rewrite !length_app; lia).
  set (n := if (_ <? 12)%Z then 12%Z else _).
  assert (12 <= n)%Z by (subst n; destruct (Z.ltb_spec (u8 (hs_authlen h) - 8) 12); lia).
  rewrite (proj2 (Z.ltb_lt _ _)) by lia. unfold slice. by rewrite bool_decide_false by lia.
Qed.

Lemma truncated_handshake_panics_witness :
  extractScrambleFromHandshake
    (hs_packet (MkHandshake Byte.x00 Byte.x0a (B "5.1.0") [Byte.x01; Byte.x00; Byte.x00; Byte.x00]
       (B "abcdefgh") 0xF7FF Byte.x21 [Byte.x02; Byte.x00] [Byte.x0f; Byte.x00] Byte.x15 [Byte.x00] []) 29)
  = Panic.
Proof.
  apply truncated_handshake_panics; [|simpl; lia|reflexivity].
  split; try reflexivity; [|vm_compute; split; congruence].
  vm_decide.
Defined.
