(* ===== verification/PgProtocol.v ===== *)
(** * PostgreSQL wire protocol (src/pg_protocol.go)

    The message type, the readers of startup and regular messages, the
    classification of startup requests, and the extraction of SQL text and
    statement names from frontend messages. [parseStartupParams] of
    src/pg_shadow_worker.go, which decodes the startup message, is here too.
    Go's [*PgPacket] that may be nil is an [option PgPacket]. *)

From S2P Require Import Prelude GoNet GoStrings MySQLProtocol.

Record PgPacket := MkPg { pg_Type : byte; pg_Payload : bytes }.

#[export] Instance PgPacket_eq_dec : EqDecision PgPacket.
Proof. solve_decision. Defined.

(** [(p *PgPacket) Bytes()] *)
Definition Bytes (p : PgPacket) : bytes :=
  if bool_decide (pg_Type p = Byte.x00) then pg_Payload p else pg_Type p :: pg_Payload p.

Definition pgMaxMessageSize : Z := Z.shiftl 1 28.

Definition pgMagicSSLRequest : Z := 80877103.
Definition pgMagicCancelRequest : Z := 80877102.
Definition pgMagicGSSENCRequest : Z := 80877104.

(** [binary.BigEndian.Uint32(b)]: the first four bytes; a shorter slice panics. *)
Definition BigEndian_Uint32 (b : bytes) : result Z :=
  match b with
  | b0 :: b1 :: b2 :: b3 :: _ => Ok (be32 b0 b1 b2 b3)
  | _ => Panic
  end.

(** The verb [%d] on an unsigned integer. *)
Definition fmt_d (z : Z) : string := pretty z.

(** The verb [%q] on a byte: a quoted character literal. *)
Definition chr (z : Z) : string := String (Ascii.ascii_of_N (Z.to_N z)) EmptyString.
Definition fmt_q_byte (b : byte) : string :=
  let r := u8 b in
  let quoted := fun s => chr 39 +:+ s +:+ chr 39 in
  quoted
    (if (r =? 39)%Z || (r =? 92)%Z then chr 92 +:+ chr r
     else if (0x20 <=? r)%Z && (r <? 0x7F)%Z then chr r
     else if (0xA1 <=? r)%Z && negb (r =? 0xAD)%Z then chr (0xC0 + r / 64) +:+ chr (0x80 + r mod 64)
     else if (r =? 7)%Z then chr 92 +:+ "a"
     else if (r =? 8)%Z then chr 92 +:+ "b"
     else if (r =? 12)%Z then chr 92 +:+ "f"
     else if (r =? 10)%Z then chr 92 +:+ "n"
     else if (r =? 13)%Z then chr 92 +:+ "r"
     else if (r =? 9)%Z then chr 92 +:+ "t"
     else if (r =? 11)%Z then chr 92 +:+ "v"
     else if (r <? 0x20)%Z || (r =? 0x7F)%Z then chr 92 +:+ "x" +:+ fmt_02x false b
     else chr 92 +:+ "u00" +:+ fmt_02x false b).

(** ** Reading *)

Definition ReadStartupMessage (s : list read_ev) : result PgPacket * list read_ev :=
  let? header, s := ReadFull 4 s in
  let? length, s := (BigEndian_Uint32 header, s) in
  if (length <? 8)%Z || (pgMaxMessageSize <? length)%Z
  then (Err (ErrMsg ("invalid startup length: " +:+ fmt_d length)), s)
  else
    let? body, s := ReadFull (Z.to_nat (length - 4)) s in
    (Ok (MkPg Byte.x00 (header ++ body)), s).

Definition ReadMessage (s : list read_ev) : result PgPacket * list read_ev :=
  let? header, s := ReadFull 5 s in
  let? msgType, s := (index header 0, s) in
  let? length, s := (BigEndian_Uint32 (drop 1 header), s) in
  if (length <? 4)%Z || (pgMaxMessageSize <? length)%Z
  then (Err (ErrMsg ("invalid pgwire length: " +:+ fmt_d length
                     +:+ " for type " +:+ fmt_q_byte msgType)), s)
  else
    let? body, s := ReadFull (Z.to_nat (length - 4)) s in
    (Ok (MkPg msgType (drop 1 header ++ body)), s).

(** ** Startup requests *)

Definition startup_magic (p : option PgPacket) (size : nat) (magic : Z) : bool :=
  match p with
  | None => false
  | Some p =>
      bool_decide (pg_Type p = Byte.x00) && bool_decide (length (pg_Payload p) = size)
      && bool_decide (BigEndian_Uint32 (drop 4 (pg_Payload p)) = Ok magic)
  end.

Definition IsSSLRequest (p : option PgPacket) : bool := startup_magic p 8 pgMagicSSLRequest.
Definition IsGSSENCRequest (p : option PgPacket) : bool := startup_magic p 8 pgMagicGSSENCRequest.
Definition IsCancelRequest (p : option PgPacket) : bool := startup_magic p 16 pgMagicCancelRequest.

(** ** Frontend messages *)

Definition pgMsgQuery : byte := Byte.x51.
Definition pgMsgParse : byte := Byte.x50.
Definition pgMsgBind : byte := Byte.x42.
Definition pgMsgExecute : byte := Byte.x45.
Definition pgMsgSync : byte := Byte.x53.
Definition pgMsgTerminate : byte := Byte.x58.
Definition pgMsgPasswordMsg : byte := Byte.x70.
Definition pgMsgClose : byte := Byte.x43.
Definition pgMsgDescribe : byte := Byte.x44.
Definition pgMsgFlush : byte := Byte.x48.
Definition pgMsgCopyData : byte := Byte.x64.
Definition pgMsgCopyDone : byte := Byte.x63.
Definition pgMsgCopyFail : byte := Byte.x66.
Definition pgMsgFunctionCall : byte := Byte.x46.

(** [indexNull(b)], [None] for -1 *)
Definition indexNull (b : bytes) : option nat := IndexByte b Byte.x00.

Definition trimNullTerminator (b : bytes) : bytes :=
  match b !! (length b - 1) with
  | Some c => if bool_decide (c = Byte.x00) then take (length b - 1) b else b
  | None => b
  end.

(** The zero-terminated string [b] starts with, empty if it is unterminated. *)
Definition cstring_or_empty (b : bytes) : bytes :=
  match indexNull b with Some e => take e b | None => [] end.

Definition extractPgQueryText (p : option PgPacket) : bytes :=
  match p with
  | None => []
  | Some p =>
      if bool_decide (length (pg_Payload p) <= 4) then []
      else
        let body := drop 4 (pg_Payload p) in
        if bool_decide (pg_Type p = pgMsgQuery) then trimNullTerminator body
        else if bool_decide (pg_Type p = pgMsgParse) then
          match indexNull body with
          | None => []
          | Some idx =>
              let rest := drop (idx + 1) body in
              match indexNull rest with
              | None => rest
              | Some e => take e rest
              end
          end
        else []
  end.

Definition extractPgParseStmtName (p : option PgPacket) : bytes :=
  match p with
  | None => []
  | Some p =>
      if bool_decide (pg_Type p <> pgMsgParse) || bool_decide (length (pg_Payload p) <= 4) then []
      else cstring_or_empty (drop 4 (pg_Payload p))
  end.

Definition extractPgBindStmtName (p : option PgPacket) : bytes :=
  match p with
  | None => []
  | Some p =>
      if bool_decide (pg_Type p <> pgMsgBind) || bool_decide (length (pg_Payload p) <= 4) then []
      else
        let body := drop 4 (pg_Payload p) in
        match indexNull body with
        | None => []
        | Some portalEnd =>
            if bool_decide (length body <= portalEnd + 1) then []
            else cstring_or_empty (drop (portalEnd + 1) body)
        end
  end.

(** The shape Close and Describe frames share: kind and name. *)
Definition extract_target (ty : byte) (p : option PgPacket) : byte * bytes :=
  match p with
  | None => (Byte.x00, [])
  | Some p =>
      if bool_decide (pg_Type p <> ty) || bool_decide (length (pg_Payload p) <= 5)
      then (Byte.x00, [])
      else match drop 4 (pg_Payload p) with
           | kind :: rest => (kind, cstring_or_empty rest)
           | [] => (Byte.x00, [])
           end
  end.

Definition extractPgCloseTarget (p : option PgPacket) : byte * bytes := extract_target pgMsgClose p.
Definition extractPgDescribeTarget (p : option PgPacket) : byte * bytes :=
  extract_target pgMsgDescribe p.

Definition pgFrontendCommandName (t : byte) : string :=
  if bool_decide (t = pgMsgQuery) then "Query"
  else if bool_decide (t = pgMsgParse) then "Parse"
  else if bool_decide (t = pgMsgBind) then "Bind"
  else if bool_decide (t = pgMsgExecute) then "Execute"
  else if bool_decide (t = pgMsgSync) then "Sync"
  else if bool_decide (t = pgMsgTerminate) then "Terminate"
  else if bool_decide (t = pgMsgPasswordMsg) then "Password"
  else if bool_decide (t = pgMsgClose) then "Close"
  else if bool_decide (t = pgMsgDescribe) then "Describe"
  else if bool_decide (t = pgMsgFlush) then "Flush"
  else if bool_decide (t = pgMsgCopyData) then "CopyData"
  else if bool_decide (t = pgMsgCopyDone) then "CopyDone"
  else if bool_decide (t = pgMsgCopyFail) then "CopyFail"
  else if bool_decide (t = pgMsgFunctionCall) then "FunctionCall"
  else "Unknown(0x" +:+ fmt_02x true t +:+ ")".

Definition isPgCountableQuery (t : byte) : bool :=
  bool_decide (t = pgMsgQuery) || bool_decide (t = pgMsgParse) || bool_decide (t = pgMsgExecute).

(** ** Startup parameters (src/pg_shadow_worker.go) *)

(** [for i := 0; i+1 < len(parts); i += 2] *)
Fixpoint startup_params_loop (parts : list bytes) (out : gmap bytes bytes) : gmap bytes bytes :=
  match parts with
  | k :: v :: parts =>
      if bool_decide (length k = 0) then out else startup_params_loop parts (<[k := v]> out)
  | _ => out
  end.

Definition parseStartupParams (p : option PgPacket) : gmap bytes bytes :=
  match p with
  | None => ∅
  | Some p =>
      if bool_decide (length (pg_Payload p) < 9) then ∅
      else startup_params_loop (SplitByte Byte.x00 (drop 8 (pg_Payload p))) ∅
  end.

(** ** Encoding

    The wire form the protocol gives a message, to state round trips with. *)

Definition pg_frame (ty : byte) (body : bytes) : PgPacket :=
  MkPg ty (be32_bytes (Z.of_nat (length body) + 4) ++ body).

(** A body the readers accept. *)
Definition pg_fits (body : bytes) : Prop := (Z.of_nat (length body) + 4 <= pgMaxMessageSize)%Z.

(** A message as the readers return it: the length field counts the payload. *)
Definition pg_wf (p : PgPacket) : Prop :=
  exists body, p = pg_frame (pg_Type p) body /\ pg_fits body.

(** A zero-terminated string on the wire. *)
Definition cstr (s : bytes) : bytes := s ++ [Byte.x00].

Lemma be32_bytes_be32 b0 b1 b2 b3 : be32_bytes (be32 b0 b1 b2 b3) = [b0; b1; b2; b3].
Proof.
  unfold be32_bytes. rewrite !Z.shiftr_div_pow2, be32_val by lia.
  pose proof (u8_range b0). pose proof (u8_range b1). pose proof (u8_range b2). pose proof (u8_range b3).
  assert (H8 : forall z b, (z mod 256 = u8 b)%Z -> byte_of_Z z = b).
  { intros z b E. apply u8_inj. by rewrite u8_byte_of_Z. }
  change (2 ^ 8)%Z with 256%Z in *. change (2 ^ 16)%Z with 65536%Z in *.
  change (2 ^ 24)%Z with 16777216%Z in *.
  rewrite (H8 _ b0), (H8 _ b1), (H8 _ b2), (H8 _ b3); [done|..];
    Z.div_mod_to_equations; lia.
Qed.

Lemma ReadFull_then want cl tl rest :
  clean cl -> data cl = rest -> want <= length rest ->
  exists cl', ReadFull want (cl ++ tl) = (Ok (take want rest), cl' ++ tl)
    /\ clean cl' /\ data cl' = drop want rest.
Proof. intros Hcl <- Hw. by apply ReadFull_clean. Qed.

(** A reader that returns [p] on a stream, and leaves the bytes after [p]. *)
Definition pg_reads (read : list read_ev -> result PgPacket * list read_ev)
    (p : PgPacket) (wire : bytes) : Prop :=
  forall cl tl rest, clean cl -> data cl = wire ++ rest ->
    exists cl', read (cl ++ tl) = (Ok p, cl' ++ tl) /\ clean cl' /\ data cl' = rest.

Lemma pg_length_ok lo body :
  (0 <= lo <= 4 + Z.of_nat (length body))%Z -> pg_fits body ->
  ((Z.of_nat (length body) + 4 <? lo)%Z || (pgMaxMessageSize <? Z.of_nat (length body) + 4)%Z) = false.
Proof.
  unfold pg_fits. intros Hlo Hf. apply orb_false_iff. split; apply Z.ltb_ge; lia.
Qed.

Lemma pg_fits_range body : pg_fits body -> (0 <= Z.of_nat (length body) + 4 < 2 ^ 32)%Z.
Proof. unfold pg_fits. change pgMaxMessageSize with 268435456%Z. lia. Qed.

Lemma BigEndian_be32_bytes z rest :
  (0 <= z < 2 ^ 32)%Z -> BigEndian_Uint32 (be32_bytes z ++ rest) = Ok z.
Proof. intros Hz. unfold be32_bytes, BigEndian_Uint32; cbn [app]. by rewrite be32_be32_bytes. Qed.

Lemma length_be32_bytes z : length (be32_bytes z) = 4.
Proof. done. Qed.

#[local] Opaque be32_bytes.

(** The body, once the header announced its length. *)
Lemma ReadFull_body body cl tl rest :
  clean cl -> data cl = body ++ rest ->
  exists cl', ReadFull (Z.to_nat (Z.of_nat (length body) + 4 - 4)) (cl ++ tl) = (Ok body, cl' ++ tl)
    /\ clean cl' /\ data cl' = rest.
Proof.
  intros Hcl Hd. replace (Z.to_nat (Z.of_nat (length body) + 4 - 4)) with (length body) by lia.
  destruct (ReadFull_then (length body) cl tl _ Hcl Hd) as (cl' & E & Hcl' & Hd').
  { rewrite length_app. lia. }
  exists cl'. rewrite take_app_length in E. rewrite drop_app_length in Hd'. done.
Qed.

Lemma ReadMessage_reads ty body :
  pg_fits body -> pg_reads ReadMessage (pg_frame ty body) (ty :: pg_Payload (pg_frame ty body)).
Proof.
  intros Hf cl tl rest Hcl Hd. unfold ReadMessage, pg_frame in *. cbn [pg_Payload] in *.
  set (header := be32_bytes (Z.of_nat (length body) + 4)) in *.
  assert (Hh : length header = 4) by apply length_be32_bytes.
  replace ((ty :: header ++ body) ++ rest) with ((ty :: header) ++ body ++ rest) in Hd
    by (simpl; by rewrite app_assoc).
  destruct (ReadFull_then 5 cl tl _ Hcl Hd) as (cl1 & -> & Hcl1 & Hd1).
  { rewrite length_app. simpl. lia. }
  rewrite take_app_length' by (simpl; lia). rewrite drop_app_length' in Hd1 by (simpl; lia).
  cbn [and_then]. change (index (ty :: header) 0) with (Ok ty). cbn [and_then].
  change (drop 1 (ty :: header)) with (drop 0 header). rewrite drop_0.
  replace (BigEndian_Uint32 header) with (Ok (Z.of_nat (length body) + 4)%Z)
    by (rewrite <- (app_nil_r header); symmetry; by apply BigEndian_be32_bytes, pg_fits_range).
  cbn [and_then]. rewrite pg_length_ok by (lia || done).
  destruct (ReadFull_body body cl1 tl rest Hcl1 Hd1) as (cl2 & -> & Hcl2 & Hd2).
  exists cl2. done.
Qed.

Lemma ReadStartupMessage_reads body :
  4 <= length body -> pg_fits body ->
  pg_reads ReadStartupMessage (pg_frame Byte.x00 body) (pg_Payload (pg_frame Byte.x00 body)).
Proof.
  intros H4 Hf cl tl rest Hcl Hd. unfold ReadStartupMessage, pg_frame in *. cbn [pg_Payload] in *.
  set (header := be32_bytes (Z.of_nat (length body) + 4)) in *.
  assert (Hh : length header = 4) by apply length_be32_bytes.
  rewrite <- app_assoc in Hd.
  destruct (ReadFull_then 4 cl tl _ Hcl Hd) as (cl1 & -> & Hcl1 & Hd1).
  { rewrite length_app. lia. }
  rewrite take_app_length' by done. rewrite drop_app_length' in Hd1 by done.
  cbn [and_then].
  replace (BigEndian_Uint32 header) with (Ok (Z.of_nat (length body) + 4)%Z)
    by (rewrite <- (app_nil_r header); symmetry; by apply BigEndian_be32_bytes, pg_fits_range).
  cbn [and_then]. rewrite pg_length_ok by (lia || done).
  destruct (ReadFull_body body cl1 tl rest Hcl1 Hd1) as (cl2 & -> & Hcl2 & Hd2).
  exists cl2. done.
Qed.


(** On every stream the readers return a well-formed message, taken off the
    stream, or an error. *)
Lemma ReadMessage_any s res s' :
  ReadMessage s = (res, s') ->
  (exists p, res = Ok p /\ pg_wf p /\
             S (length (pg_Payload p)) + length (data s') = length (data s))
  \/ (exists e, res = Err e /\ length (data s') <= length (data s)).
Proof.
  unfold ReadMessage. destruct (ReadFull 5 s) as [res1 s1] eqn:E1.
  apply ReadFull_any in E1 as [(h & -> & Hh & Hs1)|(e & -> & Hs1)]; cbn [and_then];
    [|intros [= <- <-]; eauto].
  destruct h as [|ty [|b0 [|b1 [|b2 [|b3 [|? ?]]]]]]; try (simpl in Hh; lia).
  change (index (ty :: [b0; b1; b2; b3]) 0) with (Ok ty).
  change (drop 1 (ty :: [b0; b1; b2; b3])) with [b0; b1; b2; b3].
  cbn [and_then BigEndian_Uint32]. pose proof (be32_range b0 b1 b2 b3).
  set (n := be32 b0 b1 b2 b3) in *.
  destruct (_ || _) eqn:El; [intros [= <- <-]; eauto with lia|].
  apply orb_false_iff in El as [H1%Z.ltb_ge H2%Z.ltb_ge].
  destruct (ReadFull _ s1) as [res2 s2] eqn:E2.
  apply ReadFull_any in E2 as [(body & -> & Hb & Hs2)|(e & -> & Hs2)]; cbn [and_then];
    intros [= <- <-]; [|eauto with lia].
  left. exists (MkPg ty ([b0; b1; b2; b3] ++ body)). split; [done|].
  split; [|cbn [pg_Payload]; rewrite length_app; simpl; lia].
  exists body. unfold pg_frame, pg_fits. replace (Z.of_nat (length body) + 4)%Z with n by lia.
  split; [|lia]. subst n. by rewrite be32_bytes_be32.
Qed.

Lemma ReadStartupMessage_any s res s' :
  ReadStartupMessage s = (res, s') ->
  (exists p, res = Ok p /\ pg_wf p /\ pg_Type p = Byte.x00 /\ 8 <= length (pg_Payload p) /\
             length (pg_Payload p) + length (data s') = length (data s))
  \/ (exists e, res = Err e /\ length (data s') <= length (data s)).
Proof.
  unfold ReadStartupMessage. destruct (ReadFull 4 s) as [res1 s1] eqn:E1.
  apply ReadFull_any in E1 as [(h & -> & Hh & Hs1)|(e & -> & Hs1)]; cbn [and_then];
    [|intros [= <- <-]; eauto].
  destruct h as [|b0 [|b1 [|b2 [|b3 [|? ?]]]]]; try (simpl in Hh; lia).
  cbn [and_then BigEndian_Uint32]. pose proof (be32_range b0 b1 b2 b3).
  set (n := be32 b0 b1 b2 b3) in *.
  destruct (_ || _) eqn:El; [intros [= <- <-]; eauto with lia|].
  apply orb_false_iff in El as [H1%Z.ltb_ge H2%Z.ltb_ge].
  destruct (ReadFull _ s1) as [res2 s2] eqn:E2.
  apply ReadFull_any in E2 as [(body & -> & Hb & Hs2)|(e & -> & Hs2)]; cbn [and_then];
    intros [= <- <-]; [|eauto with lia].
  left. exists (MkPg Byte.x00 ([b0; b1; b2; b3] ++ body)). split; [done|].
  cbn [pg_Payload pg_Type]. rewrite length_app. simpl. split_and!; [|done|lia|lia].
  exists body. unfold pg_frame, pg_fits. replace (Z.of_nat (length body) + 4)%Z with n by lia.
  split; [|lia]. subst n. by rewrite be32_bytes_be32.
Qed.

Lemma pg_frame_drop ty body : drop 4 (pg_Payload (pg_frame ty body)) = body.
Proof. cbn [pg_frame pg_Payload]. rewrite drop_app_length'; [done|by rewrite length_be32_bytes]. Qed.

Lemma pg_frame_length ty body : length (pg_Payload (pg_frame ty body)) = 4 + length body.
Proof. cbn [pg_frame pg_Payload]. by rewrite length_app, length_be32_bytes. Qed.

Lemma cstring_or_empty_cstr name rest :
  Byte.x00 ∉ name -> cstring_or_empty (cstr name ++ rest) = name.
Proof.
  intros Hn. unfold cstring_or_empty, indexNull, cstr. rewrite <- app_assoc. simpl.
  by rewrite IndexByte_app_no, take_app_length.
Qed.

Lemma drop_cstr name rest : drop (length name + 1) (cstr name ++ rest) = rest.
Proof. unfold cstr. apply drop_app_length'. rewrite length_app. done. Qed.

Lemma indexNull_cstr name rest :
  Byte.x00 ∉ name -> indexNull (cstr name ++ rest) = Some (length name).
Proof. intros Hn. unfold indexNull, cstr. rewrite <- app_assoc. by apply IndexByte_app_no. Qed.

Lemma trimNullTerminator_cstr s : trimNullTerminator (cstr s) = s.
Proof.
  unfold trimNullTerminator, cstr. rewrite length_app. simpl.
  replace (length s + 1 - 1) with (length s) by lia.
  rewrite lookup_app_r, Nat.sub_diag by lia. simpl. by apply take_app_length.
Qed.

Lemma length_cstr s : length (cstr s) = S (length s).
Proof. unfold cstr. rewrite length_app. simpl. lia. Qed.

(** Startup parameters on the wire. *)
Definition encode_params (kvs : list (bytes * bytes)) : bytes :=
  concat (map (fun kv => cstr kv.1 ++ cstr kv.2) kvs) ++ [Byte.x00].

Definition params_ok (kvs : list (bytes * bytes)) : Prop :=
  Forall (fun kv => kv.1 <> [] /\ (Byte.x00 ∉ kv.1) /\ (Byte.x00 ∉ kv.2)) kvs.

#[export] Instance params_ok_dec kvs : Decision (params_ok kvs).
Proof. unfold params_ok. apply _. Defined.

(** The assignments in order, a later one overwriting an earlier one. *)
Definition assign_all (kvs : list (bytes * bytes)) (m : gmap bytes bytes) : gmap bytes bytes :=
  foldl (fun m kv => <[kv.1 := kv.2]> m) m kvs.

Lemma SplitByte_cstr s rest :
  Byte.x00 ∉ s -> SplitByte Byte.x00 (cstr s ++ rest) = (s :: SplitByte Byte.x00 rest).
Proof. intros Hs. unfold cstr. rewrite <- app_assoc. by apply SplitByte_app. Qed.

Lemma startup_params_loop_encode kvs : forall m,
  params_ok kvs -> startup_params_loop (SplitByte Byte.x00 (encode_params kvs)) m = assign_all kvs m.
Proof.
  induction kvs as [|[k v] kvs IH]; intros m Hok; [done|].
  apply Forall_cons_iff in Hok as [(Hk & Hk0 & Hv0) Hok]. simpl in *.
  replace (encode_params ((k, v) :: kvs)) with (cstr k ++ cstr v ++ encode_params kvs)
    by (unfold encode_params; simpl; by rewrite <- !app_assoc).
  rewrite !SplitByte_cstr by done. simpl.
  rewrite bool_decide_false by (by destruct k). by apply IH.
Qed.

(** The last assignment to a key wins. *)
Lemma assign_all_list_to_map kvs : assign_all kvs ∅ = list_to_map (reverse kvs).
Proof.
  unfold assign_all, list_to_map. rewrite <- (reverse_involutive kvs) at 1.
  generalize (reverse kvs). intros l. induction l as [|[k v] l IH]; [done|].
  rewrite reverse_cons, foldl_app. simpl. by rewrite IH.
Qed.

(** ** Properties *)

(** C37: The pgwire reader inverts the wire format: for every message type but 0
    and every body up to the 256 MiB limit, reading the bytes of the message -
    cut into segments in any way, with anything behind - gives back the message
    and leaves exactly the bytes behind it, and [Bytes] reproduces the wire form. *)
Theorem pg_message_roundtrip ty body cl tl rest :
  ty <> Byte.x00 -> pg_fits body -> clean cl ->
  data cl = Bytes (pg_frame ty body) ++ rest ->
  exists cl', ReadMessage (cl ++ tl) = (Ok (pg_frame ty body), cl' ++ tl)
              /\ clean cl' /\ data cl' = rest.
Proof.
  intros Hty Hf Hcl Hd. apply ReadMessage_reads; [done..|].
  rewrite Hd. unfold Bytes. by rewrite bool_decide_false.
Qed.

Definition select1 : PgPacket := pg_frame pgMsgQuery (cstr (B "SELECT 1")).
Definition select1_wire : list read_ev :=
  segments [take 3 (Bytes select1); drop 3 (Bytes select1) ++ Bytes (pg_frame pgMsgSync [])].

Lemma pg_message_roundtrip_witness :
  exists cl', ReadMessage (select1_wire ++ []) = (Ok select1, cl' ++ [])
              /\ clean cl' /\ data cl' = Bytes (pg_frame pgMsgSync []).
Proof.
  apply (pg_message_roundtrip pgMsgQuery (cstr (B "SELECT 1")) select1_wire []).
  - done.
  - vm_compute. intros [=].
  - apply clean_segments.
  - reflexivity.
Defined.

(** On every connection - truncated, failing, or sending garbage - the pgwire
    readers neither panic nor loop: they return an error, or a message whose
    length field is consistent, bounded by 256 MiB (which bounds the allocation)
    and taken off the stream, so every loop that reads messages makes progress. *)
Theorem pg_readers_safe s :
  (forall res s', ReadMessage s = (res, s') ->
     (exists p, res = Ok p /\ pg_wf p /\
                S (length (pg_Payload p)) + length (data s') = length (data s))
     \/ (exists e, res = Err e /\ length (data s') <= length (data s))) /\
  (forall res s', ReadStartupMessage s = (res, s') ->
     (exists p, res = Ok p /\ pg_wf p /\ pg_Type p = Byte.x00 /\ 8 <= length (pg_Payload p) /\
                length (pg_Payload p) + length (data s') = length (data s))
     \/ (exists e, res = Err e /\ length (data s') <= length (data s))).
Proof. split; intros res s' E; [by apply ReadMessage_any|by apply ReadStartupMessage_any]. Qed.

(** A length field below the minimum is refused with its value and type. *)
Lemma pg_readers_safe_witness :
  ReadMessage (segments [[pgMsgQuery; Byte.x00; Byte.x00]; [Byte.x00; Byte.x03; Byte.x41]])
  = (Err (ErrMsg "invalid pgwire length: 3 for type 'Q'"), segments [[Byte.x41]]) /\
  length (data (segments [[Byte.x41]]))
  <= length (data (segments [[pgMsgQuery; Byte.x00; Byte.x00]; [Byte.x00; Byte.x03; Byte.x41]])).
Proof.
  split; [vm_compute; reflexivity|].
  destruct (proj1 (pg_readers_safe (segments [[pgMsgQuery; Byte.x00; Byte.x00]; [Byte.x00; Byte.x03; Byte.x41]]))
              (Err (ErrMsg "invalid pgwire length: 3 for type 'Q'")) (segments [[Byte.x41]]))
    as [(p & [=] & _)|(e & _ & H)]; [vm_compute; reflexivity|exact H].
Defined.

(** The startup message round trip: what a client encodes - any list of
    parameters with non-empty names and no embedded zeros - is what
    [parseStartupParams] finds in the message [ReadStartupMessage] returns, the
    last value winning when a name is repeated. *)
Theorem startup_params_roundtrip version kvs cl tl rest :
  params_ok kvs -> length version = 4 ->
  let body := version ++ encode_params kvs in
  pg_fits body -> clean cl -> data cl = pg_Payload (pg_frame Byte.x00 body) ++ rest ->
  exists p cl', ReadStartupMessage (cl ++ tl) = (Ok p, cl' ++ tl) /\ clean cl' /\ data cl' = rest /\
    Bytes p = pg_Payload (pg_frame Byte.x00 body) /\
    parseStartupParams (Some p) = list_to_map (reverse kvs).
Proof.
  intros Hkv Hver body Hf Hcl Hd. assert (Hb : 4 < length body).
  { subst body. rewrite length_app. unfold encode_params. rewrite length_app. simpl. lia. }
  destruct (ReadStartupMessage_reads body ltac:(lia) Hf cl tl rest Hcl Hd) as (cl' & E & Hcl' & Hd').
  exists (pg_frame Byte.x00 body), cl'. split_and!; [done..|].
  unfold parseStartupParams. rewrite pg_frame_length, bool_decide_false by lia.
  change 8 with (4 + 4). rewrite <- drop_drop, pg_frame_drop. subst body.
  rewrite drop_app_length' by done. rewrite startup_params_loop_encode by done.
  apply assign_all_list_to_map.
Qed.

Definition startup_example : list (bytes * bytes) :=
  [(B "user", B "alice"); (B "database", B "db1"); (B "database", B "db2")].

Lemma startup_params_roundtrip_witness :
  let body := be32_bytes 196608 ++ encode_params startup_example in
  exists p cl',
    ReadStartupMessage (segments [pg_Payload (pg_frame Byte.x00 body)] ++ []) = (Ok p, cl' ++ []) /\
    clean cl' /\ data cl' = [] /\ Bytes p = pg_Payload (pg_frame Byte.x00 body) /\
    parseStartupParams (Some p) = list_to_map (reverse startup_example).
Proof.
  apply (startup_params_roundtrip (be32_bytes 196608) startup_example
           (segments [pg_Payload (pg_frame Byte.x00 (be32_bytes 196608 ++ encode_params startup_example))])
           [] []).
  - vm_decide.
  - reflexivity.
  - vm_compute. intros [=].
  - apply clean_segments.
  - reflexivity.
Defined.

(** The frontend messages of the extended query protocol that name a statement. *)
Definition parse_frame (name sql rest : bytes) : PgPacket :=
  pg_frame pgMsgParse (cstr name ++ cstr sql ++ rest).
Definition bind_frame (portal name rest : bytes) : PgPacket :=
  pg_frame pgMsgBind (cstr portal ++ cstr name ++ rest).
Definition close_frame (kind : byte) (name : bytes) : PgPacket :=
  pg_frame pgMsgClose (kind :: cstr name).
Definition describe_frame (kind : byte) (name : bytes) : PgPacket :=
  pg_frame pgMsgDescribe (kind :: cstr name).

Lemma extractPgQueryText_query sql :
  extractPgQueryText (Some (pg_frame pgMsgQuery (cstr sql))) = sql.
Proof.
  unfold extractPgQueryText. rewrite pg_frame_length, pg_frame_drop, length_cstr.
  rewrite bool_decide_false by lia. apply trimNullTerminator_cstr.
Qed.

Lemma extractPgQueryText_parse name sql rest :
  Byte.x00 ∉ name -> Byte.x00 ∉ sql ->
  extractPgQueryText (Some (parse_frame name sql rest)) = sql.
Proof.
  intros Hn Hs. unfold extractPgQueryText, parse_frame.
  rewrite pg_frame_length, pg_frame_drop, length_app, length_cstr, bool_decide_false by lia.
  change (pg_Type _) with pgMsgParse. rewrite bool_decide_false, bool_decide_true by done.
  rewrite indexNull_cstr, drop_cstr, indexNull_cstr by done.
  unfold cstr. by rewrite <- app_assoc, take_app_length.
Qed.

Lemma extractPgParseStmtName_parse name sql rest :
  Byte.x00 ∉ name -> extractPgParseStmtName (Some (parse_frame name sql rest)) = name.
Proof.
  intros Hn. unfold extractPgParseStmtName, parse_frame.
  rewrite pg_frame_length, pg_frame_drop, length_app, length_cstr.
  rewrite (bool_decide_false (_ <= 4)) by lia. by apply cstring_or_empty_cstr.
Qed.

Lemma extractPgBindStmtName_bind portal name rest :
  Byte.x00 ∉ portal -> Byte.x00 ∉ name ->
  extractPgBindStmtName (Some (bind_frame portal name rest)) = name.
Proof.
  intros Hp Hn. unfold extractPgBindStmtName, bind_frame.
  rewrite pg_frame_length, pg_frame_drop, length_app, length_cstr.
  rewrite (bool_decide_false (_ <= 4)) by lia. cbn [pg_frame pg_Type].
  rewrite bool_decide_false by (intros []; done). cbn [orb].
  rewrite indexNull_cstr, drop_cstr, !length_app, !length_cstr by done.
  rewrite bool_decide_false by lia. by apply cstring_or_empty_cstr.
Qed.

Lemma extract_target_frame ty kind name :
  Byte.x00 ∉ name -> extract_target ty (Some (pg_frame ty (kind :: cstr name))) = (kind, name).
Proof.
  intros Hn. unfold extract_target. rewrite pg_frame_length, pg_frame_drop. cbn [length].
  rewrite length_cstr, (bool_decide_false (_ <= 5)) by lia. cbn [pg_frame pg_Type].
  rewrite bool_decide_false by (intros []; done). cbn [orb].
  by rewrite <- (app_nil_r (cstr name)), cstring_or_empty_cstr.
Qed.

(** The extraction functions find what the client encoded: the SQL text of
    Query and Parse messages, and the statement a Parse, Bind, Describe or Close
    message is about, whatever bytes follow (parameter types, formats, values). *)
Theorem pg_extraction_inverts_encoding name portal sql kind rest :
  Byte.x00 ∉ name -> Byte.x00 ∉ portal -> Byte.x00 ∉ sql ->
  extractPgQueryText (Some (pg_frame pgMsgQuery (cstr sql))) = sql /\
  extractPgQueryText (Some (parse_frame name sql rest)) = sql /\
  extractPgParseStmtName (Some (parse_frame name sql rest)) = name /\
  extractPgBindStmtName (Some (bind_frame portal name rest)) = name /\
  extractPgDescribeTarget (Some (describe_frame kind name)) = (kind, name) /\
  extractPgCloseTarget (Some (close_frame kind name)) = (kind, name).
Proof.
  intros Hn Hp Hs. split_and!.
  - apply extractPgQueryText_query.
  - by apply extractPgQueryText_parse.
  - by apply extractPgParseStmtName_parse.
  - by apply extractPgBindStmtName_bind.
  - by apply extract_target_frame.
  - by apply extract_target_frame.
Qed.

Lemma pg_extraction_inverts_encoding_witness :
  extractPgQueryText (Some (pg_frame pgMsgQuery (cstr (B "SELECT 1")))) = B "SELECT 1" /\
  extractPgQueryText (Some (parse_frame (B "S_1") (B "SELECT 1") [Byte.x00; Byte.x00])) = B "SELECT 1" /\
  extractPgParseStmtName (Some (parse_frame (B "S_1") (B "SELECT 1") [Byte.x00; Byte.x00])) = B "S_1" /\
  extractPgBindStmtName (Some (bind_frame [] (B "S_1") [Byte.x00; Byte.x00])) = B "S_1" /\
  extractPgDescribeTarget (Some (describe_frame Byte.x53 (B "S_1"))) = (Byte.x53, B "S_1") /\
  extractPgCloseTarget (Some (close_frame Byte.x53 (B "S_1"))) = (Byte.x53, B "S_1").
Proof.
  apply (pg_extraction_inverts_encoding (B "S_1") [] (B "SELECT 1") Byte.x53 [Byte.x00; Byte.x00]);
    vm_decide.
Defined.

(** A message of type 0 is not relayed faithfully. The reader accepts it like
    any other, but [Bytes] takes type 0 for a startup message and leaves the type
    byte out, so what the proxy forwards is one byte shorter than what it read. *)
Theorem pg_type_zero_not_relayed body cl tl rest :
  pg_fits body -> clean cl -> data cl = (Byte.x00 :: pg_Payload (pg_frame Byte.x00 body)) ++ rest ->
  exists p cl', ReadMessage (cl ++ tl) = (Ok p, cl' ++ tl) /\ clean cl' /\ data cl' = rest /\
    Byte.x00 :: Bytes p = Byte.x00 :: pg_Payload (pg_frame Byte.x00 body).
Proof.
  intros Hf Hcl Hd. destruct (ReadMessage_reads Byte.x00 body Hf cl tl rest Hcl Hd) as (cl' & E & ? & ?).
  by exists (pg_frame Byte.x00 body), cl'.
Qed.

Lemma pg_type_zero_not_relayed_witness :
  exists p cl', ReadMessage (segments [[Byte.x00; Byte.x00; Byte.x00; Byte.x00; Byte.x04]] ++ [])
      = (Ok p, cl' ++ []) /\ clean cl' /\ data cl' = [] /\
    Byte.x00 :: Bytes p = [Byte.x00; Byte.x00; Byte.x00; Byte.x00; Byte.x04].
Proof.
  apply (pg_type_zero_not_relayed [] (segments [[Byte.x00; Byte.x00; Byte.x00; Byte.x00; Byte.x04]]) [] []).
  - vm_compute. intros [=].
  - apply clean_segments.
  - reflexivity.
Defined.
