(* ===== verification/Config.v ===== *)
(** * Configuration (src/config.go)

    The configuration record and its construction from environment variables.
    The environment is the function [Getenv], which returns the empty string
    for an unset variable. [Atoi] is modelled; the two tables the Standard
    Library of Go brings along - the lower-case table above ASCII and the
    decimal to binary conversion [ParseFloat] - are arguments. *)

From S2P Require Import Prelude GoStrings GoFloat.

(** Durations are [int64] nanoseconds. *)
Definition Second : Z := 1000000000.
Definition Millisecond : Z := 1000000.

(** [time.Duration(n) * unit], which wraps around *)
Definition duration (n unit : Z) : Z := wrapS 64 (n * unit).

Record Config := MkConfig {
  Protocol : bytes;
  ListenAddr : bytes;
  PrimaryHost : bytes;
  PrimaryPort : bytes;
  PrimaryUser : bytes;
  PrimaryPassword : bytes;
  ShadowHost : bytes;
  ShadowPort : bytes;
  ShadowUser : bytes;
  ShadowPassword : bytes;
  MetricsPort : bytes;
  TLSEnabled : bool;
  TLSCertFile : bytes;
  TLSKeyFile : bytes;
  PrimaryTLSEnabled : bool;
  PrimaryTLSCAFile : bytes;
  PrimaryTLSInsecureSkipVerify : bool;
  ShadowQueueSize : Z;
  ShadowReadTimeout : Z;
  ShadowDrainTimeout : Z;
  ShadowResponseDrainTimeout : Z;
  ShadowTLSEnabled : bool;
  ShadowTLSInsecure : bool;
  QueryLogGCSBucket : bytes;
  QueryLogGCSPrefix : bytes;
  QueryLogFlushInterval : Z;
  QueryLogBatchSize : Z;
  QueryLogBufferSize : Z;
  ShadowFilterMode : bytes;
  ShadowFilterSQLOperations : list bytes;
  ShadowFilterPatterns : list bytes;
  ShadowSampleRate : float64;
  DebugLog : bool;
}.

(** ** [strconv.Atoi] on a 64-bit platform *)

Definition digit (b : byte) : option Z :=
  if (48 <=? u8 b)%Z && (u8 b <=? 57)%Z then Some (u8 b - 48)%Z else None.

Fixpoint digits (acc : Z) (s : bytes) : option Z :=
  match s with
  | [] => Some acc
  | b :: s => match digit b with Some d => digits (10 * acc + d) s | None => None end
  end.

Definition unsigned_digits (s : bytes) : option Z :=
  match s with [] => None | _ => digits 0 s end.

Definition in_int64 (z : Z) : bool := (- 2 ^ 63 <=? z)%Z && (z <? 2 ^ 63)%Z.

Definition Atoi (s : bytes) : option Z :=
  let n := match s with
           | b :: s' =>
               if bool_decide (b = Byte.x2d) then Z.opp <$> unsigned_digits s'
               else if bool_decide (b = Byte.x2b) then unsigned_digits s'
               else unsigned_digits s
           | [] => None
           end in
  match n with Some z => if in_int64 z then Some z else None | None => None end.

Section config.
Context (Getenv : bytes -> bytes).
Context (lower_table : Z -> Z).
Context (ParseFloat : bytes -> option float64).

Definition isPostgresProtocol (protocol : bytes) : bool :=
  bool_decide (ToLower lower_table protocol ∈ [B "postgres"; B "postgresql"; B "pg"]).

Definition getEnv (key defaultValue : bytes) : bytes :=
  match Getenv key with [] => defaultValue | value => value end.

Definition getEnvInt (key : bytes) (defaultValue : Z) : Z :=
  match Getenv key with
  | [] => defaultValue
  | value => default defaultValue (Atoi value)
  end.

Definition getEnvFloat (key : bytes) (defaultValue : float64) : float64 :=
  match Getenv key with
  | [] => defaultValue
  | value => default defaultValue (ParseFloat value)
  end.

Definition getEnvList (key : bytes) (defaultValue : list bytes) : list bytes :=
  match Getenv key with
  | [] => defaultValue
  | value =>
      let result := List.filter (fun p => bool_decide (p <> []))
                      (map TrimSpace (SplitByte Byte.x2c value)) in
      match result with [] => defaultValue | _ => result end
  end.

Definition env_true (key : bytes) : bool := bool_decide (getEnv key (B "false") = B "true").

Definition loadConfig : Config :=
  let protocol := ToLower lower_table (getEnv (B "PROTOCOL") (B "mysql")) in
  let defaultListen := if isPostgresProtocol protocol then B ":5432" else B ":3306" in
  let defaultBackendPort := if isPostgresProtocol protocol then B "5432" else B "9030" in
  {| Protocol := protocol;
     ListenAddr := getEnv (B "LISTEN_ADDR") defaultListen;
     PrimaryHost := getEnv (B "PRIMARY_HOST") [];
     PrimaryPort := getEnv (B "PRIMARY_PORT") defaultBackendPort;
     PrimaryUser := getEnv (B "PRIMARY_USER") (B "root");
     PrimaryPassword := getEnv (B "PRIMARY_PASSWORD") [];
     ShadowHost := getEnv (B "SHADOW_HOST") [];
     ShadowPort := getEnv (B "SHADOW_PORT") defaultBackendPort;
     ShadowUser := getEnv (B "SHADOW_USER") (B "root");
     ShadowPassword := getEnv (B "SHADOW_PASSWORD") [];
     MetricsPort := getEnv (B "METRICS_PORT") (B ":9090");
     TLSEnabled := env_true (B "TLS_ENABLED");
     TLSCertFile := getEnv (B "TLS_CERT_FILE") (B "/certs/tls.crt");
     TLSKeyFile := getEnv (B "TLS_KEY_FILE") (B "/certs/tls.key");
     PrimaryTLSEnabled := env_true (B "PRIMARY_TLS_ENABLED");
     PrimaryTLSCAFile := getEnv (B "PRIMARY_TLS_CA_FILE") [];
     PrimaryTLSInsecureSkipVerify := env_true (B "PRIMARY_TLS_INSECURE_SKIP_VERIFY");
     ShadowQueueSize := getEnvInt (B "SHADOW_QUEUE_SIZE") 10000;
     ShadowReadTimeout := duration (getEnvInt (B "SHADOW_READ_TIMEOUT_SECONDS") 30) Second;
     ShadowDrainTimeout := duration (getEnvInt (B "SHADOW_DRAIN_TIMEOUT_MS") 60000) Millisecond;
     ShadowResponseDrainTimeout :=
       duration (getEnvInt (B "SHADOW_RESPONSE_DRAIN_TIMEOUT_MS") 100) Millisecond;
     ShadowTLSEnabled := env_true (B "SHADOW_TLS_ENABLED");
     ShadowTLSInsecure := env_true (B "SHADOW_TLS_INSECURE");
     QueryLogGCSBucket := getEnv (B "QUERY_LOG_GCS_BUCKET") [];
     QueryLogGCSPrefix := getEnv (B "QUERY_LOG_GCS_PREFIX") (B "query-logs");
     QueryLogFlushInterval := duration (getEnvInt (B "QUERY_LOG_FLUSH_INTERVAL_SECONDS") 120) Second;
     QueryLogBatchSize := getEnvInt (B "QUERY_LOG_BATCH_SIZE") 1000;
     QueryLogBufferSize := getEnvInt (B "QUERY_LOG_BUFFER_SIZE") 10000;
     ShadowFilterMode := getEnv (B "SHADOW_FILTER_MODE") [];
     ShadowFilterSQLOperations := getEnvList (B "SHADOW_FILTER_SQL_OPERATIONS") [];
     ShadowFilterPatterns := getEnvList (B "SHADOW_FILTER_PATTERNS") [];
     ShadowSampleRate := getEnvFloat (B "SHADOW_SAMPLE_RATE") f_one;
     DebugLog := env_true (B "DEBUG_LOG") |}.
End config.
