(* ===== verification/TLSConfig.v ===== *)
(** * TLS configurations (src/pg_tls.go, src/proxy.go, src/pg_shadow_worker.go)

    The [tls.Config] values the proxy builds from its configuration: for its
    listener, for the primary, and for the shadow. Reading key pairs, files and
    certificate pools are the file system's and the x509 library's: arguments. *)

From S2P Require Import Prelude Config.

(** The fields of [tls.Config] the code sets. *)
Record tls_config (Cert Pool : Type) := MkTLS {
  Certificates : list Cert;
  RootCAs : option Pool;
  MinVersion : Z;
  InsecureSkipVerify : bool;
  ServerName : bytes;
}.
Arguments MkTLS {_ _} _ _ _ _ _.
Arguments Certificates {_ _} _.
Arguments RootCAs {_ _} _.
Arguments MinVersion {_ _} _.
Arguments InsecureSkipVerify {_ _} _.
Arguments ServerName {_ _} _.

Definition VersionTLS12 : Z := 0x0303.

Definition text (b : bytes) : string := String.string_of_list_byte b.

Section tls.
Context {Cert Pool : Type}.
(** [tls.LoadX509KeyPair], [os.ReadFile] and [pool.AppendCertsFromPEM] on a new
    pool. *)
Context (LoadX509KeyPair : bytes -> bytes -> Cert + error).
Context (ReadFile : bytes -> bytes + error).
Context (AppendCertsFromPEM : bytes -> option Pool).

Definition loadListenerTLSConfig (config : Config) : result (option (tls_config Cert Pool)) :=
  if negb (TLSEnabled config) then Ok None
  else match LoadX509KeyPair (TLSCertFile config) (TLSKeyFile config) with
       | inr err =>
           Err (ErrWrap ("load listener cert/key (" +:+ text (TLSCertFile config) +:+ " / "
                         +:+ text (TLSKeyFile config) +:+ ")") err)
       | inl cert => Ok (Some (MkTLS [cert] None VersionTLS12 false []))
       end.

Definition loadBackendTLSConfig (config : Config) : result (option (tls_config Cert Pool)) :=
  if negb (PrimaryTLSEnabled config) then Ok None
  else
    let tlsConf rootCAs :=
      MkTLS [] rootCAs VersionTLS12 (PrimaryTLSInsecureSkipVerify config) (PrimaryHost config) in
    if bool_decide (PrimaryTLSCAFile config <> []) then
      match ReadFile (PrimaryTLSCAFile config) with
      | inr err => Err (ErrWrap ("read primary CA file " +:+ text (PrimaryTLSCAFile config)) err)
      | inl caPEM =>
          match AppendCertsFromPEM caPEM with
          | None => Err (ErrMsg ("primary CA file " +:+ text (PrimaryTLSCAFile config)
                                 +:+ " contained no usable certs"))
          | Some pool => Ok (Some (tlsConf (Some pool)))
          end
      end
    else Ok (Some (tlsConf None)).

(** The client part of [NewTCPProxy]: TLS towards MySQL clients. *)
Definition mysql_listener_tls (config : Config) : result (option (tls_config Cert Pool)) :=
  if TLSEnabled config then
    match LoadX509KeyPair (TLSCertFile config) (TLSKeyFile config) with
    | inr err => Err (ErrWrap "failed to load TLS certificates" err)
    | inl cert => Ok (Some (MkTLS [cert] None VersionTLS12 false []))
    end
  else Ok None.

(** The shadow part of [NewTCPProxy]. *)
Definition mysql_shadow_tls (config : Config) : option (tls_config Cert Pool) :=
  if ShadowTLSEnabled config
  then Some (MkTLS [] None VersionTLS12 (ShadowTLSInsecure config) [])
  else None.

(** The [TLSConfig] of [PgShadowWorker.Initialize]. *)
Definition pg_shadow_tls (config : Config) : option (tls_config Cert Pool) :=
  if ShadowTLSEnabled config
  then Some (MkTLS [] None VersionTLS12 (ShadowTLSInsecure config) (ShadowHost config))
  else None.

(** A client configuration the handshake can use at all: [tls.Client] requires a
    server name, or verification to be off. *)
Definition usable_client (c : tls_config Cert Pool) : Prop :=
  ServerName c <> [] \/ InsecureSkipVerify c = true.

(** A client configuration that authenticates its server as [host]. *)
Definition verifies (host : bytes) (c : tls_config Cert Pool) : Prop :=
  InsecureSkipVerify c = false /\ ServerName c = host.

Lemma loadBackendTLSConfig_policy config c :
  loadBackendTLSConfig config = Ok (Some c) ->
  PrimaryTLSEnabled config = true /\ MinVersion c = VersionTLS12 /\ Certificates c = [] /\
  ServerName c = PrimaryHost config /\ InsecureSkipVerify c = PrimaryTLSInsecureSkipVerify config /\
  (PrimaryTLSCAFile config = [] -> RootCAs c = None) /\
  (PrimaryTLSCAFile config <> [] -> exists pem pool,
     ReadFile (PrimaryTLSCAFile config) = inl pem /\ AppendCertsFromPEM pem = Some pool /\ RootCAs c = Some pool).
Proof.
  unfold loadBackendTLSConfig. destruct (PrimaryTLSEnabled config); [|done]. cbn [negb].
  case_bool_decide as Ef.
  - destruct (ReadFile _) as [pem|e] eqn:Er; [|done]. destruct (AppendCertsFromPEM pem) as [pool|] eqn:Ea; [|done].
    intros [= <-]. cbn. by repeat (split; [done|]); eauto.
  - intros [= <-]. cbn. by repeat (split; [done|]).
Qed.

(** What an error of [loadBackendTLSConfig] means. *)
Definition unusable_ca (config : Config) : Prop :=
  PrimaryTLSCAFile config <> [] /\
  match ReadFile (PrimaryTLSCAFile config) with inl pem => AppendCertsFromPEM pem = None | inr _ => True end.

(** C34: TLS to the primary as configured, and never less. When PRIMARY_TLS_ENABLED is
    set, [loadBackendTLSConfig] never returns the absence of a configuration: it fails
    exactly if a CA file is configured and cannot be read or holds no certificate, and
    otherwise returns one that demands at least TLS 1.2, names PRIMARY_HOST as the server,
    and trusts the pool of the CA file if one is configured and the system roots if none
    is. It verifies the server as PRIMARY_HOST if and only if
    PRIMARY_TLS_INSECURE_SKIP_VERIFY is not set. *)
Theorem backend_tls_fails_closed config :
  PrimaryTLSEnabled config = true ->
  match loadBackendTLSConfig config with
  | Ok (Some c) =>
      ~ unusable_ca config /\ MinVersion c = VersionTLS12 /\ ServerName c = PrimaryHost config /\
      (verifies (PrimaryHost config) c <-> PrimaryTLSInsecureSkipVerify config = false) /\
      (PrimaryTLSCAFile config = [] -> RootCAs c = None) /\
      (PrimaryTLSCAFile config <> [] -> exists pem pool,
         ReadFile (PrimaryTLSCAFile config) = inl pem /\ AppendCertsFromPEM pem = Some pool /\ RootCAs c = Some pool)
  | Err _ => unusable_ca config
  | _ => False
  end.
Proof.
  intros Ht. destruct (loadBackendTLSConfig config) as [[c|]|e| |] eqn:E.
  - apply loadBackendTLSConfig_policy in E as (_ & Hv & _ & Hn & Hs & Hr & Hp). unfold verifies, unusable_ca.
    rewrite Hn, Hs. split_and!; [|done|done|tauto|done|done].
    intros [Hf Hu]. destruct (Hp Hf) as (pem & pool & E1 & E2 & _). rewrite E1 in Hu. congruence.
  - unfold loadBackendTLSConfig in E. rewrite Ht in E. cbn [negb] in E. repeat case_match; done.
  - unfold loadBackendTLSConfig in E. rewrite Ht in E. cbn [negb] in E. unfold unusable_ca. case_bool_decide; [|done].
    split; [done|]. destruct (ReadFile _); [|done]. by destruct (AppendCertsFromPEM _).
  - unfold loadBackendTLSConfig in E. repeat case_match; done.
  - unfold loadBackendTLSConfig in E. repeat case_match; done.
Qed.
End tls.

(** ** Witnesses *)

(** A file system with one CA file, and one without usable certificates. *)
Definition ca_config (file : string) : Config :=
  loadConfig (fun key => if bool_decide (key = B "PRIMARY_TLS_ENABLED") then B "true"
                         else if bool_decide (key = B "PRIMARY_HOST") then B "primary"
                         else if bool_decide (key = B "PRIMARY_TLS_CA_FILE") then B file else [])
    (fun r => r) (fun _ => None).
Definition example_ReadFile (file : bytes) : bytes + error :=
  if bool_decide (file = B "ca.pem") then inl (B "PEM") else if bool_decide (file = B "empty.pem") then inl []
  else inr (ErrConn "no such file or directory").
Definition example_Append (pem : bytes) : option bytes := if bool_decide (pem = []) then None else Some pem.

Lemma backend_tls_fails_closed_witness :
  loadBackendTLSConfig (Cert := unit) example_ReadFile example_Append (ca_config "empty.pem")
  = Err (ErrMsg "primary CA file empty.pem contained no usable certs") /\
  unusable_ca example_ReadFile example_Append (ca_config "empty.pem") /\
  exists c, loadBackendTLSConfig (Cert := unit) example_ReadFile example_Append (ca_config "ca.pem") = Ok (Some c) /\
    verifies (B "primary") c /\ exists pem pool, example_ReadFile (B "ca.pem") = inl pem /\ example_Append pem = Some pool /\ RootCAs c = Some pool.
Proof.
  split; [vm_compute; reflexivity|]. split.
  { exact (backend_tls_fails_closed (Cert := unit) example_ReadFile example_Append (ca_config "empty.pem") eq_refl). }
  pose proof (backend_tls_fails_closed (Cert := unit) example_ReadFile example_Append (ca_config "ca.pem")
    ltac:(vm_compute; reflexivity)) as H.
  eexists. split; [vm_compute; reflexivity|].
  destruct H as (_ & _ & _ & H1 & _ & H2). split; [apply H1; vm_compute; reflexivity|apply H2; by vm_compute].
Defined.
