(* ===== verification/QueryLogger.v ===== *)
(** * The query logger (src/query_logger.go)

    Log records and the request metadata that correlates them, and the logger
    itself: [Log] is called from any number of goroutines and never blocks; one
    goroutine runs [flushLoop], which batches entries and writes each batch to
    object storage, or to the process log when that fails. The interleavings of
    the two are the step relation [ql_step]; each rule runs one of the
    executable operations. The storage client is outside the repository: what
    it answers to a write is a label of the step. An object is the list of the
    entries written to it here; file QueryLogFlush has the text. *)

From S2P Require Import Prelude GoFloat Digest MySQLProtocol.
From stdpp Require Import relations.

(** ** Records *)

Record QueryLogEntry := MkEntry {
  le_Timestamp : bytes;
  le_QueryID : bytes;
  le_Target : bytes;
  le_Command : bytes;
  le_QueryText : bytes;
  le_QueryHash : bytes;
  le_DurationMs : float64;
  le_BytesSent : Z;
  le_BytesRecv : Z;
  le_Success : bool;
  le_Error : bytes;
  le_ClientAddr : bytes;
  le_Filtered : bool;
  le_FilterReason : bytes;
}.

Record QueryRequest := MkRequest {
  qr_ID : bytes;
  qr_Packet : bytes;
  qr_QueryText : bytes;
  qr_QueryHash : bytes;
  qr_Command : bytes;
  qr_ClientAddr : bytes;
  qr_ReceivedAt : Z;
}.

#[export] Instance QueryRequest_eq_dec : EqDecision QueryRequest.
Proof. solve_decision. Defined.
#[export] Instance QueryLogEntry_eq_dec : EqDecision QueryLogEntry.
Proof. solve_decision. Defined.

(** [NewQueryRequest(packet, clientAddr)]; [uuid] and [now] are the fresh
    identifier and the current time. *)
Definition NewQueryRequest (uuid : bytes) (now : Z) (packet clientAddr : bytes) : QueryRequest :=
  let cmdName := match getMySQLCommand packet with
                 | Some cmd => B (getMySQLCommandName cmd)
                 | None => B "UNKNOWN"
                 end in
  let cmd := default Byte.x00 (getMySQLCommand packet) in
  let is_query := (u8 cmd =? comQuery)%Z && bool_decide (5 < length packet) in
  let queryText := if is_query then drop 5 packet else [] in
  let queryHash := if is_query then fmt_x (MD5.sum queryText) else [] in
  MkRequest uuid packet queryText queryHash cmdName clientAddr now.

Definition errorString (err : option error) : bytes :=
  match err with None => [] | Some e => B (Error_text e) end.

(** The wall clock as an entry records it: the formatted time and the measured
    duration in nanoseconds. *)
Record timing := MkTiming { t_stamp : bytes; t_ns : Z }.

(** The entry the three [log...Execution] functions build: [logPrimaryExecution]
    of src/proxy.go, [logQueryExecution] of src/shadow_worker.go, [logEntry] of
    src/pg_proxy.go and [logExecution] of src/pg_shadow_worker.go. *)
Definition execution_entry (target : bytes) (t : timing) (req : QueryRequest)
    (bytesSent bytesRecv : Z) (err : option error) : QueryLogEntry :=
  MkEntry (t_stamp t) (qr_ID req) target (qr_Command req) (qr_QueryText req) (qr_QueryHash req)
    (duration_ms (t_ns t)) bytesSent bytesRecv (bool_decide (err = None)) (errorString err)
    (qr_ClientAddr req) false [].

(** The entry of the two [logFilteredShadow] functions. *)
Definition filtered_entry (t : timing) (req : QueryRequest) (filterReason : bytes) : QueryLogEntry :=
  MkEntry (t_stamp t) (qr_ID req) (B "shadow") (qr_Command req) (qr_QueryText req) (qr_QueryHash req)
    f_zero 0 0 true [] (qr_ClientAddr req) true filterReason.

(** ** The logger *)

Record QueryLoggerConfig := MkLoggerConfig {
  lc_GCSBucket : bytes;
  lc_GCSPrefix : bytes;
  lc_FlushInterval : Z;
  lc_BatchSize : Z;
  lc_BufferSize : nat;
}.

(** Where [flushLoop] is: in its [select], draining after shutdown, returned. *)
Inductive ql_phase := Flushing | Draining | Finished.

(** A batch that left the logger: the object written, or the fallback log. *)
Inductive written := Object (batch : list QueryLogEntry) | Fallback (batch : list QueryLogEntry).

Definition written_entries (w : written) : list QueryLogEntry :=
  match w with Object b => b | Fallback b => b end.

(** The logger's state: the channel, the batch of the loop, what was written,
    [ctx]'s cancellation, and the entries [Log] queued and dropped (the
    [entries_total] counters with their contents). *)
Record QueryLogger := MkLogger {
  ql_entries : list QueryLogEntry;
  ql_batch : list QueryLogEntry;
  ql_phase_ : ql_phase;
  ql_written : list written;
  ql_cancelled : bool;
  ql_queued : list QueryLogEntry;
  ql_dropped : list QueryLogEntry;
}.

Definition NewQueryLogger : QueryLogger := MkLogger [] [] Flushing [] false [] [].

Section logger.
Context (cfg : QueryLoggerConfig).

(** [Log(entry)]: the send succeeds when the buffer has room. *)
Definition Log (entry : QueryLogEntry) (ql : QueryLogger) : QueryLogger :=
  if bool_decide (length (ql_entries ql) < lc_BufferSize cfg) then
    MkLogger (ql_entries ql ++ [entry]) (ql_batch ql) (ql_phase_ ql) (ql_written ql)
      (ql_cancelled ql) (ql_queued ql ++ [entry]) (ql_dropped ql)
  else
    MkLogger (ql_entries ql) (ql_batch ql) (ql_phase_ ql) (ql_written ql)
      (ql_cancelled ql) (ql_queued ql) (ql_dropped ql ++ [entry]).

(** [flush(batch)]; [ok] is whether writing the object and closing the writer
    both succeeded. *)
Definition flush (ok : bool) (batch : list QueryLogEntry) (w : list written) : list written :=
  match batch with
  | [] => w
  | _ => w ++ [if ok then Object batch else Fallback batch]
  end.

(** The case [entry := <-ql.entries] of the loop. *)
Definition on_entry (ok : bool) (entry : QueryLogEntry) (rest : list QueryLogEntry)
    (ql : QueryLogger) : QueryLogger :=
  let batch := ql_batch ql ++ [entry] in
  if (lc_BatchSize cfg <=? Z.of_nat (length batch))%Z then
    MkLogger rest [] (ql_phase_ ql) (flush ok batch (ql_written ql))
      (ql_cancelled ql) (ql_queued ql) (ql_dropped ql)
  else
    MkLogger rest batch (ql_phase_ ql) (ql_written ql)
      (ql_cancelled ql) (ql_queued ql) (ql_dropped ql).

(** The case [<-ticker.C]. *)
Definition on_tick (ok : bool) (ql : QueryLogger) : QueryLogger :=
  match ql_batch ql with
  | [] => ql
  | batch => MkLogger (ql_entries ql) [] (ql_phase_ ql) (flush ok batch (ql_written ql))
               (ql_cancelled ql) (ql_queued ql) (ql_dropped ql)
  end.

(** The case [<-ql.ctx.Done()] up to its drain loop, one round of the drain
    loop, and its end. *)
Definition on_done (ql : QueryLogger) : QueryLogger :=
  MkLogger (ql_entries ql) (ql_batch ql) Draining (ql_written ql)
    (ql_cancelled ql) (ql_queued ql) (ql_dropped ql).
Definition drain_entry (entry : QueryLogEntry) (rest : list QueryLogEntry)
    (ql : QueryLogger) : QueryLogger :=
  MkLogger rest (ql_batch ql ++ [entry]) (ql_phase_ ql) (ql_written ql)
    (ql_cancelled ql) (ql_queued ql) (ql_dropped ql).
Definition drain_end (ok : bool) (ql : QueryLogger) : QueryLogger :=
  MkLogger (ql_entries ql) [] Finished (flush ok (ql_batch ql) (ql_written ql))
    (ql_cancelled ql) (ql_queued ql) (ql_dropped ql).

(** [ql.cancel()], the first statement of [Close]. *)
Definition cancel (ql : QueryLogger) : QueryLogger :=
  MkLogger (ql_entries ql) (ql_batch ql) (ql_phase_ ql) (ql_written ql)
    true (ql_queued ql) (ql_dropped ql).

(** One step of the system: a [Log] call of some goroutine, the shutdown
    request, or a case of the flush loop. A [select] with several ready cases
    takes any of them. *)
Inductive ql_step : QueryLogger -> QueryLogger -> Prop :=
  | step_log entry ql : ql_step ql (Log entry ql)
  | step_handoff ok entry ql :
      (* an unbuffered channel hands the entry to the waiting loop *)
      lc_BufferSize cfg = 0 -> ql_phase_ ql = Flushing -> ql_entries ql = [] ->
      ql_step ql (on_entry ok entry []
        (MkLogger [] (ql_batch ql) Flushing (ql_written ql) (ql_cancelled ql)
           (ql_queued ql ++ [entry]) (ql_dropped ql)))
  | step_entry ok entry rest ql :
      ql_phase_ ql = Flushing -> ql_entries ql = entry :: rest ->
      ql_step ql (on_entry ok entry rest ql)
  | step_tick ok ql : ql_phase_ ql = Flushing -> ql_step ql (on_tick ok ql)
  | step_cancel ql : ql_step ql (cancel ql)
  | step_done ql : ql_phase_ ql = Flushing -> ql_cancelled ql = true -> ql_step ql (on_done ql)
  | step_drain entry rest ql :
      ql_phase_ ql = Draining -> ql_entries ql = entry :: rest ->
      ql_step ql (drain_entry entry rest ql)
  | step_drained ok ql :
      ql_phase_ ql = Draining -> ql_entries ql = [] -> ql_step ql (drain_end ok ql).

Definition ql_steps : QueryLogger -> QueryLogger -> Prop := rtc ql_step.
Definition ql_reachable (ql : QueryLogger) : Prop := ql_steps NewQueryLogger ql.
End logger.

(** ** Invariants *)

(** Everything that left the logger, in order. *)
Definition all_written (ql : QueryLogger) : list QueryLogEntry :=
  concat (map written_entries (ql_written ql)).

(** A batch is flushed as soon as it has [batchSize] entries; with a size of 0 that is
    after every entry. *)
Definition batch_limit (cfg : QueryLoggerConfig) : Z := Z.max 1 (lc_BatchSize cfg).
Definition sized (cfg : QueryLoggerConfig) (w : written) : Prop :=
  (1 <= Z.of_nat (length (written_entries w)) <= batch_limit cfg)%Z.

(** All batches are of that size, except that the loop has written one more, of any
    size, when it returned after a shutdown. *)
Definition sized_batches (cfg : QueryLoggerConfig) (phase : ql_phase) (ws : list written) : Prop :=
  exists flushed final, ws = flushed ++ final /\ Forall (sized cfg) flushed /\
    (final = [] \/ phase = Finished /\ exists w, final = [w] /\ written_entries w <> []).

Lemma sized_batches_all cfg phase ws : phase <> Finished -> sized_batches cfg phase ws -> Forall (sized cfg) ws.
Proof. intros Hp (f & l & -> & Hf & [-> |[? _]]); [by rewrite app_nil_r|done]. Qed.

Lemma sized_batches_intro cfg phase ws : Forall (sized cfg) ws -> sized_batches cfg phase ws.
Proof. intros Hw. exists ws, []. rewrite app_nil_r. auto. Qed.

(** Entries are neither lost, duplicated nor reordered, the buffer is bounded,
    and the loop returns with nothing in hand. *)
Record ql_inv (cfg : QueryLoggerConfig) (ql : QueryLogger) : Prop := {
  inv_conserved : all_written ql ++ ql_batch ql ++ ql_entries ql = ql_queued ql;
  inv_buffer : length (ql_entries ql) <= lc_BufferSize cfg;
  inv_finished : ql_phase_ ql = Finished -> ql_batch ql = [];
  inv_batch : ql_phase_ ql = Flushing -> (Z.of_nat (length (ql_batch ql)) < batch_limit cfg)%Z;
  inv_sizes : sized_batches cfg (ql_phase_ ql) (ql_written ql);
}.

Lemma flush_entries ok batch w :
  concat (map written_entries (flush ok batch w)) = concat (map written_entries w) ++ batch.
Proof.
  destruct batch as [|e batch]; simpl; [by rewrite app_nil_r|].
  rewrite map_app, concat_app. simpl. rewrite app_nil_r. by destruct ok.
Qed.

Lemma flush_sizes cfg ok batch w :
  (Z.of_nat (length batch) <= batch_limit cfg)%Z -> Forall (sized cfg) w -> Forall (sized cfg) (flush ok batch w).
Proof.
  intros Hb Hw. destruct batch as [|e batch]; [done|]. unfold flush. apply Forall_app.
  split; [done|]. constructor; [|done]. unfold sized. destruct ok; simpl in *; lia.
Qed.

Lemma flush_final cfg ok batch w : Forall (sized cfg) w -> sized_batches cfg Finished (flush ok batch w).
Proof.
  intros Hw. destruct batch as [|e batch]; [by apply sized_batches_intro|]. exists w. eexists. split; [reflexivity|].
  split; [done|]. right. split; [done|]. eexists. split; [reflexivity|]. by destruct ok.
Qed.

#[local] Arguments flush : simpl never.

Section logger_proofs.
Context (cfg : QueryLoggerConfig).

Lemma on_entry_inv ok entry rest ql :
  ql_phase_ ql = Flushing -> length rest <= lc_BufferSize cfg ->
  all_written ql ++ ql_batch ql ++ entry :: rest = ql_queued ql ->
  (Z.of_nat (length (ql_batch ql)) < batch_limit cfg)%Z -> Forall (sized cfg) (ql_written ql) ->
  ql_inv cfg (on_entry cfg ok entry rest ql).
Proof.
  intros Hp Hr Hc Hb Hw. unfold on_entry. destruct (Z.leb_spec (lc_BatchSize cfg)
    (Z.of_nat (length (ql_batch ql ++ [entry])))) as [E|E]; split; simpl; try done.
  - unfold all_written. simpl. rewrite flush_entries, <- Hc, <- !app_assoc. done.
  - intros _. unfold batch_limit. simpl. lia.
  - apply sized_batches_intro, flush_sizes; [|done]. rewrite length_app. simpl. lia.
  - unfold all_written in *. simpl. by rewrite <- !app_assoc.
  - by rewrite Hp.
  - intros _. unfold batch_limit. lia.
  - by apply sized_batches_intro.
Qed.

Lemma ql_step_inv ql ql' : ql_step cfg ql ql' -> ql_inv cfg ql -> ql_inv cfg ql'.
Proof.
  intros Hs [Hc Hb Hf Hz Hw]. destruct Hs as [entry ql|ok entry ql Hcap Hp He|ok entry rest ql Hp He|ok ql Hp|ql
    |ql Hp Hca|entry rest ql Hp He|ok ql Hp He]; unfold all_written in *;
    try (assert (Hall : Forall (sized cfg) (ql_written ql)) by (eapply sized_batches_all; [|exact Hw]; by rewrite Hp)).
  - unfold Log. case_bool_decide as E; split; simpl; try done.
    + unfold all_written. simpl. by rewrite <- Hc, <- !app_assoc.
    + rewrite length_app. simpl. lia.
  - apply on_entry_inv; simpl; [done|lia| |auto|done].
    rewrite <- Hc. unfold all_written. simpl. rewrite He, <- !app_assoc. done.
  - apply on_entry_inv; [done| | |auto|done].
    + rewrite He in Hb. simpl in Hb. lia.
    + unfold all_written. by rewrite <- Hc, He.
  - unfold on_tick. destruct (ql_batch ql) as [|e b] eqn:Eb; [by split; rewrite ?Eb|]. specialize (Hz Hp).
    split; simpl; try done.
    + unfold all_written. cbn [ql_written]. rewrite flush_entries, <- Hc. by rewrite <- !app_assoc.
    + intros _. unfold batch_limit. simpl. lia.
    + apply sized_batches_intro, (flush_sizes cfg ok (e :: b)); [lia|done].
  - by split.
  - split; simpl; try done. by apply sized_batches_intro.
  - split; simpl; try done; [|by rewrite He in Hb; simpl in Hb; lia|by rewrite Hp..].
    unfold all_written. simpl. rewrite <- Hc, He, <- !app_assoc. done.
  - split; simpl; try done; [|by apply flush_final].
    unfold all_written. simpl. rewrite flush_entries, <- Hc, He, !app_nil_r. done.
Qed.

Lemma ql_reachable_inv ql : ql_reachable cfg ql -> ql_inv cfg ql.
Proof.
  unfold ql_reachable, ql_steps. intros H. revert H.
  apply (rtc_ind_r (fun ql => ql_inv cfg ql) NewQueryLogger).
  - split; simpl; [done|lia|done| |by apply sized_batches_intro]. intros _. unfold batch_limit. lia.
  - intros y z _ Hs Hi. by eapply ql_step_inv.
Qed.

(** Once the loop has returned, nothing is written any more. *)
Lemma finished_stays ql ql' :
  ql_phase_ ql = Finished -> ql_steps cfg ql ql' ->
  ql_phase_ ql' = Finished /\ ql_written ql' = ql_written ql.
Proof.
  intros Hp H. revert H. unfold ql_steps.
  apply (rtc_ind_r (fun ql' => ql_phase_ ql' = Finished /\ ql_written ql' = ql_written ql) ql); [done|].
  intros y z _ Hs [Hy Hw]. destruct Hs; simpl in *; try congruence; [|done].
  unfold Log. by case_bool_decide.
Qed.

(** The drain loop, run to its end. *)
Lemma drain_run ok es : forall ql,
  ql_phase_ ql = Draining -> ql_entries ql = es ->
  ql_steps cfg ql (MkLogger [] [] Finished (flush ok (ql_batch ql ++ es) (ql_written ql))
                     (ql_cancelled ql) (ql_queued ql) (ql_dropped ql)).
Proof.
  induction es as [|e es IH]; intros ql Hp He.
  - rewrite app_nil_r. eapply rtc_l; [by apply (step_drained _ ok)|].
    unfold drain_end. rewrite He. apply rtc_refl.
  - eapply rtc_l; [by apply step_drain|]. specialize (IH (drain_entry e es ql) Hp eq_refl).
    simpl in IH. by rewrite <- app_assoc in IH.
Qed.
End logger_proofs.

(** The query text of a request: what follows the command byte of a COM_QUERY. *)
Lemma NewQueryRequest_text uuid now seq payload addr :
  qr_QueryText (NewQueryRequest uuid now (mk_packet seq payload) addr)
  = match payload with
    | cmd :: text => if (u8 cmd =? comQuery)%Z then text else []
    | [] => []
    end.
Proof.
  destruct payload as [|cmd text]; [done|]. unfold NewQueryRequest, getMySQLCommand.
  rewrite length_mk_packet, bool_decide_false by (simpl; lia).
  change (mk_packet seq (cmd :: text) !! 4) with (Some cmd). change (default Byte.x00 (Some cmd)) with cmd. cbn [qr_QueryText].
  change (drop 5 (mk_packet seq (cmd :: text))) with (drop 0 text). rewrite drop_0.
  destruct (u8 cmd =? comQuery)%Z; cbn [andb]; [|done]. case_bool_decide as E; [done|].
  destruct text; [done|]. simpl in E. lia.
Qed.

(** ** Properties *)

(** C16: The logger neither loses, duplicates nor reorders entries. In every
    interleaving of [Log] calls with the flush loop, whatever storage answers: the
    entries written, the batch in hand and the buffer are together exactly the entries
    [Log] accepted, in the order in which it accepted them; the buffer never exceeds its
    capacity; until a shutdown the batch in hand has fewer than [batchSize] entries (none
    if that is 0). Every batch written has between one and [batchSize] entries (one if
    that is 0), with a single exception: the loop may end, after a shutdown, with one
    more batch, of whatever was left, which is not limited in size. *)
Theorem logger_conserves_entries cfg ql :
  ql_reachable cfg ql ->
  all_written ql ++ ql_batch ql ++ ql_entries ql = ql_queued ql /\
  length (ql_entries ql) <= lc_BufferSize cfg /\
  (ql_phase_ ql = Flushing -> (Z.of_nat (length (ql_batch ql)) < Z.max 1 (lc_BatchSize cfg))%Z) /\
  exists flushed final, ql_written ql = flushed ++ final /\
    Forall (fun w => 1 <= Z.of_nat (length (written_entries w)) <= Z.max 1 (lc_BatchSize cfg))%Z flushed /\
    (final = [] \/ ql_phase_ ql = Finished /\ exists w, final = [w] /\ written_entries w <> []).
Proof. intros H. by destruct (ql_reachable_inv _ _ H). Qed.

Definition log_cfg : QueryLoggerConfig := MkLoggerConfig (B "b") (B "p") 60000000000 2 2.
Definition log_entry (id : bytes) : QueryLogEntry :=
  MkEntry (B "t") id (B "primary") (B "COM_QUERY") (B "SELECT 1") [] f_zero 0 0 true [] (B "c") false [].

(** Four calls against a buffer of two: one entry is dropped, a batch of two is
    written, one entry is still buffered. *)
Definition log_run : QueryLogger :=
  let l1 := Log log_cfg (log_entry (B "2")) (Log log_cfg (log_entry (B "1")) NewQueryLogger) in
  let l2 := Log log_cfg (log_entry (B "3")) l1 in
  let l3 := on_entry log_cfg true (log_entry (B "1")) [log_entry (B "2")] l2 in
  let l4 := on_entry log_cfg false (log_entry (B "2")) [] l3 in
  Log log_cfg (log_entry (B "4")) l4.

Lemma log_run_reachable : ql_reachable log_cfg log_run.
Proof.
  do 3 (eapply rtc_l; [by apply step_log|]).
  eapply rtc_l; [by apply (step_entry _ true (log_entry (B "1")) [log_entry (B "2")])|].
  eapply rtc_l; [by apply (step_entry _ false (log_entry (B "2")) [])|].
  eapply rtc_l; [by apply step_log|]. apply rtc_refl.
Qed.

Lemma logger_conserves_entries_witness :
  ql_written log_run = [Fallback [log_entry (B "1"); log_entry (B "2")]] /\
  ql_dropped log_run = [log_entry (B "3")] /\
  all_written log_run ++ ql_batch log_run ++ ql_entries log_run = ql_queued log_run /\
  length (ql_entries log_run) <= lc_BufferSize log_cfg /\
  (ql_phase_ log_run = Flushing -> (Z.of_nat (length (ql_batch log_run)) < Z.max 1 (lc_BatchSize log_cfg))%Z) /\
  exists flushed final, ql_written log_run = flushed ++ final /\
    Forall (fun w => 1 <= Z.of_nat (length (written_entries w)) <= Z.max 1 (lc_BatchSize log_cfg))%Z flushed /\
    (final = [] \/ ql_phase_ log_run = Finished /\ exists w, final = [w] /\ written_entries w <> []).
Proof.
  split; [reflexivity|]. split; [reflexivity|].
  exact (logger_conserves_entries log_cfg log_run log_run_reachable).
Defined.

(** The last batch is not limited: with a batch size of 2, a shutdown with three
    entries left writes them as one object. *)
Example final_batch_unlimited :
  let cfg := MkLoggerConfig (B "b") (B "p") 60000000000 2 3 in
  let l := Log cfg (log_entry (B "3")) (Log cfg (log_entry (B "2")) (Log cfg (log_entry (B "1")) NewQueryLogger)) in
  exists ql', ql_steps cfg (cancel l) ql' /\ ql_phase_ ql' = Finished /\
    ql_written ql' = [Object [log_entry (B "1"); log_entry (B "2"); log_entry (B "3")]].
Proof.
  cbv zeta. eexists. split; [|split].
  - eapply rtc_l; [by apply step_done|]. apply (drain_run _ true); reflexivity.
  - reflexivity.
  - reflexivity.
Qed.

(** Shutdown loses nothing. When the flush loop returns - and [Close] waits
    for that - every entry accepted so far has been written, and from then on
    nothing more is written: only entries logged after that moment stay in the
    buffer. *)
Theorem logger_shutdown_complete cfg ql1 ql2 ql3 :
  ql_reachable cfg ql1 -> ql_step cfg ql1 ql2 -> ql_phase_ ql1 <> Finished ->
  ql_phase_ ql2 = Finished -> ql_steps cfg ql2 ql3 ->
  all_written ql2 = ql_queued ql2 /\
  all_written ql3 = all_written ql2 /\ ql_queued ql3 = all_written ql2 ++ ql_entries ql3.
Proof.
  intros H1 Hs Hp1 Hp2 H3. assert (Hr3 : ql_reachable cfg ql3).
  { eapply (transitivity (R := rtc _)); [by eapply rtc_r|exact H3]. }
  destruct (ql_reachable_inv _ _ (rtc_r _ _ _ H1 Hs)) as [Hc2 _ Hf2 _ _].
  destruct (ql_reachable_inv cfg ql3 Hr3) as [Hc3 _ Hf3 _ _].
  destruct (finished_stays _ _ _ Hp2 H3) as [Hp3 Hw3]. unfold all_written in *.
  rewrite (Hf2 Hp2) in Hc2. rewrite (Hf3 Hp3), Hw3 in Hc3. rewrite Hw3. simpl in *.
  assert (He : ql_entries ql2 = []).
  { destruct Hs; unfold Log, on_entry, on_tick in *; repeat case_match; simpl in *; congruence. }
  rewrite He, app_nil_r in Hc2. by split_and!.
Qed.

Lemma logger_shutdown_complete_witness :
  let s1 := on_done (cancel NewQueryLogger) in
  let s2 := drain_end true s1 in
  let s3 := Log log_cfg (log_entry (B "late")) s2 in
  all_written s2 = ql_queued s2 /\ all_written s3 = all_written s2 /\
  ql_queued s3 = all_written s2 ++ ql_entries s3.
Proof.
  apply (logger_shutdown_complete log_cfg (on_done (cancel NewQueryLogger))
           (drain_end true (on_done (cancel NewQueryLogger)))
           (Log log_cfg (log_entry (B "late")) (drain_end true (on_done (cancel NewQueryLogger))))).
  - eapply rtc_l; [apply step_cancel|]. eapply rtc_l; [by apply step_done|]. apply rtc_refl.
  - by apply step_drained.
  - done.
  - done.
  - eapply rtc_l; [apply step_log|]. apply rtc_refl.
Defined.

(** Shutdown terminates. From every state the running logger can be in, the
    cancellation lets the loop run to its return, whatever storage answers, with
    everything accepted so far written. *)
Theorem logger_shutdown_terminates cfg ql ok :
  ql_reachable cfg ql -> ql_phase_ ql = Flushing ->
  exists ql', ql_steps cfg (cancel ql) ql' /\ ql_phase_ ql' = Finished /\
    ql_written ql' = flush ok (ql_batch ql ++ ql_entries ql) (ql_written ql) /\
    ql_queued ql' = ql_queued ql /\ all_written ql' = ql_queued ql.
Proof.
  intros H Hp. destruct (ql_reachable_inv _ _ H) as [Hc _ _ _ _].
  eexists. split; [|split; [|split; [|split]]].
  - eapply rtc_l; [by apply step_done|]. by apply (drain_run cfg ok (ql_entries ql)).
  - done.
  - done.
  - done.
  - unfold all_written in *. simpl. by rewrite flush_entries, <- Hc.
Qed.

Lemma logger_shutdown_terminates_witness :
  exists ql', ql_steps log_cfg (cancel log_run) ql' /\ ql_phase_ ql' = Finished /\
    ql_written ql' = flush false (ql_batch log_run ++ ql_entries log_run) (ql_written log_run) /\
    ql_queued ql' = ql_queued log_run /\ all_written ql' = ql_queued log_run.
Proof. exact (logger_shutdown_terminates log_cfg log_run false log_run_reachable eq_refl). Defined.
