(* ===== verification/Json.v ===== *)
(** * JSON (encoding/json, as src/query_logger.go uses it)

    How Go prints an object of strings, numbers and booleans: the escaping of
    [appendString] with HTML escaping on (the default of [json.Marshal] and of an
    [Encoder]), decimal integers, and the separators. Reading is not the
    program's; [parse_object] is a reference reader of such objects, against which
    the printer is proved. Floating-point text is an argument of the printer's
    user. *)

From S2P Require Import Prelude GoStrings Config.

(** ** Strings *)

Definition quote_b : byte := Byte.x22.
Definition backslash : byte := Byte.x5c.

Definition hex_digit (n : Z) : byte := byte_of_Z (if (n <? 10)%Z then 48 + n else 87 + n).

(** [htmlSafeSet]: printed as it is. *)
Definition html_safe (b : byte) : bool :=
  (32 <=? u8 b)%Z && negb (bool_decide (b ∈ [Byte.x22; Byte.x5c; Byte.x3c; Byte.x3e; Byte.x26])).

(** A byte below 128. *)
Definition json_byte (b : byte) : bytes :=
  if html_safe b then [b]
  else if bool_decide (b = backslash) || bool_decide (b = quote_b) then [backslash; b]
  else if bool_decide (b = Byte.x08) then backslash :: B "b"
  else if bool_decide (b = Byte.x0c) then backslash :: B "f"
  else if bool_decide (b = Byte.x0a) then backslash :: B "n"
  else if bool_decide (b = Byte.x0d) then backslash :: B "r"
  else if bool_decide (b = Byte.x09) then backslash :: B "t"
  else backslash :: B "u00" ++ [hex_digit (u8 b / 16); hex_digit (u8 b mod 16)].

(** The loop of [appendString]; every round takes at least one byte. *)
Fixpoint json_chars (fuel : nat) (s : bytes) : bytes :=
  match fuel, s with
  | O, _ | _, [] => []
  | S fuel, b :: s' =>
      if (u8 b <? 128)%Z then json_byte b ++ json_chars fuel s'
      else
        let '(c, size) := decode_rune s in
        (if (c =? RuneError)%Z && bool_decide (size = 1) then backslash :: B "ufffd"
         else if (c =? 0x2028)%Z || (c =? 0x2029)%Z then backslash :: B "u202" ++ [hex_digit (c mod 16)]
         else take size s) ++ json_chars fuel (drop size s)
  end.

Definition json_string (s : bytes) : bytes := quote_b :: json_chars (length s) s ++ [quote_b].

(** ** Integers: [strconv.AppendInt(_, z, 10)] *)

Fixpoint decimal_loop (fuel : nat) (n : Z) : bytes :=
  match fuel with
  | O => []
  | S fuel =>
      if (n <? 10)%Z then [byte_of_Z (48 + n)]
      else decimal_loop fuel (n / 10) ++ [byte_of_Z (48 + n mod 10)]
  end.
Definition FormatUint (n : Z) : bytes := decimal_loop (S (Z.to_nat (Z.log2 n))) n.
Definition FormatInt (z : Z) : bytes := if (z <? 0)%Z then Byte.x2d :: FormatUint (- z) else FormatUint z.

Definition FormatBool (b : bool) : bytes := if b then B "true" else B "false".

(** ** Objects *)

Inductive jvalue := JStr (s : bytes) | JRaw (token : bytes).
#[export] Instance jvalue_eq_dec : EqDecision jvalue.
Proof. solve_decision. Defined.

Definition json_value (v : jvalue) : bytes := match v with JStr s => json_string s | JRaw t => t end.
Definition json_member (kv : bytes * jvalue) : bytes := json_string kv.1 ++ Byte.x3a :: json_value kv.2.
Definition json_object (kvs : list (bytes * jvalue)) : bytes :=
  Byte.x7b :: Join [Byte.x2c] (map json_member kvs) ++ [Byte.x7d].

(** ** A reader of such objects *)

Definition hex_value (b : byte) : option Z :=
  if (48 <=? u8 b)%Z && (u8 b <=? 57)%Z then Some (u8 b - 48)%Z
  else if (97 <=? u8 b)%Z && (u8 b <=? 102)%Z then Some (u8 b - 87)%Z else None.

Definition prepend (d : bytes) (o : option (bytes * bytes)) : option (bytes * bytes) :=
  match o with Some (s, rest) => Some (d ++ s, rest) | None => None end.

(** The rest of a string, behind its opening quote: its text and what follows. *)
Fixpoint unquote (s : bytes) : option (bytes * bytes) :=
  match s with
  | Byte.x22 :: rest => Some ([], rest)
  | Byte.x5c :: Byte.x22 :: rest => prepend [Byte.x22] (unquote rest)
  | Byte.x5c :: Byte.x5c :: rest => prepend [Byte.x5c] (unquote rest)
  | Byte.x5c :: Byte.x62 :: rest => prepend [Byte.x08] (unquote rest)
  | Byte.x5c :: Byte.x66 :: rest => prepend [Byte.x0c] (unquote rest)
  | Byte.x5c :: Byte.x6e :: rest => prepend [Byte.x0a] (unquote rest)
  | Byte.x5c :: Byte.x72 :: rest => prepend [Byte.x0d] (unquote rest)
  | Byte.x5c :: Byte.x74 :: rest => prepend [Byte.x09] (unquote rest)
  | Byte.x5c :: Byte.x75 :: h1 :: h2 :: h3 :: h4 :: rest =>
      match hex_value h1, hex_value h2, hex_value h3, hex_value h4 with
      | Some a, Some b, Some c, Some d =>
          prepend (encode_rune (a * 4096 + b * 256 + c * 16 + d)%Z) (unquote rest)
      | _, _, _, _ => None
      end
  | Byte.x5c :: _ => None
  | b :: rest => if (u8 b <? 32)%Z then None else prepend [b] (unquote rest)
  | [] => None
  end.

(** A token ends at a comma or a brace. *)
Fixpoint token (s : bytes) : bytes * bytes :=
  match s with
  | [] => ([], [])
  | b :: rest =>
      if bool_decide (b = Byte.x2c) || bool_decide (b = Byte.x7d) then ([], s)
      else let '(t, rest) := token rest in (b :: t, rest)
  end.

Definition parse_value (s : bytes) : option (jvalue * bytes) :=
  match s with
  | Byte.x22 :: s => match unquote s with Some (t, rest) => Some (JStr t, rest) | None => None end
  | _ => let '(t, rest) := token s in Some (JRaw t, rest)
  end.

Fixpoint parse_members (fuel : nat) (s : bytes) : option (list (bytes * jvalue) * bytes) :=
  match fuel, s with
  | S fuel, Byte.x22 :: s =>
      match unquote s with
      | Some (key, Byte.x3a :: s) =>
          match parse_value s with
          | Some (v, Byte.x7d :: rest) => Some ([(key, v)], rest)
          | Some (v, Byte.x2c :: s) =>
              match parse_members fuel s with
              | Some (kvs, rest) => Some ((key, v) :: kvs, rest)
              | None => None
              end
          | _ => None
          end
      | _ => None
      end
  | _, _ => None
  end.

Definition parse_object (s : bytes) : option (list (bytes * jvalue) * bytes) :=
  match s with
  | Byte.x7b :: s => parse_members (length s) s
  | _ => None
  end.

(** ** The reader reads what was printed *)

(** A string with every invalid byte replaced by U+FFFD. *)
Definition to_valid (s : bytes) : bytes := map_runes (fun r => r) s.

Lemma unquote_byte b t : (u8 b < 128)%Z -> unquote (json_byte b ++ t) = prepend [b] (unquote t).
Proof. destruct b; intros Hb; try (vm_compute in Hb; discriminate Hb); reflexivity. Qed.

Lemma unquote_high d t : Forall (fun b => (128 <= u8 b)%Z) d -> unquote (d ++ t) = prepend d (unquote t).
Proof.
  induction 1 as [|b d Hb _ IH]; cbn [app].
  { by destruct (unquote t) as [[]|]. }
  assert (unquote (b :: d ++ t) = prepend [b] (unquote (d ++ t))) as ->.
  { destruct b; try (vm_compute in Hb; by destruct Hb); reflexivity. }
  rewrite IH. by destruct (unquote t) as [[]|].
Qed.

Lemma encode_rune_high r : (128 <= r)%Z -> Forall (fun b => (128 <= u8 b)%Z) (encode_rune r).
Proof.
  intros Hr. unfold encode_rune. rewrite (proj2 (Z.ltb_ge r 0x80)), andb_false_r by lia.
  destruct (Z.ltb_spec r 0x800) as [H1|H1]; rewrite ?andb_true_r, ?andb_false_r, ?(proj2 (Z.leb_le 0 r)) by lia.
  { repeat constructor; rewrite u8_byte_of_Z; Z.div_mod_to_equations; lia. }
  set (r' := if _ || _ then _ else _).
  assert (Hr' : (0x800 <= r' <= 0x10FFFF)%Z).
  { subst r'. unfold RuneError. destruct (Z.ltb_spec r 0), (Z.ltb_spec 0x10FFFF r); cbn [orb]; try lia.
    case_match; lia. }
  case_match; repeat constructor; rewrite u8_byte_of_Z; Z.div_mod_to_equations; lia.
Qed.

Lemma prepend_app d e o : prepend d (prepend e o) = prepend (d ++ e) o.
Proof. destruct o as [[s rest]|]; cbn; by rewrite ?app_assoc. Qed.

Lemma unquote_chars fuel : forall s t, length s <= fuel ->
  unquote (json_chars fuel s ++ t) = prepend (map_runes_loop fuel (fun r => r) s) (unquote t).
Proof.
  induction fuel as [|fuel IH]; intros s t Hf.
  { cbn [json_chars map_runes_loop app]. by destruct (unquote t) as [[]|]. }
  destruct s as [|b s]; [by cbn; destruct (unquote t) as [[]|]|].
  cbn [json_chars map_runes_loop]. cbn [length] in Hf.
  destruct (decode_rune_at b s) as [Ha|Hh|r w Hh Hr He Hw].
  - rewrite (proj2 (Z.ltb_lt _ _) Ha), <- app_assoc, unquote_byte, IH by (done || lia). pose proof (u8_range b).
    rewrite (proj2 (Z.ltb_ge (u8 b) 0)) by lia. unfold encode_rune.
    rewrite (proj2 (Z.leb_le 0 (u8 b))), (proj2 (Z.ltb_lt (u8 b) 0x80)) by lia. cbn [andb].
    rewrite byte_of_Z_u8. cbn [drop]. by rewrite prepend_app, drop_0.
  - rewrite (proj2 (Z.ltb_ge _ _) Hh). cbn [drop]. rewrite drop_0.
    change ((RuneError =? RuneError)%Z && bool_decide (1 = 1)) with true. cbn match.
    rewrite <- app_assoc. cbn. rewrite IH by lia. by rewrite prepend_app.
  - rewrite (proj2 (Z.ltb_ge _ _) Hh), (bool_decide_false (w = 1)), andb_false_r by lia.
    rewrite (proj2 (Z.ltb_ge r 0)) by lia. rewrite <- app_assoc.
    assert (Hd : length (drop w (b :: s)) <= fuel) by (rewrite length_drop; cbn [length]; lia).
    destruct (Z.eqb_spec r 0x2028) as [-> |H1]; [|destruct (Z.eqb_spec r 0x2029) as [-> |H2]]; cbn [orb].
    + etrans; [|rewrite <- prepend_app, <- (IH _ t Hd); reflexivity]. reflexivity.
    + etrans; [|rewrite <- prepend_app, <- (IH _ t Hd); reflexivity]. reflexivity.
    + rewrite <- He, unquote_high by (by apply encode_rune_high). by rewrite IH, prepend_app.
Qed.

Lemma unquote_string s t : unquote (json_chars (length s) s ++ quote_b :: t) = Some (to_valid s, t).
Proof. rewrite unquote_chars by lia. cbn. by rewrite app_nil_r. Qed.

Definition sep_byte (b : byte) : bool := bool_decide (b = Byte.x2c) || bool_decide (b = Byte.x7d).

(** A token the reader takes for one: a number or a boolean. *)
Definition raw_ok (t : bytes) : Prop :=
  t <> [] /\ Forall (fun b => sep_byte b = false /\ b <> Byte.x22 /\ (32 <= u8 b)%Z) t.

Definition value_ok (v : jvalue) : Prop := match v with JStr _ => True | JRaw t => raw_ok t end.

(** What is read back: text with its invalid bytes replaced. *)
Definition valid_value (v : jvalue) : jvalue := match v with JStr s => JStr (to_valid s) | JRaw t => JRaw t end.
Definition valid_member (kv : bytes * jvalue) : bytes * jvalue := (to_valid kv.1, valid_value kv.2).

Lemma token_stop t c rest :
  Forall (fun b => sep_byte b = false) t -> sep_byte c = true -> token (t ++ c :: rest) = (t, c :: rest).
Proof.
  intros Ht Hc. unfold sep_byte in *. induction Ht as [|b t Hb _ IH]; cbn [app token].
  - by rewrite Hc.
  - by rewrite Hb, IH.
Qed.

Lemma parse_value_printed v c rest :
  value_ok v -> sep_byte c = true -> parse_value (json_value v ++ c :: rest) = Some (valid_value v, c :: rest).
Proof.
  intros Hv Hc. destruct v as [s|t]; cbn [json_value valid_value].
  - unfold json_string. cbn [app parse_value]. rewrite <- app_assoc. cbn [app]. by rewrite unquote_string.
  - destruct Hv as [Hne Hf]. destruct t as [|b t]; [done|].
    assert (Hs : Forall (fun b => sep_byte b = false) (b :: t)) by (eapply Forall_impl; [|exact Hf]; by intros ? [? _]).
    apply Forall_cons_iff in Hf as [(_ & Hq & _) _]. pose proof (token_stop (b :: t) c rest Hs Hc) as E.
    unfold parse_value. cbn [app] in *. rewrite E. destruct b; done.
Qed.

Lemma parse_members_step fuel key v c s :
  value_ok v -> sep_byte c = true ->
  parse_members (S fuel) (json_member (key, v) ++ c :: s) =
    if bool_decide (c = Byte.x7d) then Some ([valid_member (key, v)], s)
    else match parse_members fuel s with
         | Some (kvs, rest) => Some (valid_member (key, v) :: kvs, rest)
         | None => None
         end.
Proof.
  intros Hv Hc. unfold json_member, json_string. cbn [fst snd].
  unfold quote_b. cbn [app]. rewrite <- !app_assoc. cbn [app]. cbn [parse_members].
  fold quote_b.
  rewrite unquote_string, parse_value_printed by done.
  apply orb_true_iff in Hc as [Hc|Hc]; apply bool_decide_eq_true in Hc; subst c; done.
Qed.

Lemma parse_members_printed kvs : forall fuel rest,
  kvs <> [] -> Forall (fun kv => value_ok kv.2) kvs -> length kvs <= fuel ->
  parse_members fuel (Join [Byte.x2c] (map json_member kvs) ++ Byte.x7d :: rest) = Some (map valid_member kvs, rest).
Proof.
  induction kvs as [|[key v] kvs IH]; intros fuel rest Hne Hf Hl; [done|].
  apply Forall_cons_iff in Hf as [Hv Hf]. destruct fuel as [|fuel]; [simpl in Hl; lia|].
  destruct kvs as [|kv kvs]; [cbn [map Join]; by rewrite parse_members_step|].
  change (Join [Byte.x2c] (map json_member ((key, v) :: kv :: kvs)))
    with (json_member (key, v) ++ Byte.x2c :: Join [Byte.x2c] (map json_member (kv :: kvs))).
  rewrite <- app_assoc. cbn [app]. rewrite parse_members_step, IH by (done || (simpl in *; lia)). done.
Qed.

Lemma json_member_length kv : 1 <= length (json_member kv).
Proof. unfold json_member, json_string. simpl. lia. Qed.

Lemma Join_length kvs : length kvs <= length (Join [Byte.x2c] (map json_member kvs)).
Proof.
  induction kvs as [|kv kvs IH]; [simpl; lia|]. pose proof (json_member_length kv).
  destruct kvs as [|kv' kvs]; [simpl in *; lia|].
  change (Join [Byte.x2c] (map json_member (kv :: kv' :: kvs)))
    with (json_member kv ++ Byte.x2c :: Join [Byte.x2c] (map json_member (kv' :: kvs))).
  rewrite length_app. cbn [length] in *. lia.
Qed.

(** The reader gives back every member of a printed object, and what follows it. *)
Lemma parse_object_printed kvs rest :
  kvs <> [] -> Forall (fun kv => value_ok kv.2) kvs ->
  parse_object (json_object kvs ++ rest) = Some (map valid_member kvs, rest).
Proof.
  intros Hne Hf. unfold json_object. cbn [app parse_object]. rewrite <- app_assoc. cbn [app].
  apply parse_members_printed; [done|done|]. rewrite length_app. pose proof (Join_length kvs). lia.
Qed.

(** ** Printed text has no control characters *)

Definition printable (s : bytes) : Prop := Forall (fun b => (32 <= u8 b)%Z) s.

Lemma json_byte_printable b : (u8 b < 128)%Z -> printable (json_byte b).
Proof.
  destruct b; intros Hb; try (vm_compute in Hb; discriminate Hb); vm_compute; repeat constructor; discriminate.
Qed.

Lemma json_chars_printable fuel : forall s, printable (json_chars fuel s).
Proof.
  induction fuel as [|fuel IH]; intros s; [constructor|]. destruct s as [|b s]; [constructor|]. cbn [json_chars].
  destruct (decode_rune_at b s) as [Ha|Hh|r w Hh Hr He Hw].
  - rewrite (proj2 (Z.ltb_lt _ _) Ha). apply Forall_app. split; [by apply json_byte_printable|apply IH].
  - rewrite (proj2 (Z.ltb_ge _ _) Hh). apply Forall_app. split; [|apply IH].
    vm_compute; repeat constructor; discriminate.
  - rewrite (proj2 (Z.ltb_ge _ _) Hh), (bool_decide_false (w = 1)), andb_false_r by lia.
    apply Forall_app. split; [|apply IH].
    destruct (Z.eqb_spec r 0x2028) as [-> |H1]; [|destruct (Z.eqb_spec r 0x2029) as [-> |H2]]; cbn [orb];
      [vm_compute; repeat constructor; discriminate..|].
    rewrite <- He. eapply Forall_impl; [|by apply encode_rune_high]. simpl. lia.
Qed.

Lemma json_object_printable kvs : Forall (fun kv => value_ok kv.2) kvs -> printable (json_object kvs).
Proof.
  assert (Hs : forall s, printable (json_string s)).
  { intros s. constructor; [by vm_compute|]. apply Forall_app.
    split; [apply json_chars_printable|constructor; [by vm_compute|constructor]]. }
  intros Hf. constructor; [by vm_compute|]. apply Forall_app. split; [|constructor; [by vm_compute|constructor]].
  induction Hf as [|[key v] kvs Hv _ IH]; [constructor|].
  assert (Hm : printable (json_member (key, v))).
  { apply Forall_app. split; [apply Hs|]. constructor; [by vm_compute|].
    destruct v as [s|t]; [apply Hs|]. destruct Hv as [_ Hv]. eapply Forall_impl; [|exact Hv]. by intros ? (_ & _ & ?). }
  cbn [map Join]. destruct (map json_member kvs) as [|m ms]; [done|].
  apply Forall_app. split; [done|]. apply Forall_app. split; [constructor; [by vm_compute|constructor]|done].
Qed.

(** ** Numbers *)

Lemma decimal_loop_digits fuel : forall n acc, (0 <= n)%Z -> (Z.log2 n < Z.of_nat fuel)%Z ->
  exists k, (0 < k)%Z /\ digits acc (decimal_loop fuel n) = Some (acc * k + n)%Z /\
    decimal_loop fuel n <> [].
Proof.
  induction fuel as [|fuel IH]; intros n acc Hn Hf; [pose proof (Z.log2_nonneg n); lia|]. cbn [decimal_loop].
  assert (Hd : forall d, (0 <= d < 10)%Z -> digit (byte_of_Z (48 + d)) = Some d).
  { intros d Hd. unfold digit. rewrite u8_byte_of_Z, Z.mod_small by lia.
    rewrite (proj2 (Z.leb_le _ _)), (proj2 (Z.leb_le _ _)) by lia. cbn [andb]. f_equal. lia. }
  destruct (Z.ltb_spec n 10) as [H1|H1].
  - exists 10%Z. split; [lia|]. split; [|done]. cbn [digits]. rewrite Hd by lia. f_equal. lia.
  - destruct (IH (n / 10)%Z acc) as (k & Hk & E & Hne).
    { Z.div_mod_to_equations; lia. }
    { assert (1 <= Z.log2 n)%Z by (change 1%Z with (Z.log2 2); apply Z.log2_le_mono; lia).
      assert (Z.log2 (n / 10) <= Z.log2 (n / 2))%Z by (apply Z.log2_le_mono; Z.div_mod_to_equations; lia).
      rewrite <- Z.shiftr_div_pow2 with (n := 1%Z) in H0 by lia. rewrite Z.log2_shiftr in H0 by lia. lia. }
    exists (10 * k)%Z. split; [lia|]. split; [|by destruct (decimal_loop fuel (n / 10))].
    assert (Happ : forall s acc' d, digits acc' (s ++ [d]) =
      match digits acc' s with Some a => match digit d with Some d => Some (10 * a + d)%Z | None => None end | None => None end).
    { clear. induction s as [|b s IH]; intros acc' d; cbn [app digits]; [by destruct (digit d)|].
      destruct (digit b); [apply IH|done]. }
    rewrite Happ, E, Hd by (Z.div_mod_to_equations; lia). f_equal. Z.div_mod_to_equations; lia.
Qed.

Lemma FormatUint_digits n : (0 <= n)%Z -> unsigned_digits (FormatUint n) = Some n.
Proof.
  intros Hn. unfold FormatUint, unsigned_digits.
  destruct (decimal_loop_digits (S (Z.to_nat (Z.log2 n))) n 0) as (k & _ & E & Hne);
    [done|pose proof (Z.log2_nonneg n); lia|]. destruct (decimal_loop _ n); [done|]. by rewrite E.
Qed.

Lemma digit_raw b : digit b <> None -> sep_byte b = false /\ b <> Byte.x22 /\ (32 <= u8 b)%Z.
Proof. destruct b; intros Hb; try (by vm_compute in Hb); by vm_compute. Qed.

Lemma FormatUint_all_digits n : (0 <= n)%Z ->
  FormatUint n <> [] /\ Forall (fun b => digit b <> None) (FormatUint n).
Proof.
  intros Hn. pose proof (FormatUint_digits n Hn) as E. destruct (FormatUint n) as [|b s]; [done|]. split; [done|].
  cbn [unsigned_digits] in E. revert E. generalize 0%Z as acc. generalize (b :: s) as l. clear.
  intros l. induction l as [|b l IH]; intros acc E; [constructor|]. cbn [digits] in E.
  destruct (digit b) eqn:Eb; [|done]. constructor; [by rewrite Eb|by eapply IH].
Qed.

(** [FormatInt] is inverted by [strconv.Atoi]; its text is one token. *)
Lemma Atoi_FormatInt z : in_int64 z = true -> Atoi (FormatInt z) = Some z.
Proof.
  intros Hz. unfold FormatInt, Atoi. destruct (Z.ltb_spec z 0) as [Hn|Hn].
  - rewrite bool_decide_true, FormatUint_digits by (done || lia). cbn. by rewrite Z.opp_involutive, Hz.
  - pose proof (FormatUint_digits z Hn) as E. destruct (FormatUint_all_digits z Hn) as [Hne Hf].
    destruct (FormatUint z) as [|b s]; [done|]. apply Forall_cons_iff in Hf as [Hb _].
    rewrite (bool_decide_false (b = Byte.x2d)), (bool_decide_false (b = Byte.x2b)) by (intros ->; by vm_compute in Hb).
    by rewrite E, Hz.
Qed.

Lemma FormatInt_raw z : raw_ok (FormatInt z).
Proof.
  unfold FormatInt. destruct (Z.ltb_spec z 0) as [Hn|Hn].
  - destruct (FormatUint_all_digits (- z)) as [Hne Hf]; [lia|]. split; [done|]. constructor; [by vm_compute|].
    eapply Forall_impl; [|exact Hf]. apply digit_raw.
  - destruct (FormatUint_all_digits z) as [Hne Hf]; [lia|]. split; [done|].
    eapply Forall_impl; [|exact Hf]. apply digit_raw.
Qed.

Lemma FormatBool_raw b : raw_ok (FormatBool b).
Proof. destruct b; (split; [done|]); repeat constructor; by vm_compute. Qed.
