(* ===== verification/ConfigSettings.v ===== *)
(** * What settings come to (src/config.go)

    The configuration of file Config read back: every setting, written into the
    environment the way an operator writes it, gives the value meant, within the bounds
    stated here, and outside of them gives what is stated here. *)

From S2P Require Import Prelude GoStrings GoFloat Config Json.

(** ** Lists *)

Lemma SplitByte_Join c ps : ps <> [] -> Forall (fun p => c ∉ p) ps -> SplitByte c (Join [c] ps) = ps.
Proof.
  intros Hne Hf. destruct ps as [|p ps]; [done|]. clear Hne. revert p Hf.
  induction ps as [|q ps IH]; intros p Hf; apply Forall_cons_iff in Hf as [Hp Hf].
  - by apply SplitByte_no.
  - change (Join [c] (p :: q :: ps)) with (p ++ c :: Join [c] (q :: ps)). by rewrite SplitByte_app, IH.
Qed.

Lemma SplitByte_free c s : Forall (fun p => c ∉ p) (SplitByte c s).
Proof.
  induction s as [|b s IH]; simpl; [constructor; [apply not_elem_of_nil|done]|]. case_bool_decide as E.
  - constructor; [apply not_elem_of_nil|done].
  - destruct (SplitByte c s) as [|p ps]; [constructor; [|done]; apply not_elem_of_cons; split; [congruence|apply not_elem_of_nil]|].
    apply Forall_cons_iff in IH as [Hp IH]. constructor; [|done]. apply not_elem_of_cons. split; [congruence|done].
Qed.

Lemma trim_loop_elem fuel sp b : forall s, b ∈ trim_loop fuel sp s -> b ∈ s.
Proof.
  induction fuel as [|fuel IH]; intros s; simpl; [done|]. destruct (space_width sp s) as [|w]; [done|].
  intros Hb%IH. rewrite <- (take_drop (S w) s). apply elem_of_app. by right.
Qed.

Lemma TrimSpace_elem b s : b ∈ TrimSpace s -> b ∈ s.
Proof.
  unfold TrimSpace, trim_right, trim_left.
  rewrite elem_of_reverse. intros Hb%trim_loop_elem. rewrite elem_of_reverse in Hb. apply (trim_loop_elem _ _ _ _ Hb).
Qed.

(** An item that survives: not empty, no comma, no space around it. *)
Definition list_item (p : bytes) : Prop := p <> [] /\ TrimSpace p = p /\ Byte.x2c ∉ p.

Lemma list_items_kept ps :
  Forall list_item ps -> List.filter (fun p => bool_decide (p <> [])) (map TrimSpace ps) = ps.
Proof.
  induction 1 as [|p ps (Hne & Ht & _) _ IH]; [done|]. cbn [map List.filter]. by rewrite Ht, bool_decide_true, IH.
Qed.

Lemma getEnvList_items (Getenv : bytes -> bytes) key : Forall (fun p => p <> [] /\ Byte.x2c ∉ p) (getEnvList Getenv key []).
Proof.
  unfold getEnvList. destruct (Getenv key) as [|b s]; [constructor|]. set (value := b :: s).
  assert (Hf : Forall (fun p => p <> [] /\ Byte.x2c ∉ p)
    (List.filter (fun p => bool_decide (p <> [])) (map TrimSpace (SplitByte Byte.x2c value)))).
  { apply List.Forall_forall. intros p [Hp Hne]%List.filter_In. apply bool_decide_eq_true in Hne. split; [done|].
    apply List.in_map_iff in Hp as (q & <- & Hq). intros Hc%TrimSpace_elem.
    pose proof (SplitByte_free Byte.x2c value) as Hfree. rewrite List.Forall_forall in Hfree. by apply (Hfree q). }
  by destruct (List.filter _ _).
Qed.

Section settings.
Context (Getenv : bytes -> bytes) (lower_table : Z -> Z) (ParseFloat : bytes -> option float64).

Lemma getEnvList_Join key d ps :
  ps <> [] -> Forall list_item ps -> Getenv key = Join [Byte.x2c] ps -> getEnvList Getenv key d = ps.
Proof.
  intros Hne Hf E. unfold getEnvList. rewrite E.
  assert (Hs : SplitByte Byte.x2c (Join [Byte.x2c] ps) = ps).
  { apply SplitByte_Join; [done|]. eapply Forall_impl; [|exact Hf]. by intros p (_ & _ & ?). }
  destruct (Join [Byte.x2c] ps) as [|b s] eqn:Ej.
  - destruct ps as [|p ps]; [done|]. apply Forall_cons_iff in Hf as [[Hp _] _]. by destruct p, ps.
  - rewrite Hs, list_items_kept by done. by destruct ps.
Qed.

(** ** Integers and durations *)

Lemma getEnvInt_FormatInt key d n : in_int64 n = true -> Getenv key = FormatInt n -> getEnvInt Getenv key d = n.
Proof.
  intros Hn E. unfold getEnvInt. rewrite E. destruct (FormatInt_raw n) as [Hne _].
  destruct (FormatInt n) as [|b s] eqn:Ef; [done|]. by rewrite <- Ef, Atoi_FormatInt.
Qed.

(** A duration is what was meant exactly as long as it fits 64 bits. *)
Lemma duration_exact n unit :
  duration n unit = (n * unit)%Z <-> in_int64 (n * unit) = true.
Proof.
  unfold duration, wrapS, in_int64. change (64 - 1)%Z with 63%Z. rewrite andb_true_iff, Z.leb_le, Z.ltb_lt.
  set (x := (n * unit)%Z). split; intros Hx.
  - assert (0 <= (x + 2 ^ 63) mod 2 ^ 64 < 2 ^ 64)%Z by (apply Z.mod_pos_bound; lia). lia.
  - rewrite Z.mod_small; lia.
Qed.

(** *** Text, flags and the sample rate *)

Lemma getEnv_set key d v : v <> [] \/ d = [] -> Getenv key = v -> getEnv Getenv key d = v.
Proof. intros Hv E. unfold getEnv. rewrite E. destruct v; [|done]. by destruct Hv. Qed.

Lemma env_true_FormatBool key b : Getenv key = FormatBool b -> env_true Getenv key = b.
Proof. intros E. unfold env_true, getEnv. rewrite E. by destruct b. Qed.

Lemma getEnvFloat_set key d t x : t <> [] -> ParseFloat t = Some x -> Getenv key = t -> getEnvFloat Getenv ParseFloat key d = x.
Proof. intros Ht Hp E. unfold getEnvFloat. rewrite E. destruct t; [done|]. by rewrite Hp. Qed.

Lemma duration_set key d n unit :
  (0 < unit)%Z -> in_int64 n = true -> (n mod unit = 0)%Z -> Getenv key = FormatInt (n / unit) ->
  duration (getEnvInt Getenv key d) unit = n.
Proof.
  clear lower_table ParseFloat. intros Hu Hn Hm E. assert (En : (n / unit * unit = n)%Z) by (Z.div_mod_to_equations; nia).
  rewrite (getEnvInt_FormatInt _ _ (n / unit)); [|revert Hn|done].
  - rewrite <- En at 2. apply duration_exact. by rewrite En.
  - unfold in_int64. rewrite !andb_true_iff, !Z.leb_le, !Z.ltb_lt. intros [H1 H2].
    split; [apply Z.div_le_lower_bound; nia|apply Z.div_lt_upper_bound; nia].
Qed.

Lemma getEnvList_written key ps :
  Forall list_item ps -> Getenv key = Join [Byte.x2c] ps -> getEnvList Getenv key [] = ps.
Proof.
  intros Hf E. destruct ps as [|p ps]; [|by apply getEnvList_Join]. unfold getEnvList. by rewrite E.
Qed.
End settings.

(** ** All settings *)

(** An environment, and [os.Getenv]: an unset variable is empty. *)
Definition Getenv_of (vars : list (string * bytes)) (key : bytes) : bytes :=
  match List.find (fun kv => bool_decide (B kv.1 = key)) vars with Some (_, v) => v | None => [] end.

Section written.
(** The text of a sample rate. *)
Context (fmt_float : float64 -> bytes).

(** The variables of README and docs/POSTGRES.md, as an operator who means [c] sets them. *)
Definition written_env (c : Config) : list (string * bytes) :=
  [("PROTOCOL", Protocol c);
   ("LISTEN_ADDR", ListenAddr c);
   ("PRIMARY_HOST", PrimaryHost c);
   ("PRIMARY_PORT", PrimaryPort c);
   ("PRIMARY_USER", PrimaryUser c);
   ("PRIMARY_PASSWORD", PrimaryPassword c);
   ("SHADOW_HOST", ShadowHost c);
   ("SHADOW_PORT", ShadowPort c);
   ("SHADOW_USER", ShadowUser c);
   ("SHADOW_PASSWORD", ShadowPassword c);
   ("METRICS_PORT", MetricsPort c);
   ("TLS_ENABLED", FormatBool (TLSEnabled c));
   ("TLS_CERT_FILE", TLSCertFile c);
   ("TLS_KEY_FILE", TLSKeyFile c);
   ("PRIMARY_TLS_ENABLED", FormatBool (PrimaryTLSEnabled c));
   ("PRIMARY_TLS_CA_FILE", PrimaryTLSCAFile c);
   ("PRIMARY_TLS_INSECURE_SKIP_VERIFY", FormatBool (PrimaryTLSInsecureSkipVerify c));
   ("SHADOW_QUEUE_SIZE", FormatInt (ShadowQueueSize c));
   ("SHADOW_READ_TIMEOUT_SECONDS", FormatInt (ShadowReadTimeout c / 1000000000));
   ("SHADOW_DRAIN_TIMEOUT_MS", FormatInt (ShadowDrainTimeout c / 1000000));
   ("SHADOW_RESPONSE_DRAIN_TIMEOUT_MS", FormatInt (ShadowResponseDrainTimeout c / 1000000));
   ("SHADOW_TLS_ENABLED", FormatBool (ShadowTLSEnabled c));
   ("SHADOW_TLS_INSECURE", FormatBool (ShadowTLSInsecure c));
   ("QUERY_LOG_GCS_BUCKET", QueryLogGCSBucket c);
   ("QUERY_LOG_GCS_PREFIX", QueryLogGCSPrefix c);
   ("QUERY_LOG_FLUSH_INTERVAL_SECONDS", FormatInt (QueryLogFlushInterval c / 1000000000));
   ("QUERY_LOG_BATCH_SIZE", FormatInt (QueryLogBatchSize c));
   ("QUERY_LOG_BUFFER_SIZE", FormatInt (QueryLogBufferSize c));
   ("SHADOW_FILTER_MODE", ShadowFilterMode c);
   ("SHADOW_FILTER_SQL_OPERATIONS", Join [Byte.x2c] (ShadowFilterSQLOperations c));
   ("SHADOW_FILTER_PATTERNS", Join [Byte.x2c] (ShadowFilterPatterns c));
   ("SHADOW_SAMPLE_RATE", fmt_float (ShadowSampleRate c));
   ("DEBUG_LOG", FormatBool (DebugLog c))].

(** A duration that is a whole number of its unit and fits 64 bits of nanoseconds. *)
Definition whole (unit d : Z) : Prop := in_int64 d = true /\ (d mod unit = 0)%Z.

(** The configurations that can be written: an empty text cannot be told from an unset
    variable, so a setting with a default has some text. *)
Record writable (lower_table : Z -> Z) (ParseFloat : bytes -> option float64) (c : Config) : Prop := {
  wr_protocol : Protocol c <> [] /\ ToLower lower_table (Protocol c) = Protocol c;
  wr_texts : Forall (fun v => v <> [])
    [ListenAddr c; PrimaryPort c; PrimaryUser c; ShadowPort c; ShadowUser c; MetricsPort c; TLSCertFile c; TLSKeyFile c;
     QueryLogGCSPrefix c];
  wr_sizes : Forall (fun n => in_int64 n = true) [ShadowQueueSize c; QueryLogBatchSize c; QueryLogBufferSize c];
  wr_seconds : Forall (whole 1000000000) [ShadowReadTimeout c; QueryLogFlushInterval c];
  wr_millis : Forall (whole 1000000) [ShadowDrainTimeout c; ShadowResponseDrainTimeout c];
  wr_lists : Forall (Forall list_item) [ShadowFilterSQLOperations c; ShadowFilterPatterns c];
  wr_rate : fmt_float (ShadowSampleRate c) <> [] /\ ParseFloat (fmt_float (ShadowSampleRate c)) = Some (ShadowSampleRate c);
}.

Lemma loadConfig_written lower_table ParseFloat c :
  writable lower_table ParseFloat c -> loadConfig (Getenv_of (written_env c)) lower_table ParseFloat = c.
Proof.
  intros [[Hp Hl] Ht Hs Hsec Hms Hls [Hr Hr']]. unfold whole in *. rewrite !Forall_cons_iff in *. destruct_and?.
  destruct c. cbn -[ToLower in_int64 Z.modulo Z.div written_env] in *. unfold loadConfig. set (G := Getenv_of _).
  rewrite (getEnv_set G (B "PROTOCOL") _ Protocol) by (by left || reflexivity). rewrite Hl. f_equal.
  all: first
    [ by apply getEnv_set; [first [by right|by left]|reflexivity]
    | apply env_true_FormatBool; reflexivity
    | by apply getEnvInt_FormatInt; [|reflexivity]
    | by apply duration_set; [| | |reflexivity]
    | by apply getEnvList_written; [|reflexivity]
    | by apply (getEnvFloat_set _ _ _ _ (fmt_float ShadowSampleRate)) ].
Qed.
End written.

(** The settings that are durations, with their units. *)
Definition durations : list (string * Z * (Config -> Z)) :=
  [("SHADOW_READ_TIMEOUT_SECONDS", 1000000000, ShadowReadTimeout);
   ("SHADOW_DRAIN_TIMEOUT_MS", 1000000, ShadowDrainTimeout);
   ("SHADOW_RESPONSE_DRAIN_TIMEOUT_MS", 1000000, ShadowResponseDrainTimeout);
   ("QUERY_LOG_FLUSH_INTERVAL_SECONDS", 1000000000, QueryLogFlushInterval)]%Z.

(** C35: Settings come out as they were written. For every configuration whose settings
    can be written at all, the environment that spells out all 33 of them - each under
    its documented name, flags as true and false, numbers in decimal, timeouts in the
    unit of their name, lists joined by commas - is loaded as exactly that configuration.
    In every environment a timeout of [n] units is [n] units exactly as long as that fits
    64 bits of nanoseconds, and another duration, by wrap-around, otherwise; and no
    operation and no pattern is empty or contains a comma, so that a regular expression
    such as a{1,3} cannot be configured. *)
Theorem settings_roundtrip fmt_float lower_table ParseFloat :
  (forall c, writable fmt_float lower_table ParseFloat c ->
   loadConfig (Getenv_of (written_env fmt_float c)) lower_table ParseFloat = c) /\
  (forall Getenv n, in_int64 n = true ->
   Forall (fun '(key, unit, field) => Getenv (B key) = FormatInt n ->
     (field (loadConfig Getenv lower_table ParseFloat) = n * unit <-> - 2 ^ 63 <= n * unit < 2 ^ 63)%Z) durations) /\
  (forall Getenv,
   let config := loadConfig Getenv lower_table ParseFloat in
   Forall (fun p => p <> [] /\ Byte.x2c ∉ p) (ShadowFilterSQLOperations config ++ ShadowFilterPatterns config)).
Proof.
  split; [intros c; apply loadConfig_written|]. split.
  - intros Getenv n Hn.
    assert (Hd : forall key d unit, Getenv key = FormatInt n ->
      duration (getEnvInt Getenv key d) unit = (n * unit)%Z <-> (- 2 ^ 63 <= n * unit < 2 ^ 63)%Z).
    { intros key d unit E. rewrite (getEnvInt_FormatInt _ _ _ _ Hn E), duration_exact. unfold in_int64.
      by rewrite andb_true_iff, Z.leb_le, Z.ltb_lt. }
    unfold durations. repeat (apply Forall_cons_iff; split); [..|constructor]; apply Hd.
  - intros Getenv. apply Forall_app. split; apply getEnvList_items.
Qed.

(** A configuration in which nearly every setting differs from its default. *)
Definition example_settings : Config :=
  MkConfig (B "postgres") (B ":15432") (B "primary") (B "15433") (B "app") (B "secret") (B "shadow") (B "15434") (B "mirror")
    (B "hidden") (B ":19090") true (B "/tls.crt") (B "/tls.key") true (B "/ca.pem") true 500 5000000000 250000000 20000000
    true true (B "logs") (B "q") 60000000000 10 20 (B "include") [B "SELECT"; B "SHOW TABLES"] [B "analytics\."; B "^risk"]
    f_zero true.
Definition zero_fmt (x : float64) : bytes := B "0".
Definition zero_parse (t : bytes) : option float64 := if bool_decide (t = B "0") then Some f_zero else None.

Lemma settings_roundtrip_witness :
  loadConfig (Getenv_of (written_env zero_fmt example_settings)) (fun r => r) zero_parse = example_settings /\
  ShadowReadTimeout (loadConfig (Getenv_of [("SHADOW_READ_TIMEOUT_SECONDS", B "9223372037")]) (fun r => r) zero_parse)
  <> (9223372037 * 1000000000)%Z.
Proof.
  destruct (settings_roundtrip zero_fmt (fun r => r) zero_parse) as (H1 & H2 & _). split.
  - apply H1. split.
    + by split; [|vm_compute].
    + by repeat constructor.
    + by repeat constructor.
    + by repeat constructor.
    + by repeat constructor.
    + repeat constructor; try done; vm_decide.
    + by split; [|vm_compute].
  - specialize (H2 (Getenv_of [("SHADOW_READ_TIMEOUT_SECONDS", B "9223372037")]) 9223372037%Z eq_refl).
    apply Forall_cons_iff in H2 as [H2 _]. rewrite (H2 eq_refl). lia.
Defined.

(** One regular expression becomes two. *)
Example comma_splits_pattern :
  ShadowFilterPatterns (loadConfig (Getenv_of [("SHADOW_FILTER_PATTERNS", B "^a{1,3}$")])
    (fun r => r) (fun _ => None)) = [B "^a{1"; B "3}$"].
Proof. by vm_compute. Qed.
