(* ===== verification/QueryLogFlush.v ===== *)
(** * What the query logger writes (src/query_logger.go)

    [flush] in full: the object's path, the JSON lines, the write to object
    storage with its fallback to the process log, the messages and the metrics; then opening
    and closing a logger. File QueryLogger models when batches are flushed; here a
    flush is what it does to the world, and a flush of that file is refined.
    Object storage is outside the repository: the outcome of writing an object and
    of closing its writer is an argument, as are the calendar, the fresh
    identifier and the text of a floating-point number. *)

From S2P Require Import Prelude GoStrings GoFloat Config Metrics QueryLogger Json.

(** ** JSON lines *)

Definition f_finite (x : float64) : bool :=
  match x with S754_zero _ | S754_finite _ _ _ => true | _ => false end.

Section lines.
(** The text [encoding/json] prints for a finite [float64], and
    [strconv.ParseFloat]. *)
Context (fmt_float : float64 -> bytes) (ParseFloat : bytes -> option float64).

(** A string field with [omitempty]. *)
Definition omitempty (key : string) (s : bytes) : list (bytes * jvalue) :=
  match s with [] => [] | _ => [(B key, JStr s)] end.

(** The members of an entry, in the order of the struct. *)
Definition entry_members (e : QueryLogEntry) : list (bytes * jvalue) :=
  [(B "ts", JStr (le_Timestamp e)); (B "query_id", JStr (le_QueryID e)); (B "target", JStr (le_Target e));
   (B "command", JStr (le_Command e))]
  ++ omitempty "query_text" (le_QueryText e) ++ omitempty "query_hash" (le_QueryHash e)
  ++ [(B "duration_ms", JRaw (fmt_float (le_DurationMs e))); (B "bytes_sent", JRaw (FormatInt (le_BytesSent e)));
      (B "bytes_recv", JRaw (FormatInt (le_BytesRecv e))); (B "success", JRaw (FormatBool (le_Success e)))]
  ++ omitempty "error" (le_Error e) ++ omitempty "client_addr" (le_ClientAddr e)
  ++ (if le_Filtered e then [(B "filtered", JRaw (FormatBool true))] else [])
  ++ omitempty "filter_reason" (le_FilterReason e).

(** [json.Marshal(entry)]; [None] is the error for a number that is not finite. *)
Definition Marshal (e : QueryLogEntry) : option bytes :=
  if f_finite (le_DurationMs e) then Some (json_object (entry_members e)) else None.

(** The buffer after [encoder.Encode] on every entry. *)
Fixpoint encode_batch (batch : list QueryLogEntry) : bytes :=
  match batch with
  | [] => []
  | e :: batch =>
      match Marshal e with
      | Some line => line ++ Byte.x0a :: encode_batch batch
      | None => encode_batch batch
      end
  end.

(** *** Reading an entry back *)

Definition member (key : string) (kvs : list (bytes * jvalue)) : option jvalue :=
  snd <$> List.find (fun kv => bool_decide (kv.1 = B key)) kvs.
Definition read_text (key : string) (kvs : list (bytes * jvalue)) : bytes :=
  match member key kvs with Some (JStr s) => s | _ => [] end.
Definition read_int (key : string) (kvs : list (bytes * jvalue)) : option Z :=
  match member key kvs with Some (JRaw t) => Atoi t | _ => None end.
Definition read_bool (key : string) (kvs : list (bytes * jvalue)) : bool :=
  match member key kvs with Some (JRaw t) => bool_decide (t = B "true") | _ => false end.
Definition read_float (key : string) (kvs : list (bytes * jvalue)) : option float64 :=
  match member key kvs with Some (JRaw t) => ParseFloat t | _ => None end.

Definition read_entry (line : bytes) : option QueryLogEntry :=
  match parse_object line with
  | Some (kvs, []) =>
      match read_float "duration_ms" kvs, read_int "bytes_sent" kvs, read_int "bytes_recv" kvs with
      | Some duration, Some sent, Some recv =>
          Some (MkEntry (read_text "ts" kvs) (read_text "query_id" kvs) (read_text "target" kvs)
                  (read_text "command" kvs) (read_text "query_text" kvs) (read_text "query_hash" kvs)
                  duration sent recv (read_bool "success" kvs) (read_text "error" kvs)
                  (read_text "client_addr" kvs) (read_bool "filtered" kvs) (read_text "filter_reason" kvs))
      | _, _, _ => None
      end
  | _ => None
  end.

(** An entry with the invalid bytes of its text replaced by U+FFFD. *)
Definition valid_entry (e : QueryLogEntry) : QueryLogEntry :=
  MkEntry (to_valid (le_Timestamp e)) (to_valid (le_QueryID e)) (to_valid (le_Target e)) (to_valid (le_Command e))
    (to_valid (le_QueryText e)) (to_valid (le_QueryHash e)) (le_DurationMs e) (le_BytesSent e) (le_BytesRecv e)
    (le_Success e) (to_valid (le_Error e)) (to_valid (le_ClientAddr e)) (le_Filtered e) (to_valid (le_FilterReason e)).

(** An entry the printer's arguments are documented for: a finite duration, whose
    text is one token that [ParseFloat] reads back, and [int64] counts. *)
Definition printable_entry (e : QueryLogEntry) : Prop :=
  f_finite (le_DurationMs e) = true /\ raw_ok (fmt_float (le_DurationMs e)) /\
  ParseFloat (fmt_float (le_DurationMs e)) = Some (le_DurationMs e) /\
  in_int64 (le_BytesSent e) = true /\ in_int64 (le_BytesRecv e) = true.

Lemma entry_members_ok e : printable_entry e -> Forall (fun kv => value_ok kv.2) (entry_members e).
Proof.
  intros (_ & Hr & _). assert (Ho : forall key s, Forall (fun kv => value_ok kv.2) (omitempty key s)).
  { intros key [|b s]; repeat constructor. }
  unfold entry_members. repeat (apply Forall_app; split); try apply Ho; try by repeat constructor.
  - repeat (apply Forall_cons_iff; split; [apply Hr || apply FormatInt_raw || apply FormatBool_raw|]). constructor.
  - destruct (le_Filtered e); [|constructor]. apply Forall_cons_iff. split; [apply (FormatBool_raw true)|constructor].
Qed.

(** Finding a member among printed ones, whose keys are plain text. *)
Lemma member_cons k k' v kvs :
  to_valid (B k') = B k' ->
  member k (valid_member (B k', v) :: kvs) = if bool_decide (B k' = B k) then Some (valid_value v) else member k kvs.
Proof. intros Hk. unfold member, valid_member. cbn [List.find fst snd]. rewrite Hk. by case_bool_decide. Qed.

Lemma member_omitempty k k' s kvs :
  to_valid (B k') = B k' ->
  member k (map valid_member (omitempty k' s) ++ kvs) =
    match s with
    | [] => member k kvs
    | _ => if bool_decide (B k' = B k) then Some (JStr (to_valid s)) else member k kvs
    end.
Proof. intros Hk. destruct s as [|b s]; [done|]. cbn [omitempty map app]. by rewrite member_cons. Qed.

Lemma member_omitempty_other k k' s kvs :
  to_valid (B k') = B k' -> B k' <> B k -> member k (map valid_member (omitempty k' s) ++ kvs) = member k kvs.
Proof. intros Hk Hne. rewrite member_omitempty by done. destruct s; [done|]. by rewrite bool_decide_false. Qed.

Lemma member_cons_other k k' v kvs :
  to_valid (B k') = B k' -> B k' <> B k -> member k (valid_member (B k', v) :: kvs) = member k kvs.
Proof. intros Hk Hne. rewrite member_cons by done. by rewrite bool_decide_false. Qed.

Lemma member_cons_same k v kvs :
  to_valid (B k) = B k -> member k (valid_member (B k, v) :: kvs) = Some (valid_value v).
Proof. intros Hk. rewrite member_cons by done. by rewrite bool_decide_true. Qed.

(** An absent text is the empty one, an absent flag is false. *)
Definition text_of (v : option jvalue) : bytes := match v with Some (JStr s) => s | _ => [] end.
Definition omitted (s : bytes) : option jvalue := match s with [] => None | _ => Some (JStr (to_valid s)) end.

Lemma text_of_omitted s : text_of (omitted s) = to_valid s.
Proof. by destruct s. Qed.

Lemma member_omitempty_same k s kvs :
  to_valid (B k) = B k -> member k kvs = None -> member k (map valid_member (omitempty k s) ++ kvs) = omitted s.
Proof. intros Hk Hn. rewrite member_omitempty by done. destruct s; [done|]. by rewrite bool_decide_true. Qed.

Definition flag_members (b : bool) : list (bytes * jvalue) :=
  if b then [(B "filtered", JRaw (FormatBool true))] else [].

Lemma member_flag_other k b kvs :
  B "filtered" <> B k -> member k (map valid_member (flag_members b) ++ kvs) = member k kvs.
Proof. intros Hk. destruct b; [|done]. cbn [flag_members map app]. by rewrite member_cons_other. Qed.

Lemma member_flag_same b kvs :
  member "filtered" kvs = None ->
  member "filtered" (map valid_member (flag_members b) ++ kvs) = if b then Some (JRaw (FormatBool true)) else None.
Proof. intros Hn. destruct b; cbn [flag_members map app]; [by rewrite member_cons_same|done]. Qed.

Ltac other_keys :=
  repeat first
    [ rewrite member_cons_other by (reflexivity || (vm_compute; congruence))
    | rewrite member_omitempty_other by (reflexivity || (vm_compute; congruence))
    | rewrite member_flag_other by (vm_compute; congruence) ].

Lemma read_entry_printed e : printable_entry e -> read_entry (json_object (entry_members e)) = Some (valid_entry e).
Proof.
  intros Hp. pose proof (entry_members_ok e Hp) as Hok. destruct Hp as (_ & _ & Hf & Hs & Hr).
  unfold read_entry. pose proof (parse_object_printed (entry_members e) []) as E. rewrite app_nil_r in E.
  rewrite E by (done || discriminate). clear E Hok.
  unfold entry_members. fold (flag_members (le_Filtered e)). rewrite !map_app. cbn [map app].
  rewrite <- (app_nil_r (map valid_member (omitempty "filter_reason" _))).
  unfold read_float, read_int, read_bool, read_text. fold (text_of).
  change (match ?o with Some (JStr s) => s | _ => [] end) with (text_of o).
  repeat first
    [ rewrite member_cons_same by reflexivity
    | rewrite member_omitempty_same by (reflexivity || (other_keys; reflexivity))
    | rewrite member_flag_same by (other_keys; reflexivity)
    | progress other_keys ].
  cbn [valid_value].
  rewrite Hf, !Atoi_FormatInt, !text_of_omitted by done. unfold valid_entry. cbn [text_of].
  do 2 f_equal; [by destruct (le_Success e)|by destruct (le_Filtered e)].
Qed.
End lines.

(** ** The object's path *)

(** The fields of [time.Now().UTC()] the path is made of. *)
Record utc := MkUTC { u_year : Z; u_month : Z; u_day : Z; u_hour : Z; u_minute : Z; u_second : Z }.

Definition utc_ok (t : utc) : Prop :=
  (0 <= u_year t < 10000 /\ 0 <= u_month t < 100 /\ 0 <= u_day t < 100 /\
   0 <= u_hour t < 100 /\ 0 <= u_minute t < 100 /\ 0 <= u_second t < 100)%Z.

(** Two and four digits with leading zeros. *)
Definition pad2 (n : Z) : bytes := [byte_of_Z (48 + n / 10); byte_of_Z (48 + n mod 10)].
Definition pad4 (n : Z) : bytes := pad2 (n / 100) ++ pad2 (n mod 100).

(** [now.Format("20060102_150405")] *)
Definition timestamp (t : utc) : bytes :=
  pad4 (u_year t) ++ pad2 (u_month t) ++ pad2 (u_day t) ++ [Byte.x5f]
  ++ pad2 (u_hour t) ++ pad2 (u_minute t) ++ pad2 (u_second t).

Definition objectPath (prefix : bytes) (t : utc) (uuid : bytes) : bytes :=
  prefix ++ B "/year=" ++ pad4 (u_year t) ++ B "/month=" ++ pad2 (u_month t) ++ B "/day=" ++ pad2 (u_day t)
  ++ B "/hour=" ++ pad2 (u_hour t) ++ B "/" ++ timestamp t ++ B "_" ++ take 8 uuid ++ B ".jsonl".

Lemma pad2_inj a b : (0 <= a < 100)%Z -> (0 <= b < 100)%Z -> pad2 a = pad2 b -> a = b.
Proof.
  intros Ha Hb [= H1 H2]. apply (f_equal u8) in H1, H2. rewrite !u8_byte_of_Z in H1, H2.
  rewrite !Z.mod_small in H1 by (Z.div_mod_to_equations; lia).
  rewrite !(Z.mod_small (48 + _)) in H2 by (Z.div_mod_to_equations; lia). Z.div_mod_to_equations; lia.
Qed.

Lemma pad4_inj a b : (0 <= a < 10000)%Z -> (0 <= b < 10000)%Z -> pad4 a = pad4 b -> a = b.
Proof.
  intros Ha Hb E. unfold pad4 in E. apply app_inj_1 in E as [E1 E2]; [|done].
  apply pad2_inj in E1; [|Z.div_mod_to_equations; lia..]. apply pad2_inj in E2; [|Z.div_mod_to_equations; lia..].
  Z.div_mod_to_equations; lia.
Qed.

Lemma timestamp_inj t t' : utc_ok t -> utc_ok t' -> timestamp t = timestamp t' -> t = t'.
Proof.
  intros (Hy & Hm & Hd & Hh & Hi & Hs) (Hy' & Hm' & Hd' & Hh' & Hi' & Hs') E. unfold timestamp in E.
  apply app_inj_1 in E as [E1 E]; [|done]. apply app_inj_1 in E as [E2 E]; [|done].
  apply app_inj_1 in E as [E3 E]; [|done]. apply app_inj_1 in E as [_ E]; [|done].
  apply app_inj_1 in E as [E4 E]; [|done]. apply app_inj_1 in E as [E5 E6]; [|done].
  apply pad4_inj in E1; [|done..]. apply pad2_inj in E2, E3, E4, E5, E6; try done.
  destruct t, t'; simpl in *; by subst.
Qed.

Lemma objectPath_inj prefix t t' uuid uuid' :
  utc_ok t -> utc_ok t' -> 8 <= length uuid -> 8 <= length uuid' ->
  objectPath prefix t uuid = objectPath prefix t' uuid' -> t = t' /\ take 8 uuid = take 8 uuid'.
Proof.
  intros Ht Ht' Hu Hu' E. unfold objectPath in E.
  apply app_inv_head in E. do 9 (apply app_inj_1 in E as [_ E]; [|done]).
  apply app_inj_1 in E as [E1 E]; [|done]. apply app_inj_1 in E as [_ E]; [|done].
  apply app_inj_1 in E as [E2 _]; [|rewrite !length_take; lia].
  split; [by apply timestamp_inj|done].
Qed.

(** ** Flushing *)

(** *** The process log

    [log.Printf] with the flags [LstdFlags | Lshortfile] that [main] sets: one write to
    standard error for each message, which starts with the local date and time and the
    place of the call, and ends with a newline. *)
Definition log_date (t : utc) : bytes :=
  pad4 (u_year t) ++ B "/" ++ pad2 (u_month t) ++ B "/" ++ pad2 (u_day t) ++ B " "
  ++ pad2 (u_hour t) ++ B ":" ++ pad2 (u_minute t) ++ B ":" ++ pad2 (u_second t) ++ B " ".
Definition log_line (t : utc) (line : Z) (msg : bytes) : bytes :=
  log_date t ++ B "query_logger.go:" ++ FormatInt line ++ B ": " ++ msg ++ [Byte.x0a].

(** What object storage has received, the writes to standard error, and the metrics. *)
Record sink := MkSink {
  sk_objects : list (bytes * bytes);
  sk_stderr : list bytes;
  sk_metrics : list metric;
}.

(** The outcome of one flush: the copy into the writer, its [Close], the time the
    flush took, as a number and as [%v] prints it, and the current Unix time. *)
Record flush_env := MkFlushEnv {
  fe_now : utc;
  fe_uuid : bytes;
  fe_copy : option error;
  fe_close : option error;
  fe_ns : Z;
  fe_took : bytes;
  fe_unix : Z;
}.

(** The error of [json.Marshal] for a number that is not finite. *)
Definition marshal_error (e : QueryLogEntry) : bytes :=
  B "json: unsupported value: "
  ++ match le_DurationMs e with
     | S754_infinity false => B "+Inf"
     | S754_infinity true => B "-Inf"
     | _ => B "NaN"
     end.

Definition fallback_mark : bytes := B "QueryLogger[FALLBACK]: ".

Section flush.
(** [clock n] is the local time of the [n]-th write to standard error. *)
Context (fmt_float : float64 -> bytes) (bucket prefix : bytes) (clock : nat -> utc).

Definition Printf (line : Z) (msg : bytes) (s : sink) : sink :=
  MkSink (sk_objects s) (sk_stderr s ++ [log_line (clock (length (sk_stderr s))) line msg]) (sk_metrics s).

(** One round of the loop of [fallbackLog]. *)
Definition fallback_entry (s : sink) (entry : QueryLogEntry) : sink :=
  match Marshal fmt_float entry with
  | None => Printf 405 (fallback_mark ++ B "failed to marshal entry: " ++ marshal_error entry) s
  | Some data => Printf 408 (fallback_mark ++ data) s
  end.

Definition fallbackLog (batch : list QueryLogEntry) (s : sink) : sink :=
  foldl fallback_entry
    (MkSink (sk_objects s) (sk_stderr s)
       (sk_metrics s ++ [Add "queryLoggerFallbackWrites" [] (Z.of_nat (length batch))])) batch.

(** The messages of the encoding loop of [flush]. *)
Definition encode_errors (batch : list QueryLogEntry) (s : sink) : sink :=
  foldl (fun s entry =>
    match Marshal fmt_float entry with
    | None => Printf 355 (B "QueryLogger: failed to encode entry: " ++ marshal_error entry) s
    | Some _ => s
    end) s batch.

Definition failed_flush (ns : Z) (s : sink) : sink :=
  MkSink (sk_objects s) (sk_stderr s)
    (sk_metrics s ++ [Inc "queryLoggerFlushesTotal" [B "error"]; Observe "queryLoggerFlushDuration" [] ns]).

Definition write_failed (err : error) (path : bytes) (batch : list QueryLogEntry) : bytes :=
  B "QueryLogger: failed to write to GCS: " ++ B (Error_text err) ++ B " (path=" ++ path ++ B ", entries="
  ++ FormatInt (Z.of_nat (length batch)) ++ B ")".
Definition close_failed (err : error) (path : bytes) : bytes :=
  B "QueryLogger: failed to close GCS writer: " ++ B (Error_text err) ++ B " (path=" ++ path ++ B ")".
Definition flushed (path : bytes) (batch : list QueryLogEntry) (n : nat) (took : bytes) : bytes :=
  B "QueryLogger: flushed " ++ FormatInt (Z.of_nat (length batch)) ++ B " entries (" ++ FormatInt (Z.of_nat n)
  ++ B " bytes) to gs://" ++ bucket ++ B "/" ++ path ++ B " in " ++ took.

Definition flush_batch (e : flush_env) (batch : list QueryLogEntry) (s : sink) : sink :=
  match batch with
  | [] => s
  | _ =>
      let path := objectPath prefix (fe_now e) (fe_uuid e) in
      let buf := encode_batch fmt_float batch in
      let s := encode_errors batch s in
      match fe_copy e, fe_close e with
      | Some err, _ => fallbackLog batch (failed_flush (fe_ns e) (Printf 370 (write_failed err path batch) s))
      | None, Some err => fallbackLog batch (failed_flush (fe_ns e) (Printf 380 (close_failed err path) s))
      | None, None =>
          Printf 395 (flushed path batch (length buf) (fe_took e))
            (MkSink (sk_objects s ++ [(path, buf)]) (sk_stderr s)
              (sk_metrics s ++
               [Inc "queryLoggerFlushesTotal" [B "success"];
                Observe "queryLoggerFlushDuration" [] (fe_ns e);
                Observe "queryLoggerEntriesPerFlush" [] (Z.of_nat (length batch));
                Add "queryLoggerBytesWritten" [] (Z.of_nat (length buf));
                SetTo "queryLoggerLastFlushTimestamp" (fe_unix e)]))
      end
  end.
End flush.

(** The lines of an object: every line ends with a newline. *)
Definition lines (buf : bytes) : list bytes := removelast (SplitByte Byte.x0a buf).

(** Reading the process log back: after the date, the time and the place, a fallback
    message is its mark and one line. Other messages are [None]. *)
Definition strip_prefix (p s : bytes) : option bytes := if HasPrefix s p then Some (drop (length p) s) else None.
Definition log_message (line : bytes) : bytes :=
  let rest := drop 20 line in
  match IndexByte rest Byte.x20 with Some i => drop (S i) rest | None => [] end.
Definition read_fallback (ParseFloat : bytes -> option float64) (line : bytes) : option QueryLogEntry :=
  match strip_prefix fallback_mark (log_message line) with
  | Some body => match lines body with [text] => read_entry ParseFloat text | _ => None end
  | None => None
  end.

Section refine.
Context (fmt_float : float64 -> bytes) (ParseFloat : bytes -> option float64).

Lemma printable_no_newline s : printable s -> Byte.x0a ∉ s.
Proof.
  intros Hp Hin. unfold printable in Hp. rewrite Forall_forall in Hp.
  specialize (Hp Byte.x0a (proj1 (list_elem_of_In _ _) Hin)). vm_compute in Hp. by apply Hp.
Qed.

Lemma encode_batch_lines batch :
  Forall (printable_entry fmt_float ParseFloat) batch ->
  SplitByte Byte.x0a (encode_batch fmt_float batch)
  = map (fun e => json_object (entry_members fmt_float e)) batch ++ [[]].
Proof.
  induction 1 as [|e batch He _ IH]; [done|]. cbn [encode_batch map app].
  assert (Marshal fmt_float e = Some (json_object (entry_members fmt_float e))) as ->
    by (unfold Marshal; destruct He as [-> _]; done).
  rewrite SplitByte_app; [by rewrite IH|]. apply printable_no_newline, json_object_printable.
  by eapply entry_members_ok.
Qed.

Lemma lines_encode_batch batch :
  Forall (printable_entry fmt_float ParseFloat) batch ->
  lines (encode_batch fmt_float batch) = map (fun e => json_object (entry_members fmt_float e)) batch.
Proof.
  intros Hb. unfold lines. rewrite encode_batch_lines by done. rewrite removelast_app by done.
  simpl. by rewrite app_nil_r.
Qed.

Lemma read_lines batch :
  Forall (printable_entry fmt_float ParseFloat) batch ->
  map (read_entry ParseFloat) (map (fun e => json_object (entry_members fmt_float e)) batch)
  = map (fun e => Some (valid_entry e)) batch.
Proof.
  induction 1 as [|e batch He _ IH]; [done|]. cbn [map]. by rewrite IH, read_entry_printed.
Qed.

Lemma Marshal_printable e :
  printable_entry fmt_float ParseFloat e -> Marshal fmt_float e = Some (json_object (entry_members fmt_float e)).
Proof. unfold Marshal. by intros [-> _]. Qed.

Lemma FormatInt_no_space z : Byte.x20 ∉ FormatInt z.
Proof.
  assert (Hu : forall n, (0 <= n)%Z -> Byte.x20 ∉ FormatUint n).
  { intros n Hn Hin. destruct (FormatUint_all_digits n Hn) as [_ Hf]. rewrite Forall_forall in Hf.
    apply list_elem_of_In in Hin. by apply (Hf _ Hin). }
  unfold FormatInt. destruct (Z.ltb_spec z 0); [|by apply Hu]. apply not_elem_of_cons. split; [done|]. apply Hu. lia.
Qed.

Lemma log_message_line t line msg : log_message (log_line t line msg) = msg ++ [Byte.x0a].
Proof.
  unfold log_message, log_line. rewrite (drop_app_length' (log_date t)) by done.
  set (place := B "query_logger.go:" ++ FormatInt line ++ B ":").
  assert (Hp : Byte.x20 ∉ place).
  { unfold place. rewrite !not_elem_of_app. split_and!; [vm_decide|apply FormatInt_no_space|vm_decide]. }
  replace (B "query_logger.go:" ++ _) with (place ++ Byte.x20 :: msg ++ [Byte.x0a]).
  2: { unfold place. rewrite <- !app_assoc. done. }
  rewrite IndexByte_app_no by done.
  by rewrite <- Nat.add_1_r, drop_app_add.
Qed.

Lemma read_fallback_other t line msg :
  HasPrefix (msg ++ [Byte.x0a]) fallback_mark = false -> read_fallback ParseFloat (log_line t line msg) = None.
Proof. intros Hm. unfold read_fallback, strip_prefix. by rewrite log_message_line, Hm. Qed.

Lemma read_fallback_entry t line e :
  printable_entry fmt_float ParseFloat e ->
  read_fallback ParseFloat (log_line t line (fallback_mark ++ json_object (entry_members fmt_float e))) = Some (valid_entry e).
Proof.
  intros He. unfold read_fallback, strip_prefix. rewrite log_message_line, <- app_assoc, HasPrefix_app, drop_app_length.
  unfold lines. rewrite SplitByte_app by (apply printable_no_newline, json_object_printable; by eapply entry_members_ok).
  by apply read_entry_printed.
Qed.

(** The fallback entries in a process log. *)
Abbreviation fallbacks log := (omap (read_fallback ParseFloat) log).

Lemma fallback_loop clock batch : forall s,
  Forall (printable_entry fmt_float ParseFloat) batch ->
  let s' := foldl (fallback_entry fmt_float clock) s batch in
  sk_objects s' = sk_objects s /\ sk_metrics s' = sk_metrics s /\
  fallbacks (sk_stderr s') = fallbacks (sk_stderr s) ++ map valid_entry batch.
Proof.
  induction batch as [|e batch IH]; intros s Hb; cbn [foldl map]; [by rewrite app_nil_r|].
  apply Forall_cons_iff in Hb as [He Hb]. destruct (IH (fallback_entry fmt_float clock s e) Hb) as (-> & -> & ->).
  unfold fallback_entry. rewrite (Marshal_printable e He). cbn [Printf sk_objects sk_metrics sk_stderr].
  split; [done|]. split; [done|]. rewrite omap_app. cbn [omap list_omap]. rewrite read_fallback_entry by done.
  by rewrite <- app_assoc.
Qed.

Lemma encode_errors_none clock batch s :
  Forall (printable_entry fmt_float ParseFloat) batch -> encode_errors fmt_float clock batch s = s.
Proof.
  unfold encode_errors. revert s. induction batch as [|e batch IH]; intros s Hb; [done|].
  apply Forall_cons_iff in Hb as [He Hb]. cbn [foldl]. rewrite (Marshal_printable e He). by apply IH.
Qed.
End refine.

(** ** A sequence of flushes refines the logger's

    The abstract batches of file QueryLogger, by where they went. *)
Definition flush_ok (e : flush_env) : bool := bool_decide (fe_copy e = None) && bool_decide (fe_close e = None).

Definition objects_of (ws : list written) : list (list QueryLogEntry) :=
  omap (fun w => match w with Object b => Some b | Fallback _ => None end) ws.
Definition fallbacks_of (ws : list written) : list QueryLogEntry :=
  concat (omap (fun w => match w with Object _ => None | Fallback b => Some b end) ws).

Definition run_flushes (fmt_float : float64 -> bytes) (bucket prefix : bytes) (clock : nat -> utc)
    (fs : list (flush_env * list QueryLogEntry)) (s : sink) : sink :=
  foldl (fun s f => flush_batch fmt_float bucket prefix clock f.1 f.2 s) s fs.
Definition run_abstract (fs : list (flush_env * list QueryLogEntry)) (ws : list written) : list written :=
  foldl (fun ws f => flush (flush_ok f.1) f.2 ws) ws fs.

Definition sum_lengths (objects : list (bytes * bytes)) : Z :=
  foldr (fun o n => (Z.of_nat (length o.2) + n)%Z) 0%Z objects.

Section refine_all.
Context (fmt_float : float64 -> bytes) (ParseFloat : bytes -> option float64).
Context (bucket prefix : bytes) (clock : nat -> utc).

(** The sink holds what the abstract logger has written: one line for each entry,
    which reads back as it, and the counters say how many. *)
Record represents (ws : list written) (s : sink) : Prop := {
  rep_objects : map (fun o => map (read_entry ParseFloat) (lines o.2)) (sk_objects s)
                = map (map (fun e => Some (valid_entry e))) (objects_of ws);
  rep_stderr : omap (read_fallback ParseFloat) (sk_stderr s) = map valid_entry (fallbacks_of ws);
  rep_used : used (sk_metrics s);
  rep_success : total "queryLoggerFlushesTotal" [B "success"] (sk_metrics s) = Z.of_nat (length (sk_objects s));
  rep_bytes : total "queryLoggerBytesWritten" [] (sk_metrics s) = sum_lengths (sk_objects s);
  rep_fallback : total "queryLoggerFallbackWrites" [] (sk_metrics s) = Z.of_nat (length (fallbacks_of ws));
}.

Lemma sum_lengths_app l l' : sum_lengths (l ++ l') = (sum_lengths l + sum_lengths l')%Z.
Proof. induction l as [|o l IH]; [done|]. cbn [app sum_lengths foldr] in *. unfold sum_lengths in *. lia. Qed.

Lemma objects_of_app ws ws' : objects_of (ws ++ ws') = objects_of ws ++ objects_of ws'.
Proof. apply omap_app. Qed.
Lemma fallbacks_of_app ws ws' : fallbacks_of (ws ++ ws') = fallbacks_of ws ++ fallbacks_of ws'.
Proof. unfold fallbacks_of. by rewrite omap_app, concat_app. Qed.

(** One more batch. *)
Lemma objects_of_snoc ws w :
  objects_of (ws ++ [w]) = objects_of ws ++ match w with Object b => [b] | Fallback _ => [] end.
Proof. rewrite objects_of_app. by destruct w. Qed.
Lemma fallbacks_of_snoc ws w :
  fallbacks_of (ws ++ [w]) = fallbacks_of ws ++ match w with Object _ => [] | Fallback b => b end.
Proof. rewrite fallbacks_of_app. destruct w; [done|]. unfold fallbacks_of at 2. simpl. by rewrite app_nil_r. Qed.

Lemma counter_used var decl labels n :
  declared (proxy_metrics ++ query_logger_metrics) var = Some decl -> d_kind decl = Counter ->
  length labels = length (d_labels decl) -> forallb ascii_label labels = true ->
  well_used (Add var labels (Z.of_nat n)) = true.
Proof. intros. eapply well_used_Add; [done..|lia]. Qed.

(** A failed flush: the message, the error counters and the fallback. *)
Lemma fallback_represents ws s line msg ns b :
  represents ws s -> Forall (printable_entry fmt_float ParseFloat) b ->
  HasPrefix (msg ++ [Byte.x0a]) fallback_mark = false ->
  represents (ws ++ [Fallback b]) (fallbackLog fmt_float clock b (failed_flush ns (Printf clock line msg s))).
Proof.
  intros [Ho Hs Hu H1 H2 H3] Hb Hm. unfold fallbackLog.
  match goal with |- context [foldl _ ?s0 b] => destruct (fallback_loop fmt_float ParseFloat clock b s0 Hb) as (E1 & E2 & E3) end.
  split; rewrite ?E1, ?E2, ?E3; cbn [sk_objects sk_stderr sk_metrics failed_flush Printf].
  - by rewrite objects_of_snoc, app_nil_r.
  - rewrite omap_app, fallbacks_of_snoc, map_app, <- Hs. cbn [omap list_omap].
    by rewrite (read_fallback_other _ _ _ _ Hm), app_nil_r.
  - apply used_app. split; [by used_tac|]. apply used_cons. split; [|constructor].
    by eapply (counter_used "queryLoggerFallbackWrites").
  - total_tac. rewrite H1. lia.
  - total_tac. rewrite H2. lia.
  - total_tac. rewrite H3, fallbacks_of_snoc, length_app, Nat2Z.inj_add. lia.
Qed.

Lemma flush_represents ws s e batch :
  represents ws s -> Forall (printable_entry fmt_float ParseFloat) batch ->
  represents (flush (flush_ok e) batch ws) (flush_batch fmt_float bucket prefix clock e batch s).
Proof.
  intros Hrep Hb. destruct batch as [|e0 batch]; [done|].
  unfold flush_batch, flush. set (b := e0 :: batch) in *. rewrite (encode_errors_none _ ParseFloat) by done.
  unfold flush_ok. destruct (fe_copy e) as [err|] eqn:Ec.
  { rewrite (bool_decide_false (Some err = None)) by done. by apply fallback_represents. }
  destruct (fe_close e) as [err|] eqn:El.
  { rewrite (bool_decide_false (Some err = None)), andb_false_r by done. by apply fallback_represents. }
  rewrite !bool_decide_true by done. cbn [andb]. destruct Hrep as [Ho Hs Hu H1 H2 H3].
  split; cbn [sk_objects sk_stderr sk_metrics Printf].
  - rewrite objects_of_snoc, !map_app, Ho. cbn [map snd]. by rewrite (lines_encode_batch _ ParseFloat), (read_lines _ ParseFloat).
  - rewrite omap_app, Hs, fallbacks_of_snoc. cbn [omap list_omap].
    rewrite read_fallback_other by done. by rewrite !app_nil_r.
  - generalize (length (encode_batch fmt_float b)). intros n. used_tac.
    by eapply (counter_used "queryLoggerBytesWritten").
  - rewrite total_app, H1, length_app, Nat2Z.inj_add. f_equal.
  - total_tac. rewrite H2, sum_lengths_app. unfold sum_lengths at 3. cbn [foldr snd]. lia.
  - total_tac. rewrite H3, fallbacks_of_snoc, app_nil_r. lia.
Qed.

Lemma run_flushes_represents fs : forall ws s,
  represents ws s -> Forall (fun f => Forall (printable_entry fmt_float ParseFloat) f.2) fs ->
  represents (run_abstract fs ws) (run_flushes fmt_float bucket prefix clock fs s).
Proof.
  induction fs as [|[e batch] fs IH]; intros ws s Hr Hf; [done|].
  apply Forall_cons_iff in Hf as [Hb Hf]. unfold run_abstract, run_flushes in *. cbn [foldl fst snd] in *.
  apply IH; [|done]. by apply flush_represents.
Qed.

(** Messages leave the objects alone. *)
Lemma fallbackLog_objects b s : sk_objects (fallbackLog fmt_float clock b s) = sk_objects s.
Proof.
  unfold fallbackLog. generalize (sk_metrics s ++ [Add "queryLoggerFallbackWrites" [] (Z.of_nat (length b))]). intros ms.
  change (sk_objects s) with (sk_objects (MkSink (sk_objects s) (sk_stderr s) ms)) at 2. generalize (MkSink (sk_objects s) (sk_stderr s) ms).
  induction b as [|e b IH]; intros s'; [done|]. cbn [foldl]. rewrite IH. unfold fallback_entry. by case_match.
Qed.

Lemma encode_errors_objects b s : sk_objects (encode_errors fmt_float clock b s) = sk_objects s.
Proof.
  unfold encode_errors. revert s. induction b as [|e b IH]; intros s; [done|]. cbn [foldl]. rewrite IH. by case_match.
Qed.

Lemma run_paths fs : forall s,
  exists fs', sublist fs' fs /\
    map fst (sk_objects (run_flushes fmt_float bucket prefix clock fs s))
    = map fst (sk_objects s) ++ map (fun f => objectPath prefix (fe_now f.1) (fe_uuid f.1)) fs'.
Proof.
  induction fs as [|[e batch] fs IH]; intros s; [exists []; split; [constructor|by rewrite app_nil_r]|].
  unfold run_flushes in *. cbn [foldl fst snd].
  destruct (IH (flush_batch fmt_float bucket prefix clock e batch s)) as (fs' & Hs & ->).
  unfold flush_batch. destruct batch as [|e0 batch]; [exists fs'; split; [by constructor|done]|].
  pose proof (encode_errors_objects (e0 :: batch) s) as He. set (s1 := encode_errors _ _ _ s) in *.
  destruct (fe_copy e); [exists fs'; split; [by constructor|by rewrite fallbackLog_objects, <- He]|].
  destruct (fe_close e); [exists fs'; split; [by constructor|by rewrite fallbackLog_objects, <- He]|].
  exists ((e, e0 :: batch) :: fs'). split; [by constructor|]. cbn [sk_objects Printf map fst].
  by rewrite He, map_app, <- app_assoc.
Qed.
End refine_all.

(** ** Opening and closing *)

(** The storage client: creating it and reading the bucket's attributes. *)
Record storage_lib := MkStorage { NewClient : option error; BucketAttrs : bytes -> option error }.

Section open.
Context `{PrometheusRegistry Reg} (storage : storage_lib).

(** [NewQueryLogger(cfg)] with the sizes of the configuration: the configuration of
    the running logger, whose buffer is a channel of that capacity. *)
Definition OpenQueryLogger (config : Config) (s : bool * Reg)
    : result QueryLoggerConfig * (bool * Reg) * list metric :=
  match registerQueryLoggerMetrics s with
  | (Ok _, s) =>
      match NewClient storage with
      | Some err => (Err (ErrWrap "failed to create GCS client" err), s, [])
      | None =>
          match BucketAttrs storage (QueryLogGCSBucket config) with
          | Some err =>
              (Err (ErrWrap ("failed to access GCS bucket " +:+
                             String.string_of_list_byte (QueryLogGCSBucket config)) err), s, [])
          | None =>
              match make_chan (QueryLogBufferSize config) with
              | Ok capacity =>
                  (Ok (MkLoggerConfig (QueryLogGCSBucket config) (QueryLogGCSPrefix config)
                         (QueryLogFlushInterval config) (QueryLogBatchSize config) capacity),
                   (s.1, (Register buffer_depth_gauge s.2).2),
                   [SetTo "queryLoggerBufferCapacity" (QueryLogBufferSize config)])
              | _ => (Panic, s, [])
              end
          end
      end
  | (Err e, s) => (Err e, s, [])
  | (Panic, s) => (Panic, s, [])
  | (Stuck, s) => (Stuck, s, [])
  end.

(** The first statements of [flushLoop]: [time.NewTicker] and [make] panic. *)
Definition flushLoop_start (cfg : QueryLoggerConfig) : result unit :=
  if (lc_FlushInterval cfg <=? 0)%Z then Panic
  else if (lc_BatchSize cfg <? 0)%Z then Panic
  else Ok tt.

(** [Close], once the loop has returned. *)
Definition CloseQueryLogger (s : bool * Reg) : bool * Reg := (s.1, Unregister buffer_depth_gauge s.2).

(** The names registered while the process runs, without and with a logger. *)
Definition base_names : list string := map d_Name (query_logger_metrics ++ queue_depth_gauge :: proxy_metrics).

Lemma open_close_names config s cfg s' ms :
  s.1 = true -> Permutation (reg_names s.2) base_names ->
  OpenQueryLogger config s = (Ok cfg, s', ms) ->
  s'.1 = true /\ Permutation (reg_names s'.2) (d_Name buffer_depth_gauge :: base_names) /\
  (CloseQueryLogger s').1 = true /\ Permutation (reg_names (CloseQueryLogger s').2) base_names.
Proof.
  destruct s as [flag r]. cbn [fst snd]. intros -> Hp. unfold OpenQueryLogger, registerQueryLoggerMetrics.
  destruct (NewClient storage); [done|]. destruct (BucketAttrs storage _); [done|].
  destruct (make_chan _); [|done..]. intros [= <- <- _]. cbn [fst snd CloseQueryLogger].
  assert (Hd : ~ In (d_Name buffer_depth_gauge) base_names)
    by (intros Hin; apply list_elem_of_In in Hin; revert Hin; vm_decide).
  destruct (Register_new buffer_depth_gauge r) as (r' & -> & Hr').
  { intros Hin. apply Hd. by apply (Permutation_in _ Hp). }
  cbn [snd]. rewrite Hp in Hr'. split_and!; [done|done|done|]. by apply Unregister_removes.
Qed.
End open.

(** [Log]'s counter. *)
Definition Log_metric (cfg : QueryLoggerConfig) (ql : QueryLogger) : metric :=
  if bool_decide (length (ql_entries ql) < lc_BufferSize cfg)
  then Inc "queryLoggerEntriesTotal" [B "queued"] else Inc "queryLoggerEntriesTotal" [B "dropped"].

(** The counters and the entries [Log] queued and dropped, over any number of calls. *)
Fixpoint log_all (cfg : QueryLoggerConfig) (es : list QueryLogEntry) (ql : QueryLogger) (ms : list metric)
    : QueryLogger * list metric :=
  match es with
  | [] => (ql, ms)
  | e :: es => log_all cfg es (Log cfg e ql) (ms ++ [Log_metric cfg ql])
  end.

Lemma log_all_counted cfg es : forall ql ms ql' ms',
  log_all cfg es ql ms = (ql', ms') ->
  (total "queryLoggerEntriesTotal" [B "queued"] ms' - Z.of_nat (length (ql_queued ql'))
   = total "queryLoggerEntriesTotal" [B "queued"] ms - Z.of_nat (length (ql_queued ql)))%Z /\
  (total "queryLoggerEntriesTotal" [B "dropped"] ms' - Z.of_nat (length (ql_dropped ql'))
   = total "queryLoggerEntriesTotal" [B "dropped"] ms - Z.of_nat (length (ql_dropped ql)))%Z /\
  (used ms -> used ms').
Proof.
  induction es as [|e es IH]; intros ql ms ql' ms'; [by intros [= <- <-]|]. cbn [log_all].
  intros (E1 & E2 & Hu)%IH. rewrite E1, E2, !total_app. unfold Log, Log_metric in *.
  case_bool_decide; cbn [ql_queued ql_dropped]; rewrite ?length_app; simpl.
  all: split_and!; [lia|lia|]; intros Hm; apply Hu, used_app; (split; [done|]); by used_tac.
Qed.

Lemma In_sublist {A} (l k : list A) x : l `sublist_of` k -> In x l -> In x k.
Proof. induction 1; [done| |]; simpl; naive_solver. Qed.

(** ** Properties *)

(** C15: No log entry is lost or mangled on its way out: over any sequence of flushes,
    each succeeding or failing as storage decides, every batch is one object with
    exactly one line for each entry, which reads back as the entry; or, when the write
    or the close failed, for each entry one message in the process log on standard
    error, [date time place: QueryLogger[FALLBACK]: entry], from which the entry is read
    back once the date, the place and the mark are taken off, and no other message of a
    flush can be taken for one. Only invalid UTF-8 is replaced; a newline, quote or
    control character in a query cannot break a line. The counters report the objects,
    their bytes and the fallback entries. Entries are those with a finite duration, the
    only ones that can be encoded. *)
Theorem flushes_readable fmt_float ParseFloat bucket prefix clock fs :
  Forall (fun f => Forall (printable_entry fmt_float ParseFloat) f.2) fs ->
  let s := run_flushes fmt_float bucket prefix clock fs (MkSink [] [] []) in
  let ws := run_abstract fs [] in
  map (fun o => map (read_entry ParseFloat) (lines o.2)) (sk_objects s)
    = map (map (fun e => Some (valid_entry e))) (objects_of ws) /\
  omap (read_fallback ParseFloat) (sk_stderr s) = map valid_entry (fallbacks_of ws) /\
  used (sk_metrics s) /\
  total "queryLoggerFlushesTotal" [B "success"] (sk_metrics s) = Z.of_nat (length (sk_objects s)) /\
  total "queryLoggerBytesWritten" [] (sk_metrics s) = sum_lengths (sk_objects s) /\
  total "queryLoggerFallbackWrites" [] (sk_metrics s) = Z.of_nat (length (fallbacks_of ws)).
Proof.
  intros Hf s ws.
  assert (Hr : represents ParseFloat [] (MkSink [] [] [])) by (by repeat constructor).
  destruct (run_flushes_represents fmt_float ParseFloat bucket prefix clock fs [] _ Hr Hf). done.
Qed.

(** An entry whose query has a newline, quotes and an invalid byte. *)
Definition awkward_text : bytes := B "SELECT 1;" ++ [Byte.x0a; quote_b; Byte.x80; Byte.x5c; Byte.xe2; Byte.x80; Byte.xa8].
Definition awkward_entry : QueryLogEntry :=
  MkEntry (B "2026-02-05T00:00:00Z") (B "id-1") (B "primary") (B "COM_QUERY") awkward_text [] f_one 12 (-1) true
    [] (B "10.0.0.1:5000") false [].

(** A printer that knows the durations 0 and 1. *)
Definition example_fmt (x : float64) : bytes := if bool_decide (x = f_one) then B "1" else B "0".
Definition example_parse (t : bytes) : option float64 :=
  if bool_decide (t = B "1") then Some f_one else if bool_decide (t = B "0") then Some f_zero else None.

Definition flush_at (second : Z) (copy : option error) : flush_env :=
  MkFlushEnv (MkUTC 2026 2 5 13 37 second) (B "0123456789abcdef") copy None 1000 (B "1µs") 1770298620.
(** The local clock of the process, one second per write. *)
Definition example_clock (n : nat) : utc := MkUTC 2026 2 5 14 37 (Z.of_nat n).
Definition example_flushes : list (flush_env * list QueryLogEntry) :=
  [(flush_at 0 None, [awkward_entry; awkward_entry]); (flush_at 1 (Some ErrEOF), [awkward_entry])].

Lemma flushes_readable_witness :
  let s := run_flushes example_fmt (B "logs") (B "query-logs") example_clock example_flushes (MkSink [] [] []) in
  let ws := run_abstract example_flushes [] in
  map (fun o => map (read_entry example_parse) (lines o.2)) (sk_objects s)
    = map (map (fun e => Some (valid_entry e))) (objects_of ws) /\
  omap (read_fallback example_parse) (sk_stderr s) = map valid_entry (fallbacks_of ws) /\
  used (sk_metrics s) /\
  total "queryLoggerFlushesTotal" [B "success"] (sk_metrics s) = Z.of_nat (length (sk_objects s)) /\
  total "queryLoggerBytesWritten" [] (sk_metrics s) = sum_lengths (sk_objects s) /\
  total "queryLoggerFallbackWrites" [] (sk_metrics s) = Z.of_nat (length (fallbacks_of ws)).
Proof.
  apply (flushes_readable example_fmt example_parse (B "logs") (B "query-logs") example_clock example_flushes).
  assert (He : printable_entry example_fmt example_parse awkward_entry).
  { split; [reflexivity|]. split; [|by vm_compute]. split; [done|]. by repeat constructor. }
  by repeat (apply Forall_cons_iff; split).
Defined.

(** The text of a line: two lines, of one object. *)
Example awkward_line : exists line,
  Marshal example_fmt awkward_entry = Some line /\ (Byte.x0a ∉ line) /\
  read_entry example_parse line = Some (valid_entry awkward_entry) /\
  le_QueryText (valid_entry awkward_entry)
  = B "SELECT 1;" ++ [Byte.x0a; quote_b; Byte.xef; Byte.xbf; Byte.xbd; Byte.x5c; Byte.xe2; Byte.x80; Byte.xa8].
Proof. eexists. split; [reflexivity|]. split; [vm_decide|]. split; vm_compute; reflexivity. Qed.

(** Flushes do not overwrite each other: unless two flushes happened in the same
    second and drew the same eight characters of their random identifiers, the objects
    written have distinct paths; and each path lies in the partition of its own year,
    month, day and hour. *)
Theorem objects_not_overwritten fmt_float bucket prefix clock fs :
  Forall (fun f => utc_ok (fe_now f.1) /\ 8 <= length (fe_uuid f.1)) fs ->
  NoDup (map (fun f => (fe_now f.1, take 8 (fe_uuid f.1))) fs) ->
  let s := run_flushes fmt_float bucket prefix clock fs (MkSink [] [] []) in
  NoDup (map fst (sk_objects s)) /\
  Forall (fun path => exists f, In f fs /\ path = objectPath prefix (fe_now f.1) (fe_uuid f.1)) (map fst (sk_objects s)).
Proof.
  intros Hf Hn s. destruct (run_paths fmt_float bucket prefix clock fs (MkSink [] [] [])) as (fs' & Hsub & Hp).
  subst s. rewrite Hp. cbn [sk_objects map app].
  assert (Hf' : Forall (fun f => utc_ok (fe_now f.1) /\ 8 <= length (fe_uuid f.1)) fs').
  { rewrite !Forall_forall in *. intros f Hin. by apply Hf, (In_sublist _ _ f Hsub). }
  assert (Hn' : NoDup (map (fun f => (fe_now f.1, take 8 (fe_uuid f.1))) fs')).
  { eapply sublist_NoDup; [exact Hn|]. by apply (fmap_sublist (fun f => (fe_now f.1, take 8 (fe_uuid f.1)))). }
  split.
  - clear -Hf' Hn'. induction Hf' as [|f fs' [Hu Hl] Hf' IH]; [constructor|].
    cbn [map] in *. apply list.NoDup_cons in Hn' as [Hnin Hn']. apply list.NoDup_cons. split; [|by apply IH].
    intros Hin. apply Hnin. apply list_elem_of_In, in_map_iff in Hin as (g & Hg & Hgin).
    rewrite Forall_forall in Hf'. destruct (Hf' g Hgin) as [Hgu Hgl].
    apply objectPath_inj in Hg as [E1 E2]; [|done..]. apply list_elem_of_In, in_map_iff.
    exists g. by rewrite E1, E2.
  - rewrite Forall_forall. intros path Hin. apply in_map_iff in Hin as (f & <- & Hfin). exists f. split; [|done].
    by apply (In_sublist _ _ f Hsub).
Qed.

Lemma objects_not_overwritten_witness :
  let s := run_flushes example_fmt (B "logs") (B "query-logs") example_clock example_flushes (MkSink [] [] []) in
  NoDup (map fst (sk_objects s)) /\
  Forall (fun path => exists f, In f example_flushes /\ path = objectPath (B "query-logs") (fe_now f.1) (fe_uuid f.1))
    (map fst (sk_objects s)).
Proof.
  apply (objects_not_overwritten example_fmt (B "logs") (B "query-logs") example_clock example_flushes).
  - repeat (apply Forall_cons_iff; split); [..|constructor]; (split; [by vm_compute|simpl; lia]).
  - apply list.NoDup_cons. split; [|apply list.NoDup_singleton]. simpl. intros Hin.
    apply list_elem_of_In in Hin as [[=]|[]].
Defined.

(** The process log of these flushes: the success of the first, the failure of the
    second, and its entry; the place and the start of each message. *)
Example example_log :
  let log := sk_stderr (run_flushes example_fmt (B "logs") (B "query-logs") example_clock example_flushes (MkSink [] [] [])) in
  map (take 64) log
  = [B "2026/02/05 14:37:00 query_logger.go:395: QueryLogger: flushed 2 ";
     B "2026/02/05 14:37:01 query_logger.go:370: QueryLogger: failed to ";
     B "2026/02/05 14:37:02 query_logger.go:408: QueryLogger[FALLBACK]: "] /\
  map (read_fallback example_parse) log = [None; None; Some (valid_entry awkward_entry)].
Proof. vm_compute. done. Qed.

Example example_path :
  map fst (sk_objects (run_flushes example_fmt (B "logs") (B "query-logs") example_clock example_flushes (MkSink [] [] [])))
  = [B "query-logs/year=2026/month=02/day=05/hour=13/20260205_133700_01234567.jsonl"].
Proof. by vm_compute. Qed.
