(* ===== verification/Health.v ===== *)
(** * Health checks and HTTP endpoints (src/main.go, src/pg_main.go)

    The background goroutine that dials primary and shadow every ten seconds, the
    state it shares with the HTTP handlers under a mutex, and the handlers. The
    mutex is held only while an outcome is recorded, so a request can be served while
    a dial is under way, between a dial and the recording of its outcome, and between
    the two dials: the interleavings are the step relation [mo_step]. *)

From S2P Require Import Prelude.
From stdpp Require Import relations.
From S2P Require Import Config GoFloat QueryLogger Json Metrics.

(** [primaryHealthy] and [shadowHealthy] *)
Record Health := MkHealth { primaryHealthy : bool; shadowHealthy : bool }.

(** ** The checker *)

(** The two halves of [checkHealth] and of [check], on the outcome of the dial. *)
Definition check_primary (err : option error) (h : Health) : Health * list metric :=
  match err with
  | Some _ => (MkHealth false (shadowHealthy h), [SetTo "primaryUp" 0])
  | None => (MkHealth true (shadowHealthy h), [SetTo "primaryUp" 1])
  end.
Definition check_shadow (err : option error) (h : Health) : Health * list metric :=
  match err with
  | Some _ => (MkHealth (primaryHealthy h) false, [SetTo "shadowUp" 0])
  | None => (MkHealth (primaryHealthy h) true, [SetTo "shadowUp" 1])
  end.

(** Whether the shadow is checked: always by [main]'s checker, by
    [runPostgresProxy]'s if it has an address. *)
Definition mysql_checks_shadow : bool := true.
Definition pg_checks_shadow (shadowAddr : bytes) : bool := bool_decide (shadowAddr <> []).

(** ** The handlers *)

Record response := MkResponse { rs_status : Z; rs_type : bytes; rs_body : bytes }.

Definition StatusOK : Z := 200.
Definition StatusServiceUnavailable : Z := 503.

(** A string constant of the source, with single for double quotes. *)
Definition J (s : string) : bytes := map (fun b => if bool_decide (b = Byte.x27) then Byte.x22 else b) (B s).

(** The handlers of "/health", "/ready" and "/status". *)
Inductive endpoint := EHealth | EReady | EStatus.

Definition serve_health : response := MkResponse StatusOK [] (B "OK").

Definition mysql_ready (h : Health) : response :=
  if negb (primaryHealthy h)
  then MkResponse StatusServiceUnavailable [] (J "{'primary': false, 'shadow': " ++ FormatBool (shadowHealthy h) ++ J "}")
  else MkResponse StatusOK [] (J "{'primary': true, 'shadow': " ++ FormatBool (shadowHealthy h) ++ J "}").

Definition both_status (primaryAddr shadowAddr : bytes) (h : Health) : response :=
  MkResponse StatusOK (B "application/json")
    (J "{'primary': {'address': '" ++ primaryAddr ++ J "', 'healthy': " ++ FormatBool (primaryHealthy h)
     ++ J "}, 'shadow': {'address': '" ++ shadowAddr ++ J "', 'healthy': " ++ FormatBool (shadowHealthy h) ++ J "}}").

Definition mysql_status (primaryAddr shadowAddr : bytes) (h : Health) : response := both_status primaryAddr shadowAddr h.

Definition pg_ready (h : Health) : response :=
  if negb (primaryHealthy h) then MkResponse StatusServiceUnavailable [] (J "{'primary': false}")
  else MkResponse StatusOK [] (J "{'primary': true}").

Definition pg_status (primaryAddr shadowAddr : bytes) (h : Health) : response :=
  if bool_decide (shadowAddr = []) then
    MkResponse StatusOK (B "application/json")
      (J "{'primary': {'address': '" ++ primaryAddr ++ J "', 'healthy': " ++ FormatBool (primaryHealthy h) ++ J "}}")
  else both_status primaryAddr shadowAddr h.

Definition mysql_handler (primaryAddr shadowAddr : bytes) (e : endpoint) (h : Health) : response :=
  match e with EHealth => serve_health | EReady => mysql_ready h | EStatus => mysql_status primaryAddr shadowAddr h end.
Definition pg_handler (primaryAddr shadowAddr : bytes) (e : endpoint) (h : Health) : response :=
  match e with EHealth => serve_health | EReady => pg_ready h | EStatus => pg_status primaryAddr shadowAddr h end.

(** ** The interleavings *)

(** Where the checker is: dialling primary or shadow, at [healthMu.Lock()] with the
    outcome of the dial, or waiting for the ticker. *)
Inductive checker :=
  | AtPrimary
  | PrimaryDialled (err : option error)
  | AtShadow
  | ShadowDialled (err : option error)
  | Ticking.

(** The shared state, the checker, and - for the theorems - the outcomes recorded and
    all responses, each with the number of outcomes of the primary recorded before it. *)
Record Monitor := MkMonitor {
  mo_health : Health;
  mo_checker : checker;
  mo_metrics : list metric;
  mo_primary : list (option error);
  mo_shadow : list (option error);
  mo_served : list (nat * endpoint * response);
}.

Definition mo_start : Monitor := MkMonitor (MkHealth false false) AtPrimary [] [] [] [].

Section monitor.
Context (checks_shadow : bool) (handler : endpoint -> Health -> response).

(** A dial returns; its outcome is recorded under the mutex. *)
Definition dialled (c : checker) (m : Monitor) : Monitor :=
  MkMonitor (mo_health m) c (mo_metrics m) (mo_primary m) (mo_shadow m) (mo_served m).
Definition probe_primary (err : option error) (m : Monitor) : Monitor :=
  let '(h, ms) := check_primary err (mo_health m) in
  MkMonitor h (if checks_shadow then AtShadow else Ticking) (mo_metrics m ++ ms) (mo_primary m ++ [err])
    (mo_shadow m) (mo_served m).
Definition probe_shadow (err : option error) (m : Monitor) : Monitor :=
  let '(h, ms) := check_shadow err (mo_health m) in
  MkMonitor h Ticking (mo_metrics m ++ ms) (mo_primary m) (mo_shadow m ++ [err]) (mo_served m).
Definition tick (m : Monitor) : Monitor :=
  MkMonitor (mo_health m) AtPrimary (mo_metrics m) (mo_primary m) (mo_shadow m) (mo_served m).
Definition request (e : endpoint) (m : Monitor) : Monitor :=
  MkMonitor (mo_health m) (mo_checker m) (mo_metrics m) (mo_primary m) (mo_shadow m)
    (mo_served m ++ [(length (mo_primary m), e, handler e (mo_health m))]).

Inductive mo_step : Monitor -> Monitor -> Prop :=
  | ms_dial_primary err m : mo_checker m = AtPrimary -> mo_step m (dialled (PrimaryDialled err) m)
  | ms_primary err m : mo_checker m = PrimaryDialled err -> mo_step m (probe_primary err m)
  | ms_dial_shadow err m : mo_checker m = AtShadow -> mo_step m (dialled (ShadowDialled err) m)
  | ms_shadow err m : mo_checker m = ShadowDialled err -> mo_step m (probe_shadow err m)
  | ms_tick m : mo_checker m = Ticking -> mo_step m (tick m)
  | ms_request e m : mo_step m (request e m).

Definition mo_reachable (m : Monitor) : Prop := rtc mo_step mo_start m.

(** ** The invariant *)

(** Whether the last recorded dial succeeded. *)
Definition last_up (dials : list (option error)) : bool :=
  match list.last dials with Some None => true | _ => false end.

(** The gauge after these dials: unset before the first. *)
Definition gauge_of (dials : list (option error)) : option Z :=
  (fun err => match err with Some _ => 0%Z | None => 1%Z end) <$> list.last dials.

Definition at_shadow (c : checker) : bool := match c with AtShadow | ShadowDialled _ => true | _ => false end.

(** A readiness answer: of the dials before it, the last decides. *)
Definition answer_ok (dials : list (option error)) (s : nat * endpoint * response) : Prop :=
  let '(n, e, r) := s in
  n <= length dials /\
  match e with
  | EHealth => r = serve_health
  | EReady => rs_status r = if last_up (take n dials) then StatusOK else StatusServiceUnavailable
  | EStatus => rs_status r = StatusOK /\ rs_type r = B "application/json"
  end.

Record mo_inv (m : Monitor) : Prop := {
  mi_primary : primaryHealthy (mo_health m) = last_up (mo_primary m);
  mi_shadow : shadowHealthy (mo_health m) = last_up (mo_shadow m);
  mi_primary_gauge : last_set "primaryUp" (mo_metrics m) = gauge_of (mo_primary m);
  mi_shadow_gauge : last_set "shadowUp" (mo_metrics m) = gauge_of (mo_shadow m);
  mi_used : used (mo_metrics m);
  mi_rounds : if checks_shadow
              then length (mo_primary m) = length (mo_shadow m) + if at_shadow (mo_checker m) then 1 else 0
              else mo_shadow m = [] /\ at_shadow (mo_checker m) = false;
  mi_served : Forall (answer_ok (mo_primary m)) (mo_served m);
}.

(** What the handlers have in common. *)
Class Handlers : Prop := {
  handles_health h : handler EHealth h = serve_health;
  handles_ready h : rs_status (handler EReady h) = if primaryHealthy h then StatusOK else StatusServiceUnavailable;
  handles_status h : rs_status (handler EStatus h) = StatusOK /\ rs_type (handler EStatus h) = B "application/json";
}.
End monitor.

#[export] Instance mysql_Handlers primaryAddr shadowAddr : Handlers (mysql_handler primaryAddr shadowAddr).
Proof. split; [done| |done]. intros [[] s]; done. Qed.
#[export] Instance pg_Handlers primaryAddr shadowAddr : Handlers (pg_handler primaryAddr shadowAddr).
Proof. split; [done|by intros [[] s]|]. intros h. unfold pg_handler, pg_status. by case_bool_decide. Qed.

Lemma last_set_snoc var ms v x :
  last_set var (ms ++ [SetTo v x]) = if bool_decide (v = var) then Some x else last_set var ms.
Proof.
  unfold last_set. rewrite omap_app. cbn [omap list_omap SetTo m_op m_var m_amount].
  case_bool_decide as E; rewrite ?app_nil_r.
  - rewrite bool_decide_true by tauto. by rewrite last_snoc.
  - rewrite bool_decide_false by tauto. done.
Qed.

Lemma last_up_snoc dials err : last_up (dials ++ [err]) = match err with None => true | Some _ => false end.
Proof. unfold last_up. rewrite last_snoc. by destruct err. Qed.
Lemma gauge_of_snoc dials err : gauge_of (dials ++ [err]) = Some match err with None => 1%Z | Some _ => 0%Z end.
Proof. unfold gauge_of. rewrite last_snoc. by destruct err. Qed.

Lemma answer_ok_snoc dials err s : answer_ok dials s -> answer_ok (dials ++ [err]) s.
Proof.
  destruct s as [[n e] r]. intros [Hn Ha]. split; [rewrite length_app; lia|]. by rewrite take_app_le by done.
Qed.

Section invariant.
Context (checks_shadow : bool) (handler : endpoint -> Health -> response) `{!Handlers handler}.

Lemma mo_step_inv m m' : mo_step checks_shadow handler m m' -> mo_inv checks_shadow m -> mo_inv checks_shadow m'.
Proof using Type*.
  intros Hs Hi. destruct Hs as [err m Hc|err m Hc|err m Hc|err m Hc|m Hc|e m]; destruct Hi.
  - by split; cbn; auto; rewrite Hc in mi_rounds0.
  - unfold probe_primary. destruct (check_primary err (mo_health m)) as [h ms] eqn:E.
    assert (h = MkHealth (last_up (mo_primary m ++ [err])) (shadowHealthy (mo_health m)) /\
            ms = [SetTo "primaryUp" (match err with None => 1 | Some _ => 0 end)%Z]) as [-> ->]
      by (rewrite last_up_snoc; destruct err; by injection E as <- <-).
    split; cbn [mo_health mo_checker mo_metrics mo_primary mo_shadow mo_served primaryHealthy shadowHealthy]; auto.
    + by rewrite last_set_snoc, gauge_of_snoc.
    + by rewrite last_set_snoc.
    + apply used_app. split; [done|by destruct err; repeat constructor].
    + rewrite Hc in mi_rounds0. cbn [at_shadow] in *. destruct checks_shadow; [rewrite length_app; simpl; lia|].
      by destruct mi_rounds0.
    + eapply Forall_impl; [exact mi_served0|]. intros s. apply answer_ok_snoc.
  - by split; cbn; auto; rewrite Hc in mi_rounds0.
  - unfold probe_shadow. destruct (check_shadow err (mo_health m)) as [h ms] eqn:E.
    assert (h = MkHealth (primaryHealthy (mo_health m)) (last_up (mo_shadow m ++ [err])) /\
            ms = [SetTo "shadowUp" (match err with None => 1 | Some _ => 0 end)%Z]) as [-> ->]
      by (rewrite last_up_snoc; destruct err; by injection E as <- <-).
    split; cbn [mo_health mo_checker mo_metrics mo_primary mo_shadow mo_served primaryHealthy shadowHealthy]; auto.
    + by rewrite last_set_snoc.
    + by rewrite last_set_snoc, gauge_of_snoc.
    + apply used_app. split; [done|by destruct err; repeat constructor].
    + rewrite Hc in mi_rounds0. cbn [at_shadow] in *. destruct checks_shadow; [rewrite length_app; simpl; lia|].
      by destruct mi_rounds0.
  - split; cbn; auto. rewrite Hc in mi_rounds0. destruct checks_shadow; [done|]. by destruct mi_rounds0.
  - split; cbn; auto. apply Forall_app. split; [done|]. apply list.Forall_singleton.
    split; [done|]. rewrite firstn_all. destruct e; [by apply handles_health| |by apply handles_status].
    by rewrite handles_ready, mi_primary0.
Qed.

Lemma mo_start_inv : mo_inv checks_shadow mo_start.
Proof. by split; repeat constructor; destruct checks_shadow. Qed.

Lemma mo_reachable_inv m : mo_reachable checks_shadow handler m -> mo_inv checks_shadow m.
Proof using Type*.
  revert m. apply (rtc_ind_r (fun m => mo_inv checks_shadow m)); [apply mo_start_inv|].
  intros y z _ Hs Hi. by eapply mo_step_inv.
Qed.
End invariant.

(** The monitor of either entry point. *)
Definition checks_shadow_of (pg : bool) (shadowAddr : bytes) : bool :=
  if pg then pg_checks_shadow shadowAddr else mysql_checks_shadow.
Definition handler_of (pg : bool) (primaryAddr shadowAddr : bytes) : endpoint -> Health -> response :=
  if pg then pg_handler primaryAddr shadowAddr else mysql_handler primaryAddr shadowAddr.
Definition monitored (pg : bool) (primaryAddr shadowAddr : bytes) (m : Monitor) : Prop :=
  mo_reachable (checks_shadow_of pg shadowAddr) (handler_of pg primaryAddr shadowAddr) m.

#[export] Instance handler_of_Handlers pg primaryAddr shadowAddr : Handlers (handler_of pg primaryAddr shadowAddr).
Proof. unfold handler_of. destruct pg; apply _. Qed.

(** ** Properties *)

(** C32: Readiness follows the primary. In every interleaving of the checker with HTTP
    requests, for both protocols: a response to "/ready" that was given after [n]
    outcomes of dialling the primary had been recorded is 200 if the last of them was a
    success and 503 otherwise - also before the first, while a dial is under way or not
    yet recorded, and between the dials of one check -; "/health" is always 200; the
    shared state and both gauges show the outcomes recorded last; and the shadow is
    dialled once after each dial of the primary - for pgwire without a shadow address,
    never. *)
Theorem ready_follows_primary pg primaryAddr shadowAddr m :
  monitored pg primaryAddr shadowAddr m ->
  Forall (answer_ok (mo_primary m)) (mo_served m) /\
  mo_health m = MkHealth (last_up (mo_primary m)) (last_up (mo_shadow m)) /\
  last_set "primaryUp" (mo_metrics m) = gauge_of (mo_primary m) /\
  last_set "shadowUp" (mo_metrics m) = gauge_of (mo_shadow m) /\ used (mo_metrics m) /\
  (if pg && bool_decide (shadowAddr = []) then mo_shadow m = []
   else length (mo_shadow m) <= length (mo_primary m) <= length (mo_shadow m) + 1).
Proof.
  intros [] % mo_reachable_inv; [|apply _]. repeat (split; [done|]).
  split; [destruct (mo_health m); simpl in *; congruence|]. repeat (split; [done|]).
  unfold checks_shadow_of, pg_checks_shadow, mysql_checks_shadow in mi_rounds0.
  destruct pg; [|destruct (at_shadow (mo_checker m)); cbn [andb]; lia]. cbn [andb].
  case_bool_decide as Hs; case_bool_decide; try done; [destruct (at_shadow (mo_checker m)); lia|by destruct mi_rounds0].
Qed.

(** A request, a success, one request before and one after it is recorded, the dial of the
    shadow, a tick and a failure. *)
Definition example_handler := mysql_handler (B "p:9030") (B "s:9030").
Definition failed_dial : option error := Some (ErrTimeout "i/o timeout").
Definition example_monitor : Monitor :=
  request example_handler EReady (probe_primary true failed_dial (dialled (PrimaryDialled failed_dial)
    (tick (probe_shadow (Some ErrEOF) (dialled (ShadowDialled (Some ErrEOF)) (request example_handler EReady
      (probe_primary true None (request example_handler EReady (dialled (PrimaryDialled None)
        (request example_handler EReady mo_start)))))))))).

Lemma example_monitor_reachable : monitored false (B "p:9030") (B "s:9030") example_monitor.
Proof.
  eapply rtc_l; [apply (ms_request _ _ EReady)|]. eapply rtc_l; [by apply (ms_dial_primary _ _ None)|].
  eapply rtc_l; [apply (ms_request _ _ EReady)|]. eapply rtc_l; [by apply (ms_primary _ _ None)|].
  eapply rtc_l; [apply (ms_request _ _ EReady)|]. eapply rtc_l; [by apply (ms_dial_shadow _ _ (Some ErrEOF))|].
  eapply rtc_l; [by apply (ms_shadow _ _ (Some ErrEOF))|].
  eapply rtc_l; [by apply ms_tick|]. eapply rtc_l; [by apply (ms_dial_primary _ _ failed_dial)|].
  eapply rtc_l; [by apply (ms_primary _ _ failed_dial)|].
  eapply rtc_l; [apply (ms_request _ _ EReady)|]. apply rtc_refl.
Qed.

Lemma ready_follows_primary_witness :
  map (fun s => (s.1.1, rs_status s.2)) (mo_served example_monitor) = [(0, 503%Z); (0, 503%Z); (1, 200%Z); (2, 503%Z)] /\
  Forall (answer_ok (mo_primary example_monitor)) (mo_served example_monitor) /\
  last_set "primaryUp" (mo_metrics example_monitor) = Some 0%Z.
Proof.
  split; [reflexivity|].
  destruct (ready_follows_primary false (B "p:9030") (B "s:9030") example_monitor example_monitor_reachable)
    as (H1 & _ & H2 & _). split; [exact H1|exact H2].
Defined.

Example ready_body :
  rs_body (mysql_ready (MkHealth false true))
  = [Byte.x7b; Byte.x22] ++ B "primary" ++ [Byte.x22] ++ B ": false, " ++ [Byte.x22] ++ B "shadow" ++ [Byte.x22]
    ++ B ": true}".
Proof. by vm_compute. Qed.
