(* ===== verification/QueryFilter.v ===== *)
(** * Query filtering (src/query_filter.go, src/pg_shadow_filter.go)

    Which queries are mirrored: statement splitting, comment stripping, SQL
    operation detection, and the include and exclude decisions with sampling.
    Go's regular expressions are an argument: a type of compiled expressions,
    [Compile] and [MatchString]. So are the Unicode upper- and lower-case tables
    above ASCII and two formatting verbs that occur in error texts. A random
    roll is an argument of the function that makes it. *)

From S2P Require Import Prelude GoStrings GoFloat Config QueryLogger.

(** ** Statement splitting *)

Definition quote1 : byte := Byte.x27.
Definition quote2 : byte := Byte.x22.
Definition backtick : byte := Byte.x60.
Definition backslash : byte := Byte.x5c.
Definition semicolon : byte := Byte.x3b.

(** The local variables of the scanning loop. *)
Record split_state := MkSplit {
  sp_statements : list bytes;
  sp_current : bytes;
  sp_inSingleQuote : bool;
  sp_inDoubleQuote : bool;
  sp_inBacktick : bool;
  sp_escaped : bool;
}.

(** [if stmt := strings.TrimSpace(current.String()); stmt != ...] *)
Definition end_statement (statements : list bytes) (current : bytes) : list bytes :=
  match TrimSpace current with [] => statements | stmt => statements ++ [stmt] end.

(** One round of the loop, on byte [c]. *)
Definition split_byte (st : split_state) (c : byte) : split_state :=
  let '(MkSplit stmts cur s d b esc) := st in
  if esc then MkSplit stmts (cur ++ [c]) s d b false
  else if bool_decide (c = backslash) then MkSplit stmts (cur ++ [c]) s d b true
  else if bool_decide (c = quote1) && negb d && negb b
       then MkSplit stmts (cur ++ [c]) (negb s) d b false
  else if bool_decide (c = quote2) && negb s && negb b
       then MkSplit stmts (cur ++ [c]) s (negb d) b false
  else if bool_decide (c = backtick) && negb s && negb d
       then MkSplit stmts (cur ++ [c]) s d (negb b) false
  else if bool_decide (c = semicolon) && negb s && negb d && negb b
       then MkSplit (end_statement stmts cur) [] s d b false
  else MkSplit stmts (cur ++ [c]) s d b false.

Definition splitStatements (query : bytes) : list bytes :=
  let st := foldl split_byte (MkSplit [] [] false false false false) query in
  end_statement (sp_statements st) (sp_current st).

(** ** Comments and white space *)

Definition slash_star : bytes := [Byte.x2f; Byte.x2a].
Definition star_slash : bytes := [Byte.x2a; Byte.x2f].
Definition dash_dash : bytes := [Byte.x2d; Byte.x2d].
Definition space : byte := Byte.x20.
Definition open_paren : byte := Byte.x28.

(** The loop of [stripAllBlockComments]: every round shortens the string, so its
    length bounds the rounds. *)
Fixpoint strip_block_loop (fuel : nat) (s : bytes) : bytes :=
  match fuel with
  | O => s
  | S fuel =>
      match Index s slash_star with
      | None => s
      | Some start =>
          match Index (drop (start + 2) s) star_slash with
          | None => s
          | Some e => strip_block_loop fuel (take start s ++ space :: drop (start + 2 + e + 2) s)
          end
      end
  end.
Definition stripAllBlockComments (s : bytes) : bytes := strip_block_loop (length s) s.

Fixpoint strip_leading_loop (fuel : nat) (s : bytes) : bytes :=
  match fuel with
  | O => s
  | S fuel =>
      match TrimSpace s with
      | [] => []
      | s' =>
          if HasPrefix s' dash_dash then
            match IndexByte s' Byte.x0a with
            | Some idx => strip_leading_loop fuel (drop (idx + 1) s')
            | None => []
            end
          else if HasPrefix s' slash_star then
            match Index s' star_slash with
            | Some idx => strip_leading_loop fuel (drop (idx + 2) s')
            | None => []
            end
          else s'
      end
  end.
Definition stripLeadingComments (s : bytes) : bytes := strip_leading_loop (S (length s)) s.

(** The four white-space bytes [normalizeWhitespacePrefix] knows. *)
Definition is_blank (b : byte) : bool :=
  bool_decide (b ∈ [Byte.x20; Byte.x09; Byte.x0a; Byte.x0d]).
Definition in_word (b : byte) : bool := negb (is_blank b) && negb (bool_decide (b = open_paren)).

Fixpoint drop_while (f : byte -> bool) (s : bytes) : bytes :=
  match s with
  | [] => []
  | b :: s' => if f b then drop_while f s' else s
  end.
Fixpoint take_while (f : byte -> bool) (s : bytes) : bytes :=
  match s with
  | [] => []
  | b :: s' => if f b then b :: take_while f s' else []
  end.

(** The loop: at most [maxWords] words, and the rest of the string from where it
    stopped. *)
Fixpoint prefix_words (maxWords : nat) (s : bytes) : list bytes * bytes :=
  match maxWords with
  | O => ([], s)
  | S n =>
      match drop_while is_blank s with
      | [] => ([], [])
      | (c :: _) as s' =>
          if bool_decide (c = open_paren) then ([], s')
          else let '(ws, rest) := prefix_words n (drop_while in_word s') in
               (take_while in_word s' :: ws, rest)
      end
  end.

Definition normalizeWhitespacePrefix (s : bytes) (maxWords : nat) : bytes :=
  let '(ws, rest) := prefix_words maxWords s in Join [space] ws ++ rest.

(** ** Operation detection *)

Definition multiWordOps : list (bytes * bytes) := map (fun '(p, n) => (B p, B n))
  [("SUBMIT TASK", "SUBMIT_TASK");
   ("INSERT OVERWRITE", "INSERT_OVERWRITE");
   ("REFRESH MATERIALIZED VIEW", "REFRESH_MATERIALIZED_VIEW");
   ("CREATE MATERIALIZED VIEW", "CREATE_MATERIALIZED_VIEW");
   ("DROP MATERIALIZED VIEW", "DROP_MATERIALIZED_VIEW");
   ("ALTER MATERIALIZED VIEW", "ALTER_MATERIALIZED_VIEW");
   ("CANCEL LOAD", "CANCEL_LOAD");
   ("SHOW LOAD", "SHOW_LOAD");
   ("BROKER LOAD", "BROKER_LOAD");
   ("ROUTINE LOAD", "ROUTINE_LOAD");
   ("ADMIN SET", "ADMIN_SET");
   ("ADMIN SHOW", "ADMIN_SHOW");
   ("ADMIN CHECK", "ADMIN_CHECK");
   ("ADMIN REPAIR", "ADMIN_REPAIR");
   ("SET CATALOG", "SET_CATALOG");
   ("INSERT INTO", "INSERT");
   ("CREATE TABLE", "CREATE_TABLE");
   ("CREATE EXTERNAL TABLE", "CREATE_TABLE");
   ("CREATE VIEW", "CREATE_VIEW");
   ("CREATE DATABASE", "CREATE_DATABASE");
   ("CREATE INDEX", "CREATE_INDEX");
   ("ALTER TABLE", "ALTER_TABLE");
   ("ALTER DATABASE", "ALTER_DATABASE");
   ("DROP TABLE", "DROP_TABLE");
   ("DROP VIEW", "DROP_VIEW");
   ("DROP DATABASE", "DROP_DATABASE");
   ("DROP INDEX", "DROP_INDEX");
   ("TRUNCATE TABLE", "TRUNCATE");
   ("ANALYZE TABLE", "ANALYZE");
   ("SHOW TABLES", "SHOW");
   ("SHOW DATABASES", "SHOW");
   ("SHOW CREATE", "SHOW");
   ("SHOW COLUMNS", "SHOW");
   ("SHOW PROCESSLIST", "SHOW")]%string.

(** The test of the loop over [multiWordOps]: prefix and word boundary. *)
Definition op_matches (normalizedPrefix prefix : bytes) : bool :=
  HasPrefix normalizedPrefix prefix &&
  match drop (length prefix) normalizedPrefix with
  | [] => true
  | c :: _ => bool_decide (c = space) || bool_decide (c = open_paren)
  end.

Definition operation_of_prefix (normalizedPrefix : bytes) : bytes :=
  match List.find (fun op => op_matches normalizedPrefix op.1) multiWordOps with
  | Some op => op.2
  | None =>
      match IndexAny normalizedPrefix [space; open_paren] with
      | Some ((S _) as idx) => take idx normalizedPrefix
      | _ => normalizedPrefix
      end
  end.

Section operation.
Context (upper_table : Z -> Z).

Definition extractStatementOperation (stmt : bytes) : bytes :=
  match TrimSpace (stripLeadingComments stmt) with
  | [] => []
  | s => operation_of_prefix
           (normalizeWhitespacePrefix (ToUpper upper_table (stripAllBlockComments s)) 4)
  end.

Definition preambleOperations : list bytes := [B "SET"; B "SET_CATALOG"; B "USE"].

(** The two loops from the last statement to the first. *)
Definition ExtractPrimarySQLOperation (queryText : bytes) : bytes :=
  let ops := map extractStatementOperation (reverse (splitStatements queryText)) in
  match List.find (fun op => bool_decide (op <> []) && bool_decide (op ∉ preambleOperations)) ops with
  | Some op => op
  | None => match List.find (fun op => bool_decide (op <> [])) ops with
            | Some op => op
            | None => B "UNKNOWN"
            end
  end.
End operation.

(** ** The filter *)

Definition FilterReasonNone : bytes := [].
Definition FilterReasonSQLOperation : bytes := B "sql_operation".
Definition FilterReasonPattern : bytes := B "pattern".
Definition FilterReasonSampling : bytes := B "sampling".
Definition FilterReasonStickyStmt : bytes := B "sticky_stmt".

Record QueryFilter (Regexp : Type) := MkFilter {
  qf_mode : bytes;
  qf_sqlOperations : gset bytes;
  qf_patterns : list Regexp;
  qf_sampleRate : float64;
}.
Arguments MkFilter {_} _ _ _ _.
Arguments qf_mode {_} _.
Arguments qf_sqlOperations {_} _.
Arguments qf_patterns {_} _.
Arguments qf_sampleRate {_} _.

(** Go's [regexp] package. *)
Class RegexpLib (Regexp : Type) := {
  Compile : bytes -> Regexp + error;
  MatchString : Regexp -> bytes -> bool;
}.

Section filter.
Context `{RegexpLib Regexp} (upper_table lower_table : Z -> Z).
Context (fmt_4f : float64 -> string) (fmt_q : bytes -> string).

(** [for _, op := range config.ShadowFilterSQLOperations] *)
Definition add_operation (ops : gset bytes) (op : bytes) : gset bytes :=
  match TrimSpace op with [] => ops | op => {[ ToUpper upper_table op ]} ∪ ops end.

(** [for _, p := range config.ShadowFilterPatterns] *)
Fixpoint compile_patterns (ps : list bytes) : list Regexp + error :=
  match ps with
  | [] => inl []
  | p :: ps =>
      match TrimSpace p with
      | [] => compile_patterns ps
      | p => match Compile p with
             | inr err => inr (ErrWrap ("invalid SHADOW_FILTER_PATTERN " +:+ fmt_q p) err)
             | inl re => match compile_patterns ps with
                         | inl res => inl (re :: res)
                         | inr err => inr err
                         end
             end
      end
  end.

(** [(nil, nil)] is [inl None]. *)
Definition NewQueryFilter (config : Config) : option (QueryFilter Regexp) + error :=
  let hasMode := bool_decide (ShadowFilterMode config <> []) in
  let hasSQLOps := bool_decide (ShadowFilterSQLOperations config <> []) in
  let hasPatterns := bool_decide (ShadowFilterPatterns config <> []) in
  let hasSampling := f_lt (ShadowSampleRate config) f_one in
  if negb hasMode && negb hasSQLOps && negb hasPatterns && negb hasSampling then inl None
  else if f_lt (ShadowSampleRate config) f_zero || f_gt (ShadowSampleRate config) f_one then
    inr (ErrMsg ("invalid SHADOW_SAMPLE_RATE " +:+ fmt_4f (ShadowSampleRate config)
                 +:+ ": must be between 0.0 and 1.0"))
  else
    let mode := match ToLower lower_table (ShadowFilterMode config) with
                | [] => B "include"
                | mode => mode
                end in
    if bool_decide (mode <> B "include") && bool_decide (mode <> B "exclude") then
      inr (ErrMsg ("invalid SHADOW_FILTER_MODE " +:+ fmt_q (ShadowFilterMode config)
                   +:+ ": must be 'include' or 'exclude'"))
    else
      let ops := foldl add_operation ∅ (ShadowFilterSQLOperations config) in
      match compile_patterns (ShadowFilterPatterns config) with
      | inr err => inr err
      | inl pats => inl (Some (MkFilter mode ops pats (ShadowSampleRate config)))
      end.

Definition matchAnyPattern (f : QueryFilter Regexp) (queryText : bytes) : bool :=
  existsb (fun re => MatchString re queryText) (qf_patterns f).

Definition op_listed (f : QueryFilter Regexp) (queryText : bytes) : bool :=
  bool_decide (ExtractPrimarySQLOperation upper_table queryText ∈ qf_sqlOperations f).

Definition matchInclude (f : QueryFilter Regexp) (req : QueryRequest) : bool * bytes :=
  if bool_decide (0 < size (qf_sqlOperations f)) && negb (op_listed f (qr_QueryText req))
  then (false, FilterReasonSQLOperation)
  else if bool_decide (0 < length (qf_patterns f)) && negb (matchAnyPattern f (qr_QueryText req))
  then (false, FilterReasonPattern)
  else (true, FilterReasonNone).

Definition matchExclude (f : QueryFilter Regexp) (req : QueryRequest) : bool * bytes :=
  if bool_decide (0 < size (qf_sqlOperations f)) && op_listed f (qr_QueryText req)
  then (false, FilterReasonSQLOperation)
  else if bool_decide (0 < length (qf_patterns f)) && matchAnyPattern f (qr_QueryText req)
  then (false, FilterReasonPattern)
  else (true, FilterReasonNone).

Definition passesFilter (f : QueryFilter Regexp) (req : QueryRequest) : bool * bytes :=
  if bool_decide (qf_mode f = B "include") then matchInclude f req
  else if bool_decide (qf_mode f = B "exclude") then matchExclude f req
  else (true, FilterReasonNone).

(** [roll] is the result of [rand.Float64()]. *)
Definition Allow (f : QueryFilter Regexp) (roll : float64) (req : QueryRequest) : bool * bytes :=
  match qr_QueryText req with
  | [] => (true, FilterReasonNone)
  | _ =>
      let '(allowed, reason) := passesFilter f req in
      if negb allowed then (false, reason)
      else if f_lt (qf_sampleRate f) f_one && f_ge roll (qf_sampleRate f)
      then (false, FilterReasonSampling)
      else (true, FilterReasonNone)
  end.

Definition AllowDeterministic (f : QueryFilter Regexp) (req : QueryRequest) : bool * bytes :=
  match qr_QueryText req with
  | [] => (true, FilterReasonNone)
  | _ =>
      let '(allowed, reason) := passesFilter f req in
      if negb allowed then (false, reason) else (true, FilterReasonNone)
  end.

Definition SampleRate (f : option (QueryFilter Regexp)) : float64 :=
  match f with None => f_one | Some f => qf_sampleRate f end.

(** [shouldShadowMirror(req, filter)] of src/pg_shadow_filter.go *)
Definition shouldShadowMirror (req : QueryRequest) (filter : option (QueryFilter Regexp))
    : bool * bytes :=
  match filter with
  | None => (true, FilterReasonNone)
  | Some f => AllowDeterministic f req
  end.
End filter.

(** ** Comment stripping *)

Lemma length_splice start e (s : bytes) :
  start + 2 + e + 2 <= length s ->
  length (take start s ++ space :: drop (start + 2 + e + 2) s) < length s.
Proof. intros H. rewrite length_app, length_take. cbn [length]. rewrite length_drop. lia. Qed.

Lemma block_comment_bound s start e :
  Index s slash_star = Some start -> Index (drop (start + 2) s) star_slash = Some e ->
  start + 2 + e + 2 <= length s.
Proof.
  intros H1%Index_bound H2%Index_bound. rewrite length_drop in H2. simpl in *. lia.
Qed.

Lemma strip_block_fuel f1 : forall f2 s,
  length s <= f1 -> length s <= f2 -> strip_block_loop f1 s = strip_block_loop f2 s.
Proof.
  induction f1 as [|f1 IH]; intros f2 s H1 H2.
  - destruct s; [|simpl in H1; lia]. by destruct f2.
  - destruct f2 as [|f2]; [by destruct s; [|simpl in H2; lia]|]. cbn [strip_block_loop].
    destruct (Index s slash_star) as [start|] eqn:E1; [|done].
    destruct (Index (drop (start + 2) s) star_slash) as [e|] eqn:E2; [|done].
    pose proof (length_splice start e s (block_comment_bound _ _ _ E1 E2)).
    apply IH; lia.
Qed.

(** The loop's equation: one round, with no bound on the rounds that follow. *)
Lemma stripAllBlockComments_eq s :
  stripAllBlockComments s =
  match Index s slash_star with
  | None => s
  | Some start =>
      match Index (drop (start + 2) s) star_slash with
      | None => s
      | Some e => stripAllBlockComments (take start s ++ space :: drop (start + 2 + e + 2) s)
      end
  end.
Proof.
  unfold stripAllBlockComments at 1. destruct s as [|b s]; [done|]. cbn [length strip_block_loop].
  set (s0 := b :: s).
  destruct (Index s0 slash_star) as [start|] eqn:E1; [|done].
  destruct (Index (drop (start + 2) s0) star_slash) as [e|] eqn:E2; [|done].
  pose proof (length_splice start e s0 (block_comment_bound _ _ _ E1 E2)) as Hl.
  apply strip_block_fuel; [|done]. subst s0. cbn [length] in Hl. lia.
Qed.

(** Text without a slash is left alone. *)
Lemma strip_block_skip a : Byte.x2f ∉ a -> forall s,
  stripAllBlockComments (a ++ s) = a ++ stripAllBlockComments s.
Proof.
  intros Ha s. remember (length s) as n eqn:Hn. revert s Hn.
  induction n as [n IH] using lt_wf_ind. intros s ->.
  rewrite (stripAllBlockComments_eq (a ++ s)), (stripAllBlockComments_eq s).
  unfold slash_star at 1. rewrite Index_skip by done. fold slash_star.
  destruct (Index s slash_star) as [start|] eqn:E1; simpl; [|done].
  replace (drop (length a + start + 2) (a ++ s)) with (drop (start + 2) s)
    by (rewrite drop_app_ge by lia; f_equal; lia).
  destruct (Index (drop (start + 2) s) star_slash) as [e|] eqn:E2; [|done].
  pose proof (block_comment_bound _ _ _ E1 E2) as Hb.
  rewrite take_app_ge, drop_app_ge, <- app_assoc by lia.
  replace (length a + start - length a) with start by lia.
  replace (length a + start + 2 + e + 2 - length a) with (start + 2 + e + 2) by lia.
  eapply IH; [|done]. by apply length_splice.
Qed.

(** A comment body: its terminator is the first one. *)
Definition comment_body (body : bytes) : Prop :=
  Index (body ++ star_slash) star_slash = Some (length body).

#[export] Instance comment_body_dec body : Decision (comment_body body).
Proof. unfold comment_body. apply _. Defined.

Lemma strip_block_comment body s :
  comment_body body ->
  stripAllBlockComments (slash_star ++ body ++ star_slash ++ s) = space :: stripAllBlockComments s.
Proof.
  intros Hb. rewrite stripAllBlockComments_eq.
  assert (Index (slash_star ++ body ++ star_slash ++ s) slash_star = Some 0) as ->
    by reflexivity.
  change (drop (0 + 2) (slash_star ++ body ++ star_slash ++ s)) with (drop 0 (body ++ star_slash ++ s)).
  rewrite drop_0, app_assoc, (Index_app _ _ _ s Hb).
  change (0 + 2 + length body + 2) with (2 + (length body + 2)).
  cbn [take app]. rewrite <- drop_drop.
  change (drop 2 (slash_star ++ (body ++ star_slash) ++ s)) with (drop 0 ((body ++ star_slash) ++ s)).
  rewrite drop_0, drop_app_length' by (rewrite length_app; done).
  apply (strip_block_skip [space]). vm_decide.
Qed.

Lemma length_trim_loop fuel sp s : length (trim_loop fuel sp s) <= length s.
Proof.
  revert s. induction fuel as [|fuel IH]; intros s; simpl; [done|].
  destruct (space_width sp s) as [|w]; [done|]. etrans; [apply IH|]. rewrite length_drop. lia.
Qed.

Lemma length_TrimSpace s : length (TrimSpace s) <= length s.
Proof.
  unfold TrimSpace, trim_right, trim_left. rewrite length_reverse.
  etrans; [apply length_trim_loop|]. rewrite length_reverse. apply length_trim_loop.
Qed.

Lemma strip_leading_fuel f1 : forall f2 s,
  length s < f1 -> length s < f2 -> strip_leading_loop f1 s = strip_leading_loop f2 s.
Proof.
  induction f1 as [|f1 IH]; intros f2 s H1 H2; [lia|]. destruct f2 as [|f2]; [lia|].
  cbn [strip_leading_loop]. pose proof (length_TrimSpace s).
  destruct (TrimSpace s) as [|c s'] eqn:E; [done|].
  destruct (HasPrefix (c :: s') dash_dash).
  { destruct (IndexByte _ _); [|done]. apply IH; rewrite length_drop; simpl in *; lia. }
  destruct (HasPrefix (c :: s') slash_star); [|done].
  destruct (Index _ _); [|done]. apply IH; rewrite length_drop; simpl in *; lia.
Qed.

(** The equation of [stripLeadingComments]. *)
Lemma stripLeadingComments_eq s :
  stripLeadingComments s =
  match TrimSpace s with
  | [] => []
  | s' =>
      if HasPrefix s' dash_dash then
        match IndexByte s' Byte.x0a with
        | Some idx => stripLeadingComments (drop (idx + 1) s')
        | None => []
        end
      else if HasPrefix s' slash_star then
        match Index s' star_slash with
        | Some idx => stripLeadingComments (drop (idx + 2) s')
        | None => []
        end
      else s'
  end.
Proof.
  unfold stripLeadingComments at 1. cbn [strip_leading_loop]. pose proof (length_TrimSpace s).
  destruct (TrimSpace s) as [|c s'] eqn:E; [done|].
  destruct (HasPrefix (c :: s') dash_dash).
  { destruct (IndexByte _ _); [|done]. apply strip_leading_fuel; rewrite length_drop; simpl in *; lia. }
  destruct (HasPrefix (c :: s') slash_star); [|done].
  destruct (Index _ _); [|done]. apply strip_leading_fuel; rewrite length_drop; simpl in *; lia.
Qed.

(** ** Spellings of an operation

    What may stand between the words of a statement, and in front of it. *)

Inductive gap_item := Blank (b : byte) | BlockComment (body : bytes).

Definition gap_item_ok (g : gap_item) : Prop :=
  match g with
  | Blank b => is_blank b = true
  | BlockComment body => comment_body body
  end.
Definition render_gap_item (g : gap_item) : bytes :=
  match g with
  | Blank b => [b]
  | BlockComment body => slash_star ++ body ++ star_slash
  end.
Definition render_gap (gs : list gap_item) : bytes := concat (map render_gap_item gs).

(** What the gap is once comments are stripped. *)
Definition gap_blanks (gs : list gap_item) : bytes :=
  map (fun g => match g with Blank b => b | BlockComment _ => space end) gs.

(** [spelled ws text]: [text] spells the upper-case words [ws], in any mixture of
    cases, with a gap between every two. *)
Inductive spelled : list bytes -> bytes -> Prop :=
  | spelled_last w W : map upper_byte w = W -> spelled [W] w
  | spelled_more w W gs ws text :
      map upper_byte w = W -> gs <> [] -> Forall gap_item_ok gs -> spelled ws text ->
      spelled (W :: ws) (w ++ render_gap gs ++ text).

Definition letter (b : byte) : bool := (65 <=? u8 b)%Z && (u8 b <=? 90)%Z.
Definition upper_word (w : bytes) : Prop := w <> [] /\ forallb letter w = true.

Lemma letter_upper b : letter (upper_byte b) = true ->
  ascii b /\ is_blank b = false /\ in_word (upper_byte b) = true /\ (b ∉ ascii_spaces) /\
  b <> Byte.x2f /\ b <> Byte.x2d.
Proof.
  destruct b; try (vm_compute; intros H; discriminate H); intros _;
    (split_and!; [reflexivity|reflexivity|reflexivity| |done|done];
     vm_decide).
Qed.

Lemma upper_word_src w W : map upper_byte w = W -> upper_word W ->
  w <> [] /\ Forall (fun b => letter (upper_byte b) = true) w.
Proof.
  intros <- [Hne Hl]. split; [by destruct w|]. clear Hne.
  induction w as [|b w IH]; simpl in *; [done|]. apply andb_true_iff in Hl as [? ?]. auto.
Qed.

Lemma is_blank_facts b : is_blank b = true ->
  ascii b /\ upper_byte b = b /\ (b ∈ ascii_spaces) /\ b <> Byte.x2f /\ b <> Byte.x2d.
Proof.
  destruct b; try (vm_compute; intros H; discriminate H); intros _;
    (split_and!; [reflexivity|reflexivity| |done|done]; vm_decide).
Qed.

Lemma strip_block_gap gs s : Forall gap_item_ok gs ->
  stripAllBlockComments (render_gap gs ++ s) = gap_blanks gs ++ stripAllBlockComments s.
Proof.
  induction 1 as [|g gs Hg _ IH]; [done|]. unfold render_gap in *. cbn [map concat].
  rewrite <- app_assoc. destruct g as [b|body]; cbn [render_gap_item gap_item_ok] in *.
  - assert (Byte.x2f ∉ [b]).
    { apply is_blank_facts in Hg as (_ & _ & _ & Hs & _).
      apply not_elem_of_cons. split; [congruence|apply not_elem_of_nil]. }
    rewrite strip_block_skip by done. by rewrite IH.
  - rewrite <- !app_assoc, strip_block_comment by done. by rewrite IH.
Qed.

Lemma gap_blanks_blank gs : Forall gap_item_ok gs -> Forall (fun b => is_blank b = true) (gap_blanks gs).
Proof. induction 1 as [|[b|body] gs Hg _ IH]; constructor; auto. Qed.

Lemma blanks_upper table bl s : Forall (fun b => is_blank b = true) bl ->
  ToUpper table (bl ++ s) = bl ++ ToUpper table s.
Proof.
  intros Hb. rewrite ToUpper_ascii_app.
  - f_equal. induction Hb as [|b bl Hb _ IH]; simpl; [done|].
    apply is_blank_facts in Hb as (_ & -> & _). by rewrite IH.
  - eapply Forall_impl; [|exact Hb]. intros b Hb'. by apply is_blank_facts in Hb' as [? _].
Qed.

Lemma drop_while_blanks bl s : Forall (fun b => is_blank b = true) bl ->
  drop_while is_blank (bl ++ s) = drop_while is_blank s.
Proof. induction 1 as [|b bl Hb _ IH]; simpl; [done|]. by rewrite Hb. Qed.

(** The words of a spelling, once comments are stripped and case is folded,
    followed by their gaps. *)
Inductive separated : list bytes -> bytes -> Prop :=
  | separated_last W : separated [W] W
  | separated_more W bl ws text :
      bl <> [] -> Forall (fun b => is_blank b = true) bl -> separated ws text ->
      separated (W :: ws) (W ++ bl ++ text).

Lemma spelled_separated table ws text : spelled ws text -> Forall upper_word ws ->
  exists text', separated ws text' /\
    forall s, ToUpper table (stripAllBlockComments (text ++ s))
              = text' ++ ToUpper table (stripAllBlockComments s).
Proof.
  assert (Hw : forall w W s, map upper_byte w = W -> upper_word W ->
    ToUpper table (stripAllBlockComments (w ++ s)) = W ++ ToUpper table (stripAllBlockComments s)).
  { intros w W s HW Hu. destruct (upper_word_src _ _ HW Hu) as [_ Hl].
    rewrite strip_block_skip.
    - rewrite ToUpper_ascii_app by (eapply Forall_impl; [|exact Hl]; intros ? HH; by apply letter_upper in HH as [? _]).
      by rewrite HW.
    - intros Hin. rewrite list.Forall_forall in Hl. apply Hl in Hin. by apply letter_upper in Hin as (_ & _ & _ & _ & ? & _). }
  induction 1 as [w W HW|w W gs ws text HW Hgs Hg Hsp IH]; intros Hu;
    apply Forall_cons_iff in Hu as [HuW Hu].
  - exists W. split; [constructor|]. intros s. by apply Hw.
  - destruct (IH Hu) as (text' & Hsep & Heq).
    exists (W ++ gap_blanks gs ++ text'). split.
    + constructor; [by destruct gs|by apply gap_blanks_blank|done].
    + intros s. rewrite <- !app_assoc, (Hw _ _ _ HW HuW), strip_block_gap by done.
      rewrite blanks_upper by by apply gap_blanks_blank. by rewrite Heq.
Qed.

(** A remainder that ends the word before it. *)
Definition word_ends (s : bytes) : Prop :=
  match s with [] => True | c :: _ => in_word c = false end.

Lemma in_word_facts c : in_word c = true -> is_blank c = false /\ c <> open_paren.
Proof.
  unfold in_word. intros [H1 H2]%andb_true_iff. apply negb_true_iff in H1, H2.
  split; [done|]. by apply bool_decide_eq_false in H2.
Qed.

Lemma take_drop_word W s : forallb in_word W = true -> word_ends s ->
  take_while in_word (W ++ s) = W /\ drop_while in_word (W ++ s) = s.
Proof.
  intros HW Hs. induction W as [|c W IH]; simpl in *.
  - destruct s as [|c s]; simpl in *; [done|]. by rewrite Hs.
  - apply andb_true_iff in HW as [Hc HW]. rewrite Hc.
    destruct (IH HW) as [-> ->]. done.
Qed.

Lemma upper_word_in_word W : upper_word W -> W <> [] /\ forallb in_word W = true.
Proof.
  intros [Hne Hl]. split; [done|]. clear Hne. induction W as [|c W IH]; simpl in *; [done|].
  apply andb_true_iff in Hl as [Hc Hl]. rewrite IH by done.
  assert (in_word c = true) as ->; [|done].
  destruct c; vm_compute in Hc; try discriminate Hc; reflexivity.
Qed.

Lemma prefix_words_word n W s : upper_word W -> word_ends s ->
  prefix_words (S n) (W ++ s)
  = let '(ws, rest) := prefix_words n s in (W :: ws, rest).
Proof.
  intros Hu Hs. destruct (upper_word_in_word _ Hu) as [Hne Hin].
  destruct (take_drop_word W s Hin Hs) as [Ht Hd]. cbn [prefix_words].
  destruct W as [|c W]; [done|].
  assert (in_word c = true) as Hc by (simpl in Hin; by apply andb_true_iff in Hin as [? _]).
  destruct (in_word_facts _ Hc) as [Hb Hp].
  assert (drop_while is_blank ((c :: W) ++ s) = (c :: W) ++ s) as -> by (simpl; by rewrite Hb).
  cbn [app] in *. rewrite bool_decide_false by done. by rewrite Ht, Hd.
Qed.

Lemma prefix_words_blanks n bl s : Forall (fun b => is_blank b = true) bl ->
  prefix_words (S n) (bl ++ s) = prefix_words (S n) s.
Proof. intros Hb. cbn [prefix_words]. by rewrite drop_while_blanks. Qed.

Lemma word_ends_blanks bl s : bl <> [] -> Forall (fun b => is_blank b = true) bl -> word_ends (bl ++ s).
Proof.
  intros Hne Hb. destruct bl as [|b bl]; [done|]. apply Forall_cons_iff in Hb as [Hb _]. simpl.
  unfold in_word. by rewrite Hb.
Qed.

Lemma prefix_words_separated ws text : separated ws text -> Forall upper_word ws ->
  forall n s, word_ends s ->
  prefix_words (length ws + n) (text ++ s)
  = let '(ws', rest) := prefix_words n s in (ws ++ ws', rest).
Proof.
  induction 1 as [W|W bl ws text Hne Hb Hsep IH]; intros Hu n s Hs;
    apply Forall_cons_iff in Hu as [HW Hu]; cbn [length Nat.add].
  - by rewrite prefix_words_word.
  - rewrite <- !app_assoc, prefix_words_word by (done || by apply word_ends_blanks).
    assert (prefix_words (length ws + n) (bl ++ text ++ s) = prefix_words (length ws + n) (text ++ s)) as ->.
    { destruct Hsep; cbn [length Nat.add]; by apply prefix_words_blanks. }
    rewrite IH by done. by destruct (prefix_words n s).
Qed.

(** A remainder the operation test takes for a word boundary. *)
Definition boundary (t : bytes) : Prop :=
  match t with [] => True | c :: _ => c = space \/ c = open_paren end.

Lemma prefix_words_rest n s rest : prefix_words (S n) s = ([], rest) -> boundary rest.
Proof.
  cbn [prefix_words]. destruct (drop_while is_blank s) as [|c s'] eqn:E; [by intros [= <-]|].
  case_bool_decide as Hc; [intros [= <-]; by right|].
  destruct (prefix_words n _). intros [=].
Qed.

Lemma Join_app_cons sep ws w ws' :
  ws <> [] -> Join sep (ws ++ w :: ws') = Join sep ws ++ sep ++ Join sep (w :: ws').
Proof.
  intros Hne. induction ws as [|x ws IH]; [done|]. destruct ws as [|y ws]; [done|].
  change (Join sep ((x :: y :: ws) ++ w :: ws')) with (x ++ sep ++ Join sep ((y :: ws) ++ w :: ws')).
  rewrite IH by done. cbn [Join]. by rewrite <- !app_assoc.
Qed.

(** The first words, normalised, and a word boundary after them. *)
Lemma normalize_separated ws text s :
  separated ws text -> Forall upper_word ws -> length ws < 4 -> word_ends s ->
  exists t, normalizeWhitespacePrefix (text ++ s) 4 = Join [space] ws ++ t /\ boundary t.
Proof.
  intros Hsep Hu Hl Hs. unfold normalizeWhitespacePrefix.
  pose proof (prefix_words_separated ws text Hsep Hu (4 - length ws) s Hs) as Hp.
  replace (length ws + (4 - length ws)) with 4 in Hp by lia. rewrite Hp.
  destruct (prefix_words (4 - length ws) s) as [ws' rest] eqn:E.
  assert (Hne : ws <> []) by by destruct Hsep.
  destruct ws' as [|w' ws'].
  - exists rest. rewrite app_nil_r. split; [done|].
    replace (4 - length ws) with (S (3 - length ws)) in E by lia. by eapply prefix_words_rest.
  - exists (space :: Join [space] (w' :: ws') ++ rest). split; [|by left].
    rewrite Join_app_cons by done. by rewrite <- !app_assoc.
Qed.

(** Every entry of the table is found: no other entry shadows it. *)
Lemma multiWordOps_found prefix name t :
  List.In (prefix, name) multiWordOps -> boundary t -> operation_of_prefix (prefix ++ t) = name.
Proof.
  intros Hin Ht. unfold multiWordOps in Hin. cbn [map List.In] in Hin.
  destruct t as [|c t]; [|destruct Ht as [->| ->]];
    repeat (destruct Hin as [[= <- <-]|Hin]; [vm_compute; reflexivity|]); done.
Qed.

(** What may stand in front of a statement. *)
Inductive lead_item := LeadBlank (b : byte) | LeadLine (text : bytes) | LeadBlock (body : bytes).

Definition lead_item_ok (l : lead_item) : Prop :=
  match l with
  | LeadBlank b => b ∈ ascii_spaces
  | LeadLine text => Byte.x0a ∉ text
  | LeadBlock body =>
      Index (slash_star ++ body ++ star_slash) star_slash = Some (length (slash_star ++ body))
  end.
Definition render_lead_item (l : lead_item) : bytes :=
  match l with
  | LeadBlank b => [b]
  | LeadLine text => dash_dash ++ text ++ [Byte.x0a]
  | LeadBlock body => slash_star ++ body ++ star_slash
  end.
Definition render_lead (ls : list lead_item) : bytes := concat (map render_lead_item ls).

#[export] Instance lead_item_ok_dec l : Decision (lead_item_ok l).
Proof. destruct l; simpl; apply _. Defined.
#[export] Instance gap_item_ok_dec g : Decision (gap_item_ok g).
Proof. destruct g; simpl; apply _. Defined.

(** The first byte of a statement that is neither white space nor a comment. *)
Definition statement_start (s : bytes) : Prop :=
  match s with
  | [] => False
  | b :: _ => ascii b /\ (b ∉ ascii_spaces) /\ b <> Byte.x2f /\ b <> Byte.x2d
  end.

Lemma TrimSpace_id b s :
  ascii b -> b ∉ ascii_spaces -> no_trailing_space (b :: s) -> TrimSpace (b :: s) = b :: s.
Proof. intros Hb Hs Ht. unfold TrimSpace. rewrite trim_left_word by done. by apply trim_right_id. Qed.

Lemma stripLeading_trimmed s :
  s <> [] -> TrimSpace s = s ->
  stripLeadingComments s =
  if HasPrefix s dash_dash then
    match IndexByte s Byte.x0a with
    | Some idx => stripLeadingComments (drop (idx + 1) s)
    | None => []
    end
  else if HasPrefix s slash_star then
    match Index s star_slash with
    | Some idx => stripLeadingComments (drop (idx + 2) s)
    | None => []
    end
  else s.
Proof. intros Hne Ht. rewrite stripLeadingComments_eq, Ht. by destruct s. Qed.

Lemma stripLeading_start s :
  statement_start s -> no_trailing_space s -> stripLeadingComments s = s /\ TrimSpace s = s.
Proof.
  intros Hst Ht. destruct s as [|b s]; [done|]. destruct Hst as (Hb & Hs & H1 & H2).
  rewrite stripLeadingComments_eq, TrimSpace_id by done. split; [|done]. simpl.
  by rewrite (bool_decide_false (Byte.x2d = b)), (bool_decide_false (Byte.x2f = b)) by congruence.
Qed.

Lemma stripLeading_lead ls s :
  Forall lead_item_ok ls -> statement_start s -> no_trailing_space (render_lead ls ++ s) ->
  stripLeadingComments (render_lead ls ++ s) = s.
Proof.
  intros Hls Hst. induction Hls as [|l ls Hl _ IH]; [intros; by apply stripLeading_start|].
  change (render_lead (l :: ls)) with (render_lead_item l ++ render_lead ls).
  rewrite <- app_assoc. intros Ht. specialize (IH (no_trailing_space_app _ _ Ht)).
  destruct l as [b|text|body]; cbn [render_lead_item lead_item_ok] in *.
  - rewrite stripLeadingComments_eq. rewrite stripLeadingComments_eq in IH.
    unfold TrimSpace. cbn [app]. rewrite trim_left_space by done. exact IH.
  - rewrite <- !app_assoc in *. rewrite stripLeading_trimmed; [|done|apply TrimSpace_id; try done].
    2: { vm_decide. }
    assert (HasPrefix (dash_dash ++ text ++ [Byte.x0a] ++ render_lead ls ++ s) dash_dash = true) as ->
      by apply HasPrefix_app.
    assert (IndexByte (dash_dash ++ text ++ [Byte.x0a] ++ render_lead ls ++ s) Byte.x0a
            = Some (length (dash_dash ++ text))) as ->.
    { rewrite app_assoc. apply IndexByte_app_no. by apply not_elem_of_cons; split; [|apply not_elem_of_cons]. }
    rewrite !(app_assoc _ _ (render_lead ls ++ s)), drop_app_length'; [exact IH|].
    rewrite !length_app. simpl. lia.
  - rewrite <- !app_assoc in *. rewrite stripLeading_trimmed; [|done|apply TrimSpace_id; try done].
    2: { vm_decide. }
    assert (HasPrefix (slash_star ++ body ++ star_slash ++ render_lead ls ++ s) slash_star = true) as ->
      by apply HasPrefix_app.
    assert (HasPrefix (slash_star ++ body ++ star_slash ++ render_lead ls ++ s) dash_dash = false) as ->
      by reflexivity.
    rewrite !(app_assoc _ _ (render_lead ls ++ s)), (Index_app _ _ _ (render_lead ls ++ s) Hl).
    rewrite drop_app_length'; [exact IH|]. rewrite !length_app. simpl. lia.
Qed.

(** What follows the words of an operation: a gap, an open parenthesis, or the
    end of the statement. *)
Definition tail_ok (gs : list gap_item) (tail : bytes) : Prop :=
  Forall gap_item_ok gs /\
  (gs <> [] \/ match tail with [] => True | c :: _ => c = open_paren end).

Lemma tail_word_ends table gs tail :
  tail_ok gs tail -> word_ends (ToUpper table (stripAllBlockComments (render_gap gs ++ tail))).
Proof.
  intros [Hg Ht]. rewrite strip_block_gap by done.
  pose proof (gap_blanks_blank gs Hg) as Hb. rewrite blanks_upper by done.
  destruct gs as [|g gs].
  - destruct Ht as [Ht|Ht]; [done|]. destruct tail as [|c tail]; [done|]. subst c. cbn [gap_blanks map app].
    change (open_paren :: tail) with ([open_paren] ++ tail).
    rewrite strip_block_skip by (vm_decide).
    rewrite ToUpper_ascii_app by (by repeat constructor). reflexivity.
  - by apply word_ends_blanks.
Qed.

Lemma spelled_start ws text s :
  spelled ws text -> Forall upper_word ws -> statement_start (text ++ s).
Proof.
  intros Hsp Hu.
  assert (exists w W t, text = w ++ t /\ map upper_byte w = W /\ upper_word W) as (w & W & t & -> & HW & HuW).
  { destruct Hsp as [w W HW|w W gs ws text HW]; apply Forall_cons_iff in Hu as [Hu _].
    - exists w, W, []. by rewrite app_nil_r.
    - by exists w, W, (render_gap gs ++ text). }
  destruct (upper_word_src _ _ HW HuW) as [Hne Hl]. destruct w as [|b w]; [done|].
  apply Forall_cons_iff in Hl as [Hb _]. apply letter_upper in Hb as (? & ? & ? & ? & ? & ?). done.
Qed.

(** The normalised prefix the operation test sees. *)
Lemma operation_of_spelling table ws ls text gs tail :
  spelled ws text -> Forall upper_word ws -> length ws < 4 ->
  Forall lead_item_ok ls -> tail_ok gs tail ->
  no_trailing_space (render_lead ls ++ text ++ render_gap gs ++ tail) ->
  exists t, extractStatementOperation table (render_lead ls ++ text ++ render_gap gs ++ tail)
            = operation_of_prefix (Join [space] ws ++ t) /\ boundary t.
Proof.
  intros Hsp Hu Hlen Hls Htl Hnt. set (s := text ++ render_gap gs ++ tail) in *.
  pose proof (spelled_start ws text (render_gap gs ++ tail) Hsp Hu : statement_start s) as Hst.
  destruct (spelled_separated table ws text Hsp Hu) as (text' & Hsep & Heq).
  destruct (normalize_separated ws text' _ Hsep Hu Hlen (tail_word_ends table gs tail Htl))
    as (t & En & Hb).
  exists t. split; [|done]. unfold extractStatementOperation.
  rewrite stripLeading_lead by done.
  destruct (stripLeading_start s Hst (no_trailing_space_app _ _ Hnt)) as [_ ->].
  rewrite <- En, <- Heq. fold s. by destruct s.
Qed.

(** The words of the table are upper-case words, at most three of them. *)
Lemma multiWordOps_words prefix name :
  List.In (prefix, name) multiWordOps ->
  Forall upper_word (SplitByte space prefix) /\ length (SplitByte space prefix) < 4.
Proof.
  intros Hin.
  assert (Ha : forallb (fun op => forallb (fun w => bool_decide (w <> []) && forallb letter w)
                                    (SplitByte space op.1)
                          && (length (SplitByte space op.1) <? 4)%nat) multiWordOps = true)
    by (vm_compute; reflexivity).
  rewrite List.forallb_forall in Ha. specialize (Ha _ Hin). simpl in Ha.
  apply andb_true_iff in Ha as [Hw Hl]. split; [|by apply Nat.ltb_lt].
  rewrite List.forallb_forall in Hw. apply List.Forall_forall. intros w Hw'.
  specialize (Hw _ Hw'). apply andb_true_iff in Hw as [H1 H2]. split; [|done].
  by apply bool_decide_eq_true in H1.
Qed.

(** ** Single-word operations *)

Lemma take_while_app f (w t : bytes) :
  forallb f w = true -> match t with [] => True | c :: _ => f c = false end ->
  take_while f (w ++ t) = w.
Proof.
  intros Hw Ht. induction w as [|c w IH]; simpl in *.
  - destruct t as [|c t]; simpl; [done|]. by rewrite Ht.
  - apply andb_true_iff in Hw as [-> Hw]. by rewrite IH.
Qed.

Lemma boundary_not_letter t : boundary t -> match t with [] => True | c :: _ => letter c = false end.
Proof. destruct t as [|c t]; [done|]. by intros [-> | ->]. Qed.

(** The first words of the table. *)
Definition multi_first : list bytes := map (fun op => take_while letter op.1) multiWordOps.

Lemma op_matches_first W t op :
  upper_word W -> boundary t -> List.In op multiWordOps ->
  op_matches (W ++ t) op.1 = true -> W ∈ multi_first.
Proof.
  intros [Hne HW] Ht Hin Hm. apply andb_true_iff in Hm as [Hp _].
  apply HasPrefix_spec in Hp as [k Hk].
  assert (Hsplit : exists first rest, op.1 = first ++ space :: rest /\ forallb letter first = true).
  { assert (Ha : forallb (fun op => bool_decide
        (op.1 = take_while letter op.1 ++ space :: drop (S (length (take_while letter op.1))) op.1)
        && forallb letter (take_while letter op.1)) multiWordOps = true) by (vm_compute; reflexivity).
    rewrite List.forallb_forall in Ha. apply Ha, andb_true_iff in Hin as [H1 H2].
    apply bool_decide_eq_true in H1. eauto. }
  destruct Hsplit as (first & rest & E & Hf).
  assert (W = first) as ->.
  { apply (f_equal (take_while letter)) in Hk. rewrite E, <- app_assoc in Hk.
    rewrite take_while_app in Hk by (done || by apply boundary_not_letter).
    by rewrite take_while_app in Hk. }
  unfold multi_first. apply list_elem_of_In, List.in_map_iff. exists op. split; [|done].
  rewrite E. by apply take_while_app.
Qed.

Lemma single_word_found W t :
  upper_word W -> W ∉ multi_first -> boundary t -> operation_of_prefix (W ++ t) = W.
Proof.
  intros HW Hnot Ht. unfold operation_of_prefix.
  destruct (List.find _ multiWordOps) as [op|] eqn:E.
  { apply List.find_some in E as [Hin Hm]. exfalso. apply Hnot. by eapply op_matches_first. }
  destruct HW as [Hne HW].
  assert (Hi : IndexAny (W ++ t) [space; open_paren]
               = match t with [] => None | _ => Some (length W) end).
  { clear Hne Hnot E. induction W as [|c W IH]; simpl.
    - destruct t as [|c t]; [done|]. simpl. by destruct Ht as [-> | ->].
    - simpl in HW. apply andb_true_iff in HW as [Hc HW].
      rewrite bool_decide_false, IH by (done || destruct c; vm_compute in Hc; try discriminate Hc;
        vm_decide).
      by destruct t. }
  rewrite Hi. destruct t as [|c t]; [by rewrite app_nil_r|].
  destruct (length W) eqn:El; [by destruct W|]. rewrite <- El. by apply take_app_length.
Qed.

(** ** The lexical structure of a statement

    What the scanner takes a statement to be: plain bytes, escaped bytes, and
    quoted strings, in which only the closing quote and the backslash are
    special. *)

Inductive qchar := QPlain (b : byte) | QEscaped (b : byte).
Inductive lexeme := Plain (b : byte) | Escaped (b : byte) | Quoted (q : byte) (body : list qchar).

Definition qchar_ok (q : byte) (c : qchar) : Prop :=
  match c with QPlain b => b <> q /\ b <> backslash | QEscaped _ => True end.
Definition lexeme_ok (l : lexeme) : Prop :=
  match l with
  | Plain b => b ∉ [backslash; quote1; quote2; backtick; semicolon]
  | Escaped _ => True
  | Quoted q body => (q ∈ [quote1; quote2; backtick]) /\ Forall (qchar_ok q) body
  end.

Definition render_qchar (c : qchar) : bytes :=
  match c with QPlain b => [b] | QEscaped b => [backslash; b] end.
Definition render_lexeme (l : lexeme) : bytes :=
  match l with
  | Plain b => [b]
  | Escaped b => [backslash; b]
  | Quoted q body => q :: concat (map render_qchar body) ++ [q]
  end.
Definition render (ls : list lexeme) : bytes := concat (map render_lexeme ls).

#[export] Instance qchar_ok_dec q c : Decision (qchar_ok q c).
Proof. destruct c; simpl; apply _. Defined.
#[export] Instance lexeme_ok_dec l : Decision (lexeme_ok l).
Proof. destruct l; simpl; apply _. Defined.

(** The scanner outside quotes, and inside the quote [q]. *)
Definition outside (stmts : list bytes) (cur : bytes) : split_state :=
  MkSplit stmts cur false false false false.
Definition inside (q : byte) (stmts : list bytes) (cur : bytes) : split_state :=
  MkSplit stmts cur (bool_decide (q = quote1)) (bool_decide (q = quote2))
    (bool_decide (q = backtick)) false.

Lemma scan_qchar q c stmts cur :
  q ∈ [quote1; quote2; backtick] -> qchar_ok q c ->
  foldl split_byte (inside q stmts cur) (render_qchar c) = inside q stmts (cur ++ render_qchar c).
Proof.
  intros Hq Hc. assert (q = quote1 \/ q = quote2 \/ q = backtick) as Hq'.
  { rewrite !elem_of_cons, elem_of_nil in Hq. tauto. }
  destruct c as [b|b]; simpl in *.
  - destruct Hc as [Hb Hbs]. unfold inside, split_byte. rewrite (bool_decide_false (b = backslash)) by done.
    destruct Hq' as [->|[->| ->]];
      [rewrite (bool_decide_false (b = quote1)) by done
      |rewrite (bool_decide_false (b = quote2)) by done
      |rewrite (bool_decide_false (b = backtick)) by done];
      simpl; rewrite ?andb_false_r; simpl; rewrite ?andb_false_r; done.
  - unfold inside. simpl. by rewrite <- app_assoc.
Qed.

Lemma scan_body q body stmts : forall cur,
  q ∈ [quote1; quote2; backtick] -> Forall (qchar_ok q) body ->
  foldl split_byte (inside q stmts cur) (concat (map render_qchar body))
  = inside q stmts (cur ++ concat (map render_qchar body)).
Proof.
  induction body as [|c body IH]; intros cur Hq Hb; simpl; [by rewrite app_nil_r|].
  apply Forall_cons_iff in Hb as [Hc Hb].
  by rewrite foldl_app, scan_qchar, IH, app_assoc.
Qed.

Lemma scan_lexeme l stmts cur :
  lexeme_ok l -> foldl split_byte (outside stmts cur) (render_lexeme l)
                 = outside stmts (cur ++ render_lexeme l).
Proof.
  intros Hl. destruct l as [b|b|q body]; cbn [render_lexeme lexeme_ok foldl] in *.
  - rewrite !not_elem_of_cons in Hl. destruct Hl as (H1 & H2 & H3 & H4 & H5 & _).
    unfold outside, split_byte. by rewrite !bool_decide_false.
  - unfold outside. simpl. by rewrite <- app_assoc.
  - destruct Hl as [Hq Hb].
    assert (split_byte (outside stmts cur) q = inside q stmts (cur ++ [q])) as ->.
    { rewrite !elem_of_cons, elem_of_nil in Hq. by destruct Hq as [->|[->|[->|[]]]]. }
    rewrite foldl_app, scan_body by done. cbn [foldl].
    rewrite !elem_of_cons, elem_of_nil in Hq.
    assert (forall c, split_byte (inside q stmts c) q = outside stmts (c ++ [q])) as ->
      by (intros c; by destruct Hq as [->|[->|[->|[]]]]).
    by rewrite <- !app_assoc.
Qed.

Lemma scan_render ls stmts : forall cur,
  Forall lexeme_ok ls -> foldl split_byte (outside stmts cur) (render ls) = outside stmts (cur ++ render ls).
Proof.
  unfold render. induction ls as [|l ls IH]; intros cur Hl; simpl; [by rewrite app_nil_r|].
  apply Forall_cons_iff in Hl as [Hl Hls]. by rewrite foldl_app, scan_lexeme, IH, app_assoc.
Qed.

Lemma scan_semicolon stmts cur : split_byte (outside stmts cur) semicolon = outside (end_statement stmts cur) [].
Proof. done. Qed.

(** The statements of a text: the parts between semicolons outside quotes,
    trimmed, the empty ones left out. *)
Definition statements_of (parts : list bytes) : list bytes :=
  List.filter (fun p => bool_decide (p <> [])) (map TrimSpace parts).

Lemma end_statement_eq stmts cur : end_statement stmts cur = stmts ++ statements_of [cur].
Proof.
  unfold end_statement, statements_of. simpl. by destruct (TrimSpace cur); simpl; rewrite ?app_nil_r.
Qed.

Lemma splitStatements_join parts : forall stmts,
  Forall (Forall lexeme_ok) parts -> parts <> [] ->
  let st := foldl split_byte (outside stmts []) (Join [semicolon] (map render parts)) in
  end_statement (sp_statements st) (sp_current st) = stmts ++ statements_of (map render parts).
Proof.
  induction parts as [|p parts IH]; intros stmts Hok Hne; [done|].
  apply Forall_cons_iff in Hok as [Hp Hok]. destruct parts as [|p' parts].
  - cbn [map Join]. rewrite scan_render by done. simpl. apply end_statement_eq.
  - change (Join [semicolon] (map render (p :: p' :: parts)))
      with (render p ++ [semicolon] ++ Join [semicolon] (map render (p' :: parts))).
    rewrite !foldl_app, scan_render by done. cbn [foldl]. rewrite scan_semicolon, IH by done.
    rewrite end_statement_eq, <- app_assoc. f_equal.
    unfold statements_of. cbn [map]. by rewrite <- List.filter_app.
Qed.

Lemma splitStatements_spec parts :
  Forall (Forall lexeme_ok) parts -> parts <> [] ->
  splitStatements (Join [semicolon] (map render parts)) = statements_of (map render parts).
Proof. intros Hok Hne. exact (splitStatements_join parts [] Hok Hne). Qed.

Lemma statements_of_app ps qs : statements_of (ps ++ qs) = statements_of ps ++ statements_of qs.
Proof. unfold statements_of. by rewrite map_app, List.filter_app. Qed.

Lemma find_none_app {A} (f : A -> bool) l l' :
  List.find f l = None -> List.find f (l ++ l') = List.find f l'.
Proof. induction l as [|x l IH]; simpl; [done|]. by destruct (f x). Qed.

(** ** What the configuration asks for *)

Section decision.
Context `{RegexpLib Regexp} (upper_table : Z -> Z).

Definition config_ops (config : Config) : list bytes :=
  map (ToUpper upper_table) (statements_of (ShadowFilterSQLOperations config)).
Definition config_patterns (config : Config) : list bytes :=
  statements_of (ShadowFilterPatterns config).

(** The query's operation is one of those configured; one of the configured
    patterns matches it. *)
Definition listed (config : Config) (text : bytes) : Prop :=
  ExtractPrimarySQLOperation upper_table text ∈ config_ops config.
Definition matched (config : Config) (text : bytes) : Prop :=
  exists p re, p ∈ config_patterns config /\ Compile p = inl re /\ MatchString re text = true.

Lemma add_operations ops : forall acc,
  foldl (add_operation upper_table) acc ops
  = list_to_set (map (ToUpper upper_table) (statements_of ops)) ∪ acc.
Proof.
  induction ops as [|op ops IH]; intros acc; simpl; [set_solver|].
  rewrite IH. unfold add_operation, statements_of. simpl.
  destruct (TrimSpace op) as [|b op']; simpl; [done|]. set_solver.
Qed.

Context (lower_table : Z -> Z) (fmt_4f : float64 -> string) (fmt_q : bytes -> string).

Lemma compile_patterns_ok ps res : compile_patterns fmt_q ps = inl res ->
  Forall2 (fun p re => Compile p = inl re) (statements_of ps) res.
Proof.
  revert res. induction ps as [|p ps IH]; intros res; simpl; [intros [= <-]; constructor|].
  unfold statements_of in *. simpl. destruct (TrimSpace p) as [|b p'] eqn:E; [apply IH|].
  rewrite bool_decide_true by done.
  destruct (Compile (b :: p')) as [re|err] eqn:Ec; [|done].
  destruct (compile_patterns fmt_q ps) as [res'|err]; [|done].
  intros [= <-]. constructor; [done|]. by apply IH.
Qed.

(** The filter built from a configuration. *)
Lemma NewQueryFilter_fields config f :
  NewQueryFilter upper_table lower_table fmt_4f fmt_q config = inl (Some f) ->
  qf_sqlOperations f = list_to_set (config_ops config) /\
  Forall2 (fun p re => Compile p = inl re) (config_patterns config) (qf_patterns f) /\
  qf_sampleRate f = ShadowSampleRate config /\
  (qf_mode f = B "include" \/ qf_mode f = B "exclude") /\
  (qf_mode f = B "exclude" <-> ToLower lower_table (ShadowFilterMode config) = B "exclude").
Proof.
  unfold NewQueryFilter. destruct (_ && _ && _ && _); [done|]. destruct (_ || _); [done|].
  set (mode := match ToLower lower_table (ShadowFilterMode config) with [] => _ | m => m end).
  destruct (bool_decide (mode <> B "include") && _) eqn:Em; [done|].
  destruct (compile_patterns fmt_q _) as [pats|err] eqn:Ep; [|done]. intros [= <-]. simpl.
  split_and!; [|by apply compile_patterns_ok|done| |].
  - rewrite add_operations. set_solver.
  - apply andb_false_iff in Em as [Em|Em]; apply bool_decide_eq_false in Em; [left|right];
      by apply dec_stable.
  - subst mode. by destruct (ToLower lower_table (ShadowFilterMode config)).
Qed.

Lemma matchAnyPattern_spec config f text :
  Forall2 (fun p re => Compile p = inl re) (config_patterns config) (qf_patterns f) ->
  matchAnyPattern f text = true <-> matched config text.
Proof.
  unfold matchAnyPattern, matched. intros HF. rewrite List.existsb_exists. split.
  - intros (re & Hre & Hm). apply list_elem_of_In, list_elem_of_lookup in Hre as [i Hi].
    destruct (Forall2_lookup_r _ _ _ _ _ HF Hi) as (p & Hp & Hc).
    exists p, re. split; [by eapply list_elem_of_lookup_2|done].
  - intros (p & re & Hp & Hc & Hm). apply list_elem_of_lookup in Hp as [i Hi].
    destruct (Forall2_lookup_l _ _ _ _ _ HF Hi) as (re' & Hre & Hc').
    exists re. split; [|done]. apply list_elem_of_In. rewrite Hc in Hc'. simplify_eq.
    by eapply list_elem_of_lookup_2.
Qed.

(** Whether a roll keeps a query: always, at a rate of 1. *)
Definition sampled (rate roll : float64) : bool := negb (f_lt rate f_one && f_ge roll rate).

Lemma Allow_text f roll req :
  qr_QueryText req <> [] ->
  (Allow upper_table f roll req).1
  = (passesFilter upper_table f req).1 && sampled (qf_sampleRate f) roll.
Proof.
  intros Hne. unfold Allow, sampled. destruct (qr_QueryText req); [done|].
  destruct (passesFilter upper_table f req) as [[|] reason]; simpl; [|done].
  by destruct (_ && _).
Qed.

(** The decision of [passesFilter], from the configuration. *)
Lemma passesFilter_spec config f req :
  NewQueryFilter upper_table lower_table fmt_4f fmt_q config = inl (Some f) ->
  (passesFilter upper_table f req).1 = true <->
  if bool_decide (ToLower lower_table (ShadowFilterMode config) = B "exclude")
  then ~ listed config (qr_QueryText req) /\ ~ matched config (qr_QueryText req)
  else (config_ops config = [] \/ listed config (qr_QueryText req)) /\
       (config_patterns config = [] \/ matched config (qr_QueryText req)).
Proof.
  intros Hf. destruct (NewQueryFilter_fields _ _ Hf) as (Hops & Hpat & _ & Hmode & Hex).
  pose proof (matchAnyPattern_spec config f (qr_QueryText req) Hpat) as Hm.
  assert (Hl : op_listed upper_table f (qr_QueryText req) = true <-> listed config (qr_QueryText req)).
  { unfold op_listed, listed. rewrite bool_decide_eq_true, Hops. by rewrite elem_of_list_to_set. }
  assert (Ho : 0 < size (qf_sqlOperations f) <-> config_ops config <> []).
  { rewrite Hops. destruct (config_ops config) as [|o os].
    - change (list_to_set []) with (∅ : gset bytes). rewrite size_empty. split; [lia|done].
    - rewrite list_to_set_cons, size_union_alt, size_singleton. split; [done|lia]. }
  assert (Hp : 0 < length (qf_patterns f) <-> config_patterns config <> []).
  { apply Forall2_length in Hpat. rewrite <- Hpat. destruct (config_patterns config); simpl; split; (done || lia). }
  unfold passesFilter, matchInclude, matchExclude. destruct Hmode as [Hi|He].
  - assert (bool_decide (ToLower lower_table (ShadowFilterMode config) = B "exclude") = false) as ->.
    { apply bool_decide_false. intros E. apply Hex in E. by rewrite Hi in E. }
    rewrite bool_decide_true by done.
    destruct (decide (config_ops config = [])), (decide (config_patterns config = []));
      repeat case_bool_decide; simpl; destruct (op_listed _ _ _), (matchAnyPattern _ _); simpl;
      naive_solver.
  - rewrite (bool_decide_true (ToLower _ _ = _)) by by apply Hex. rewrite He.
    rewrite bool_decide_false, bool_decide_true by done.
    assert (Hl0 : listed config (qr_QueryText req) -> config_ops config <> []).
    { unfold listed. by destruct (config_ops config); [intros ?%elem_of_nil|]. }
    assert (Hm0 : matched config (qr_QueryText req) -> config_patterns config <> []).
    { intros (p & re & Hin & _). by destruct (config_patterns config); [apply elem_of_nil in Hin|]. }
    repeat case_bool_decide; simpl; destruct (op_listed _ _ _), (matchAnyPattern _ _); simpl;
      naive_solver.
Qed.
End decision.

(** The operation of the part of a query between two semicolons. *)
Definition part_operation (upper_table : Z -> Z) (part : bytes) : bytes :=
  extractStatementOperation upper_table (TrimSpace part).

(** A part that does not decide: empty, a comment, or session set-up. *)
Definition is_preamble (upper_table : Z -> Z) (part : bytes) : Prop :=
  part_operation upper_table part = [] \/ (part_operation upper_table part ∈ preambleOperations).

#[export] Instance is_preamble_dec t part : Decision (is_preamble t part).
Proof. unfold is_preamble. apply _. Defined.

Lemma find_preambles table parts :
  Forall (is_preamble table) parts ->
  List.find (fun op => bool_decide (op <> []) && bool_decide (op ∉ preambleOperations))
    (map (extractStatementOperation table) (reverse (statements_of parts))) = None.
Proof.
  induction 1 as [|p parts Hp _ IH]; [done|].
  change (p :: parts) with ([p] ++ parts). rewrite statements_of_app, reverse_app, map_app.
  rewrite find_none_app by done. unfold statements_of. cbn [map List.filter].
  destruct (bool_decide (TrimSpace p <> [])); [|done]. cbn [map List.find reverse rev_append].
  unfold is_preamble, part_operation in Hp. destruct Hp as [-> |Hp]; [done|].
  rewrite (bool_decide_false (_ ∉ preambleOperations)) by (by intros ?).
  by rewrite andb_false_r.
Qed.

(** ** Properties *)

(** C26: A multi-word operation is recognised however it is written. For every
    entry of the table (SUBMIT TASK, INSERT OVERWRITE, CREATE MATERIALIZED VIEW,
    ...), its words in any mixture of cases, with any blanks and block comments
    between them (optimizer hints included), after any white space, line comments
    and block comments, and followed by a gap, an open parenthesis or the end of
    the statement, give the operation's canonical name - whatever the rest of the
    statement is. *)
Theorem operation_detected table prefix name ls text gs tail :
  List.In (prefix, name) multiWordOps -> spelled (SplitByte space prefix) text ->
  Forall lead_item_ok ls -> tail_ok gs tail ->
  no_trailing_space (render_lead ls ++ text ++ render_gap gs ++ tail) ->
  extractStatementOperation table (render_lead ls ++ text ++ render_gap gs ++ tail) = name.
Proof.
  intros Hin Hsp Hls Htl Hnt. destruct (multiWordOps_words _ _ Hin) as [Hu Hl].
  destruct (operation_of_spelling table _ ls text gs tail Hsp Hu Hl Hls Htl Hnt) as (t & -> & Hb).
  rewrite Join_SplitByte. by apply multiWordOps_found.
Qed.

(** [-- nightly load], a newline, [Submit /*+set_var(query_timeout=300)*/ TASK AS ...] *)
Lemma operation_detected_witness :
  extractStatementOperation (fun r => r)
    (render_lead [LeadLine (B " nightly load"); LeadBlank Byte.x09] ++
     (B "Submit" ++ render_gap [Blank Byte.x20; BlockComment (B "+set_var(query_timeout=300)"); Blank Byte.x0a]
      ++ B "TASK") ++ render_gap [Blank Byte.x20] ++ B "AS INSERT INTO t SELECT 1")
  = B "SUBMIT_TASK".
Proof.
  apply (operation_detected (fun r => r) (B "SUBMIT TASK") (B "SUBMIT_TASK")).
  - by left.
  - apply spelled_more; [reflexivity|done| |by constructor].
    vm_decide.
  - vm_decide.
  - split; [vm_decide|by left].
  - vm_compute. reflexivity.
Defined.

(** A statement that starts with any other keyword has that keyword, in upper
    case, as its operation (SELECT, DELETE, UPDATE, USE, WITH, EXPLAIN, ...), with
    the same tolerance for case, white space and comments. *)
Theorem single_word_operation table W ls w gs tail :
  upper_word W -> W ∉ multi_first -> map upper_byte w = W ->
  Forall lead_item_ok ls -> tail_ok gs tail ->
  no_trailing_space (render_lead ls ++ w ++ render_gap gs ++ tail) ->
  extractStatementOperation table (render_lead ls ++ w ++ render_gap gs ++ tail) = W.
Proof.
  intros HW Hnot Hw Hls Htl Hnt.
  destruct (operation_of_spelling table [W] ls w gs tail (spelled_last _ _ Hw)
              ltac:(constructor; [exact HW|constructor]) ltac:(simpl; lia) Hls Htl Hnt) as (t & -> & Hb).
  by apply single_word_found.
Qed.

Lemma single_word_operation_witness :
  extractStatementOperation (fun r => r)
    (render_lead [LeadBlock (B " report ")] ++ B "sElect" ++ render_gap [] ++ B "(1)") = B "SELECT".
Proof.
  apply (single_word_operation (fun r => r) (B "SELECT")).
  - split; [done|reflexivity].
  - vm_decide.
  - reflexivity.
  - vm_decide.
  - split; [constructor|by right].
  - vm_compute. reflexivity.
Defined.

(** C25: Statements are split at exactly the semicolons outside quotes. For texts
    made of plain bytes, escaped bytes and single-, double- or backtick-quoted
    strings (which may contain semicolons, the other quotes and escapes), joining
    them with semicolons and splitting gives them back, trimmed, without the
    empty ones. *)
Theorem split_respects_quotes parts :
  Forall (Forall lexeme_ok) parts -> parts <> [] ->
  splitStatements (Join [semicolon] (map render parts)) = statements_of (map render parts).
Proof. apply splitStatements_spec. Qed.

Definition plain (s : string) : list lexeme := map Plain (B s).

Lemma split_respects_quotes_witness :
  splitStatements (Join [semicolon] (map render
    [plain "SELECT "%string ++ [Quoted quote1 [QPlain semicolon; QEscaped quote1; QPlain quote2]];
     plain "  "%string; plain " USE "%string ++ [Quoted backtick [QPlain semicolon]]]))
  = statements_of (map render
    [plain "SELECT "%string ++ [Quoted quote1 [QPlain semicolon; QEscaped quote1; QPlain quote2]];
     plain "  "%string; plain " USE "%string ++ [Quoted backtick [QPlain semicolon]]]).
Proof.
  apply split_respects_quotes; [|done]. vm_decide.
Defined.

(** The primary operation of a query is that of its last statement that is not
    session set-up: SET, SET CATALOG and USE statements, empty statements and
    comments after it (and any statements before it) do not change it. *)
Theorem primary_operation_skips_preamble table before main after :
  Forall (Forall lexeme_ok) (before ++ main :: after) ->
  Forall (is_preamble table) (map render after) ->
  ~ is_preamble table (render main) -> TrimSpace (render main) <> [] ->
  ExtractPrimarySQLOperation table (Join [semicolon] (map render (before ++ main :: after)))
  = part_operation table (render main).
Proof.
  intros Hok Haft Hmain Hne. unfold ExtractPrimarySQLOperation.
  rewrite splitStatements_spec by (done || by destruct before).
  rewrite map_app. cbn [map]. rewrite (statements_of_app (map render before)).
  change (render main :: map render after) with ([render main] ++ map render after).
  rewrite statements_of_app, !reverse_app, !map_app, <- app_assoc.
  rewrite find_none_app by by apply find_preambles.
  unfold statements_of at 1. cbn [map List.filter]. rewrite bool_decide_true by done.
  cbn [map List.find app reverse rev_append]. unfold is_preamble, part_operation in *.
  by rewrite !bool_decide_true by tauto.
Qed.

Lemma primary_operation_skips_preamble_witness :
  ExtractPrimarySQLOperation (fun r => r)
    (Join [semicolon] (map render ([plain "SET CATALOG c"; plain " USE s"]%string ++
       plain " insert overwrite t SELECT 1"%string :: [plain " SET x = 2"; plain " "]%string)))
  = part_operation (fun r => r) (render (plain " insert overwrite t SELECT 1")).
Proof.
  apply (primary_operation_skips_preamble (fun r => r)
           [plain "SET CATALOG c"; plain " USE s"]%string (plain " insert overwrite t SELECT 1")
           [plain " SET x = 2"; plain " "]%string);
    vm_decide.
Defined.

(** C23: The filter decides as the configuration says. For every filter
    [NewQueryFilter] builds and every query with text: in exclude mode the query is
    mirrored iff its operation is not listed, no pattern matches, and sampling
    keeps it; in include mode iff its operation is listed (or none is configured),
    a pattern matches (or none is configured), and sampling keeps it. A command
    without query text is always mirrored. *)
Theorem filter_decides_by_config `{RegexpLib Regexp} upper_table lower_table fmt_4f fmt_q config
    (f : QueryFilter Regexp) roll req :
  NewQueryFilter upper_table lower_table fmt_4f fmt_q config = inl (Some f) ->
  let text := qr_QueryText req in
  (Allow upper_table f roll req).1 = true <->
  text = [] \/
  (sampled (ShadowSampleRate config) roll = true /\
   if bool_decide (ToLower lower_table (ShadowFilterMode config) = B "exclude")
   then ~ listed upper_table config text /\ ~ matched config text
   else (config_ops upper_table config = [] \/ listed upper_table config text) /\
        (config_patterns config = [] \/ matched config text)).
Proof.
  intros Hf text. destruct (decide (text = [])) as [E|E].
  { unfold Allow. subst text. rewrite E. split; [by left|done]. }
  rewrite Allow_text by done. rewrite andb_true_iff, (passesFilter_spec _ _ _ _ _ _ _ Hf).
  destruct (NewQueryFilter_fields _ _ _ _ _ _ Hf) as (_ & _ & -> & _ & _).
  subst text. tauto.
Qed.

(** Literal patterns, as an instance of the regular-expression interface. *)
Definition literal_regexp : RegexpLib bytes :=
  {| Compile := inl; MatchString := fun re s => bool_decide (Index s re <> None) |}.

Definition no_config : Config :=
  loadConfig (fun _ => []) (fun r => r) (fun _ => None).

(** Exclude INSERT_OVERWRITE and everything that mentions [secret]. *)
Definition exclude_config : Config :=
  loadConfig (fun key =>
      if bool_decide (key = B "SHADOW_FILTER_MODE") then B "Exclude"
      else if bool_decide (key = B "SHADOW_FILTER_SQL_OPERATIONS") then B " insert_overwrite ,,"
      else if bool_decide (key = B "SHADOW_FILTER_PATTERNS") then B "secret"
      else []) (fun r => r) (fun _ => None).

Definition exclude_filter : QueryFilter bytes :=
  MkFilter (B "exclude") (list_to_set [B "INSERT_OVERWRITE"]) [B "secret"] f_one.

Definition query_request (text : bytes) : QueryRequest :=
  NewQueryRequest (B "id") 0 (MySQLProtocol.mk_packet Byte.x00 (Byte.x03 :: text)) (B "10.0.0.1:5000").

Lemma filter_decides_by_config_witness :
  (Allow (H := literal_regexp) (fun r => r) exclude_filter f_zero (query_request (B "SELECT 1"))).1 = true.
Proof.
  apply (filter_decides_by_config (H := literal_regexp) (fun r => r) (fun r => r) (fun _ => EmptyString)
           (fun _ => EmptyString) exclude_config exclude_filter f_zero (query_request (B "SELECT 1"))).
  - vm_compute. reflexivity.
  - right. split; [vm_compute; reflexivity|].
    replace (bool_decide (ToLower _ _ = _)) with true by (vm_compute; reflexivity).
    split.
    + unfold listed. vm_decide.
    + intros (p & re & Hp & [= <-] & Hm). assert (config_patterns exclude_config = [B "secret"]) as Ep
        by (vm_compute; reflexivity). rewrite Ep in Hp.
      apply list_elem_of_singleton in Hp as ->. vm_compute in Hm. discriminate Hm.
Defined.

(** [/*/] in front of a statement hides nothing. In SQL the slash after the
    star belongs to the comment, which goes on to the next [*/]; the leading-comment
    stripper takes the three bytes for a complete comment, so what follows them -
    commented out for the server - decides the operation. *)
Theorem slash_star_slash_is_a_comment table s :
  statement_start s -> no_trailing_space ([Byte.x2f; Byte.x2a; Byte.x2f] ++ s) ->
  extractStatementOperation table ([Byte.x2f; Byte.x2a; Byte.x2f] ++ s)
  = extractStatementOperation table s.
Proof.
  intros Hs Ht. unfold extractStatementOperation.
  destruct (stripLeading_start s Hs (no_trailing_space_app _ _ Ht)) as [E _].
  assert (stripLeadingComments ([Byte.x2f; Byte.x2a; Byte.x2f] ++ s) = stripLeadingComments s) as ->; [|done].
  rewrite stripLeading_trimmed; [reflexivity|done|].
  apply TrimSpace_id; [done| |done]. vm_decide.
Qed.

Lemma slash_star_slash_is_a_comment_witness :
  extractStatementOperation (fun r => r) ([Byte.x2f; Byte.x2a; Byte.x2f] ++ B "DROP TABLE t */ SELECT 1")
  = extractStatementOperation (fun r => r) (B "DROP TABLE t */ SELECT 1").
Proof.
  apply (slash_star_slash_is_a_comment (fun r => r) (B "DROP TABLE t */ SELECT 1")).
  - split_and!; [reflexivity| |done|done]. vm_decide.
  - vm_compute. reflexivity.
Defined.
