(* ===== verification/FilterText.v ===== *)
(** * The description of a filter ([QueryFilter.String], src/query_filter.go)

    The text start-up logs for the filter. It lists the operations of a map, which Go
    iterates in an arbitrary order, after sorting them. The text of a compiled
    pattern and of [%.4f] are arguments. *)

From stdpp Require Import sorting.
From S2P Require Import Prelude GoStrings GoFloat QueryFilter.

(** Go's order on strings: bytewise, a prefix first. *)
Fixpoint bytes_le (a b : bytes) : bool :=
  match a, b with
  | [], _ => true
  | _ :: _, [] => false
  | x :: a, y :: b => (u8 x <? u8 y)%Z || ((u8 x =? u8 y)%Z && bytes_le a b)
  end.

#[export] Instance bytes_le_dec a b : Decision (bytes_le a b = true).
Proof. apply _. Defined.

Abbreviation string_order := (fun a b => bytes_le a b = true).

Lemma bytes_le_cons x a y b :
  bytes_le (x :: a) (y :: b) = true <-> (u8 x < u8 y)%Z \/ x = y /\ bytes_le a b = true.
Proof.
  cbn [bytes_le]. rewrite orb_true_iff, andb_true_iff, Z.ltb_lt, Z.eqb_eq. split; intros [?|[H ?]]; auto.
  - right. split; [by apply u8_inj|done].
  - right. by rewrite H.
Qed.

#[export] Instance bytes_le_trans : Transitive string_order.
Proof.
  intros a. induction a as [|x a IH]; intros [|y b] [|z c]; try done.
  rewrite !bytes_le_cons. intros [?|[-> ?]] [?|[-> ?]]; [left; lia|by left|by left|right]. split; [done|]. by eapply IH.
Qed.

#[export] Instance bytes_le_antisymm : AntiSymm (=) string_order.
Proof.
  intros a. induction a as [|x a IH]; intros [|y b]; try done.
  rewrite !bytes_le_cons. intros [?|[-> ?]] [?|[? ?]]; [lia|subst; lia|lia|]. f_equal. by apply IH.
Qed.

#[export] Instance bytes_le_total : Total string_order.
Proof.
  intros a. induction a as [|x a IH]; intros [|y b]; [by left|by left|by right|].
  rewrite !bytes_le_cons. destruct (Z.lt_total (u8 x) (u8 y)) as [?|[E%u8_inj|?]]; [by left; left| |by right; left].
  subst y. destruct (IH b); [left|right]; right; done.
Qed.

(** [sort.Strings] *)
Definition sort_Strings (l : list bytes) : list bytes := merge_sort string_order l.

Section text.
Context {Regexp : Type} (regexp_text : Regexp -> bytes) (fmt_4f : float64 -> bytes).

(** [String]; [order] is the order in which the loop over the map brings its keys. *)
Definition filter_String (f : QueryFilter Regexp) (order : list bytes) : bytes :=
  let parts := [B "mode=" ++ qf_mode f] in
  let parts := if bool_decide (0 < size (qf_sqlOperations f))
               then parts ++ [B "sql_operations=[" ++ Join (B ",") (sort_Strings order) ++ B "]"] else parts in
  let parts := if bool_decide (0 < length (qf_patterns f))
               then parts ++ [B "patterns=[" ++ Join (B ",") (map regexp_text (qf_patterns f)) ++ B "]"] else parts in
  let parts := if f_lt (qf_sampleRate f) f_one then parts ++ [B "sample_rate=" ++ fmt_4f (qf_sampleRate f)] else parts in
  Join (B ", ") parts.
End text.

Lemma sort_Strings_permutation l l' : l ≡ₚ l' -> sort_Strings l = sort_Strings l'.
Proof.
  intros Hp. unfold sort_Strings. apply (StronglySorted_unique string_order).
  - apply StronglySorted_merge_sort; apply _.
  - apply StronglySorted_merge_sort; apply _.
  - by rewrite !merge_sort_Permutation.
Qed.

(** ** Properties *)

(** The description of a filter is deterministic: it does not depend on the order
    in which Go iterates over the map of operations, and lists each of them once, in
    increasing order. *)
Theorem filter_text_deterministic {Regexp} (regexp_text : Regexp -> bytes) fmt_4f (f : QueryFilter Regexp) order order' :
  order ≡ₚ elements (qf_sqlOperations f) -> order' ≡ₚ elements (qf_sqlOperations f) ->
  filter_String regexp_text fmt_4f f order = filter_String regexp_text fmt_4f f order' /\
  sort_Strings order ≡ₚ elements (qf_sqlOperations f) /\ StronglySorted string_order (sort_Strings order).
Proof.
  intros Ho Ho'. split; [|split].
  - unfold filter_String. by rewrite (sort_Strings_permutation order order') by by rewrite Ho, Ho'.
  - by rewrite <- Ho; apply merge_sort_Permutation.
  - apply StronglySorted_merge_sort; apply _.
Qed.

Definition described_filter : QueryFilter bytes :=
  MkFilter (B "exclude") ({[B "INSERT"]} ∪ {[B "DELETE"]}) [B "secret"; B "audit"] f_zero.

Lemma filter_text_deterministic_witness :
  filter_String id (fun _ => B "0.0000") described_filter [B "INSERT"; B "DELETE"]
  = B "mode=exclude, sql_operations=[DELETE,INSERT], patterns=[secret,audit], sample_rate=0.0000" /\
  filter_String id (fun _ => B "0.0000") described_filter [B "INSERT"; B "DELETE"]
  = filter_String id (fun _ => B "0.0000") described_filter [B "DELETE"; B "INSERT"].
Proof.
  split; [by vm_compute|].
  apply (filter_text_deterministic id (fun _ => B "0.0000") described_filter [B "INSERT"; B "DELETE"] [B "DELETE"; B "INSERT"]);
    vm_decide.
Defined.
