(* ===== verification/WorkerLifecycle.v ===== *)
(** * The life cycle of a shadow worker (src/shadow_worker.go, src/pg_shadow_worker.go)

    [ShadowWorker] and [PgShadowWorker] have the same structure: the goroutine
    of the client connection calls [Send] for every mirrored request and, at the
    end, [Close]; a goroutine of their own takes requests off a bounded queue.
    They talk through the queue, the flag [closed] and the channels [drainCh],
    [closeCh] and [doneCh]. Their interleavings are the step relation [w_step],
    one rule for each thing either goroutine can do at each point it can be at.
    What differs - the request type, what processing a request does to the
    connection, and whether [Send] refuses because the connection is dead - are
    the arguments of the section. *)

From S2P Require Import Prelude QueryLogger.
From stdpp Require Import relations.

(** Where the worker goroutine is: in the [select] of its loop, in the drain
    loop, having taken a request (in either), processing it, or returned, which
    is [doneCh] closed and the wait group done. *)
Inductive worker_phase (Req : Type) :=
  | WLoop
  | WDrain
  | WGot (r : Req) (draining : bool)
  | WBusy (r : Req) (draining : bool)
  | WDone.
Arguments WLoop {_}.
Arguments WDrain {_}.
Arguments WGot {_} _ _.
Arguments WBusy {_} _ _.
Arguments WDone {_}.

(** Where the client's goroutine is: outside the worker's methods, in [Send]
    past its checks, in the [select] of [Close], in its wait after a forced
    close, or past [Close]. *)
Inductive caller_phase (Req : Type) :=
  | CIdle
  | CSending (r : Req)
  | CClosing
  | CForced
  | CJoined.
Arguments CIdle {_}.
Arguments CSending {_} _.
Arguments CClosing {_}.
Arguments CForced {_}.
Arguments CJoined {_}.

(** The worker's fields, both program counters, and - for the theorems - which
    requests [Send] accepted and refused, and which were processed and skipped. *)
Record Worker (Req Sess : Type) := MkWorker {
  w_queue : list Req;
  w_sess : Sess;
  w_closed : bool;
  w_drainCh : bool;
  w_closeCh : bool;
  w_connClosed : bool;
  w_worker : worker_phase Req;
  w_caller : caller_phase Req;
  w_accepted : list Req;
  w_refused : list Req;
  w_processed : list (timing * Req);
  w_skipped : list Req;
}.
Arguments MkWorker {_ _} _ _ _ _ _ _ _ _ _ _ _ _.
Arguments w_queue {_ _} _.
Arguments w_sess {_ _} _.
Arguments w_closed {_ _} _.
Arguments w_drainCh {_ _} _.
Arguments w_closeCh {_ _} _.
Arguments w_connClosed {_ _} _.
Arguments w_worker {_ _} _.
Arguments w_caller {_ _} _.
Arguments w_accepted {_ _} _.
Arguments w_refused {_ _} _.
Arguments w_processed {_ _} _.
Arguments w_skipped {_ _} _.

Section lifecycle.
Context {Req Sess : Type}.
(** The capacity of the queue, [config.ShadowQueueSize]. *)
Context (cap : nat).
(** [processRequest] or [processFrame]. *)
Context (process : timing -> Req -> Sess -> Sess).
(** [w.dead.Load()]; constantly false for MySQL. *)
Context (dead : Sess -> bool).

Implicit Types w : Worker Req Sess.

(** [NewShadowWorker], [NewPgShadowWorker], once [Initialize] has connected. *)
Definition NewWorker (s : Sess) : Worker Req Sess :=
  MkWorker [] s false false false false WLoop CIdle [] [] [] [].

Definition set_worker w p := MkWorker (w_queue w) (w_sess w) (w_closed w) (w_drainCh w) (w_closeCh w)
  (w_connClosed w) p (w_caller w) (w_accepted w) (w_refused w) (w_processed w) (w_skipped w).
Definition set_caller w p := MkWorker (w_queue w) (w_sess w) (w_closed w) (w_drainCh w) (w_closeCh w)
  (w_connClosed w) (w_worker w) p (w_accepted w) (w_refused w) (w_processed w) (w_skipped w).

(** *** The caller *)

(** The checks at the start of [Send]: it returns false, or goes on. *)
Definition send_check (r : Req) w : Worker Req Sess :=
  if dead (w_sess w) || w_closed w
  then MkWorker (w_queue w) (w_sess w) (w_closed w) (w_drainCh w) (w_closeCh w) (w_connClosed w)
         (w_worker w) CIdle (w_accepted w) (w_refused w ++ [r]) (w_processed w) (w_skipped w)
  else set_caller w (CSending r).

(** The [select] of [Send]: the queue has room, or the request is dropped. *)
Definition send_select (r : Req) w : Worker Req Sess :=
  if bool_decide (length (w_queue w) < cap)
  then MkWorker (w_queue w ++ [r]) (w_sess w) (w_closed w) (w_drainCh w) (w_closeCh w) (w_connClosed w)
         (w_worker w) CIdle (w_accepted w ++ [r]) (w_refused w) (w_processed w) (w_skipped w)
  else MkWorker (w_queue w) (w_sess w) (w_closed w) (w_drainCh w) (w_closeCh w) (w_connClosed w)
         (w_worker w) CIdle (w_accepted w) (w_refused w ++ [r]) (w_processed w) (w_skipped w).

(** An unbuffered queue hands the request to the waiting goroutine. *)
Definition send_handoff (r : Req) w : Worker Req Sess :=
  MkWorker (w_queue w) (w_sess w) (w_closed w) (w_drainCh w) (w_closeCh w) (w_connClosed w)
    (WGot r false) CIdle (w_accepted w ++ [r]) (w_refused w) (w_processed w) (w_skipped w).

(** [Close] up to its [select]: [closed = true] and [close(w.drainCh)]. *)
Definition close_begin w : Worker Req Sess :=
  if w_closed w then w
  else MkWorker (w_queue w) (w_sess w) true true (w_closeCh w) (w_connClosed w)
         (w_worker w) CClosing (w_accepted w) (w_refused w) (w_processed w) (w_skipped w).
(** The timeout case: [close(w.closeCh)]. *)
Definition close_force w : Worker Req Sess :=
  MkWorker (w_queue w) (w_sess w) (w_closed w) (w_drainCh w) true (w_connClosed w)
    (w_worker w) CForced (w_accepted w) (w_refused w) (w_processed w) (w_skipped w).
(** After [w.wg.Wait()]: [w.conn.Close()]. *)
Definition close_end w : Worker Req Sess :=
  MkWorker (w_queue w) (w_sess w) (w_closed w) (w_drainCh w) (w_closeCh w) true
    (w_worker w) CJoined (w_accepted w) (w_refused w) (w_processed w) (w_skipped w).

(** *** The worker goroutine *)

(** The loop a request was taken in. *)
Definition back (draining : bool) : worker_phase Req := if draining then WDrain else WLoop.

(** A request comes off the queue. *)
Definition take_request (r : Req) (q : list Req) (draining : bool) w : Worker Req Sess :=
  MkWorker q (w_sess w) (w_closed w) (w_drainCh w) (w_closeCh w) (w_connClosed w)
    (WGot r draining) (w_caller w) (w_accepted w) (w_refused w) (w_processed w) (w_skipped w).
(** The check of [closeCh] at the start of [processRequest]. *)
Definition check_close (r : Req) (draining : bool) w : Worker Req Sess :=
  if w_closeCh w
  then MkWorker (w_queue w) (w_sess w) (w_closed w) (w_drainCh w) (w_closeCh w) (w_connClosed w)
         (back draining) (w_caller w) (w_accepted w) (w_refused w) (w_processed w) (w_skipped w ++ [r])
  else set_worker w (WBusy r draining).
(** The rest of [processRequest]. *)
Definition finish_request (t : timing) (r : Req) (draining : bool) w : Worker Req Sess :=
  MkWorker (w_queue w) (process t r (w_sess w)) (w_closed w) (w_drainCh w) (w_closeCh w) (w_connClosed w)
    (back draining) (w_caller w) (w_accepted w) (w_refused w) (w_processed w ++ [(t, r)]) (w_skipped w).

Inductive w_step : Worker Req Sess -> Worker Req Sess -> Prop :=
  | ws_send_check r w : w_caller w = CIdle -> w_step w (send_check r w)
  | ws_send_select r w : w_caller w = CSending r -> w_step w (send_select r w)
  | ws_send_handoff r w :
      w_caller w = CSending r -> cap = 0 -> w_worker w = WLoop -> w_step w (send_handoff r w)
  | ws_close_begin w : w_caller w = CIdle -> w_closed w = false -> w_step w (close_begin w)
  | ws_close_force w : w_caller w = CClosing -> w_step w (close_force w)
  | ws_close_done w : w_caller w = CClosing -> w_worker w = WDone -> w_step w (close_end w)
  | ws_close_forced w : w_caller w = CForced -> w_worker w = WDone -> w_step w (close_end w)
  | ws_take r q w : w_worker w = WLoop -> w_queue w = r :: q -> w_step w (take_request r q false w)
  | ws_drain w : w_worker w = WLoop -> w_drainCh w = true -> w_step w (set_worker w WDrain)
  | ws_drain_take r q w : w_worker w = WDrain -> w_queue w = r :: q -> w_step w (take_request r q true w)
  | ws_drained w :
      w_worker w = WDrain -> w_queue w = [] -> w_closeCh w = false -> w_step w (set_worker w WDone)
  | ws_stop w :
      w_worker w = WLoop \/ w_worker w = WDrain -> w_closeCh w = true -> w_step w (set_worker w WDone)
  | ws_check r d w : w_worker w = WGot r d -> w_step w (check_close r d w)
  | ws_finish t r d w : w_worker w = WBusy r d -> w_step w (finish_request t r d w).

Definition w_reachable (s : Sess) (w : Worker Req Sess) : Prop := rtc w_step (NewWorker s) w.

(** The session after a sequence of requests. *)
Definition run (s : Sess) (trs : list (timing * Req)) : Sess :=
  foldl (fun s tr => process tr.1 tr.2 s) s trs.
End lifecycle.

Section invariant.
Context {Req Sess : Type} (cap : nat) (process : timing -> Req -> Sess -> Sess) (s0 : Sess).

Implicit Types w : Worker Req Sess.

(** The request the goroutine has in hand. *)
Definition in_hand (p : worker_phase Req) : list Req :=
  match p with WGot r _ | WBusy r _ => [r] | _ => [] end.

Definition is_busy (p : worker_phase Req) : bool := match p with WBusy _ _ => true | _ => false end.

(** The caller has not called [Close] yet; is past a forced close or past
    [Close]; is past [Close]. *)
Definition before_close (p : caller_phase Req) : bool :=
  match p with CIdle | CSending _ => true | _ => false end.
Definition may_be_forced (p : caller_phase Req) : bool :=
  match p with CForced | CJoined => true | _ => false end.
Definition joined (p : caller_phase Req) : bool := match p with CJoined => true | _ => false end.

(** The goroutine is in its drain loop or past it. *)
Definition past_loop (p : worker_phase Req) : bool :=
  match p with WDrain | WDone | WGot _ true | WBusy _ true => true | _ => false end.

Record w_inv w : Prop := {
  wi_fifo : w_accepted w = map snd (w_processed w) ++ w_skipped w ++ in_hand (w_worker w) ++ w_queue w;
  wi_sess : w_sess w = run process s0 (w_processed w);
  wi_cap : length (w_queue w) <= cap;
  wi_closed : w_closed w = w_drainCh w;
  wi_caller : w_closed w = negb (before_close (w_caller w));
  wi_forced : w_closeCh w = true -> may_be_forced (w_caller w) = true;
  wi_skipped : w_skipped w <> [] -> w_closeCh w = true /\ is_busy (w_worker w) = false;
  wi_past : past_loop (w_worker w) = true -> w_drainCh w = true;
  wi_done : w_worker w = WDone -> w_closeCh w = false -> w_queue w = [];
  wi_conn : w_connClosed w = joined (w_caller w);
  wi_join : w_connClosed w = true -> w_worker w = WDone;
}.

(** The clauses a step leaves alone, or that its premises decide. *)
Ltac w_clauses :=
  split; simpl; rewrite <- ?app_assoc; simpl in *; auto; try done; try congruence; try (intuition congruence).

Lemma NewWorker_inv : w_inv (NewWorker s0).
Proof. w_clauses. lia. Qed.

(** *** Steps of the caller *)

Lemma send_check_inv dead r w : w_inv w -> w_caller w = CIdle -> w_inv (send_check dead r w).
Proof.
  destruct w as [q s cl dr cc co wk ca acc ref pr sk]. intros [] Hc. simpl in *. subst ca.
  unfold send_check; simpl in *. destruct (dead s || cl); w_clauses.
Qed.

Lemma send_select_inv r w : w_inv w -> w_caller w = CSending r -> w_inv (send_select cap r w).
Proof.
  destruct w as [q s cl dr cc co wk ca acc ref pr sk]. intros [] Hc. simpl in *. subst ca.
  unfold send_select; simpl in *. case_bool_decide; w_clauses.
  - subst acc. by rewrite <- !app_assoc.
  - rewrite length_app. simpl. lia.
  - intros ->. simpl in *. destruct dr; [congruence|]. by specialize (wi_past0 eq_refl).
Qed.

Lemma send_handoff_inv r w :
  w_inv w -> w_caller w = CSending r -> cap = 0 -> w_worker w = WLoop -> w_inv (send_handoff r w).
Proof.
  destruct w as [q s cl dr cc co wk ca acc ref pr sk]. intros [] Hc Hcap Hw. simpl in *. subst ca wk.
  destruct q as [|x q]; [|simpl in *; lia].
  assert (sk = []) as ->.
  { destruct sk; [done|]. destruct wi_skipped0 as [-> _]; [done|]. by specialize (wi_forced0 eq_refl). }
  unfold send_handoff; simpl in *. w_clauses. subst acc. by rewrite !app_nil_r.
Qed.

Lemma close_begin_inv w :
  w_inv w -> w_caller w = CIdle -> w_closed w = false -> w_inv (close_begin w).
Proof.
  destruct w as [q s cl dr cc co wk ca acc ref pr sk]. intros [] Hc Hcl. simpl in *. subst ca.
  unfold close_begin; simpl in *. rewrite Hcl. w_clauses.
Qed.

Lemma close_force_inv w : w_inv w -> w_caller w = CClosing -> w_inv (close_force w).
Proof.
  destruct w as [q s cl dr cc co wk ca acc ref pr sk]. intros [] Hc. simpl in *. subst ca.
  unfold close_force; simpl in *. w_clauses.
Qed.

Lemma close_end_inv w :
  w_inv w -> w_caller w = CClosing \/ w_caller w = CForced -> w_worker w = WDone -> w_inv (close_end w).
Proof.
  destruct w as [q s cl dr cc co wk ca acc ref pr sk]. intros [] Hc Hw. simpl in *. subst wk.
  unfold close_end; simpl in *. destruct Hc as [-> | ->]; w_clauses.
Qed.

(** *** Steps of the worker *)

Lemma take_inv r q d w :
  w_inv w -> w_worker w = back d -> w_queue w = r :: q -> w_inv (take_request r q d w).
Proof.
  destruct w as [q0 s cl dr cc co wk ca acc ref pr sk]. intros [] Hw Hq. simpl in *. subst q0 wk.
  unfold take_request; simpl in *. destruct d; w_clauses; lia.
Qed.

Lemma check_close_inv r d w : w_inv w -> w_worker w = WGot r d -> w_inv (check_close r d w).
Proof.
  destruct w as [q s cl dr cc co wk ca acc ref pr sk]. intros [] Hw. simpl in *. subst wk.
  unfold check_close; simpl in *. destruct cc, d; w_clauses.
Qed.

Lemma finish_inv t r d w : w_inv w -> w_worker w = WBusy r d -> w_inv (finish_request process t r d w).
Proof.
  destruct w as [q s cl dr cc co wk ca acc ref pr sk]. intros [] Hw. simpl in *. subst wk.
  assert (sk = []) as -> by (destruct sk; [done|]; by destruct wi_skipped0).
  unfold finish_request; simpl in *.
  assert (run process s0 (pr ++ [(t, r)]) = process t r s) by (unfold run; by rewrite foldl_app, wi_sess0).
  destruct d; w_clauses; rewrite map_app; simpl; by rewrite <- app_assoc.
Qed.

Lemma set_worker_inv w p :
  w_inv w -> in_hand (w_worker w) = [] -> in_hand p = [] ->
  (p = WDone -> w_closeCh w = false -> w_queue w = []) ->
  w_connClosed w = false -> w_drainCh w = true -> w_inv (set_worker w p).
Proof.
  destruct w as [q s cl dr cc co wk ca acc ref pr sk]. intros [] Hh Hp Hd Hc Hdr. simpl in *. subst co dr.
  unfold set_worker; simpl in *. w_clauses.
  intros Hs. destruct (wi_skipped0 Hs) as [? _]. by destruct p.
Qed.

Context (dead : Sess -> bool).

Lemma not_joined w p : w_inv w -> w_worker w = p -> p <> WDone -> w_connClosed w = false.
Proof.
  intros [] Hw Hp. destruct (w_connClosed w); [|done]. specialize (wi_join0 eq_refl). congruence.
Qed.

Lemma w_step_inv w w' : w_inv w -> w_step cap process dead w w' -> w_inv w'.
Proof.
  intros Hi Hs. destruct Hs.
  - by apply send_check_inv.
  - by apply send_select_inv.
  - by apply send_handoff_inv.
  - by apply close_begin_inv.
  - by apply close_force_inv.
  - apply close_end_inv; auto.
  - apply close_end_inv; auto.
  - by apply take_inv.
  - apply set_worker_inv; [done|by rewrite H|done|done|by eapply not_joined|done].
  - by apply take_inv.
  - apply set_worker_inv; [done|by rewrite H|done|done|by eapply not_joined|].
    destruct Hi. apply wi_past0. by rewrite H.
  - apply set_worker_inv; [done|by destruct H as [-> | ->]|done|congruence| |].
    + destruct H; by eapply not_joined.
    + destruct Hi. rewrite <- wi_closed0, wi_caller0. apply wi_forced0 in H0. by destruct (w_caller w).
  - by apply check_close_inv.
  - by apply finish_inv.
Qed.

Lemma w_reachable_inv w : w_reachable cap process dead s0 w -> w_inv w.
Proof.
  unfold w_reachable. intros H. revert H.
  apply (rtc_ind_r (fun w => w_inv w) (NewWorker s0)); [apply NewWorker_inv|].
  intros y z _ Hs Hi. by eapply w_step_inv.
Qed.

(** *** Termination of [Close] *)

Definition loop_weight (draining : bool) : nat := if draining then 1 else 2.
Definition phase_weight (p : worker_phase Req) : nat :=
  match p with
  | WDone => 0
  | WDrain => 1
  | WLoop => 2
  | WBusy _ d => 1 + loop_weight d
  | WGot _ d => 2 + loop_weight d
  end.
Definition caller_weight (p : caller_phase Req) : nat :=
  match p with CJoined => 0 | CForced => 1 | CClosing => 2 | _ => 3 end.

(** The number of steps [Close] can still take. *)
Definition weight w : nat :=
  4 * length (w_queue w) + phase_weight (w_worker w) + caller_weight (w_caller w).

Lemma closing_step w w' :
  before_close (w_caller w) = false -> w_step cap process dead w w' ->
  before_close (w_caller w') = false /\ weight w' < weight w.
Proof.
  destruct w as [q s cl dr cc co wk ca acc ref pr sk]. intros Hb Hs. unfold weight.
  inversion Hs; subst; simpl in *; try congruence;
    repeat match goal with
           | H : _ = CIdle |- _ => rewrite H in Hb; discriminate Hb
           | H : _ = CSending _ |- _ => rewrite H in Hb; discriminate Hb
           | H : _ \/ _ |- _ => destruct H
           end; subst; unfold check_close, finish_request, back; simpl;
    repeat case_match; simpl; split; (done || lia).
Qed.

Lemma closing_progress w :
  w_inv w -> before_close (w_caller w) = false ->
  (exists w', w_step cap process dead w w') \/ w_caller w = CJoined.
Proof.
  intros Hi Hb. destruct (w_caller w) eqn:Ec; [done|done| | |by right]; left.
  1, 2: assert (w_drainCh w = true) as Hd
    by (destruct Hi; by rewrite <- wi_closed0, wi_caller0, Ec).
  1, 2: destruct (w_worker w) as [| |r d|r d|] eqn:Ew;
    [ by eexists; eapply ws_drain
    | destruct (w_queue w) as [|r q] eqn:Eq;
      [ destruct (w_closeCh w) eqn:Ecc;
        [by eexists; eapply ws_stop; [right|]|by eexists; eapply ws_drained]
      | by eexists; eapply ws_drain_take ]
    | by eexists; eapply ws_check
    | by eexists; eapply (ws_finish _ _ _ (MkTiming [] 0))
    | ].
  - by eexists; eapply ws_close_done.
  - by eexists; eapply ws_close_forced.
Qed.

Lemma closing_bound n : forall w w',
  before_close (w_caller w) = false -> nsteps (w_step cap process dead) n w w' ->
  n + weight w' <= weight w.
Proof.
  induction n as [|n IH]; intros w w' Hb Hn; inversion Hn as [|? ? w1 ? Hs Hn']; subst; [lia|].
  destruct (closing_step _ _ Hb Hs) as [Hb1 Hw]. specialize (IH _ _ Hb1 Hn'). lia.
Qed.

Lemma closing_stays w w' :
  before_close (w_caller w) = false -> rtc (w_step cap process dead) w w' ->
  before_close (w_caller w') = false.
Proof.
  intros Hb H. induction H as [|w w1 w' Hs _ IH]; [done|]. apply IH. by eapply closing_step.
Qed.
End invariant.

(** ** Properties *)

(** C10: Mirrored requests are processed in order, each at most once, and none out
    of nowhere. In every state the two goroutines can reach, the requests [Send]
    accepted are those processed, then those skipped after a forced close, then
    the one in hand, then the queue; the queue is within its capacity; and the
    connection's state is that of processing exactly the processed requests, one
    after the other. *)
Theorem worker_fifo {Req Sess} cap process dead (s0 : Sess) (w : Worker Req Sess) :
  w_reachable cap process dead s0 w ->
  w_accepted w = map snd (w_processed w) ++ w_skipped w ++ in_hand (w_worker w) ++ w_queue w /\
  length (w_queue w) <= cap /\ w_sess w = run process s0 (w_processed w) /\
  (w_closeCh w = false -> w_skipped w = []).
Proof.
  intros [] % w_reachable_inv. split_and!; [done|done|done|].
  intros Hc. destruct (w_skipped w); [done|]. destruct wi_skipped0; congruence.
Qed.

(** A worker that records what it processes; a queue of two. *)
Definition record_process (_ : timing) (r : nat) (s : list nat) : list nat := s ++ [r].
Definition record_step := w_step 2 record_process (fun _ => false).
Definition record_start : Worker nat (list nat) := NewWorker [].
Definition now0 : timing := MkTiming [] 0.

(** Three sends against the capacity of two, one request processed. *)
Definition record_run : Worker nat (list nat) :=
  let w1 := send_select 2 1 (send_check (fun _ => false) 1 record_start) in
  let w2 := send_select 2 2 (send_check (fun _ => false) 2 w1) in
  let w3 := send_select 2 3 (send_check (fun _ => false) 3 w2) in
  finish_request record_process now0 1 false (check_close 1 false (take_request 1 [2] false w3)).

Lemma record_run_reachable : w_reachable 2 record_process (fun _ => false) [] record_run.
Proof.
  do 3 (eapply rtc_l; [by apply ws_send_check|]; eapply rtc_l; [by apply ws_send_select|]).
  eapply rtc_l; [by apply (ws_take _ _ _ 1 [2])|]. eapply rtc_l; [by apply (ws_check _ _ _ 1 false)|].
  eapply rtc_l; [by apply (ws_finish _ _ _ now0 1 false)|]. apply rtc_refl.
Qed.

Lemma worker_fifo_witness :
  w_refused record_run = [3] /\
  w_accepted record_run = map snd (w_processed record_run) ++ w_skipped record_run
                          ++ in_hand (w_worker record_run) ++ w_queue record_run /\
  w_sess record_run = [1].
Proof.
  split; [reflexivity|].
  destruct (worker_fifo 2 record_process (fun _ => false) [] record_run record_run_reachable) as (H1 & _ & H2 & _).
  split; [exact H1|exact H2].
Defined.

(** After a [Close] that was not forced nothing is left anywhere. *)
Lemma w_joined_processed {Req Sess} cap process dead (s0 : Sess) (w : Worker Req Sess) :
  w_reachable cap process dead s0 w -> w_caller w = CJoined -> w_closeCh w = false ->
  map snd (w_processed w) = w_accepted w /\ w_queue w = [].
Proof.
  intros [] % w_reachable_inv Hj Hc. rewrite Hj in wi_conn0. simpl in wi_conn0.
  assert (w_skipped w = []) as Hs by (destruct (w_skipped w); [done|]; destruct wi_skipped0; congruence).
  specialize (wi_join0 wi_conn0). specialize (wi_done0 wi_join0 Hc).
  rewrite Hs, wi_join0, wi_done0 in wi_fifo0. simpl in wi_fifo0. rewrite app_nil_r in wi_fifo0. auto.
Qed.

(** C11: A graceful shutdown loses nothing. When [Close] has returned without its
    drain timeout firing, every request [Send] ever accepted has been processed, in
    order, and the queue is empty. *)
Theorem graceful_close_processes_all {Req Sess} cap process dead (s0 : Sess) (w : Worker Req Sess) :
  w_reachable cap process dead s0 w -> w_caller w = CJoined -> w_closeCh w = false ->
  map snd (w_processed w) = w_accepted w /\ w_queue w = [] /\ w_sess w = run process s0 (w_processed w).
Proof.
  intros Hr Hj Hc. destruct (w_joined_processed _ _ _ _ _ Hr Hj Hc) as [Ha Hq].
  split; [exact Ha|]. split; [exact Hq|]. exact (wi_sess _ _ _ _ (w_reachable_inv _ _ _ _ _ Hr)).
Qed.

(** From there: [Close], draining of the second request, and the join. *)
Definition record_closed : Worker nat (list nat) :=
  let w4 := set_worker (close_begin record_run) WDrain in
  let w5 := finish_request record_process now0 2 true (check_close 2 true (take_request 2 [] true w4)) in
  close_end (set_worker w5 WDone).

Lemma record_closed_reachable : w_reachable 2 record_process (fun _ => false) [] record_closed.
Proof.
  eapply (transitivity (R := rtc _)); [apply record_run_reachable|].
  eapply rtc_l; [by apply ws_close_begin|]. eapply rtc_l; [by apply ws_drain|].
  eapply rtc_l; [by apply (ws_drain_take _ _ _ 2 [])|]. eapply rtc_l; [by apply (ws_check _ _ _ 2 true)|].
  eapply rtc_l; [by apply (ws_finish _ _ _ now0 2 true)|].
  eapply rtc_l; [by apply ws_drained|]. eapply rtc_l; [by apply ws_close_done|]. apply rtc_refl.
Qed.

Lemma graceful_close_processes_all_witness :
  map snd (w_processed record_closed) = w_accepted record_closed /\ w_queue record_closed = [] /\
  w_sess record_closed = run record_process [] (w_processed record_closed).
Proof.
  exact (graceful_close_processes_all 2 record_process (fun _ => false) [] record_closed
           record_closed_reachable eq_refl eq_refl).
Defined.

(** [Close] closes the connection only after the worker goroutine has returned,
    and from then on nothing touches the session any more: no request is processed
    on a closed connection. *)
Theorem no_processing_after_close {Req Sess} cap process dead (s0 : Sess) (w w' : Worker Req Sess) :
  w_reachable cap process dead s0 w -> w_connClosed w = true -> rtc (w_step cap process dead) w w' ->
  w_worker w = WDone /\ w' = w.
Proof.
  intros Hr Hc Hs. pose proof (w_reachable_inv _ _ _ _ _ Hr) as Hi.
  assert (w_worker w = WDone /\ w_caller w = CJoined) as [Hw Hj].
  { destruct Hi. split; [by apply wi_join0|]. rewrite Hc in wi_conn0. by destruct (w_caller w). }
  split; [done|]. inversion Hs as [|? w1 ? Hs1 _]; subst; [done|].
  inversion Hs1; subst; try congruence. destruct H; congruence.
Qed.

Lemma no_processing_after_close_witness :
  w_worker record_closed = WDone /\ record_closed = record_closed.
Proof.
  apply (no_processing_after_close 2 record_process (fun _ => false) [] record_closed record_closed
           record_closed_reachable eq_refl (rtc_refl _ _)).
Defined.

(** C12: [Close] returns. From any state in which it has been called, every
    interleaving of the two goroutines takes at most [weight] more steps (four per
    queued request and at most six besides), and none gets stuck before [Close] has
    returned; only the processing of a request itself is taken to terminate. *)
Theorem close_terminates {Req Sess} cap process dead (s0 : Sess) (w : Worker Req Sess) :
  w_reachable cap process dead s0 w -> w_caller w = CClosing \/ w_caller w = CForced ->
  (forall n w', nsteps (w_step cap process dead) n w w' -> n <= weight w) /\
  (forall w', rtc (w_step cap process dead) w w' ->
     (exists w'', w_step cap process dead w' w'') \/ w_caller w' = CJoined).
Proof.
  intros Hr Hc. assert (before_close (w_caller w) = false) as Hb by (by destruct Hc as [-> | ->]).
  split.
  - intros n w' Hn. pose proof (closing_bound _ _ _ _ _ _ Hb Hn). lia.
  - intros w' Hs. apply (closing_progress cap process s0).
    + apply (w_reachable_inv cap process s0 dead). by eapply (transitivity (R := rtc _)).
    + by eapply closing_stays.
Qed.

Lemma close_terminates_witness :
  weight (close_begin record_run) = 8 /\
  forall n w', nsteps record_step n (close_begin record_run) w' -> n <= 8.
Proof.
  split; [reflexivity|].
  apply (close_terminates 2 record_process (fun _ => false) [] (close_begin record_run)).
  - eapply rtc_r; [apply record_run_reachable|]. by apply ws_close_begin.
  - by left.
Defined.
