(* ===== verification/WorkerRegistry.v ===== *)
(** * The registry of shadow workers and its counters (src/metrics.go, src/shadow_worker.go, src/pg_shadow_worker.go)

    All connections of the process together: the workers of file WorkerLifecycle, one
    for each client connection, the registry they enter in [Initialize] and leave in
    [Close], and the gauge that sums the queues of the registered ones, one after the
    other while the workers go on. MySQL and pgwire have a registry each, with the same
    code. Then the counters [Send] and [Close] update. *)

From stdpp Require Import relations fin_sets.
From S2P Require Import Prelude Metrics QueryLogger WorkerLifecycle.

(** ** The fleet of workers *)

(** How far a connection's goroutine is: in [Initialize] past [go w.worker()], between
    [Initialize] and [Close], or in [Close] past the removal from the registry. *)
Inductive stage := Started | Open | Unregistered.

Record Fleet (Req Sess : Type) := MkFleet {
  fl_workers : gmap nat (stage * Worker Req Sess);
  fl_registry : gset nat;
}.
Arguments MkFleet {_ _} _ _.
Arguments fl_workers {_ _} _.
Arguments fl_registry {_ _} _.

Section fleet.
Context {Req Sess : Type} (cap : nat) (process : timing -> Req -> Sess -> Sess) (dead : Sess -> bool).

Implicit Types fl : Fleet Req Sess.
Implicit Types w : Worker Req Sess.

Definition fleet_start : Fleet Req Sess := MkFleet ∅ ∅.

(** [len(w.queue)] *)
Definition queue_len fl (id : nat) : nat :=
  match fl_workers fl !! id with Some (_, w) => length (w_queue w) | None => 0 end.

(** A step in which the connection's goroutine does not send. *)
Definition no_send w w' : Prop :=
  w_accepted w' = w_accepted w /\ w_refused w' = w_refused w /\ (forall r, w_caller w' <> CSending r).

(** The connection's goroutine sends only after [Initialize] has returned and before
    [Close] removes the worker, and [Close] goes on only after the removal. *)
Definition stage_allows (st : stage) w w' : Prop :=
  match st with
  | Started => no_send w w' /\ w_closed w' = w_closed w
  | Open => w_closed w' = w_closed w
  | Unregistered => no_send w w'
  end.

Inductive fl_step : Fleet Req Sess -> Fleet Req Sess -> Prop :=
  | fs_start id s fl :
      fl_workers fl !! id = None ->
      fl_step fl (MkFleet (<[id := (Started, NewWorker s)]> (fl_workers fl)) (fl_registry fl))
  | fs_register id w fl :
      fl_workers fl !! id = Some (Started, w) ->
      fl_step fl (MkFleet (<[id := (Open, w)]> (fl_workers fl)) ({[id]} ∪ fl_registry fl))
  | fs_unregister id w fl :
      fl_workers fl !! id = Some (Open, w) -> w_caller w = CIdle ->
      fl_step fl (MkFleet (<[id := (Unregistered, w)]> (fl_workers fl)) (fl_registry fl ∖ {[id]}))
  | fs_worker id st w w' fl :
      fl_workers fl !! id = Some (st, w) -> w_step cap process dead w w' -> stage_allows st w w' ->
      fl_step fl (MkFleet (<[id := (st, w')]> (fl_workers fl)) (fl_registry fl)).

Definition fl_reachable fl : Prop := rtc fl_step fleet_start fl.

(** Every worker is one that its own goroutines can produce, it is registered exactly
    between [Initialize] and [Close], and it is closed only after that. *)
Record fl_inv fl : Prop := {
  fi_worker id st w : fl_workers fl !! id = Some (st, w) -> exists s, w_reachable cap process dead s w;
  fi_registry id : id ∈ fl_registry fl <-> exists w, fl_workers fl !! id = Some (Open, w);
  fi_closed id st w : fl_workers fl !! id = Some (st, w) -> st <> Unregistered -> w_closed w = false;
  fi_fresh id w : fl_workers fl !! id = Some (Started, w) -> w_accepted w = [] /\ w_refused w = [];
}.

Lemma fl_step_inv fl fl' : fl_step fl fl' -> fl_inv fl -> fl_inv fl'.
Proof.
  intros Hs []. destruct Hs as [id s fl Hn|id w fl Hl|id w fl Hl Hc|id st w w' fl Hl Hw Ha];
    split; cbn [fl_workers fl_registry]; intros id'.
  - intros st w [[<- [= <- <-]]|[? ?]]%lookup_insert_Some; [exists s; apply rtc_refl|by eapply fi_worker0].
  - rewrite fi_registry0. destruct (decide (id = id')) as [<-|?].
    + rewrite lookup_insert_eq. split; [intros [w Hw]; congruence|by intros [? ?]].
    + by rewrite lookup_insert_ne.
  - intros st w [[<- [= <- <-]]|[? ?]]%lookup_insert_Some; [done|by eapply fi_closed0].
  - intros w [[<- [= <-]]|[? ?]]%lookup_insert_Some; [done|by eapply fi_fresh0].
  - intros st w' [[<- [= <- <-]]|[? ?]]%lookup_insert_Some; by eapply fi_worker0.
  - rewrite elem_of_union, elem_of_singleton, fi_registry0. destruct (decide (id = id')) as [<-|?].
    + rewrite lookup_insert_eq. split; eauto.
    + rewrite lookup_insert_ne by done. split; [intros [?|?]; [congruence|done]|by right].
  - intros st w' [[<- [= <- <-]]|[? ?]]%lookup_insert_Some; [|by eapply fi_closed0]. intros _. by eapply fi_closed0.
  - intros w' [[<- [=]]|[? ?]]%lookup_insert_Some; by eapply fi_fresh0.
  - intros st w' [[<- [= <- <-]]|[? ?]]%lookup_insert_Some; by eapply fi_worker0.
  - rewrite elem_of_difference, elem_of_singleton, fi_registry0. destruct (decide (id = id')) as [<-|?].
    + rewrite lookup_insert_eq. split; [tauto|by intros [? ?]].
    + rewrite lookup_insert_ne by done. split; [tauto|]. intros ?. split; [done|congruence].
  - intros st w' [[<- [= <- <-]]|[? ?]]%lookup_insert_Some; [done|by eapply fi_closed0].
  - intros w' [[<- [=]]|[? ?]]%lookup_insert_Some; by eapply fi_fresh0.
  - intros st' w1 [[<- [= <- <-]]|[? ?]]%lookup_insert_Some; [|by eapply fi_worker0].
    destruct (fi_worker0 _ _ _ Hl) as [s Hr]. exists s. by eapply rtc_r.
  - rewrite fi_registry0. destruct (decide (id = id')) as [<-|?]; [|by rewrite lookup_insert_ne].
    rewrite lookup_insert_eq, Hl. split; intros [? [= <- <-]]; eauto.
  - intros st' w1 [[<- [= <- <-]]|[? ?]]%lookup_insert_Some; [|by eapply fi_closed0]. intros Hst.
    specialize (fi_closed0 _ _ _ Hl Hst). destruct st; [by destruct Ha as [_ ->]|congruence|done].
  - intros w1 [[<- [= -> <-]]|[? ?]]%lookup_insert_Some; [|by eapply fi_fresh0].
    destruct (fi_fresh0 _ _ Hl) as [E1 E2]. destruct Ha as [(-> & -> & _) _]. done.
Qed.

Lemma fl_reachable_inv fl : fl_reachable fl -> fl_inv fl.
Proof.
  revert fl. apply (rtc_ind_r (fun fl => fl_inv fl)); [|intros y z _ Hs Hi; by eapply fl_step_inv].
  by split; cbn; [..|set_solver]; intros *; rewrite ?lookup_empty; try done; split; [set_solver|intros []].
Qed.

(** The requests of a worker that were accepted and not yet taken off its queue. *)
Definition waiting w : nat :=
  length (w_accepted w) - length (w_processed w) - length (w_skipped w) - length (in_hand (w_worker w)).

Lemma waiting_queue s w : w_reachable cap process dead s w -> length (w_queue w) = waiting w /\ length (w_queue w) <= cap.
Proof.
  intros [] % w_reachable_inv. split; [|done]. unfold waiting.
  rewrite wi_fifo, !length_app, length_map. lia.
Qed.

Definition waiting_at fl (id : nat) : nat := match fl_workers fl !! id with Some (_, w) => waiting w | None => 0 end.

Lemma sum_list_with_ext_in {A} (f g : A -> nat) l : (forall x, x ∈ l -> f x = g x) -> sum_list_with f l = sum_list_with g l.
Proof.
  induction l as [|x l IH]; intros Hf; [done|]. cbn. rewrite (Hf x) by by left. rewrite IH; [done|].
  intros y Hy. apply Hf. by right.
Qed.

Lemma sum_list_with_le {A} (f : A -> nat) l c : (forall x, x ∈ l -> f x <= c) -> sum_list_with f l <= c * length l.
Proof.
  induction l as [|x l IH]; intros Hf; [cbn; lia|]. cbn. pose proof (Hf x ltac:(by left)).
  assert (sum_list_with f l <= c * length l) by (apply IH; intros y Hy; apply Hf; by right). lia.
Qed.
End fleet.

(** ** Reading the gauge *)

Section gauge.
Context {Req Sess : Type} (cap : nat) (process : timing -> Req -> Sess -> Sess) (dead : Sess -> bool).
Context {Req' Sess' : Type} (process' : timing -> Req' -> Sess' -> Sess') (dead' : Sess' -> bool).

(** The workers of both protocols, and a step of any of their goroutines. *)
Definition Fleets : Type := Fleet Req Sess * Fleet Req' Sess'.

Inductive fleets_step : Fleets -> Fleets -> Prop :=
  | fls_mysql m m' p : fl_step cap process dead m m' -> fleets_step (m, p) (m', p)
  | fls_pg m p p' : fl_step cap process' dead' p p' -> fleets_step (m, p) (m, p').

(** The loop of the two functions over a registry, [registry] being the one it holds with
    [RLock] and [len] the length of a queue of it: between any two reads the goroutines go
    on, except that the registry stays as it is. *)
Inductive read_queues (registry : Fleets -> gset nat) (len : Fleets -> nat -> nat)
    : Fleets -> list nat -> nat -> Fleets -> Prop :=
  | rq_end u : read_queues registry len u [] 0 u
  | rq_read u id ids total u' :
      read_queues registry len u ids total u' -> read_queues registry len u (id :: ids) (len u id + total) u'
  | rq_other u u1 ids total u' :
      fleets_step u u1 -> registry u1 = registry u -> read_queues registry len u1 ids total u' ->
      read_queues registry len u ids total u'.

Definition mysql_registry (u : Fleets) : gset nat := fl_registry u.1.
Definition mysql_len (u : Fleets) : nat -> nat := queue_len u.1.
Definition pg_registry (u : Fleets) : gset nat := fl_registry u.2.
Definition pg_len (u : Fleets) : nat -> nat := queue_len u.2.

(** Called in [u], [getQueueDepth] can return [total] in [u'], and so on. A [range] over a
    map visits every key once, in any order. *)
Definition getQueueDepth (u : Fleets) (total : nat) (u' : Fleets) : Prop :=
  exists order, order ≡ₚ elements (mysql_registry u) /\ read_queues mysql_registry mysql_len u order total u'.
Definition getPgShadowQueueDepth (u : Fleets) (total : nat) (u' : Fleets) : Prop :=
  exists order, order ≡ₚ elements (pg_registry u) /\ read_queues pg_registry pg_len u order total u'.

(** The function of the gauge [shadow_proxy_queue_depth]: one call after the other. [u1]
    is when the first call has returned, [u2] when the second starts. *)
Inductive queue_depth_value (u : Fleets) (v : Z) (u' : Fleets) : Prop :=
  | qd_value n m u1 u2 :
      getQueueDepth u n u1 -> rtc fleets_step u1 u2 -> getPgShadowQueueDepth u2 m u' ->
      v = (Z.of_nat n + Z.of_nat m)%Z -> queue_depth_value u v u'.

(** *** What is read *)

Definition fleets_reachable (u : Fleets) : Prop := fl_reachable cap process dead u.1 /\ fl_reachable cap process' dead' u.2.

Lemma fleets_steps_reachable u u' : fleets_reachable u -> rtc fleets_step u u' -> fleets_reachable u'.
Proof.
  intros Hu. revert u'. apply (rtc_ind_r (fun u' => fleets_reachable u')); [done|].
  intros y z _ [m m' p Hs|m p p' Hs] [H1 H2]; split; cbn [fst snd] in *; try done; by eapply rtc_r.
Qed.

(** A read within a call: of the queue of [r.2] in the state [r.1]. *)
Definition during (u u' : Fleets) (r : Fleets * nat) : Prop := rtc fleets_step u r.1 /\ rtc fleets_step r.1 u'.

Lemma read_queues_reads registry len u ids total u' :
  read_queues registry len u ids total u' ->
  rtc fleets_step u u' /\ registry u' = registry u /\
  exists reads, map snd reads = ids /\ total = sum_list_with (fun r => len r.1 r.2) reads /\
    Forall (fun r => during u u' r /\ registry r.1 = registry u) reads.
Proof.
  induction 1 as [u|u id ids total u' _ (Hs & Hr & reads & Hm & Ht & Hf)|u u1 ids total u' Hst Hreg _ (Hs & Hr & reads & Hm & Ht & Hf)].
  - split; [apply rtc_refl|]. split; [done|]. by exists [].
  - split; [done|]. split; [done|]. exists ((u, id) :: reads). cbn. rewrite Hm, Ht. split; [done|]. split; [done|].
    constructor; [|done]. split; [|done]. by split; [apply rtc_refl|].
  - split; [by eapply rtc_l|]. split; [by rewrite Hr|]. exists reads. split; [done|]. split; [done|].
    eapply Forall_impl; [|exact Hf]. intros r [[H1 H2] H3]. split; [split; [by eapply rtc_l|done]|congruence].
Qed.

(** Nothing keeps the reader from finishing at once. *)
Lemma read_queues_at_once registry len u ids : read_queues registry len u ids (sum_list_with (len u) ids) u.
Proof. induction ids as [|id ids IH]; [constructor|]. cbn. by constructor. Qed.
End gauge.
Arguments Fleets : clear implicits.

(** ** The counters of [Send] and [Close] *)

Section counters.
Context {Req Sess : Type} (cap : nat) (process : timing -> Req -> Sess -> Sess) (dead : Sess -> bool).

Implicit Types w : Worker Req Sess.

(** The steps of the life cycle with the counters they update. [Send] of the MySQL
    worker has no check for a dead connection ([dead] is constantly false there). *)
Inductive wm_step : Worker Req Sess * list metric -> Worker Req Sess * list metric -> Prop :=
  | wm_send_check r w ms :
      w_caller w = CIdle ->
      wm_step (w, ms) (send_check dead r w, ms ++ if dead (w_sess w) then [Inc "shadowDropped" [B "conn_dead"]] else [])
  | wm_send_select r w ms :
      w_caller w = CSending r ->
      wm_step (w, ms) (send_select cap r w,
        ms ++ if bool_decide (length (w_queue w) < cap) then [] else [Inc "shadowQueueDrops" []])
  | wm_close_force w ms :
      w_caller w = CClosing -> wm_step (w, ms) (close_force w, ms ++ [Inc "shadowDrainTimeouts" []])
  | wm_quiet w w' ms :
      w_step cap process dead w w' -> w_refused w' = w_refused w -> w_closeCh w' = w_closeCh w ->
      wm_step (w, ms) (w', ms).

Record wm_inv (s : Sess) (x : Worker Req Sess * list metric) : Prop := {
  wmi_reachable : w_reachable cap process dead s x.1;
  wmi_refused : (total "shadowQueueDrops" [] x.2 + total "shadowDropped" [B "conn_dead"] x.2
                 = Z.of_nat (length (w_refused x.1)))%Z;
  wmi_forced : total "shadowDrainTimeouts" [] x.2 = if w_closeCh x.1 then 1%Z else 0%Z;
  wmi_emits : emits ["shadowQueueDrops"; "shadowDropped"; "shadowDrainTimeouts"] x.2;
}.

Lemma wm_step_reachable s x x' : wm_step x x' -> w_reachable cap process dead s x.1 -> w_reachable cap process dead s x'.1.
Proof. intros Hs Hr. destruct Hs; cbn [fst] in *; (eapply rtc_r; [exact Hr|]); eauto using w_step. Qed.

Lemma wm_step_inv s x x' : wm_step x x' -> wm_inv s x -> wm_inv s x'.
Proof.
  intros Hs []. pose proof (wm_step_reachable s _ _ Hs wmi_reachable0) as Hr'.
  pose proof (w_reachable_inv _ _ _ _ _ wmi_reachable0) as Hi. split; [done|..]; clear Hr'.
  - destruct Hs as [r w ms Hc|r w ms Hc|w ms Hc|w w' ms Hw Hf Hcc]; cbn [fst snd] in *; rewrite ?total_app.
    + assert (w_closed w = false) as Hcl by (destruct Hi; by rewrite wi_caller, Hc). unfold send_check.
      rewrite Hcl, orb_false_r. destruct (dead (w_sess w)); cbn [w_refused set_caller]; rewrite ?length_app; simpl; lia.
    + unfold send_select. case_bool_decide; cbn [w_refused]; rewrite ?length_app; simpl; lia.
    + simpl. lia.
    + by rewrite Hf.
  - destruct Hs as [r w ms Hc|r w ms Hc|w ms Hc|w w' ms Hw Hf Hcc]; cbn [fst snd] in *; rewrite ?total_app.
    + unfold send_check. destruct (dead (w_sess w)), (w_closed w); simpl in *; lia.
    + unfold send_select. case_bool_decide; simpl; lia.
    + assert (w_closeCh w = false) as Hcl.
      { destruct Hi. destruct (w_closeCh w); [|done]. specialize (wi_forced eq_refl). by rewrite Hc in wi_forced. }
      rewrite Hcl in wmi_forced0. simpl. lia.
    + by rewrite Hcc.
  - destruct Hs as [r w ms Hc|r w ms Hc|w ms Hc|w w' ms Hw Hf Hcc]; cbn [fst snd] in *; [..|done];
      (apply emits_app; [done|]); repeat case_match; emits_tac.
Qed.

Lemma wm_reachable_inv s x : rtc wm_step (NewWorker s, []) x -> wm_inv s x.
Proof.
  revert x. apply (rtc_ind_r (fun x => wm_inv s x)); [|intros y z _ Hs Hi; by eapply wm_step_inv].
  split; [apply rtc_refl|done|done|by repeat constructor].
Qed.
End counters.

(** ** Properties *)

(** One registry: who is in it, and what a queue of it holds. *)
Lemma registry_open {Req Sess} cap process dead (fl : Fleet Req Sess) id :
  fl_reachable cap process dead fl -> id ∈ fl_registry fl <-> exists w, fl_workers fl !! id = Some (Open, w).
Proof. intros [] % fl_reachable_inv. done. Qed.

Lemma registry_queue {Req Sess} cap process dead (fl : Fleet Req Sess) id :
  fl_reachable cap process dead fl -> id ∈ fl_registry fl -> queue_len fl id = waiting_at fl id /\ queue_len fl id <= cap.
Proof.
  intros [] % fl_reachable_inv [w Hw]%fi_registry0. unfold queue_len, waiting_at. rewrite Hw.
  destruct (fi_worker0 _ _ _ Hw) as [s Hr]. by eapply waiting_queue.
Qed.

(** The reads of one call, each of what a registered worker has waiting then. *)
Lemma reads_waiting {Req Sess Req' Sess'} cap process dead process' dead' {Req1 Sess1} process1 dead1
    (proj : Fleets Req Sess Req' Sess' -> Fleet Req1 Sess1) u order total u' :
  (forall u1, rtc (fleets_step cap process dead process' dead') u u1 -> fl_reachable cap process1 dead1 (proj u1)) ->
  order ≡ₚ elements (fl_registry (proj u)) ->
  read_queues cap process dead process' dead' (fun u => fl_registry (proj u)) (fun u => queue_len (proj u)) u order total u' ->
  exists reads, map snd reads ≡ₚ elements (fl_registry (proj u)) /\
    Forall (fun r => during cap process dead process' dead' u u' r /\ r.2 ∈ fl_registry (proj r.1)) reads /\
    total = sum_list_with (fun r => waiting_at (proj r.1) r.2) reads /\ total <= cap * size (fl_registry (proj u)).
Proof.
  intros Hre Ho (_ & _ & reads & Hm & Ht & Hf)%read_queues_reads. subst order.
  assert (Hin : Forall (fun r => during cap process dead process' dead' u u' r /\ r.2 ∈ fl_registry (proj r.1)) reads).
  { rewrite Forall_forall in *. intros r Hr. destruct (Hf r Hr) as [Hd Hreg]. split; [done|]. rewrite Hreg.
    apply elem_of_elements. rewrite <- Ho. apply list_elem_of_In, in_map. exact Hr. }
  assert (Hq : forall r, r ∈ reads -> queue_len (proj r.1) r.2 = waiting_at (proj r.1) r.2 /\ queue_len (proj r.1) r.2 <= cap).
  { intros r Hr. apply list_elem_of_In in Hr. rewrite Forall_forall in Hin. destruct (Hin r Hr) as [[H1 _] H2].
    by eapply registry_queue; [apply Hre|]. }
  exists reads. split; [done|]. split; [done|]. subst total. split.
  - apply sum_list_with_ext_in. intros r Hr. by apply Hq.
  - assert (El : size (fl_registry (proj u)) = length reads).
    { unfold size, set_size. cbn. rewrite <- Ho. apply length_map. }
    rewrite El. apply sum_list_with_le. intros r Hr. by apply Hq.
Qed.

(** C31: What the queue-depth gauge reads. However the goroutines of all connections of
    both protocols interleave with each other and with the scrape, a worker is in its
    registry exactly while its connection is between [Initialize] and [Close]; the value
    is the sum, over the MySQL workers registered when their part of the scrape began and
    the pgwire workers registered when theirs began, each read once, of the requests the
    worker had accepted and not yet taken up at the moment it was read, a moment within
    the scrape at which it was still registered; so it lies between 0 and the queue size
    times the number of these workers. The scrape waits for nobody: done at once, it
    returns the exact number of waiting requests. Taken over a longer time, the reads are
    of different moments. *)
Theorem queue_depth_read {Req Sess Req' Sess'} cap process dead process' dead' (u : Fleets Req Sess Req' Sess') :
  fleets_reachable cap process dead process' dead' u ->
  (forall id, id ∈ fl_registry u.1 <-> exists w, fl_workers u.1 !! id = Some (Open, w)) /\
  (forall id, id ∈ fl_registry u.2 <-> exists w, fl_workers u.2 !! id = Some (Open, w)) /\
  (forall v u', queue_depth_value cap process dead process' dead' u v u' ->
   exists u2 mysql_reads pg_reads,
     during cap process dead process' dead' u u' (u2, 0) /\
     map snd mysql_reads ≡ₚ elements (fl_registry u.1) /\ map snd pg_reads ≡ₚ elements (fl_registry u2.2) /\
     Forall (fun r => during cap process dead process' dead' u u2 r /\ r.2 ∈ fl_registry r.1.1) mysql_reads /\
     Forall (fun r => during cap process dead process' dead' u2 u' r /\ r.2 ∈ fl_registry r.1.2) pg_reads /\
     v = Z.of_nat (sum_list_with (fun r => waiting_at r.1.1 r.2) mysql_reads +
                   sum_list_with (fun r => waiting_at r.1.2 r.2) pg_reads) /\
     (0 <= v <= Z.of_nat (cap * (size (fl_registry u.1) + size (fl_registry u2.2))))%Z) /\
  queue_depth_value cap process dead process' dead' u
    (Z.of_nat (sum_list_with (waiting_at u.1) (elements (fl_registry u.1)) +
               sum_list_with (waiting_at u.2) (elements (fl_registry u.2)))) u.
Proof.
  intros Hu. split; [intros id; by eapply registry_open, Hu|]. split; [intros id; by eapply registry_open, Hu|]. split.
  - intros v u' [n m u1 u2 (o1 & Ho1 & Hr1) Hs (o2 & Ho2 & Hr2) ->].
    pose proof (read_queues_reads _ _ _ _ _ _ _ _ _ _ _ Hr1) as (H1 & _). pose proof (read_queues_reads _ _ _ _ _ _ _ _ _ _ _ Hr2) as (H2 & _).
    assert (Hu2 : rtc (fleets_step cap process dead process' dead') u u2) by (by transitivity u1).
    apply (reads_waiting cap process dead process' dead' process dead fst) in Hr1 as (rs1 & E1 & F1 & -> & B1); [|intros u3 H3; by eapply fleets_steps_reachable|done].
    apply (reads_waiting cap process dead process' dead' process' dead' snd) in Hr2 as (rs2 & E2 & F2 & -> & B2);
      [|intros u3 H3; eapply fleets_steps_reachable; [exact Hu|by transitivity u2]|done].
    exists u2, rs1, rs2. split; [by split|]. split; [done|]. split; [done|]. split.
    { eapply Forall_impl; [|exact F1]. intros r [[Ha Hb] Hc]. split; [|done]. split; [done|by transitivity u1]. }
    split; [done|]. split; [by rewrite Nat2Z.inj_add|]. cbn [fst snd] in *. rewrite Nat.mul_add_distr_l. lia.
  - assert (Ew : forall {Req Sess} proc dd (fl : Fleet Req Sess), fl_reachable cap proc dd fl ->
      sum_list_with (waiting_at fl) (elements (fl_registry fl)) = sum_list_with (queue_len fl) (elements (fl_registry fl))).
    { intros Rq Ss proc dd fl Hfl. apply sum_list_with_ext_in. intros id Hid%elem_of_elements.
      symmetry. by eapply registry_queue. }
    destruct Hu as [Hu1 Hu2]. rewrite (Ew _ _ _ _ _ Hu1), (Ew _ _ _ _ _ Hu2).
    econstructor; [| apply rtc_refl | |].
    + exists (elements (fl_registry u.1)). split; [done|]. apply read_queues_at_once.
    + exists (elements (fl_registry u.2)). split; [done|]. apply read_queues_at_once.
    + rewrite Nat2Z.inj_add. done.
Qed.

(** Two connections: one with a request queued, one that has left the registry with
    its request still queued. *)
Definition queued_worker (r : nat) : Worker nat (list nat) :=
  send_select 2 r (send_check (fun _ => false) r record_start).
Definition example_fleet : Fleet nat (list nat) :=
  MkFleet (<[7 := (Unregistered, queued_worker 9)]> (<[7 := (Open, queued_worker 9)]>
    (<[7 := (Open, send_check (fun _ => false) 9 record_start)]> (<[7 := (Open, record_start)]> (<[7 := (Started, record_start)]>
    (<[3 := (Open, queued_worker 5)]> (<[3 := (Open, send_check (fun _ => false) 5 record_start)]>
    (<[3 := (Open, record_start)]> (<[3 := (Started, record_start)]> ∅)))))))))
    (({[7]} ∪ ({[3]} ∪ ∅)) ∖ {[7]}).

Lemma example_fleet_reachable : fl_reachable 2 record_process (fun _ => false) example_fleet.
Proof.
  unfold fl_reachable, fleet_start, example_fleet.
  eapply rtc_l; [by apply (fs_start _ _ _ 3 [])|]. eapply rtc_l; [by apply (fs_register _ _ _ 3 record_start)|].
  eapply rtc_l; [by apply (fs_worker _ _ _ 3 Open record_start); [|apply (ws_send_check _ _ _ 5)|]|].
  eapply rtc_l; [by eapply (fs_worker _ _ _ 3 Open); [|apply (ws_send_select _ _ _ 5)|]|].
  eapply rtc_l; [by apply (fs_start _ _ _ 7 [])|]. eapply rtc_l; [by apply (fs_register _ _ _ 7 record_start)|].
  eapply rtc_l; [by apply (fs_worker _ _ _ 7 Open record_start); [|apply (ws_send_check _ _ _ 9)|]|].
  eapply rtc_l; [by eapply (fs_worker _ _ _ 7 Open); [|apply (ws_send_select _ _ _ 9)|]|].
  eapply rtc_l; [by apply (fs_unregister _ _ _ 7)|]. apply rtc_refl.
Qed.

Lemma queue_depth_read_witness :
  let u := (example_fleet, example_fleet) in
  let scrape := queue_depth_value 2 record_process (fun _ => false) record_process (fun _ => false) in
  scrape u 2%Z u /\
  forall v u', scrape u v u' -> exists u2 : Fleets nat (list nat) nat (list nat),
    (0 <= v <= Z.of_nat (2 * (size (fl_registry example_fleet) + size (fl_registry u2.2))))%Z.
Proof.
  intros u scrape.
  destruct (queue_depth_read 2 record_process (fun _ => false) record_process (fun _ => false) u) as (_ & _ & H3 & H4).
  { split; apply example_fleet_reachable. }
  split.
  - assert (E : 2%Z = Z.of_nat (sum_list_with (waiting_at u.1) (elements (fl_registry u.1)) +
                                sum_list_with (waiting_at u.2) (elements (fl_registry u.2)))) by (by vm_compute).
    rewrite E. exact H4.
  - intros v u' Hv. destruct (H3 v u' Hv) as (u2 & _ & _ & _ & _ & _ & _ & _ & _ & Hb). by exists u2.
Defined.

(** *** The reads are of different moments *)

(** Two registered workers, of which at most one has a request waiting at any time: 3 has
    one, 3 takes it up, 7 is sent one. *)
Definition torn_fleet (w3 w7 : Worker nat (list nat)) : Fleet nat (list nat) :=
  MkFleet (<[3 := (Open, w3)]> {[ 7 := (Open, w7) ]}) {[ 3; 7 ]}.
Definition taken_worker : Worker nat (list nat) := take_request 5 [] false (queued_worker 5).
Definition torn (w3 w7 : Worker nat (list nat)) : Fleets nat (list nat) nat (list nat) := (torn_fleet w3 w7, fleet_start).
Definition torn_states : list (Fleets nat (list nat) nat (list nat)) :=
  [torn (queued_worker 5) record_start; torn taken_worker record_start;
   torn taken_worker (send_check (fun _ => false) 9 record_start); torn taken_worker (queued_worker 9)].

Abbreviation torn_step := (fleets_step 2 record_process (fun _ => false) record_process (fun _ => false)).

Lemma torn_step_3 w3 w3' w7 :
  w_step 2 record_process (fun _ => false) w3 w3' -> w_closed w3' = w_closed w3 -> torn_step (torn w3 w7) (torn w3' w7).
Proof.
  intros Hs Hc. apply fls_mysql. unfold torn_fleet. rewrite <- (insert_insert_eq {[7 := (Open, w7)]} 3 (Open, w3') (Open, w3)).
  by apply (fs_worker _ _ _ 3 Open w3 w3' (torn_fleet w3 w7)); [apply lookup_insert_eq|..].
Qed.

Lemma torn_step_7 w3 w7 w7' :
  w_step 2 record_process (fun _ => false) w7 w7' -> w_closed w7' = w_closed w7 -> torn_step (torn w3 w7) (torn w3 w7').
Proof.
  intros Hs Hc. apply fls_mysql.
  change (torn_fleet w3 w7') with (MkFleet (<[7 := (Open, w7')]> (fl_workers (torn_fleet w3 w7))) {[ 3; 7 ]}).
  by apply (fs_worker _ _ _ 7 Open w7 w7' (torn_fleet w3 w7)).
Qed.

Lemma torn_reachable :
  fleets_reachable 2 record_process (fun _ => false) record_process (fun _ => false) (torn (queued_worker 5) record_start).
Proof.
  split; [|apply rtc_refl]. unfold fl_reachable, torn, torn_fleet, fleet_start. cbn [fst].
  eapply rtc_l; [by apply (fs_start _ _ _ 3 [])|]. eapply rtc_l; [by apply (fs_register _ _ _ 3 record_start)|].
  eapply rtc_l; [by apply (fs_worker _ _ _ 3 Open record_start); [|apply (ws_send_check _ _ _ 5)|]|].
  eapply rtc_l; [by eapply (fs_worker _ _ _ 3 Open); [|apply (ws_send_select _ _ _ 5)|]|].
  eapply rtc_l; [by apply (fs_start _ _ _ 7 [])|]. eapply rtc_l; [by apply (fs_register _ _ _ 7 record_start)|].
  match goal with |- rtc _ ?a ?b => replace a with b by (apply f_equal2; reflexivity) end. apply rtc_refl.
Qed.

(** A scrape can return a number of waiting requests that there never were: it reads the
    queue of 3 in the first state and that of 7 in the last, and counts two, while in
    every state of the run at most one request was waiting. *)
Lemma queue_depth_torn :
  fleets_reachable 2 record_process (fun _ => false) record_process (fun _ => false) (torn (queued_worker 5) record_start) /\
  Forall (fun u => sum_list_with (waiting_at u.1) (elements (fl_registry u.1)) <= 1) torn_states /\
  queue_depth_value 2 record_process (fun _ => false) record_process (fun _ => false)
    (torn (queued_worker 5) record_start) 2 (torn taken_worker (queued_worker 9)).
Proof.
  split; [apply torn_reachable|]. split; [by repeat constructor; vm_decide|].
  apply (qd_value _ _ _ _ _ _ _ _ 2 0 (torn taken_worker (queued_worker 9)) (torn taken_worker (queued_worker 9)));
    [|apply rtc_refl| |done].
  - exists [3; 7]. split; [vm_decide|].
    change 2 with (mysql_len (torn (queued_worker 5) record_start) 3 + 1). apply rq_read.
    eapply rq_other; [apply (torn_step_3 _ taken_worker); [by apply ws_take|done]|done|].
    eapply rq_other; [apply (torn_step_7 _ _ (send_check (fun _ => false) 9 record_start)); [by apply ws_send_check|done]|done|].
    eapply rq_other; [apply (torn_step_7 _ _ (queued_worker 9)); [by apply ws_send_select|done]|done|].
    change 1 with (mysql_len (torn taken_worker (queued_worker 9)) 7 + 0). apply rq_read, rq_end.
  - exists []. split; [done|]. apply rq_end.
Qed.

(** Every dropped request is counted, once. In every interleaving, the requests
    that [Send] refused are as many as the counters for a full queue and for a dead
    connection say together; the drain-timeout counter of a worker is 1 if [Close] gave
    up waiting for it and 0 otherwise. *)
Theorem drops_counted {Req Sess} cap process dead (s : Sess) (w : Worker Req Sess) ms :
  rtc (wm_step cap process dead) (NewWorker s, []) (w, ms) ->
  w_reachable cap process dead s w /\ used ms /\
  (total "shadowQueueDrops" [] ms + total "shadowDropped" [B "conn_dead"] ms = Z.of_nat (length (w_refused w)))%Z /\
  total "shadowDrainTimeouts" [] ms = if w_closeCh w then 1%Z else 0%Z.
Proof. intros [] % wm_reachable_inv. by destruct wmi_emits0. Qed.

(** A queue of one, two sends, and a forced close. *)
Definition forced_worker : Worker nat (list nat) :=
  let w1 := send_select 1 5 (send_check (fun _ => false) 5 record_start) in
  close_force (close_begin (send_select 1 6 (send_check (fun _ => false) 6 w1))).

Lemma drops_counted_witness :
  w_refused forced_worker = [6] /\
  (total "shadowQueueDrops" [] [Inc "shadowQueueDrops" []; Inc "shadowDrainTimeouts" []] = 1)%Z /\
  w_reachable 1 record_process (fun _ => false) [] forced_worker.
Proof.
  split; [reflexivity|]. split; [reflexivity|].
  apply (drops_counted 1 record_process (fun _ => false) [] forced_worker
           ([] ++ [Inc "shadowQueueDrops" []] ++ [Inc "shadowDrainTimeouts" []])).
  eapply rtc_l; [by apply (wm_send_check _ _ _ 5)|]. eapply rtc_l; [by apply (wm_send_select _ _ _ 5)|].
  eapply rtc_l; [by apply (wm_send_check _ _ _ 6)|]. eapply rtc_l; [by apply (wm_send_select _ _ _ 6)|].
  eapply rtc_l; [by apply wm_quiet; [apply ws_close_begin| |]|].
  eapply rtc_l; [by apply wm_close_force|]. apply rtc_refl.
Defined.
