(* ===== verification/ShadowSession.v ===== *)
(** * The MySQL shadow connection (src/shadow_worker.go)

    What the worker goroutine does to its connection: [processRequest] for one
    request and, by iteration, for a sequence of them. The life cycle of the
    goroutine around it - queue, shutdown, draining - is in file WorkerLifecycle. *)

From S2P Require Import Prelude GoNet MySQLProtocol MySQLResponse QueryLogger Metrics.

(** The worker's connection, with its reader, and what it has reported. [R] is
    the packet source: [NewMySQLPacketReader] on the connection. *)
Record ShadowSession (R : Type) := MkSession {
  ss_reader : R;
  ss_conn : Conn;
  ss_metrics : list metric;
  ss_log : list QueryLogEntry;
}.
Arguments MkSession {_} _ _ _ _.
Arguments ss_reader {_} _.
Arguments ss_conn {_} _.
Arguments ss_metrics {_} _.
Arguments ss_log {_} _.

Section session.
Context `{PacketSource R}.
(** Whether a query logger is configured. *)
Context (has_logger : bool).

Definition shadow : bytes := B "shadow".

(** [logQueryExecution] *)
Definition logQueryExecution (t : timing) (req : QueryRequest) (bytesSent bytesRecv : Z)
    (err : option error) (log : list QueryLogEntry) : list QueryLogEntry :=
  if has_logger then log ++ [execution_entry shadow t req bytesSent bytesRecv err] else log.

(** The metrics of the command, before the packet is written. *)
Definition command_metrics (target packet : bytes) : list metric :=
  Inc "mysqlPackets" [target] ::
  match getMySQLCommand packet with
  | Some cmd =>
      Inc "mysqlCommands" [target; B (getMySQLCommandName cmd)] ::
      (if isCountableCommand cmd then [Inc "queryTotal" [target]] else [])
  | None => []
  end.
Definition is_countable (packet : bytes) : bool :=
  match getMySQLCommand packet with Some cmd => isCountableCommand cmd | None => false end.

Definition processRequest (closeCh : bool) (t : timing) (req : QueryRequest) (s : ShadowSession R)
    : result unit * ShadowSession R :=
  if closeCh then (Ok tt, s)
  else
    let metrics := ss_metrics s ++ command_metrics shadow (qr_Packet req) in
    let '(nWritten, err, conn) := conn_write (qr_Packet req) (ss_conn s) in
    match err with
    | Some err =>
        (Ok tt, MkSession (ss_reader s) conn
           (metrics ++ Inc "shadowWriteErrors" [] ::
            (if is_countable (qr_Packet req) then [Inc "queryErrors" [shadow]] else []))
           (logQueryExecution t req (Z.of_nat nWritten) 0 (Some err) (ss_log s)))
    | None =>
        let metrics := metrics ++ [Add "bytesTotal" [shadow; B "sent"] (Z.of_nat nWritten)] in
        let cmd := default Byte.x00 (getMySQLCommand (qr_Packet req)) in
        if isNoResponseCommand cmd then
          (Ok tt, MkSession (ss_reader s) conn metrics
             (logQueryExecution t req (Z.of_nat nWritten) 0 None (ss_log s)))
        else
          let '(res, reader) := if isSimpleResponseCommand cmd
                                then ReadSimpleResponse (ss_reader s)
                                else ReadFullResponse (ss_reader s) in
          match res with
          | Ok (bytesRead, Some readErr) =>
              (Ok tt, MkSession reader conn
                 (metrics ++ (if is_timeout readErr then [Inc "shadowReadTimeouts" []] else [])
                  ++ [Observe "queryDuration" [shadow] (t_ns t)])
                 (logQueryExecution t req (Z.of_nat nWritten) bytesRead (Some readErr) (ss_log s)))
          | Ok (bytesRead, None) =>
              (Ok tt, MkSession reader conn
                 (metrics ++ [Add "bytesTotal" [shadow; B "received"] bytesRead;
                              Observe "queryDuration" [shadow] (t_ns t)])
                 (logQueryExecution t req (Z.of_nat nWritten) bytesRead None (ss_log s)))
          | Err e => (Err e, MkSession reader conn metrics (ss_log s))
          | Panic => (Panic, MkSession reader conn metrics (ss_log s))
          | Stuck => (Stuck, MkSession reader conn metrics (ss_log s))
          end
    end.

(** Requests processed one after the other, without a forced close. *)
Fixpoint process_all (reqs : list (timing * QueryRequest)) (s : ShadowSession R)
    : result unit * ShadowSession R :=
  match reqs with
  | [] => (Ok tt, s)
  | (t, req) :: reqs => let? _u, s := processRequest false t req s in process_all reqs s
  end.

(** ** What the shadow is sent *)

Lemma ReadSimpleResponse_total r : src_inv r ->
  exists n e r', ReadSimpleResponse r = (Ok (n, e), r') /\ src_inv r'.
Proof.
  intros Hr. unfold ReadSimpleResponse. destruct (ReadPacket r) as [res r'] eqn:E.
  destruct (src_any _ _ _ Hr E) as (Hi & _ & [(p & -> & _)|[e ->]]); eauto 6.
Qed.

Lemma ReadFullResponse_total r : src_inv r ->
  exists n e r', ReadFullResponse r = (Ok (n, e), r') /\ src_inv r'.
Proof.
  intros Hr. destruct (fwd_loop_fine (S (src_size r)) 0%Z (r, MkConn [] [] []) Hr)
    as (n & e & [r' c'] & E & Hi & _); [simpl; lia|].
  destruct (same_loop (S (src_size r)) 0%Z r (MkConn [] [] []) eq_refl) as (E1 & E2 & _).
  rewrite E in E1, E2. cbn [fst snd] in *. exists n, e, r'.
  unfold ReadFullResponse. destruct (full_loop _ _ _) as [res r'']. cbn [fst snd] in *. by subst.
Qed.

(** [processRequest] returns, on every connection, with at most one log entry
    more, and leaves the reader in a state it can go on from. *)
Lemma processRequest_total t req s : src_inv (ss_reader s) ->
  exists s', processRequest false t req s = (Ok tt, s') /\ src_inv (ss_reader s') /\
    (exists d, d `prefix_of` qr_Packet req /\ c_out (ss_conn s') = c_out (ss_conn s) ++ d /\
               (c_wr (ss_conn s) = [] -> d = qr_Packet req /\ c_wr (ss_conn s') = [])) /\
    (exists sent recv err,
       ss_log s' = ss_log s ++ (if has_logger then [execution_entry shadow t req sent recv err] else [])).
Proof.
  intros Hr. unfold processRequest.
  destruct (conn_write (qr_Packet req) (ss_conn s)) as [[n e] c'] eqn:Ew.
  apply conn_write_any in Ew as (d & Hd & Ho & Hn & He & Hw).
  assert (Hlog : forall a b e l, exists x y z,
    logQueryExecution t req a b e l = l ++ (if has_logger then [execution_entry shadow t req x y z] else [])).
  { intros a b e0 l. exists a, b, e0. unfold logQueryExecution. by destruct has_logger; rewrite ?app_nil_r. }
  assert (Hc : forall A (x : A), (c_wr (ss_conn s) = [] -> e = None) ->
    exists d, d `prefix_of` qr_Packet req /\ c_out c' = c_out (ss_conn s) ++ d /\
              (c_wr (ss_conn s) = [] -> d = qr_Packet req /\ c_wr c' = [])).
  { intros _ _ _. exists d. split_and!; [done|done|]. intros H0. destruct (Hw H0) as [-> ?]. auto. }
  specialize (Hc _ tt (fun H0 => proj1 (Hw H0))).
  destruct e as [e|]; [eexists; split; [reflexivity|]; split_and!; [done|done|apply Hlog]|].
  destruct (isNoResponseCommand _);
    [eexists; split; [reflexivity|]; split_and!; [done|done|apply Hlog]|].
  destruct (isSimpleResponseCommand _).
  - destruct (ReadSimpleResponse_total _ Hr) as (k & [e|] & r' & -> & Hr');
      (eexists; split; [reflexivity|]; split_and!; [done|done|apply Hlog]).
  - destruct (ReadFullResponse_total _ Hr) as (k & [e|] & r' & -> & Hr');
      (eexists; split; [reflexivity|]; split_and!; [done|done|apply Hlog]).
Qed.

(** ** A shadow that answers *)

Lemma ReadFullResponse_ok r ps rest :
  mysql_response ps -> src_holds r (ps ++ rest) ->
  exists r', ReadFullResponse r = (Ok (Z.of_nat (length (concat ps)), None), r') /\ src_holds r' rest.
Proof.
  intros Hps Hr. pose proof (src_holds_length _ _ Hr) as Hlen. rewrite length_app in Hlen.
  destruct (reads_response ps Hps (S (src_size r)) 0%Z (MkConn [] [] []) r rest eq_refl Hr)
    as (r' & E & Hr'); [lia|].
  destruct (same_loop (S (src_size r)) 0%Z r (MkConn [] [] []) eq_refl) as (E1 & E2 & _).
  rewrite E in E1, E2. cbn [fst snd] in *. exists r'. split; [|done].
  unfold ReadFullResponse. destruct (full_loop _ _ _) as [res r'']. cbn [fst snd] in *. by subst.
Qed.

(** The packets a server sends in answer to a command. *)
Definition answers (req : QueryRequest) (ps : list bytes) : Prop :=
  let cmd := default Byte.x00 (getMySQLCommand (qr_Packet req)) in
  if isNoResponseCommand cmd then ps = []
  else if isSimpleResponseCommand cmd then exists p, ps = [p]
  else mysql_response ps.

(** The entry of a request that was answered. *)
Definition success_entry (t : timing) (req : QueryRequest) (ps : list bytes) : QueryLogEntry :=
  execution_entry shadow t req (Z.of_nat (length (qr_Packet req)))
    (Z.of_nat (length (concat ps))) None.

Lemma processRequest_answered t req ps rest s :
  c_wr (ss_conn s) = [] -> answers req ps -> src_holds (ss_reader s) (ps ++ rest) ->
  exists s', processRequest false t req s = (Ok tt, s') /\ src_holds (ss_reader s') rest /\
    ss_conn s' = MkConn (c_in (ss_conn s)) (c_out (ss_conn s) ++ qr_Packet req) [] /\
    ss_log s' = ss_log s ++ (if has_logger then [success_entry t req ps] else []).
Proof.
  intros Hc Ha Hr. unfold processRequest, conn_write, answers in *. rewrite Hc.
  assert (Hlog : forall b, logQueryExecution t req (Z.of_nat (length (qr_Packet req))) b None (ss_log s)
    = ss_log s ++ (if has_logger then
        [execution_entry shadow t req (Z.of_nat (length (qr_Packet req))) b None] else [])).
  { intros b. unfold logQueryExecution. by destruct has_logger; rewrite ?app_nil_r. }
  destruct (isNoResponseCommand _).
  { subst ps. eexists. split; [reflexivity|]. split_and!; [exact Hr|done|]. apply Hlog. }
  destruct (isSimpleResponseCommand _).
  - destruct Ha as [p ->]. unfold ReadSimpleResponse.
    destruct (src_next _ _ _ Hr) as (r' & -> & Hr').
    eexists. split; [reflexivity|]. split_and!; [exact Hr'|done|].
    unfold success_entry. simpl. rewrite app_nil_r. apply Hlog.
  - destruct (ReadFullResponse_ok _ _ _ Ha Hr) as (r' & -> & Hr').
    eexists. split; [reflexivity|]. split_and!; [exact Hr'|done|]. apply Hlog.
Qed.

(** One exchange: when, which request, and the answer. *)
Definition exchange : Type := timing * QueryRequest * list bytes.

Lemma process_all_answered (exs : list exchange) : forall s rest,
  c_wr (ss_conn s) = [] -> Forall (fun '(t, req, ps) => answers req ps) exs ->
  src_holds (ss_reader s) (concat (map snd exs) ++ rest) ->
  exists s', process_all (map fst exs) s = (Ok tt, s') /\ src_holds (ss_reader s') rest /\
    ss_conn s' = MkConn (c_in (ss_conn s))
                   (c_out (ss_conn s) ++ concat (map (fun ex => qr_Packet ex.1.2) exs)) [] /\
    ss_log s' = ss_log s ++
      (if has_logger then map (fun '(t, req, ps) => success_entry t req ps) exs else []).
Proof.
  induction exs as [|[[t req] ps] exs IH]; intros s rest Hc Ha Hr.
  - exists s. cbn in *. rewrite !app_nil_r. split_and!; [done|done| |by destruct has_logger; rewrite app_nil_r].
    destruct (ss_conn s); simpl in *. by subst.
  - apply Forall_cons_iff in Ha as [Ha Hexs]. cbn [map concat snd] in Hr. rewrite <- app_assoc in Hr.
    destruct (processRequest_answered t req ps _ s Hc Ha Hr) as (s1 & E1 & Hr1 & Hc1 & Hl1).
    destruct (IH s1 rest) as (s' & E' & Hr' & Hc' & Hl'); [by rewrite Hc1|done|done|].
    exists s'. cbn [map fst process_all]. rewrite E1. cbn [and_then]. rewrite E'.
    split_and!; [done|done| |].
    + rewrite Hc', Hc1. cbn [c_in c_out map concat fst snd]. by rewrite <- app_assoc.
    + rewrite Hl', Hl1. destruct has_logger; cbn [map]; by rewrite <- app_assoc.
Qed.
End session.

Section session_any.
Context `{PacketSource R}.

Lemma process_all_total (reqs : list (timing * QueryRequest)) : forall s : ShadowSession R,
  src_inv (ss_reader s) ->
  exists s' log', process_all true reqs s = (Ok tt, s') /\ src_inv (ss_reader s') /\
    ss_log s' = ss_log s ++ log' /\ map le_QueryID log' = map (fun tr => qr_ID tr.2) reqs /\
    (c_wr (ss_conn s) = [] ->
     c_wr (ss_conn s') = [] /\
     c_out (ss_conn s') = c_out (ss_conn s) ++ concat (map (fun tr => qr_Packet tr.2) reqs)).
Proof.
  induction reqs as [|[t req] reqs IH]; intros s Hr.
  - exists s, []. cbn. rewrite !app_nil_r. by split_and!.
  - destruct (processRequest_total true t req s Hr)
      as (s1 & E1 & Hr1 & (d & Hd & Ho & Hc) & (a & b & e & Hl)).
    destruct (IH s1 Hr1) as (s' & log' & E' & Hr' & Hl' & Hid & Hc').
    exists s', (execution_entry shadow t req a b e :: log').
    cbn [process_all]. rewrite E1. cbn [and_then]. split_and!; [done|done| | |].
    + rewrite Hl', Hl. by rewrite <- app_assoc.
    + cbn [map]. by rewrite Hid.
    + intros Hw. destruct (Hc Hw) as [-> Hw1]. destruct (Hc' Hw1) as [Hw' Ho'].
      split; [done|]. rewrite Ho', Ho. cbn [map concat snd]. by rewrite <- app_assoc.
Qed.
End session_any.

(** A reader whose next read fails returns that error and no bytes. *)
Lemma ReadFullResponse_fails (r : MySQLPacketReader) e tl' :
  will_read r [] (ReadEv [] (Some e) :: tl') ->
  exists r', ReadFullResponse r = (Ok (0%Z, Some e), r') /\ will_read r' [] tl'.
Proof.
  intros Hr. destruct (reader_ReadPacket_fails r [] _ e tl' Hr eq_refl ltac:(by right)) as (r' & E & Hr').
  exists r'. split; [|done]. unfold ReadFullResponse. cbn [full_loop]. unfold full_result, full_packet.
  change (ReadPacket r) with (reader_ReadPacket r). rewrite E. done.
Qed.

(** What arrives after the failed read is what the next read finds. *)
Lemma will_read_next r cl tl : will_read r [] (cl ++ tl) -> clean cl -> will_read r (data cl) tl.
Proof.
  intros (Hok & cl0 & Ec & Hcl0 & Hd) Hcl. apply app_eq_nil in Hd as [Hw Hd0].
  split; [done|]. exists (cl0 ++ cl). rewrite Ec, app_assoc. split; [done|]. split.
  - by apply Forall_app.
  - rewrite Hw. unfold data in *. by rewrite map_app, concat_app, Hd0.
Qed.

(** ** Properties *)

(** The shadow worker is robust. For every sequence of requests and every
    behaviour of the shadow server - garbage, truncated responses, failing writes -
    processing returns without a panic, logs exactly one entry per request, in
    order and under the request's own id, and, as long as writes succeed, has sent
    the shadow exactly the mirrored packets. *)
Theorem shadow_processes_every_request `{PacketSource R} reqs (s : ShadowSession R) :
  src_inv (ss_reader s) ->
  exists s' log', process_all true reqs s = (Ok tt, s') /\ src_inv (ss_reader s') /\
    ss_log s' = ss_log s ++ log' /\ map le_QueryID log' = map (fun tr => qr_ID tr.2) reqs /\
    (c_wr (ss_conn s) = [] ->
     c_wr (ss_conn s') = [] /\
     c_out (ss_conn s') = c_out (ss_conn s) ++ concat (map (fun tr => qr_Packet tr.2) reqs)).
Proof. apply process_all_total. Qed.

Definition example_timing : timing := MkTiming (B "2024-01-01T00:00:00Z") 1000000.
Definition example_request (id : string) (payload : bytes) : QueryRequest :=
  NewQueryRequest (B id) 0 (mk_packet Byte.x00 payload) (B "10.0.0.1:5000").
Definition ping : bytes := [Byte.x0e].
Definition select_1 : bytes := Byte.x03 :: B "SELECT 1".
Definition ok_packet : bytes := mk_packet Byte.x01 (ok_payload 0 0 2 0 []).

Lemma shadow_processes_every_request_witness :
  exists s' log',
    process_all true [(example_timing, example_request "a" select_1);
                      (example_timing, example_request "b" ping)]
      (MkSession [ok_packet] (MkConn [] [] [None; Some (2, ErrConn "broken pipe")]) [] [])
    = (Ok tt, s') /\ src_inv (ss_reader s') /\ ss_log s' = [] ++ log' /\
    map le_QueryID log' = [B "a"; B "b"] /\
    ([None; Some (2, ErrConn "broken pipe")] = [] ->
     c_wr (ss_conn s') = [] /\
     c_out (ss_conn s') = [] ++ mk_packet Byte.x00 select_1 ++ mk_packet Byte.x00 ping ++ []).
Proof.
  apply (shadow_processes_every_request (R := list bytes)
    [(example_timing, example_request "a" select_1); (example_timing, example_request "b" ping)]
    (MkSession [ok_packet] (MkConn [] [] [None; Some (2, ErrConn "broken pipe")]) [] [])).
  by repeat constructor.
Defined.

(** C22: A shadow that answers stays in step. When the shadow answers every mirrored
    command as the protocol prescribes - nothing to COM_QUIT, COM_STMT_CLOSE and
    COM_STMT_SEND_LONG_DATA, one packet to the simple commands, a response to the
    others - every request is logged as a success with the size of its own answer,
    and afterwards the reader stands exactly behind the last answer. *)
Theorem shadow_session_in_step `{PacketSource R} (exs : list exchange) (s : ShadowSession R) rest :
  c_wr (ss_conn s) = [] -> Forall (fun '(t, req, ps) => answers req ps) exs ->
  src_holds (ss_reader s) (concat (map snd exs) ++ rest) ->
  exists s', process_all true (map fst exs) s = (Ok tt, s') /\ src_holds (ss_reader s') rest /\
    c_out (ss_conn s') = c_out (ss_conn s) ++ concat (map (fun ex => qr_Packet ex.1.2) exs) /\
    ss_log s' = ss_log s ++ map (fun '(t, req, ps) => success_entry t req ps) exs.
Proof.
  intros Hc Ha Hr. destruct (process_all_answered true exs s rest Hc Ha Hr) as (s' & E & Hr' & Hc' & Hl').
  exists s'. split_and!; [done|done|by rewrite Hc'|done].
Qed.

Definition example_exchanges : list exchange :=
  [(example_timing, example_request "a" select_1, [ok_packet]);
   (example_timing, example_request "b" ping, [ok_packet])].

Lemma shadow_session_in_step_witness :
  exists s', process_all true (map fst example_exchanges)
      (MkSession [ok_packet; ok_packet] (MkConn [] [] []) [] []) = (Ok tt, s') /\
    src_holds (ss_reader s') [] /\
    c_out (ss_conn s') = [] ++ concat (map (fun ex => qr_Packet ex.1.2) example_exchanges) /\
    ss_log s' = [] ++ map (fun '(t, req, ps) => success_entry t req ps) example_exchanges.
Proof.
  apply (shadow_session_in_step (R := list bytes) example_exchanges
           (MkSession [ok_packet; ok_packet] (MkConn [] [] []) [] []) []).
  - reflexivity.
  - constructor; [by apply resp_ok|]. constructor; [by exists ok_packet|constructor].
  - split; [reflexivity|by repeat constructor].
Defined.

(** A late answer is taken for the next one. When the answer to a request
    arrives only after the read deadline, the worker logs the timeout and keeps the
    connection; the next request is then logged as a success with the size of the
    late answer, which was not its own, and the reader stays one answer behind. *)
Theorem late_answer_misattributed (s : ShadowSession MySQLPacketReader) x t1 req1 t2 req2 ps1 ps2 :
  let cmd req := default Byte.x00 (getMySQLCommand (qr_Packet req)) in
  isNoResponseCommand (cmd req1) = false -> isSimpleResponseCommand (cmd req1) = false ->
  isNoResponseCommand (cmd req2) = false -> isSimpleResponseCommand (cmd req2) = false ->
  mysql_response ps1 -> Forall valid_packet (ps1 ++ ps2) -> c_wr (ss_conn s) = [] ->
  will_read (ss_reader s) []
    (ReadEv [] (Some (ErrTimeout x)) :: segments [concat ps1; concat ps2]) ->
  exists s', process_all true [(t1, req1); (t2, req2)] s = (Ok tt, s') /\
    ss_log s' = ss_log s ++
      [execution_entry shadow t1 req1 (Z.of_nat (length (qr_Packet req1))) 0 (Some (ErrTimeout x));
       success_entry t2 req2 ps1] /\
    src_holds (ss_reader s') ps2.
Proof.
  intros cmd Hn1 Hs1 Hn2 Hs2 Hps Hv Hc Hr. subst cmd. cbn beta in *.
  destruct (ReadFullResponse_fails _ _ _ Hr) as (r1 & E1 & Hr1).
  set (c1 := MkConn (c_in (ss_conn s)) (c_out (ss_conn s) ++ qr_Packet req1) []).
  assert (exists s1, processRequest true false t1 req1 s = (Ok tt, s1) /\ ss_reader s1 = r1 /\
    ss_conn s1 = c1 /\ ss_log s1 = ss_log s ++
      [execution_entry shadow t1 req1 (Z.of_nat (length (qr_Packet req1))) 0 (Some (ErrTimeout x))])
    as (s1 & Ep & Er & Ec & El).
  { unfold processRequest, conn_write. rewrite Hc, Hn1, Hs1, E1. eexists. split; [reflexivity|].
    by split_and!. }
  assert (Hh : src_holds (ss_reader s1) (ps1 ++ ps2)).
  { rewrite Er. exists [], []. split; [|done]. rewrite app_nil_r, concat_app.
    rewrite <- (app_nil_r (segments _)) in Hr1. apply will_read_next in Hr1; [|apply clean_segments].
    rewrite data_segments in Hr1. simpl in Hr1. by rewrite app_nil_r in Hr1. }
  destruct (processRequest_answered true t2 req2 ps1 ps2 s1) as (s2 & Ep2 & Hr2 & _ & El2);
    [by rewrite Ec|unfold answers; by rewrite Hn2, Hs2|done|].
  exists s2. cbn [process_all]. rewrite Ep. cbn [and_then]. rewrite Ep2. cbn [and_then].
  split; [done|]. split; [|done]. rewrite El2, El. by rewrite <- app_assoc.
Qed.

Definition late_session : ShadowSession MySQLPacketReader :=
  MkSession (NewMySQLPacketReader
    (ReadEv [] (Some (ErrTimeout "i/o timeout")) :: segments [ok_packet ++ []; ok_packet ++ []]))
    (MkConn [] [] []) [] [].

Lemma late_answer_misattributed_witness :
  exists s', process_all true [(example_timing, example_request "slow" select_1);
                               (example_timing, example_request "next" select_1)] late_session
             = (Ok tt, s') /\
    ss_log s' = [] ++
      [execution_entry shadow example_timing (example_request "slow" select_1) 13 0
         (Some (ErrTimeout "i/o timeout"));
       success_entry example_timing (example_request "next" select_1) [ok_packet]] /\
    src_holds (ss_reader s') [ok_packet].
Proof.
  refine (late_answer_misattributed late_session "i/o timeout" example_timing _ example_timing _
            [ok_packet] [ok_packet] _ _ _ _ _ _ _ _); try reflexivity.
  - by apply resp_ok.
  - by repeat constructor.
  - refine (NewMySQLPacketReader_will_read [] _ _). constructor.
Defined.
