(* ===== verification/ShadowWorker.v ===== *)
(** * The MySQL shadow worker (src/shadow_worker.go)

    The life cycle of file WorkerLifecycle around the session of file
    ShadowSession: the whole worker, from [Send] to the bytes on the shadow
    connection. *)

From S2P Require Import Prelude GoNet MySQLProtocol MySQLResponse QueryLogger Metrics ShadowSession WorkerLifecycle.
From stdpp Require Import relations.

Section worker.
Context `{PacketSource R}.

(** The worker's processing step; [closeCh] was checked before. *)
Definition mysql_process (t : timing) (req : QueryRequest) (s : ShadowSession R) : ShadowSession R :=
  (processRequest true false t req s).2.

Definition mysql_reachable (cap : nat) (s0 : ShadowSession R)
    (w : Worker QueryRequest (ShadowSession R)) : Prop :=
  w_reachable cap mysql_process (fun _ => false) s0 w.

Lemma run_process_all trs : forall s, src_inv (ss_reader s) ->
  run mysql_process s trs = (process_all true trs s).2.
Proof.
  induction trs as [|[t req] trs IH]; intros s Hs; [done|].
  destruct (processRequest_total true t req s Hs) as (s1 & E & Hs1 & _).
  unfold run in *. cbn [foldl process_all fst snd]. unfold mysql_process at 2.
  rewrite E. cbn [and_then snd]. by apply IH.
Qed.

(** After a graceful [Close] everything accepted has been processed, and so sent. *)
Lemma delivered_accepted cap (s0 : ShadowSession R) w :
  src_inv (ss_reader s0) -> c_wr (ss_conn s0) = [] ->
  mysql_reachable cap s0 w -> w_caller w = CJoined -> w_closeCh w = false ->
  c_out (ss_conn (w_sess w)) = c_out (ss_conn s0) ++ concat (map qr_Packet (w_accepted w)) /\
  exists log', ss_log (w_sess w) = ss_log s0 ++ log' /\
               map le_QueryID log' = map qr_ID (w_accepted w).
Proof.
  intros Hi Hw Hr Hj Hc.
  destruct (w_joined_processed _ _ _ _ _ Hr Hj Hc) as [Ha _].
  destruct (process_all_total (w_processed w) s0 Hi) as (s' & log' & E & _ & Hl & Hid & Ho).
  rewrite (wi_sess _ _ _ _ (w_reachable_inv _ _ _ _ _ Hr)), run_process_all, E by done. cbn [snd].
  destruct (Ho Hw) as [_ ->]. rewrite <- Ha, !map_map. split; [done|]. by exists log'.
Qed.
End worker.

(** ** Properties *)

(** From [Send] to the wire. When [Close] has returned without a forced close
    and no write failed, the bytes sent to the shadow are exactly the packets of
    the requests [Send] accepted, in the order of the calls, and the query log has
    exactly one shadow entry for each of them, under its id. *)
Theorem worker_delivers_what_send_accepted `{PacketSource R} cap (s0 : ShadowSession R) w :
  src_inv (ss_reader s0) -> c_wr (ss_conn s0) = [] ->
  mysql_reachable cap s0 w -> w_caller w = CJoined -> w_closeCh w = false ->
  c_out (ss_conn (w_sess w)) = c_out (ss_conn s0) ++ concat (map qr_Packet (w_accepted w)) /\
  exists log', ss_log (w_sess w) = ss_log s0 ++ log' /\
               map le_QueryID log' = map qr_ID (w_accepted w).
Proof.
  apply delivered_accepted.
Qed.

Definition worker_start : ShadowSession (list bytes) :=
  MkSession [ok_packet] (MkConn [] [] []) [] [].

Definition worker_end : Worker QueryRequest (ShadowSession (list bytes)) :=
  let req := example_request "a" select_1 in
  let w1 := send_select 1 req (send_check (fun _ => false) req (NewWorker worker_start)) in
  let w2 := set_worker (close_begin w1) WDrain in
  let w3 := finish_request mysql_process example_timing req true
              (check_close req true (take_request req [] true w2)) in
  close_end (set_worker w3 WDone).

Lemma worker_end_reachable : mysql_reachable 1 worker_start worker_end.
Proof.
  set (req := example_request "a" select_1).
  eapply rtc_l; [by apply (ws_send_check _ _ _ req)|]. eapply rtc_l; [by apply ws_send_select|].
  eapply rtc_l; [by apply ws_close_begin|]. eapply rtc_l; [by apply ws_drain|].
  eapply rtc_l; [by apply (ws_drain_take _ _ _ req [])|]. eapply rtc_l; [by apply (ws_check _ _ _ req true)|].
  eapply rtc_l; [by apply (ws_finish _ _ _ example_timing req true)|].
  eapply rtc_l; [by apply ws_drained|]. eapply rtc_l; [by apply ws_close_done|]. apply rtc_refl.
Qed.

Lemma worker_delivers_what_send_accepted_witness :
  c_out (ss_conn (w_sess worker_end)) = [] ++ concat (map qr_Packet [example_request "a" select_1]) /\
  exists log', ss_log (w_sess worker_end) = [] ++ log' /\ map le_QueryID log' = [B "a"].
Proof.
  apply (worker_delivers_what_send_accepted (R := list bytes) 1 worker_start worker_end).
  - by repeat constructor.
  - reflexivity.
  - apply worker_end_reachable.
  - reflexivity.
  - reflexivity.
Defined.
