(* ===== verification/PgShadowWorker.v ===== *)
(** * The pgwire shadow worker (src/pg_shadow_worker.go)

    What the worker does to its hijacked connection: [processFrame], the dead
    latch, and the read loop up to ReadyForQuery; then the whole worker, by the
    life cycle of file WorkerLifecycle. Connecting and authenticating is the
    pgx library's. *)

From stdpp Require Import relations.
From S2P Require Import Prelude GoNet MySQLProtocol PgProtocol QueryLogger Metrics WorkerLifecycle.

Record pgShadowFrame := MkFrame {
  pf_req : QueryRequest;
  pf_payload : bytes;
  pf_expectsResponse : bool;
}.

Definition pgBackendReadyForQuery : byte := Byte.x5a.

(** The worker's connection, the latch, and what it has reported. *)
Record PgSession := MkPgSession {
  ps_conn : Conn;
  ps_dead : bool;
  ps_metrics : list metric;
  ps_log : list QueryLogEntry;
}.

(** The loop [for { msg, err := ReadMessage(w.conn) ... }]: the bytes read and the
    error, if any. Every message takes at least one byte off the stream. *)
Fixpoint read_until_ready (fuel : nat) (bytesRead : Z) (s : list read_ev)
    : result (Z * option error) * list read_ev :=
  match fuel with
  | O => (Stuck, s)
  | S fuel =>
      match ReadMessage s with
      | (Ok msg, s) =>
          let bytesRead := (bytesRead + Z.of_nat (length (Bytes msg)))%Z in
          if bool_decide (pg_Type msg = pgBackendReadyForQuery) then (Ok (bytesRead, None), s)
          else read_until_ready fuel bytesRead s
      | (Err e, s) => (Ok (bytesRead, Some e), s)
      | (Panic, s) => (Panic, s)
      | (Stuck, s) => (Stuck, s)
      end
  end.

Section session.
Context (has_logger : bool).

Definition shadow_target : bytes := B "shadow".

(** [logExecution] *)
Definition logExecution (t : timing) (req : QueryRequest) (bytesSent bytesRecv : Z)
    (err : option error) (log : list QueryLogEntry) : list QueryLogEntry :=
  if has_logger then log ++ [execution_entry shadow_target t req bytesSent bytesRecv err] else log.

Definition processFrame (closeCh : bool) (t : timing) (frame : pgShadowFrame) (s : PgSession)
    : result unit * PgSession :=
  if closeCh then (Ok tt, s)
  else if ps_dead s then
    (Ok tt, MkPgSession (ps_conn s) true (ps_metrics s ++ [Inc "shadowDropped" [B "conn_dead"]]) (ps_log s))
  else
    match pf_payload frame with
    | [] => (Panic, s)
    | ty :: _ =>
        let metrics := ps_metrics s ++
          [Inc "pgPackets" [shadow_target];
           Inc "pgCommands" [shadow_target; B (pgFrontendCommandName ty)]] in
        let '(nWritten, werr, conn) := conn_write (pf_payload frame) (ps_conn s) in
        let sent := Z.of_nat nWritten in
        match werr with
        | Some werr =>
            (Ok tt, MkPgSession conn true
               (metrics ++ [Inc "shadowWriteErrors" []; Inc "queryErrors" [shadow_target]])
               (logExecution t (pf_req frame) sent 0 (Some werr) (ps_log s)))
        | None =>
            let metrics := metrics ++ [Add "bytesTotal" [shadow_target; B "sent"] sent] in
            if negb (pf_expectsResponse frame) then
              (Ok tt, MkPgSession conn false metrics
                 (logExecution t (pf_req frame) sent 0 None (ps_log s)))
            else
              let metrics := metrics ++ [Inc "queryTotal" [shadow_target]] in
              match read_until_ready (S (length (data (c_in conn)))) 0 (c_in conn) with
              | (Ok (bytesRead, Some err), rest) =>
                  (Ok tt, MkPgSession (MkConn rest (c_out conn) (c_wr conn)) true
                     (metrics ++ (if is_timeout err then [Inc "shadowReadTimeouts" []] else [])
                      ++ [Inc "queryErrors" [shadow_target]])
                     (logExecution t (pf_req frame) sent bytesRead (Some err) (ps_log s)))
              | (Ok (bytesRead, None), rest) =>
                  (Ok tt, MkPgSession (MkConn rest (c_out conn) (c_wr conn)) false
                     (metrics ++ [Add "bytesTotal" [shadow_target; B "received"] bytesRead;
                                  Observe "queryDuration" [shadow_target] (t_ns t)])
                     (logExecution t (pf_req frame) sent bytesRead None (ps_log s)))
              | (Err e, _) => (Err e, s)
              | (Panic, _) => (Panic, s)
              | (Stuck, _) => (Stuck, s)
              end
        end
    end.

Fixpoint process_frames (frames : list (timing * pgShadowFrame)) (s : PgSession) : result unit * PgSession :=
  match frames with
  | [] => (Ok tt, s)
  | (t, frame) :: frames => let? _u, s := processFrame false t frame s in process_frames frames s
  end.
End session.

(** ** Lemmas *)

Lemma read_until_ready_total fuel : forall n s,
  length (data s) < fuel -> exists n' e s', read_until_ready fuel n s = (Ok (n', e), s').
Proof.
  induction fuel as [|fuel IH]; intros n s Hf; [lia|]. cbn [read_until_ready].
  destruct (ReadMessage s) as [res s'] eqn:E.
  apply ReadMessage_any in E as [(p & -> & _ & Hl)|(e & -> & _)]; [|by eauto].
  case_bool_decide; [by eauto|]. apply IH. lia.
Qed.

(** A backend's answer up to and including ReadyForQuery. *)
Definition pg_answer (msgs : list PgPacket) : Prop :=
  exists body zs, msgs = body ++ [pg_frame pgBackendReadyForQuery zs] /\ pg_fits zs /\
    Forall (fun m => pg_wf m /\ pg_Type m <> Byte.x00 /\ pg_Type m <> pgBackendReadyForQuery) body.

Lemma pg_wf_reads m : pg_wf m -> pg_Type m <> Byte.x00 -> pg_reads ReadMessage m (Bytes m).
Proof.
  intros (body & E & Hf) Ht. unfold Bytes. rewrite bool_decide_false by done.
  rewrite E at 1 3. by apply ReadMessage_reads.
Qed.

Lemma read_until_ready_answer body : forall fuel n zs cl tl rest,
  Forall (fun m => pg_wf m /\ pg_Type m <> Byte.x00 /\ pg_Type m <> pgBackendReadyForQuery) body ->
  pg_fits zs -> clean cl ->
  data cl = concat (map Bytes (body ++ [pg_frame pgBackendReadyForQuery zs])) ++ rest ->
  length body < fuel ->
  exists cl', read_until_ready fuel n (cl ++ tl)
    = (Ok ((n + Z.of_nat (length (concat (map Bytes (body ++ [pg_frame pgBackendReadyForQuery zs])))))%Z, None),
       cl' ++ tl) /\ clean cl' /\ data cl' = rest.
Proof.
  induction body as [|m body IH]; intros fuel n zs cl tl rest Hb Hz Hcl Hd Hf;
    (destruct fuel as [|fuel]; [lia|]); cbn [read_until_ready].
  - cbn [app map concat] in *. rewrite app_nil_r in *.
    destruct (ReadMessage_reads pgBackendReadyForQuery zs Hz cl tl rest Hcl) as (cl' & -> & ? & ?); [by rewrite Hd|].
    rewrite bool_decide_true by done. eauto.
  - apply Forall_cons_iff in Hb as [(Hw & H0 & Hr) Hb]. cbn [app map concat] in *.
    rewrite <- app_assoc in Hd.
    destruct (pg_wf_reads m Hw H0 cl tl _ Hcl Hd) as (cl' & -> & Hcl' & Hd').
    rewrite bool_decide_false by done.
    destruct (IH fuel (n + Z.of_nat (length (Bytes m)))%Z zs cl' tl rest Hb Hz Hcl' Hd') as (cl2 & -> & ? & ?);
      [simpl in Hf; lia|].
    exists cl2. split; [|done]. rewrite length_app, Nat2Z.inj_add. do 3 f_equal. lia.
Qed.

(** One frame, on any connection: it returns, and sends a prefix of the frame -
    all of it if the connection is still alive afterwards, nothing if it was dead
    before. *)
Lemma processFrame_any lg t frame s :
  pf_payload frame <> [] ->
  exists s' d, processFrame lg false t frame s = (Ok tt, s') /\
    c_out (ps_conn s') = c_out (ps_conn s) ++ d /\ d `prefix_of` pf_payload frame /\
    (ps_dead s = true -> d = [] /\ ps_dead s' = true) /\
    (ps_dead s' = false -> d = pf_payload frame).
Proof.
  intros Hne. unfold processFrame. destruct (ps_dead s) eqn:Ed.
  { eexists _, []. split; [reflexivity|]. cbn. rewrite app_nil_r.
    split_and!; [done|apply prefix_nil|done|done]. }
  destruct (pf_payload frame) as [|ty pl] eqn:Ep; [done|].
  destruct (conn_write (ty :: pl) (ps_conn s)) as [[n e] c'] eqn:Ew.
  apply conn_write_any in Ew as (d & Hd & Ho & _ & He & _).
  destruct e as [e|]; [eexists _, d; split; [reflexivity|]; by split_and!|].
  specialize (He eq_refl). subst d.
  destruct (negb (pf_expectsResponse frame));
    [eexists _, (ty :: pl); split; [reflexivity|]; by split_and!|].
  destruct (read_until_ready_total (S (length (data (c_in c')))) 0%Z (c_in c')) as (m & [e|] & rest & ->);
    [lia|eexists _, (ty :: pl); split; [reflexivity|]; by split_and!..].
Qed.

(** A sequence of frames: the shadow receives a prefix of what was mirrored. *)
Lemma process_frames_prefix lg frames : forall s,
  Forall (fun tf => pf_payload tf.2 <> []) frames ->
  exists s' d, process_frames lg frames s = (Ok tt, s') /\
    c_out (ps_conn s') = c_out (ps_conn s) ++ d /\
    d `prefix_of` concat (map (fun tf => pf_payload tf.2) frames) /\
    (ps_dead s = true -> d = [] /\ ps_dead s' = true) /\
    (ps_dead s' = false -> d = concat (map (fun tf => pf_payload tf.2) frames)).
Proof.
  induction frames as [|[t frame] frames IH]; intros s Hne.
  { exists s, []. cbn. rewrite app_nil_r. split_and!; try done. }
  apply Forall_cons_iff in Hne as [Hf Hne]. cbn [snd] in Hf.
  destruct (processFrame_any lg t frame s Hf) as (s1 & d1 & E1 & Ho1 & Hp1 & Hd1 & Ha1).
  destruct (IH s1 Hne) as (s' & d & E & Ho & Hp & Hd & Ha).
  exists s', (d1 ++ d). cbn [process_frames map concat snd]. rewrite E1. cbn [and_then].
  split_and!; [done|by rewrite Ho, Ho1, app_assoc| | |].
  - destruct (ps_dead s1) eqn:Eds.
    + destruct (Hd eq_refl) as [-> _]. rewrite app_nil_r. by apply prefix_app_r.
    + rewrite (Ha1 eq_refl). by apply prefix_app.
  - intros Hs. destruct (Hd1 Hs) as [-> Hs1]. destruct (Hd Hs1) as [-> Hs']. done.
  - intros Hs. destruct (ps_dead s1) eqn:Eds; [destruct (Hd eq_refl); congruence|].
    by rewrite (Ha1 eq_refl), (Ha Hs).
Qed.

(** A frame the shadow answers: nothing to a frame without response, otherwise
    messages up to ReadyForQuery. *)
Definition pg_answers (frame : pgShadowFrame) (msgs : list PgPacket) : Prop :=
  if pf_expectsResponse frame then pg_answer msgs else msgs = [].

Lemma length_Bytes_pos m : pg_wf m -> 1 <= length (Bytes m).
Proof.
  intros (body & E & _). unfold Bytes. case_bool_decide; rewrite E, ?pg_frame_length; simpl; lia.
Qed.

Lemma length_concat_Bytes body :
  Forall (fun m => pg_wf m /\ pg_Type m <> Byte.x00 /\ pg_Type m <> pgBackendReadyForQuery) body ->
  length body <= length (concat (map Bytes body)).
Proof.
  induction 1 as [|m body (Hw & _) _ IH]; [done|]. cbn [map concat length]. rewrite length_app.
  pose proof (length_Bytes_pos m Hw). lia.
Qed.

Lemma processFrame_answered lg t frame msgs s cl tl rest :
  pf_payload frame <> [] -> ps_dead s = false -> c_wr (ps_conn s) = [] ->
  pg_answers frame msgs -> c_in (ps_conn s) = cl ++ tl -> clean cl ->
  data cl = concat (map Bytes msgs) ++ rest ->
  exists s' cl', processFrame lg false t frame s = (Ok tt, s') /\ ps_dead s' = false /\
    ps_conn s' = MkConn (cl' ++ tl) (c_out (ps_conn s) ++ pf_payload frame) [] /\
    clean cl' /\ data cl' = rest /\
    ps_log s' = ps_log s ++ (if lg then
      [execution_entry shadow_target t (pf_req frame) (Z.of_nat (length (pf_payload frame)))
         (Z.of_nat (length (concat (map Bytes msgs)))) None] else []).
Proof.
  intros Hne Hd Hw Ha Hin Hcl Hdata. unfold processFrame, pg_answers in *. rewrite Hd.
  destruct (pf_payload frame) as [|ty pl] eqn:Ep; [done|].
  unfold conn_write. rewrite Hw.
  assert (Hlog : forall a b l, logExecution lg t (pf_req frame) a b None l
    = l ++ (if lg then [execution_entry shadow_target t (pf_req frame) a b None] else []))
    by (intros; unfold logExecution; by destruct lg; rewrite ?app_nil_r).
  destruct (pf_expectsResponse frame); cbn [negb].
  - destruct Ha as (body & zs & -> & Hz & Hb). cbn [c_in c_out c_wr]. rewrite Hin.
    destruct (read_until_ready_answer body (S (length (data (cl ++ tl)))) 0 zs cl tl rest Hb Hz Hcl Hdata)
      as (cl' & E & Hcl' & Hd').
    { unfold data at 1. rewrite map_app, concat_app, length_app. fold (data cl). rewrite Hdata, length_app.
      rewrite map_app, concat_app, length_app. pose proof (length_concat_Bytes body Hb). lia. }
    rewrite E. eexists _, cl'. split; [reflexivity|]. cbn [ps_dead ps_conn ps_log]. rewrite Z.add_0_l.
    split_and!; [done|done|done|done|]. apply Hlog.
  - subst msgs. eexists _, cl. split; [reflexivity|]. cbn in *. rewrite Hin.
    split_and!; [done|done|done|done|]. apply Hlog.
Qed.

(** ** The whole worker *)

Definition pg_process (t : timing) (frame : pgShadowFrame) (s : PgSession) : PgSession :=
  (processFrame true false t frame s).2.

Definition pg_reachable (cap : nat) (s0 : PgSession) (w : Worker pgShadowFrame PgSession) : Prop :=
  w_reachable cap pg_process ps_dead s0 w.

Lemma run_process_frames trs : forall s, Forall (fun tf => pf_payload tf.2 <> []) trs ->
  run pg_process s trs = (process_frames true trs s).2.
Proof.
  induction trs as [|[t frame] trs IH]; intros s Hne; [done|].
  apply Forall_cons_iff in Hne as [Hf Hne].
  destruct (processFrame_any true t frame s Hf) as (s1 & d & E & _).
  unfold run in *. cbn [foldl process_frames fst snd]. unfold pg_process at 2. rewrite E. cbn [and_then snd].
  by apply IH.
Qed.

Lemma Forall_frames (l : list (timing * pgShadowFrame)) :
  Forall (fun f => pf_payload f <> []) (map snd l) <-> Forall (fun tf => pf_payload tf.2 <> []) l.
Proof. by rewrite List.Forall_map. Qed.

(** The session is that of processing the processed frames, which writes a prefix. *)
Lemma delivered_prefix cap s0 w :
  pg_reachable cap s0 w -> Forall (fun f => pf_payload f <> []) (w_accepted w) ->
  exists d, c_out (ps_conn (w_sess w)) = c_out (ps_conn s0) ++ d /\
    d `prefix_of` concat (map pf_payload (w_accepted w)) /\
    (w_caller w = CJoined -> w_closeCh w = false -> ps_dead (w_sess w) = false ->
     d = concat (map pf_payload (w_accepted w))).
Proof.
  intros Hr Hne. pose proof (w_reachable_inv _ _ _ _ _ Hr) as []. rewrite wi_fifo, Forall_app in Hne. destruct Hne as [Hne _].
  apply Forall_frames in Hne.
  destruct (process_frames_prefix true (w_processed w) s0 Hne) as (s' & d & E & Ho & Hp & _ & Ha).
  rewrite wi_sess, run_process_frames, E by done. cbn [snd].
  rewrite <- (map_map snd pf_payload) in Hp, Ha. exists d. split_and!; [done| |].
  - rewrite wi_fifo, map_app, concat_app. by apply prefix_app_r.
  - intros Hj Hc Hd. destruct (w_joined_processed _ _ _ _ _ Hr Hj Hc) as [<- _]. by apply Ha.
Qed.

(** ** Properties *)

(** The shadow never sees a gap. In every state of the worker, whatever the
    shadow does and whichever reads and writes fail, the bytes sent to it are a
    prefix of the concatenation of the frames [Send] accepted: after the first I/O
    error nothing more is sent (a Bind never arrives without the Parse before it).
    When [Close] has returned without a forced close and the connection did not
    fail, they are all of it. *)
Theorem pg_shadow_receives_prefix cap s0 w :
  pg_reachable cap s0 w -> Forall (fun f => pf_payload f <> []) (w_accepted w) ->
  exists d, c_out (ps_conn (w_sess w)) = c_out (ps_conn s0) ++ d /\
    d `prefix_of` concat (map pf_payload (w_accepted w)) /\
    (w_caller w = CJoined -> w_closeCh w = false -> ps_dead (w_sess w) = false ->
     d = concat (map pf_payload (w_accepted w))).
Proof. apply delivered_prefix. Qed.

Definition frame_of (p : PgPacket) : pgShadowFrame :=
  MkFrame (MkRequest (B "id") [] [] [] [] [] 0) (Bytes p) (bool_decide (pg_Type p = pgMsgSync)).
Definition bind_1 : pgShadowFrame := frame_of (bind_frame [] (B "S_1") []).
Definition sync_1 : pgShadowFrame := frame_of (pg_frame pgMsgSync []).

(** Two frames accepted; the write of the first fails after three bytes. *)
Definition pg_start : PgSession :=
  MkPgSession (MkConn [] [] [Some (3, ErrConn "reset")]) false [] [].
Definition pg_run : Worker pgShadowFrame PgSession :=
  let w1 := send_select 2 bind_1 (send_check ps_dead bind_1 (NewWorker pg_start)) in
  let w2 := send_select 2 sync_1 (send_check ps_dead sync_1 w1) in
  let w3 := finish_request pg_process now0 bind_1 false
              (check_close bind_1 false (take_request bind_1 [sync_1] false w2)) in
  finish_request pg_process now0 sync_1 false (check_close sync_1 false (take_request sync_1 [] false w3)).

Lemma pg_run_reachable : pg_reachable 2 pg_start pg_run.
Proof.
  do 2 (eapply rtc_l; [by apply ws_send_check|]; eapply rtc_l; [by apply ws_send_select|]).
  eapply rtc_l; [by apply (ws_take _ _ _ bind_1 [sync_1])|].
  eapply rtc_l; [by apply (ws_check _ _ _ bind_1 false)|].
  eapply rtc_l; [by apply (ws_finish _ _ _ now0 bind_1 false)|].
  eapply rtc_l; [by apply (ws_take _ _ _ sync_1 [])|].
  eapply rtc_l; [by apply (ws_check _ _ _ sync_1 false)|].
  eapply rtc_l; [by apply (ws_finish _ _ _ now0 sync_1 false)|]. apply rtc_refl.
Qed.

Lemma pg_shadow_receives_prefix_witness :
  c_out (ps_conn (w_sess pg_run)) = take 3 (pf_payload bind_1) /\
  exists d, c_out (ps_conn (w_sess pg_run)) = [] ++ d /\
    d `prefix_of` concat (map pf_payload [bind_1; sync_1]) /\
    (w_caller pg_run = CJoined -> w_closeCh pg_run = false -> ps_dead (w_sess pg_run) = false ->
     d = concat (map pf_payload [bind_1; sync_1])).
Proof.
  split; [vm_compute; reflexivity|].
  apply (pg_shadow_receives_prefix 2 pg_start pg_run pg_run_reachable). by repeat constructor.
Defined.

(** A shadow that answers stays alive and in step: when it answers a frame that
    expects a response with messages up to ReadyForQuery (and other frames with
    nothing), the frame is logged as a success with the size of its answer, the
    connection is not marked dead, and the bytes behind the answer are left for
    the next frame - however the stream is cut into segments. *)
Theorem pg_shadow_in_step t frame msgs s cl tl rest :
  pf_payload frame <> [] -> ps_dead s = false -> c_wr (ps_conn s) = [] ->
  pg_answers frame msgs -> c_in (ps_conn s) = cl ++ tl -> clean cl ->
  data cl = concat (map Bytes msgs) ++ rest ->
  exists s' cl', processFrame true false t frame s = (Ok tt, s') /\ ps_dead s' = false /\
    ps_conn s' = MkConn (cl' ++ tl) (c_out (ps_conn s) ++ pf_payload frame) [] /\
    clean cl' /\ data cl' = rest /\
    ps_log s' = ps_log s ++
      [execution_entry shadow_target t (pf_req frame) (Z.of_nat (length (pf_payload frame)))
         (Z.of_nat (length (concat (map Bytes msgs)))) None].
Proof. apply (processFrame_answered true). Qed.

(** Sync, answered by BindComplete, CommandComplete and ReadyForQuery in one
    segment, with the beginning of another message behind. *)
Definition sync_answer : list PgPacket :=
  [pg_frame Byte.x32 []; pg_frame Byte.x43 (cstr (B "SELECT 1")); pg_frame pgBackendReadyForQuery [Byte.x49]].

Lemma pg_shadow_in_step_witness :
  let s := MkPgSession (MkConn (segments [concat (map Bytes sync_answer) ++ [Byte.x4e]] ++ []) [] []) false [] [] in
  exists s' cl', processFrame true false now0 sync_1 s = (Ok tt, s') /\ ps_dead s' = false /\
    ps_conn s' = MkConn (cl' ++ []) ([] ++ pf_payload sync_1) [] /\ clean cl' /\ data cl' = [Byte.x4e] /\
    ps_log s' = [] ++ [execution_entry shadow_target now0 (pf_req sync_1) 5 25 None].
Proof.
  refine (pg_shadow_in_step now0 sync_1 sync_answer
    (MkPgSession (MkConn (segments [concat (map Bytes sync_answer) ++ [Byte.x4e]] ++ []) [] []) false [] [])
    (segments [concat (map Bytes sync_answer) ++ [Byte.x4e]]) [] [Byte.x4e] _ eq_refl eq_refl _ eq_refl
    (clean_segments _) _).
  - done.
  - exists [pg_frame Byte.x32 []; pg_frame Byte.x43 (cstr (B "SELECT 1"))], [Byte.x49].
    split; [reflexivity|]. split; [vm_compute; congruence|].
    constructor; [split_and!; [|done..]; exists []; split; [reflexivity|vm_compute; congruence]|].
    constructor; [|constructor]. split_and!; [|done..].
    exists (cstr (B "SELECT 1")). split; [reflexivity|vm_compute; congruence].
  - reflexivity.
Defined.
