(* ===== verification/PgShadowInit.v ===== *)
(** * Connecting the pgwire shadow worker (src/pg_shadow_worker.go)

    [NewPgShadowWorker], [Initialize] and [parsePort]. Connecting and
    authenticating is the pgx library's: its [ParseConfig], [ConnectConfig] and
    [Hijack] are arguments, and [pgconn.Config] is a record of the fields the
    code sets with the rest ([Fallbacks] among them) as one opaque field. *)

From S2P Require Import Prelude GoNet GoStrings Config TLSConfig Metrics PgShadowWorker.

(** The capacity of the queue [NewPgShadowWorker] makes. *)
Definition NewPgShadowWorker (config : Config) : result nat := make_chan (ShadowQueueSize config).

(** ** [parsePort] *)

(** [fmt.Sscanf(s, "%d", &p)] for an unsigned number of [w] bits. White space is
    skipped, but a newline is an error; then as many digits as there are, at least
    one; what follows them is ignored. *)
Fixpoint skip_space (fuel : nat) (s : bytes) : option bytes :=
  match fuel with
  | O => Some s
  | S fuel =>
      match s with
      | Byte.x0a :: _ => None
      | _ => match space_width spaces s with
             | O => Some s
             | w => skip_space fuel (drop w s)
             end
      end
  end.

Fixpoint take_digits (s : bytes) : bytes :=
  match s with
  | b :: s => if bool_decide (digit b = None) then [] else b :: take_digits s
  | [] => []
  end.

Definition Sscanf_d (w : Z) (s : bytes) : option Z :=
  match skip_space (length s) s with
  | None => None
  | Some s =>
      match unsigned_digits (take_digits s) with
      | Some n => if (n <? 2 ^ w)%Z then Some n else None
      | None => None
      end
  end.

(** [None] is an error. *)
Definition parsePort (s : bytes) : option Z :=
  match s with [] => Some 5432%Z | _ => Sscanf_d 16 s end.

(** ** [Initialize] *)

Record pgconn_config (Cert Pool Rest : Type) := MkPgconn {
  pc_Host : bytes;
  pc_Port : Z;
  pc_User : bytes;
  pc_Password : bytes;
  pc_Database : bytes;
  pc_ConnectTimeout : Z;
  pc_TLSConfig : option (tls_config Cert Pool);
  pc_rest : Rest;
}.
Arguments MkPgconn {_ _ _} _ _ _ _ _ _ _ _.
Arguments pc_Host {_ _ _} _.
Arguments pc_Port {_ _ _} _.
Arguments pc_User {_ _ _} _.
Arguments pc_Password {_ _ _} _.
Arguments pc_Database {_ _ _} _.
Arguments pc_ConnectTimeout {_ _ _} _.
Arguments pc_TLSConfig {_ _ _} _.
Arguments pc_rest {_ _ _} _.

(** The part of pgconn the worker uses. *)
Record pgconn_lib (Cert Pool Rest PgConn : Type) := MkPgconnLib {
  ParseConfig : bytes -> pgconn_config Cert Pool Rest + error;
  ConnectConfig : pgconn_config Cert Pool Rest -> PgConn + error;
  Hijack : PgConn -> Conn + error;
}.
Arguments MkPgconnLib {_ _ _ _} _ _ _.
Arguments ParseConfig {_ _ _ _} _ _.
Arguments ConnectConfig {_ _ _ _} _ _.
Arguments Hijack {_ _ _ _} _ _.

Section init.
Context {Cert Pool Rest PgConn : Type} (pgconn : pgconn_lib Cert Pool Rest PgConn).
Context (config : Config).

(** The configuration [Initialize] connects with, from the one [ParseConfig] gave. *)
Definition shadow_conf (dbname : bytes) (conf : pgconn_config Cert Pool Rest) : pgconn_config Cert Pool Rest :=
  let dbname := match dbname with [] => ShadowUser config | _ => dbname end in
  let port := match parsePort (ShadowPort config) with Some port => port | None => pc_Port conf end in
  MkPgconn (ShadowHost config) port (ShadowUser config) (ShadowPassword config) dbname
    (10 * Second) (pg_shadow_tls config) (pc_rest conf).

(** The hijacked connection, or the error, and the metrics. *)
Definition Initialize (dbname : bytes) : (Conn + error) * list metric :=
  if bool_decide (ShadowHost config = []) then (inr (ErrMsg "SHADOW_HOST not set"), [])
  else
    match ParseConfig pgconn [] with
    | inr err => (inr (ErrWrap "pgconn parse config" err), [])
    | inl conf =>
        match ConnectConfig pgconn (shadow_conf dbname conf) with
        | inr err => (inr (ErrWrap "shadow connect" err), [Inc "authFailures" [B "shadow"]])
        | inl pgConn =>
            match Hijack pgconn pgConn with
            | inr err => (inr (ErrWrap "hijack shadow conn" err), [])
            | inl conn => (inl conn, [])
            end
        end
    end.
End init.

(** ** Lemmas *)

Lemma take_digits_app s r :
  Forall (fun b => digit b <> None) s -> match r with b :: _ => digit b = None | [] => True end ->
  take_digits (s ++ r) = s.
Proof.
  induction 1 as [|b s Hb _ IH]; intros Hr; cbn [app take_digits].
  - destruct r as [|b r]; [done|]. cbn [take_digits]. by rewrite bool_decide_true.
  - rewrite bool_decide_false by done. by rewrite IH.
Qed.

Lemma digits_Forall s : forall acc n, digits acc s = Some n -> Forall (fun b => digit b <> None) s.
Proof.
  induction s as [|b s IH]; intros acc n; cbn [digits]; [by constructor|].
  destruct (digit b) eqn:E; [|done]. intros Hd. constructor; [by rewrite E|eauto].
Qed.

Lemma digits_nonneg s : forall acc n, (0 <= acc)%Z -> digits acc s = Some n -> (0 <= n)%Z.
Proof.
  induction s as [|b s IH]; intros acc n Ha; cbn [digits]; [by intros [= <-]|].
  unfold digit at 1. destruct ((48 <=? u8 b)%Z && _) eqn:E; [|done].
  apply andb_true_iff in E as [E _]. apply Z.leb_le in E. apply IH. lia.
Qed.

(** A digit is no white space. *)
Lemma skip_space_digit fuel b s : digit b <> None -> skip_space fuel (b :: s) = Some (b :: s).
Proof.
  intros Hd. destruct fuel; [done|]. cbn [skip_space].
  assert (Hb : (u8 b < 128)%Z /\ (b ∉ ascii_spaces) /\ b <> Byte.x0a)
    by (destruct b; try (by vm_compute in Hd); repeat split; vm_decide).
  destruct Hb as (Ha & Hs & Hn). rewrite space_width_ascii, bool_decide_false by done.
  destruct b; try done.
Qed.

(** Digits followed by something that is not a digit. *)
Lemma parsePort_digits s r n :
  unsigned_digits s = Some n -> match r with b :: _ => digit b = None | [] => True end ->
  parsePort (s ++ r) = if (n <? 65536)%Z then Some n else None.
Proof.
  destruct s as [|b s]; [done|]. cbn [unsigned_digits app]. intros Hn Hr.
  pose proof (digits_Forall _ _ _ Hn) as Hf.
  cbn [parsePort]. unfold Sscanf_d. cbn [app length].
  rewrite skip_space_digit by (by apply Forall_cons_iff in Hf as [Hb _]).
  change (b :: s ++ r) with ((b :: s) ++ r). rewrite take_digits_app by done.
  unfold unsigned_digits. rewrite Hn. done.
Qed.

(** ** Properties *)

Section props.
Context {Cert Pool Rest PgConn : Type} (pgconn : pgconn_lib Cert Pool Rest PgConn).

(** The shadow session is opened where and as configured: when [Initialize]
    succeeds, pgconn was asked for SHADOW_HOST, the number SHADOW_PORT denotes,
    SHADOW_USER and SHADOW_PASSWORD, the database of the client's startup message
    (the shadow user's name if it has none), with TLS exactly when it is enabled -
    verifying SHADOW_HOST, at least TLS 1.2 - and the worker uses the hijacked
    connection. A failure to connect is counted as an authentication failure; no
    other outcome is. *)
Theorem pg_shadow_connects_as_configured config dbname port :
  unsigned_digits (ShadowPort config) = Some port -> (port < 65536)%Z ->
  match Initialize pgconn config dbname with
  | (inl conn, metrics) =>
      exists conf pgConn, ConnectConfig pgconn conf = inl pgConn /\ Hijack pgconn pgConn = inl conn /\
        pc_Host conf = ShadowHost config /\ ShadowHost config <> [] /\ pc_Port conf = port /\
        pc_User conf = ShadowUser config /\ pc_Password conf = ShadowPassword config /\
        pc_Database conf = (if bool_decide (dbname = []) then ShadowUser config else dbname) /\
        (ShadowTLSEnabled config = false <-> pc_TLSConfig conf = None) /\
        (forall c, pc_TLSConfig conf = Some c ->
           usable_client c /\ MinVersion c = VersionTLS12 /\
           (ShadowTLSInsecure config = false -> verifies (ShadowHost config) c)) /\
        metrics = []
  | (inr err, metrics) =>
      metrics = [Inc "authFailures" [B "shadow"]] <->
      exists conf e, err = ErrWrap "shadow connect" e /\ ConnectConfig pgconn conf = inr e
  end.
Proof.
  intros Hp Hlt. unfold Initialize. case_bool_decide as Hh.
  { split; [done|]. intros (conf & e & [=] & _). }
  destruct (ParseConfig pgconn []) as [conf|e].
  2: { split; [done|]. intros (conf & e' & [=] & _). }
  destruct (ConnectConfig pgconn (shadow_conf config dbname conf)) as [c|e] eqn:Ec; [|by split; eauto].
  destruct (Hijack pgconn c) as [conn|e] eqn:Eh.
  2: { split; [done|]. intros (conf' & e' & [=] & _). }
  exists (shadow_conf config dbname conf), c. unfold shadow_conf. cbn [pc_Host pc_Port pc_User pc_Password pc_Database pc_TLSConfig].
  split_and!; try done.
  - pose proof (parsePort_digits (ShadowPort config) [] port Hp I) as E. rewrite app_nil_r in E.
    rewrite E. by rewrite (proj2 (Z.ltb_lt _ _) Hlt).
  - by destruct dbname.
  - unfold pg_shadow_tls. by destruct (ShadowTLSEnabled config).
  - intros t. unfold pg_shadow_tls. destruct (ShadowTLSEnabled config); [|done]. intros [= <-].
    split; [by left|]. by split.
Qed.

(** A SHADOW_PORT that is no port is not reported. With a number of 65536 or more -
    and likewise with a name, by the definition of [parsePort] - [Initialize] succeeds
    and the shadow is dialled on the port pgconn itself defaults to. *)
Theorem pg_shadow_port_ignored config dbname port conf pgConn conn :
  ShadowHost config <> [] -> unsigned_digits (ShadowPort config) = Some port -> (65536 <= port)%Z ->
  ParseConfig pgconn [] = inl conf ->
  ConnectConfig pgconn (shadow_conf config dbname conf) = inl pgConn -> Hijack pgconn pgConn = inl conn ->
  Initialize pgconn config dbname = (inl conn, []) /\ pc_Port (shadow_conf config dbname conf) = pc_Port conf.
Proof.
  intros Hh Hp Hge Hc Hcc Hj. unfold Initialize. rewrite bool_decide_false, Hc, Hcc, Hj by done.
  split; [done|]. unfold shadow_conf. cbn [pc_Port].
  pose proof (parsePort_digits (ShadowPort config) [] port Hp I) as E. rewrite app_nil_r in E.
  by rewrite E, (proj2 (Z.ltb_ge _ _) Hge).
Qed.
End props.

Example port_service_name : parsePort (B "postgres") = None /\ parsePort (B "70000") = None /\
  parsePort (B "-1") = None /\ parsePort (B "5432/tcp") = Some 5432%Z /\ parsePort (B " 5433") = Some 5433%Z.
Proof. by vm_compute. Qed.

(** ** Witnesses *)

(** A pgconn that connects to anything and defaults to the local server. *)
Definition local_defaults : pgconn_config unit unit unit := MkPgconn (B "localhost") 5432 [] [] [] 0 None tt.
Definition local_pgconn : pgconn_lib unit unit unit (pgconn_config unit unit unit) :=
  MkPgconnLib (fun _ => inl local_defaults) inl (fun _ => inl (MkConn [] [] [])).

Definition port_config (port : string) : Config :=
  loadConfig (fun key => if bool_decide (key = B "SHADOW_HOST") then B "shadow"
                         else if bool_decide (key = B "SHADOW_PORT") then B port
                         else if bool_decide (key = B "SHADOW_TLS_ENABLED") then B "true" else [])
    (fun r => r) (fun _ => None).

Lemma pg_shadow_connects_as_configured_witness :
  exists conf : pgconn_config unit unit unit, pc_Host conf = B "shadow" /\ pc_Port conf = 5433%Z /\ pc_Database conf = B "app" /\
    exists c, pc_TLSConfig conf = Some c /\ verifies (B "shadow") c.
Proof.
  assert (Hi : Initialize local_pgconn (port_config "5433") (B "app") = (inl (MkConn [] [] []), [])) by (by vm_compute).
  pose proof (pg_shadow_connects_as_configured local_pgconn (port_config "5433") (B "app") 5433
    ltac:(vm_compute; reflexivity) ltac:(lia)) as H. rewrite Hi in H.
  destruct H as (conf & pgConn & _ & _ & H1 & _ & H2 & _ & _ & H3 & H4 & H5 & _).
  exists conf. split; [exact H1|]. split; [exact H2|]. split; [exact H3|].
  destruct (pc_TLSConfig conf) as [c|] eqn:E.
  - exists c. split; [reflexivity|]. apply H5; [reflexivity|vm_compute; reflexivity].
  - exfalso. pose proof (proj2 H4 eq_refl) as H6. vm_compute in H6. discriminate H6.
Defined.

Lemma pg_shadow_port_ignored_witness :
  Initialize local_pgconn (port_config "54330") (B "app") = (inl (MkConn [] [] []), []) /\
  Initialize local_pgconn (port_config "543300") (B "app") = (inl (MkConn [] [] []), []) /\
  pc_Port (shadow_conf (port_config "543300") (B "app") local_defaults) = 5432%Z.
Proof.
  split; [vm_compute; reflexivity|].
  apply (pg_shadow_port_ignored local_pgconn (port_config "543300") (B "app") 543300
           local_defaults
           (shadow_conf (port_config "543300") (B "app") local_defaults)
           (MkConn [] [] [])); [vm_compute; done|vm_compute; reflexivity|lia|reflexivity..].
Defined.
