(* ===== verification/Proxy.v ===== *)
(** * The MySQL proxy (src/proxy.go)

    The handshakes with client, primary and shadow, and the request and response
    loop with shadow mirroring. The handshakes read their connections directly;
    the loop reads them through buffered readers, here any two packet sources. A
    TLS upgrade, which is the Go TLS library's, is an argument that gives the
    upgraded connection or an error. [shadowWorker.Send] is recorded as a call:
    what the worker does with it is in files ShadowWorker and ShadowSession, and
    the loop only logs its result. *)

From S2P Require Import Prelude GoNet GoFloat GoStrings Digest MySQLProtocol MySQLResponse MySQLAuth.
From S2P Require Import Config QueryLogger QueryFilter Metrics ShadowSession.

Definition primary_target : bytes := B "primary".

(** ** Steps of the handshakes

    The state is the client's and the primary's connection. A failing step
    returns its error with a message. *)
Definition wrap_error {A S} (msg : string) (m : result A * S) : result A * S :=
  match m with
  | (Err e, s) => (Err (ErrWrap msg e), s)
  | m => m
  end.

Definition read_packet (c : Conn) : result bytes * Conn :=
  let '(res, s) := readMySQLPacket (c_in c) in (res, MkConn s (c_out c) (c_wr c)).
Definition write_packet (p : bytes) (c : Conn) : result unit * Conn :=
  match conn_write p c with
  | (_, Some e, c) => (Err e, c)
  | (_, None, c) => (Ok tt, c)
  end.

Definition read_client (msg : string) (s : Conn * Conn) : result bytes * (Conn * Conn) :=
  let '(res, c) := read_packet s.1 in wrap_error msg (res, (c, s.2)).
Definition read_primary (msg : string) (s : Conn * Conn) : result bytes * (Conn * Conn) :=
  let '(res, c) := read_packet s.2 in wrap_error msg (res, (s.1, c)).
Definition write_client (msg : string) (p : bytes) (s : Conn * Conn) : result unit * (Conn * Conn) :=
  let '(res, c) := write_packet p s.1 in wrap_error msg (res, (c, s.2)).
Definition write_primary (msg : string) (p : bytes) (s : Conn * Conn) : result unit * (Conn * Conn) :=
  let '(res, c) := write_packet p s.2 in wrap_error msg (res, (s.1, c)).

(** [packet[3] = seq]: a panic when there is no such byte. *)
Definition set_seq (seq : byte) (packet : bytes) : result bytes :=
  if bool_decide (3 < length packet) then Ok (<[3 := seq]> packet) else Panic.

(** [len(response) > 4 && response[4] == ty] *)
Definition has_type (ty : byte) (response : bytes) : bool := bool_decide (response !! 4 = Some ty).

(** The second round of authentication: forward the switch request, then the
    client's reply, and read the final response. *)
Definition auth_switch (authResponse : bytes) (s : Conn * Conn) : result bytes * (Conn * Conn) :=
  if has_type Byte.xfe authResponse then
    let? _u, s := write_client "failed to forward auth switch to client" authResponse s in
    let? switchResponse, s := read_client "failed to read auth switch response" s in
    let? _u, s := write_primary "failed to forward auth switch response" switchResponse s in
    read_primary "failed to read final auth response" s
  else (Ok authResponse, s).

Definition forwardMySQLHandshake (s : Conn * Conn) : result unit * (Conn * Conn) :=
  let? handshake, s := read_primary "failed to read handshake from primary" s in
  let? _u, s := write_client "failed to send handshake to client" handshake s in
  let? authPacket, s := read_client "failed to read auth from client" s in
  let? authPacket, s := (removeUnsupportedCapabilities authPacket, s) in
  let? _u, s := write_primary "failed to forward auth to primary" authPacket s in
  let? authResponse, s := read_primary "failed to read auth response from primary" s in
  let? authResponse, s := auth_switch authResponse s in
  let? _u, s := write_client "failed to forward auth response to client" authResponse s in
  if has_type Byte.xff authResponse then (Err (ErrMsg "primary authentication failed"), s)
  else (Ok tt, s).

(** The branch of a client that requested TLS: the encrypted connection takes the
    client's place, and the upgrade is counted. *)
Definition ssl_session (tls_server : Conn -> Conn + error) (s : Conn * Conn)
    : result unit * (Conn * Conn) * list metric :=
  match tls_server s.1 with
  | inr err => (Err (ErrWrap "TLS handshake failed" err), s, [])
  | inl tlsConn =>
      (let s := (tlsConn, s.2) in
       let? clientResponse, s := read_client "failed to read auth packet after TLS upgrade" s in
       let? clientResponse, s := (removeUnsupportedCapabilities clientResponse, s) in
       let? clientResponse, s := (set_seq Byte.x01 clientResponse, s) in
       let? _u, s := write_primary "failed to forward auth to primary" clientResponse s in
       let? authResponse, s := read_primary "failed to read auth response from primary" s in
       let? authResponse, s := (set_seq Byte.x03 authResponse, s) in
       write_client "failed to forward auth response to client" authResponse s,
       [Inc "tlsUpgrades" []])
  end.

(** The branch of a client that did not. *)
Definition plain_session (clientResponse : bytes) (s : Conn * Conn) : result unit * (Conn * Conn) :=
  let? _u, s := write_primary "failed to forward auth to primary" clientResponse s in
  let? authResponse, s := read_primary "failed to read auth response from primary (non-SSL)" s in
  let? authResponse, s := auth_switch authResponse s in
  let? _u, s := write_client "failed to forward auth response to client (non-SSL)" authResponse s in
  if has_type Byte.xff authResponse then (Err (ErrMsg "primary authentication failed (non-SSL)"), s)
  else (Ok tt, s).

(** Up to the client's first packet: the packet, and whether it requests TLS. *)
Definition ssl_greeting (s : Conn * Conn) : result (bytes * bool) * (Conn * Conn) :=
  let? handshake, s := read_primary "failed to read handshake from primary" s in
  let? handshake, s := (modifyHandshakeForSSL handshake, s) in
  let? _u, s := write_client "failed to send handshake to client" handshake s in
  let? clientResponse, s := read_client "failed to read client response" s in
  let? wantsSSL, s := (isSSLRequest clientResponse, s) in
  (Ok (clientResponse, wantsSSL), s).

(** [tls_server] is [tls.Server(conn, p.tlsConfig).Handshake()]. *)
Definition handleMySQLSSLUpgrade (tls_server : Conn -> Conn + error) (s : Conn * Conn)
    : result unit * (Conn * Conn) * list metric :=
  match ssl_greeting s with
  | (Ok (clientResponse, wantsSSL), s) =>
      if wantsSSL : bool then ssl_session tls_server s else (plain_session clientResponse s, [])
  | (Err e, s) => (Err e, s, [])
  | (Panic, s) => (Panic, s, [])
  | (Stuck, s) => (Stuck, s, [])
  end.

(** ** Authentication with the shadow *)

(** A packet from its payload: [fullPacket] *)
Definition fullPacket (seqNum : byte) (payload : bytes) : bytes := mk_packet seqNum payload.

(** Capabilities, maximum packet size, charset and the reserved bytes. *)
Definition login_head (caps : Z) : bytes :=
  [byte_of_Z caps; byte_of_Z (Z.shiftr caps 8); byte_of_Z (Z.shiftr caps 16); byte_of_Z (Z.shiftr caps 24)] ++
  [Byte.x00; Byte.x00; Byte.x00; Byte.x01] ++ [byte_of_Z 33] ++ replicate 23 Byte.x00.

Definition sslRequest : bytes := login_head 0x00008A00.

Definition authPacket (tls : bool) (username password scramble : bytes) : bytes :=
  let caps := if tls then Z.lor 0x00008200 clientSSL else 0x00008200%Z in
  login_head caps ++ username ++ [Byte.x00] ++
  match mysqlNativePassword password scramble with
  | None => [Byte.x00]
  | Some authResponse => byte_of_Z (Z.of_nat (length authResponse)) :: authResponse
  end.

(** The TLS upgrade of the shadow connection; [tls_client] is
    [tls.Client(conn, p.shadowTLSConfig).Handshake()]. *)
Definition shadow_upgrade (tls_client : Conn -> Conn + error) (shadowConn : Conn)
    : result unit * Conn * list metric :=
  match wrap_error "failed to send SSL request to shadow"
          (write_packet (fullPacket Byte.x01 sslRequest) shadowConn) with
  | (Ok _, shadowConn) =>
      match tls_client shadowConn with
      | inl tlsConn => (Ok tt, tlsConn, [])
      | inr err => (Err (ErrWrap "TLS handshake with shadow failed" err), shadowConn, [Inc "tlsFailures" []])
      end
  | (res, shadowConn) => (res, shadowConn, [])
  end.

(** The login itself, on the connection to use. *)
Definition shadow_auth (tls : bool) (username password scramble : bytes) (authConn : Conn)
    : result unit * Conn * list metric :=
  let seqNum := if tls then Byte.x02 else Byte.x01 in
  let '(res, authConn) :=
    let? _u, authConn := wrap_error "failed to send auth to shadow"
      (write_packet (fullPacket seqNum (authPacket tls username password scramble)) authConn) in
    wrap_error "failed to read auth response from shadow" (read_packet authConn) in
  match res with
  | Err e => (Err e, authConn, [])
  | Panic => (Panic, authConn, [])
  | Stuck => (Stuck, authConn, [])
  | Ok response =>
      if has_type Byte.xff response then
        let errMsg := if bool_decide (13 < length response)
                      then String.string_of_list_byte (drop 13 response) else "unknown error" in
        (Err (ErrMsg ("shadow auth failed: " +:+ errMsg)), authConn, [Inc "authFailures" [shadow]])
      else if has_type Byte.xfe response then
        (Err (ErrMsg "shadow requested auth switch, not supported"), authConn, [Inc "authFailures" [shadow]])
      else (Ok tt, authConn, [])
  end.

(** [tls_client] is present when [p.shadowTLSConfig] is; the connection returned is
    the one to use. *)
Definition authenticateWithShadow (tls_client : option (Conn -> Conn + error)) (username password : bytes)
    (shadowConn : Conn) : result unit * Conn * list metric :=
  let '(res, shadowConn) := wrap_error "failed to read handshake from shadow" (read_packet shadowConn) in
  match res with
  | Err e => (Err e, shadowConn, [])
  | Panic => (Panic, shadowConn, [])
  | Stuck => (Stuck, shadowConn, [])
  | Ok handshake =>
      match extractScrambleFromHandshake handshake with
      | Err e => (Err e, shadowConn, [])
      | Panic => (Panic, shadowConn, [])
      | Stuck => (Stuck, shadowConn, [])
      | Ok None => (Err (ErrMsg "failed to extract scramble from handshake"), shadowConn, [])
      | Ok (Some scramble) =>
          match tls_client with
          | None => shadow_auth false username password scramble shadowConn
          | Some tls =>
              match shadow_upgrade tls shadowConn with
              | (Ok _, authConn, _) => shadow_auth true username password scramble authConn
              | failed => failed
              end
          end
      end
  end.

(** The capacity of the queue [NewShadowWorker] makes (src/shadow_worker.go). *)
Definition NewShadowWorker (config : Config) : result nat := make_chan (ShadowQueueSize config).

(** [ShadowWorker.Initialize] (src/shadow_worker.go) up to the start of the worker:
    [dial] is the outcome of dialling the shadow. *)
Definition Initialize (tls_client : option (Conn -> Conn + error)) (username password : bytes)
    (dial : Conn + error) : result Conn * list metric :=
  match dial with
  | inr err => (Err (ErrWrap "failed to dial shadow" err), [])
  | inl rawConn =>
      match authenticateWithShadow tls_client username password rawConn with
      | (Ok _, conn, m) => (Ok conn, m)
      | (Err err, _, m) => (Err (ErrWrap "failed to authenticate with shadow" err), m)
      | (Panic, _, m) => (Panic, m)
      | (Stuck, _, m) => (Stuck, m)
      end
  end.

(** ** The request and response loop *)

(** What the environment supplies to one round: the fresh id, the time, the
    timing of its log entries and the result of [rand.Float64()]. *)
Record round_env := MkEnv { e_uuid : bytes; e_now : Z; e_timing : timing; e_roll : float64 }.

(** Everything the loop changes: the packet sources and connections of both
    sides, the requests given to [shadowWorker.Send], metrics and log. *)
Record MirrorLoop (R : Type) := MkLoop {
  ml_clientReader : R;
  ml_client : Conn;
  ml_primaryReader : R;
  ml_primary : Conn;
  ml_mirrored : list QueryRequest;
  ml_metrics : list metric;
  ml_log : list QueryLogEntry;
}.
Arguments MkLoop {_} _ _ _ _ _ _ _.
Arguments ml_clientReader {_} _.
Arguments ml_client {_} _.
Arguments ml_primaryReader {_} _.
Arguments ml_primary {_} _.
Arguments ml_mirrored {_} _.
Arguments ml_metrics {_} _.
Arguments ml_log {_} _.

(** Why the loop returned. *)
Inductive loop_end :=
  | ClientReadEnd (e : error)
  | PrimaryWriteFailed (e : error)
  | Quit
  | PrimaryResponseFailed (e : error).

(** The response of the primary, forwarded to the client. *)
Definition forward_response `{PacketSource R} (cmd : byte) (s : R * Conn)
    : result (Z * option error) * (R * Conn) :=
  if isSimpleResponseCommand cmd then ReadAndForwardSimpleResponse s else ReadAndForwardResponse s.

Section loop.
Context `{RegexpLib Regexp} (upper_table : Z -> Z).
(** [p.queryFilter], and whether a logger is present. *)
Context (queryFilter : option (QueryFilter Regexp)) (has_logger : bool).
Context (env : nat -> round_env) (clientAddr : bytes).
Context `{PacketSource R}.

Definition logPrimaryExecution (t : timing) (req : QueryRequest) (sent recv : Z) (err : option error)
    (log : list QueryLogEntry) : list QueryLogEntry :=
  if has_logger then log ++ [execution_entry primary_target t req sent recv err] else log.
Definition logFilteredShadow (t : timing) (req : QueryRequest) (reason : bytes)
    (log : list QueryLogEntry) : list QueryLogEntry :=
  if has_logger then log ++ [filtered_entry t req reason] else log.

Definition filter_allows (roll : float64) (req : QueryRequest) : bool * bytes :=
  match queryFilter with
  | None => (true, [])
  | Some f => Allow upper_table f roll req
  end.

(** [if cmd != comQuit { ... }] *)
Definition mirror_command (e : round_env) (cmd : byte) (req : QueryRequest) (s : MirrorLoop R)
    : MirrorLoop R :=
  if (u8 cmd =? comQuit)%Z then s
  else
    let '(allowed, filterReason) := filter_allows (e_roll e) req in
    if negb allowed then
      MkLoop (ml_clientReader s) (ml_client s) (ml_primaryReader s) (ml_primary s) (ml_mirrored s)
        (ml_metrics s ++ [Inc "shadowFilteredTotal" [filterReason]])
        (logFilteredShadow (e_timing e) req filterReason (ml_log s))
    else
      MkLoop (ml_clientReader s) (ml_client s) (ml_primaryReader s) (ml_primary s) (ml_mirrored s ++ [req])
        (ml_metrics s) (ml_log s).

(** One round of [proxyWithMirrorWorker]: [None] is [continue]. *)
Definition mirror_round (i : nat) (s : MirrorLoop R) : result (option loop_end) * MirrorLoop R :=
  let e := env i in
  let t := e_timing e in
  let '(res, clientReader) := ReadMultiPacket (ml_clientReader s) in
  let s := MkLoop clientReader (ml_client s) (ml_primaryReader s) (ml_primary s) (ml_mirrored s)
             (ml_metrics s) (ml_log s) in
  match res with
  | Err err => (Ok (Some (ClientReadEnd err)), s)
  | Panic => (Panic, s)
  | Stuck => (Stuck, s)
  | Ok packet =>
      let req := NewQueryRequest (e_uuid e) (e_now e) packet clientAddr in
      let metrics := ml_metrics s ++ command_metrics primary_target packet in
      let '(nWritten, werr, primary) := conn_write packet (ml_primary s) in
      let sent := Z.of_nat nWritten in
      match werr with
      | Some werr =>
          (Ok (Some (PrimaryWriteFailed werr)),
           MkLoop clientReader (ml_client s) (ml_primaryReader s) primary (ml_mirrored s)
             (metrics ++ [Inc "queryErrors" [primary_target]])
             (logPrimaryExecution t req sent 0 (Some werr) (ml_log s)))
      | None =>
          let cmd := default Byte.x00 (getMySQLCommand packet) in
          let s := mirror_command e cmd req
            (MkLoop clientReader (ml_client s) (ml_primaryReader s) primary (ml_mirrored s)
               (metrics ++ [Add "bytesTotal" [primary_target; B "sent"] sent]) (ml_log s)) in
          if isNoResponseCommand cmd then
            (Ok (if (u8 cmd =? comQuit)%Z then Some Quit else None),
             MkLoop clientReader (ml_client s) (ml_primaryReader s) primary (ml_mirrored s) (ml_metrics s)
               (logPrimaryExecution t req sent 0 None (ml_log s)))
          else
            let '(res, (primaryReader, client)) := forward_response cmd (ml_primaryReader s, ml_client s) in
            match res with
            | Ok (bytesRecv, Some readErr) =>
                (Ok (Some (PrimaryResponseFailed readErr)),
                 MkLoop clientReader client primaryReader primary (ml_mirrored s)
                   (ml_metrics s ++ [Inc "queryErrors" [primary_target]])
                   (logPrimaryExecution t req sent bytesRecv (Some readErr) (ml_log s)))
            | Ok (bytesRecv, None) =>
                (Ok None,
                 MkLoop clientReader client primaryReader primary (ml_mirrored s)
                   (ml_metrics s ++ [Add "bytesTotal" [primary_target; B "received"] bytesRecv;
                                     Observe "queryDuration" [primary_target] (t_ns t)])
                   (logPrimaryExecution t req sent bytesRecv None (ml_log s)))
            | Err err =>
                (Err err, MkLoop clientReader client primaryReader primary (ml_mirrored s) (ml_metrics s) (ml_log s))
            | Panic =>
                (Panic, MkLoop clientReader client primaryReader primary (ml_mirrored s) (ml_metrics s) (ml_log s))
            | Stuck =>
                (Stuck, MkLoop clientReader client primaryReader primary (ml_mirrored s) (ml_metrics s) (ml_log s))
            end
      end
  end.

(** Every round takes a packet off the client's source. *)
Fixpoint mirror_loop (fuel i : nat) (s : MirrorLoop R) : result loop_end * MirrorLoop R :=
  match fuel with
  | O => (Stuck, s)
  | S fuel =>
      let? ended, s := mirror_round i s in
      match ended with
      | Some why => (Ok why, s)
      | None => mirror_loop fuel (S i) s
      end
  end.

(** [clientReader] and [primaryReader] are [NewMySQLPacketReader] on the two
    connections. *)
Definition proxyWithMirrorWorker (clientReader : R) (client : Conn) (primaryReader : R) (primary : Conn)
    : result loop_end * MirrorLoop R :=
  mirror_loop (S (src_size clientReader)) 0 (MkLoop clientReader client primaryReader primary [] [] []).
End loop.

(** ** The plain relay

    The loop without shadow, metrics and log: what the client and the primary can
    see of the proxy. *)
Section relay.
Context `{PacketSource R}.

Record Relay := MkRelay { rl_clientReader : R; rl_client : Conn; rl_primaryReader : R; rl_primary : Conn }.

Definition relay_round (s : Relay) : result (option loop_end) * Relay :=
  let '(res, clientReader) := ReadMultiPacket (rl_clientReader s) in
  match res with
  | Err err => (Ok (Some (ClientReadEnd err)),
                MkRelay clientReader (rl_client s) (rl_primaryReader s) (rl_primary s))
  | Panic => (Panic, MkRelay clientReader (rl_client s) (rl_primaryReader s) (rl_primary s))
  | Stuck => (Stuck, MkRelay clientReader (rl_client s) (rl_primaryReader s) (rl_primary s))
  | Ok packet =>
      let '(_, werr, primary) := conn_write packet (rl_primary s) in
      match werr with
      | Some werr => (Ok (Some (PrimaryWriteFailed werr)),
                      MkRelay clientReader (rl_client s) (rl_primaryReader s) primary)
      | None =>
          let cmd := default Byte.x00 (getMySQLCommand packet) in
          if isNoResponseCommand cmd then
            (Ok (if (u8 cmd =? comQuit)%Z then Some Quit else None),
             MkRelay clientReader (rl_client s) (rl_primaryReader s) primary)
          else
            let '(res, (primaryReader, client)) := forward_response cmd (rl_primaryReader s, rl_client s) in
            let s := MkRelay clientReader client primaryReader primary in
            match res with
            | Ok (_, Some readErr) => (Ok (Some (PrimaryResponseFailed readErr)), s)
            | Ok (_, None) => (Ok None, s)
            | Err err => (Err err, s)
            | Panic => (Panic, s)
            | Stuck => (Stuck, s)
            end
      end
  end.

Fixpoint relay_loop (fuel : nat) (s : Relay) : result loop_end * Relay :=
  match fuel with
  | O => (Stuck, s)
  | S fuel =>
      let? ended, s := relay_round s in
      match ended with
      | Some why => (Ok why, s)
      | None => relay_loop fuel s
      end
  end.

(** *** Totality *)

Definition relay_inv (s : Relay) : Prop := src_inv (rl_clientReader s) /\ src_inv (rl_primaryReader s).

Lemma ReadMultiPacket_any r res r' :
  src_inv r -> ReadMultiPacket r = (res, r') ->
  src_inv r' /\ src_size r' <= src_size r /\
  ((exists ps, res = Ok (concat ps) /\ one_command ps /\ Forall valid_packet ps /\ src_size r' < src_size r)
   \/ exists e, res = Err e).
Proof.
  intros Hr E. apply read_multi_loop_any in E as (Hi & Hs & [(ps & -> & H1 & Hv & Hl)|He]); [| |done|lia].
  - split; [done|]. split; [done|]. left. exists ps. split_and!; [done|done|done|].
    destruct H1 as (full & last & -> & _ & _). apply Forall_app in Hv as [_ Hv]. inversion Hv as [|? ? Hp _]; subst.
    apply valid_packet_length in Hp. rewrite concat_app, length_app in Hl. simpl in Hl. rewrite app_nil_r in Hl. lia.
  - auto.
Qed.

Lemma forward_response_total cmd r c : src_inv r ->
  exists n e r' c', forward_response cmd (r, c) = (Ok (n, e), (r', c')) /\ src_inv r'.
Proof.
  intros Hr. unfold forward_response. destruct (isSimpleResponseCommand cmd).
  - unfold ReadAndForwardSimpleResponse. cbn [fst snd]. destruct (ReadPacket r) as [res r'] eqn:E.
    destruct (src_any _ _ _ Hr E) as (Hi & _ & [(p & -> & _)|[e ->]]); [|by eauto 10].
    destruct (conn_write p c) as [[n [e|]] c']; eauto 10.
  - destruct (fwd_loop_fine (S (src_size r)) 0%Z (r, c) Hr) as (t & e & [r' c'] & E & Hr' & _); [simpl; lia|].
    exists t, e, r', c'. done.
Qed.

Lemma relay_round_total s : relay_inv s ->
  exists ended s', relay_round s = (Ok ended, s') /\ relay_inv s' /\
    (ended = None -> src_size (rl_clientReader s') < src_size (rl_clientReader s)).
Proof.
  intros [Hc Hp]. unfold relay_round. destruct (ReadMultiPacket (rl_clientReader s)) as [res r'] eqn:E.
  destruct (ReadMultiPacket_any _ _ _ Hc E) as (Hi & _ & [(ps & -> & _ & _ & Hs)|[e ->]]);
    [|do 2 eexists; split; [reflexivity|by split]].
  destruct (conn_write _ _) as [[n [e|]] p']; [do 2 eexists; split; [reflexivity|by split]|].
  destruct (isNoResponseCommand _); [do 2 eexists; split; [reflexivity|by split]|].
  destruct (forward_response_total (default Byte.x00 (getMySQLCommand (concat ps))) (rl_primaryReader s)
              (rl_client s) Hp) as (m & e & r2 & c2 & -> & Hr2).
  destruct e as [e|]; (do 2 eexists; split; [reflexivity|by split]).
Qed.

Lemma relay_loop_total fuel : forall s,
  relay_inv s -> src_size (rl_clientReader s) < fuel ->
  exists why s', relay_loop fuel s = (Ok why, s') /\ relay_inv s'.
Proof.
  induction fuel as [|fuel IH]; intros s Hi Hf; [lia|]. cbn [relay_loop].
  destruct (relay_round_total s Hi) as (ended & s' & -> & Hi' & Hn). cbn [and_then].
  destruct ended as [why|]; [by eauto|]. apply IH; [done|]. specialize (Hn eq_refl). lia.
Qed.

(** *** Transparency *)

(** A command, as the packets it takes, and the packets of its answer. *)
Definition mysql_exchange (cmd ans : list bytes) : Prop :=
  one_command cmd /\ u8 (default Byte.x00 (getMySQLCommand (concat cmd))) <> comQuit /\
  answers (NewQueryRequest [] 0 (concat cmd) []) ans.

Lemma forward_response_ok cmd r c ps rest :
  isNoResponseCommand cmd = false ->
  (if isSimpleResponseCommand cmd then exists p, ps = [p] else mysql_response ps) ->
  src_holds r (ps ++ rest) -> c_wr c = [] ->
  exists r', forward_response cmd (r, c)
    = (Ok (Z.of_nat (length (concat ps)), None), (r', MkConn (c_in c) (c_out c ++ concat ps) []))
    /\ src_holds r' rest.
Proof.
  intros _ Ha Hr Hc. unfold forward_response. destruct (isSimpleResponseCommand cmd).
  - destruct Ha as [p ->]. destruct (src_next _ _ _ Hr) as (r' & E & Hr'). exists r'.
    unfold ReadAndForwardSimpleResponse, conn_write. cbn [fst snd concat]. rewrite E, Hc, app_nil_r. done.
  - pose proof (src_holds_length _ _ Hr) as Hlen. rewrite length_app in Hlen.
    apply (reads_response ps Ha _ 0%Z c r rest Hc Hr). simpl. lia.
Qed.

Lemma relay_round_exchange cmd ans cr c crest pr p prest :
  mysql_exchange cmd ans -> src_holds cr (cmd ++ crest) -> src_holds pr (ans ++ prest) ->
  c_wr c = [] -> c_wr p = [] ->
  exists cr' pr',
    relay_round (MkRelay cr c pr p)
    = (Ok None, MkRelay cr' (MkConn (c_in c) (c_out c ++ concat ans) []) pr'
                  (MkConn (c_in p) (c_out p ++ concat cmd) [])) /\
    src_holds cr' crest /\ src_holds pr' prest.
Proof.
  intros (H1 & Hq & Ha) Hcr Hpr Hc Hp. unfold relay_round. cbn [rl_clientReader rl_client rl_primaryReader rl_primary].
  destruct (ReadMultiPacket_ok _ _ _ H1 Hcr) as (cr' & -> & Hcr').
  unfold conn_write. rewrite Hp. unfold answers in Ha. cbn [qr_Packet NewQueryRequest] in Ha.
  set (b := default Byte.x00 _) in *. destruct (isNoResponseCommand b) eqn:En.
  - subst ans. rewrite (proj2 (Z.eqb_neq _ _) Hq). exists cr', pr. cbn [concat]. rewrite app_nil_r.
    destruct c as [ci co cw]; cbn [c_wr c_in c_out] in *. subst cw. done.
  - destruct (forward_response_ok b pr c ans prest En Ha Hpr Hc) as (pr' & -> & Hpr').
    by exists cr', pr'.
Qed.

Lemma relay_loop_exchanges exs : forall fuel cr c pr p quit crest prest,
  Forall (fun ex => mysql_exchange ex.1 ex.2) exs ->
  one_command quit -> u8 (default Byte.x00 (getMySQLCommand (concat quit))) = comQuit ->
  src_holds cr (concat (map fst exs) ++ quit ++ crest) -> src_holds pr (concat (map snd exs) ++ prest) ->
  c_wr c = [] -> c_wr p = [] -> length exs < fuel ->
  exists cr' pr',
    relay_loop fuel (MkRelay cr c pr p)
    = (Ok Quit, MkRelay cr' (MkConn (c_in c) (c_out c ++ concat (concat (map snd exs))) []) pr'
                  (MkConn (c_in p) (c_out p ++ concat (concat (map fst exs)) ++ concat quit) [])) /\
    src_holds cr' crest /\ src_holds pr' prest.
Proof.
  induction exs as [|[cmd ans] exs IH]; intros fuel cr c pr p quit crest prest Hex H1 Hq Hcr Hpr Hc Hp Hf;
    (destruct fuel as [|fuel]; [lia|]); cbn [relay_loop map fst snd concat] in *.
  - unfold relay_round. cbn [rl_clientReader rl_client rl_primaryReader rl_primary].
    destruct (ReadMultiPacket_ok _ _ _ H1 Hcr) as (cr' & -> & Hcr').
    unfold conn_write. rewrite Hp. unfold isNoResponseCommand. rewrite Hq. exists cr', pr.
    rewrite app_nil_r. destruct c as [ci co cw]; cbn [c_wr c_in c_out] in *. subst cw. done.
  - apply Forall_cons_iff in Hex as [Hex Hexs]. rewrite <- app_assoc in Hcr, Hpr.
    destruct (relay_round_exchange cmd ans cr c _ pr p _ Hex Hcr Hpr Hc Hp) as (cr' & pr' & -> & Hcr' & Hpr').
    cbn [and_then]. destruct (IH fuel cr' (MkConn (c_in c) (c_out c ++ concat ans) []) pr'
      (MkConn (c_in p) (c_out p ++ concat cmd) []) quit crest prest) as (cr2 & pr2 & -> & ?); [done..|simpl in Hf; lia|].
    exists cr2, pr2. cbn [c_in c_out]. by rewrite !concat_app, <- !app_assoc.
Qed.
End relay.

(** ** Refinement *)

Section refinement.
Context `{RegexpLib Regexp} (upper_table : Z -> Z).
Context (queryFilter : option (QueryFilter Regexp)) (has_logger : bool).
Context (env : nat -> round_env) (clientAddr : bytes).
Context `{PacketSource R}.

Abbreviation round := (mirror_round upper_table queryFilter has_logger env clientAddr (R := R)).
Abbreviation loop := (mirror_loop upper_table queryFilter has_logger env clientAddr (R := R)).

(** What the client and the primary see of a state. *)
Definition visible (s : MirrorLoop R) : Relay :=
  MkRelay (ml_clientReader s) (ml_client s) (ml_primaryReader s) (ml_primary s).

Lemma mirror_command_visible e cmd req s :
  visible (mirror_command upper_table queryFilter has_logger e cmd req s) = visible s.
Proof.
  unfold mirror_command. destruct (_ =? _)%Z; [done|]. destruct (filter_allows _ _ _ _) as [a r].
  by destruct a.
Qed.

Lemma mirror_round_relay i s :
  (round i s).1 = (relay_round (visible s)).1 /\ visible (round i s).2 = (relay_round (visible s)).2.
Proof.
  unfold mirror_round, relay_round. cbn [visible rl_clientReader rl_client rl_primaryReader rl_primary].
  destruct (ReadMultiPacket (ml_clientReader s)) as [[packet|e| |] cr]; [|done..].
  cbn [ml_client ml_primaryReader ml_primary ml_mirrored ml_metrics ml_log].
  destruct (conn_write packet (ml_primary s)) as [[n [werr|]] p1]; [done|].
  match goal with |- context [mirror_command ?a ?b ?c ?d ?e ?f ?g] =>
    pose proof (mirror_command_visible d e f g) as Hv; set (s1 := mirror_command a b c d e f g) in * end.
  unfold visible in Hv. injection Hv as Hcr Hc Hpr Hp. cbn in Hcr, Hc, Hpr, Hp. rewrite Hc, Hpr.
  destruct (isNoResponseCommand _); [done|].
  by destruct (forward_response _ _) as [[[m [rerr|]]|e| |] [p2 c2]].
Qed.

Lemma mirror_loop_relay fuel : forall i s,
  (loop fuel i s).1 = (relay_loop fuel (visible s)).1 /\ visible (loop fuel i s).2 = (relay_loop fuel (visible s)).2.
Proof.
  induction fuel as [|fuel IH]; intros i s; [done|]. cbn [mirror_loop relay_loop].
  destruct (mirror_round_relay i s) as [E1 E2].
  destruct (round i s) as [res s1], (relay_round (visible s)) as [res' r1].
  cbn [fst snd] in *. subst res' r1. destruct res as [[why|]|e| |]; cbn [and_then]; by try apply IH.
Qed.

(** *** What the shadow and the log are given *)

(** A command the loop handled: its id, its packet, and whether it was mirrored. *)
Record handled := MkHandled { h_id : bytes; h_packet : bytes; h_mirrored : bool }.

(** The command [packet] of round [i]: the id is the one drawn for it, and it is mirrored
    if there is no filter or the filter allows it. *)
Definition command_at (i : nat) (packet : bytes) : handled :=
  let en := env i in
  MkHandled (e_uuid en) packet
    match queryFilter with
    | None => true
    | Some f => (Allow upper_table f (e_roll en) (NewQueryRequest (e_uuid en) (e_now en) packet clientAddr)).1
    end.

Fixpoint commands_from (i : nat) (packets : list bytes) : list handled :=
  match packets with [] => [] | p :: packets => command_at i p :: commands_from (S i) packets end.

Lemma commands_from_app i l l' : commands_from i (l ++ l') = commands_from i l ++ commands_from (i + length l) l'.
Proof.
  revert i. induction l as [|p l IH]; intros i; simpl; [by rewrite Nat.add_0_r|]. by rewrite IH, <- plus_n_Sm.
Qed.

Lemma commands_from_packets i l : map h_packet (commands_from i l) = l.
Proof. revert i. induction l as [|p l IH]; intros i; simpl; [done|]. by rewrite IH. Qed.

Definition entry_ids (target : bytes) (log : list QueryLogEntry) : list bytes :=
  map le_QueryID (List.filter (fun en => bool_decide (le_Target en = target)) log).

(** From [s] to [s'] the loop handled [cmds], then wrote [last] of the packet of
    a command it did not consider for the shadow, with id in [last_id]. *)
Record effects (s s' : MirrorLoop R) (cmds : list handled) (last : bytes) (last_id : list bytes) : Prop := {
  eff_primary : c_out (ml_primary s') = c_out (ml_primary s) ++ concat (map h_packet cmds) ++ last;
  eff_mirrored : exists given, ml_mirrored s' = ml_mirrored s ++ given /\
    map (fun req => (qr_ID req, qr_Packet req)) given
    = map (fun h => (h_id h, h_packet h)) (List.filter h_mirrored cmds);
  eff_filtered : Forall (fun h => h_mirrored h = false ->
    queryFilter <> None /\ getMySQLCommand (h_packet h) = Some (byte_of_Z comQuery)) cmds;
  eff_log : exists entries, ml_log s' = ml_log s ++ entries /\
    (has_logger = true ->
     entry_ids primary_target entries = map h_id cmds ++ last_id /\
     entry_ids shadow entries = map h_id (List.filter (fun h => negb (h_mirrored h)) cmds));
}.

Lemma entry_ids_app target l l' : entry_ids target (l ++ l') = entry_ids target l ++ entry_ids target l'.
Proof. unfold entry_ids. by rewrite List.filter_app, map_app. Qed.

Lemma effects_trans s1 s2 s3 cmds1 cmds2 last last_id :
  effects s1 s2 cmds1 [] [] -> effects s2 s3 cmds2 last last_id -> effects s1 s3 (cmds1 ++ cmds2) last last_id.
Proof.
  intros [Ho1 (g1 & Hg1 & Hm1) Hf1 (l1 & Hl1 & Hi1)] [Ho2 (g2 & Hg2 & Hm2) Hf2 (l2 & Hl2 & Hi2)]. split.
  - by rewrite Ho2, Ho1, map_app, concat_app, app_nil_r, <- !app_assoc.
  - exists (g1 ++ g2). rewrite Hg2, Hg1, app_assoc. split; [done|]. by rewrite List.filter_app, !map_app, Hm1, Hm2.
  - by apply Forall_app.
  - exists (l1 ++ l2). rewrite Hl2, Hl1, app_assoc. split; [done|]. intros Hl.
    destruct (Hi1 Hl) as [E1 E1'], (Hi2 Hl) as [E2 E2'].
    by rewrite !entry_ids_app, List.filter_app, !map_app, E1, E1', E2, E2', app_nil_r, <- app_assoc.
Qed.

(** A round that ends the loop without considering a command for the shadow. *)
Lemma effects_last s s' last entries last_id :
  c_out (ml_primary s') = c_out (ml_primary s) ++ last -> ml_mirrored s' = ml_mirrored s ->
  ml_log s' = ml_log s ++ entries ->
  (has_logger = true -> entry_ids primary_target entries = last_id /\ entry_ids shadow entries = []) ->
  effects s s' [] last last_id.
Proof.
  intros Ho Hm Hl Hi. split; [done| |constructor|by exists entries].
  exists []. by rewrite app_nil_r.
Qed.

Lemma logPrimaryExecution_ids t req a b e log :
  exists entries, logPrimaryExecution has_logger t req a b e log = log ++ entries /\
    (has_logger = true -> entry_ids primary_target entries = [qr_ID req] /\ entry_ids shadow entries = []).
Proof.
  unfold logPrimaryExecution. destruct has_logger; [by eexists|]. exists []. by rewrite app_nil_r.
Qed.

Lemma filter_blocks_only_queries roll uuid now packet reason :
  filter_allows upper_table queryFilter roll (NewQueryRequest uuid now packet clientAddr) = (false, reason) ->
  queryFilter <> None /\ getMySQLCommand packet = Some (byte_of_Z comQuery).
Proof.
  unfold filter_allows. destruct queryFilter as [f|]; [|done]. intros E. split; [done|].
  unfold Allow in E. cbn [NewQueryRequest qr_QueryText] in E.
  destruct (getMySQLCommand packet) as [cmd|] eqn:Ec; [|done]. change (default Byte.x00 (Some cmd)) with cmd in E.
  destruct (u8 cmd =? comQuery)%Z eqn:Eq; cbn [andb] in E; [|done]. apply Z.eqb_eq in Eq.
  f_equal. apply u8_inj. by rewrite Eq.
Qed.

(** A command considered for the shadow, and then logged for the primary. *)
Lemma effects_command i packet cr p s m client pr a b e metrics :
  u8 (default Byte.x00 (getMySQLCommand packet)) <> comQuit -> c_out p = c_out (ml_primary s) ++ packet ->
  let en := env i in
  let req := NewQueryRequest (e_uuid en) (e_now en) packet clientAddr in
  let s0 := MkLoop cr (ml_client s) (ml_primaryReader s) p (ml_mirrored s) m (ml_log s) in
  let s1 := mirror_command upper_table queryFilter has_logger en (default Byte.x00 (getMySQLCommand packet)) req s0 in
  effects s (MkLoop cr client pr p (ml_mirrored s1) metrics
               (logPrimaryExecution has_logger (e_timing en) req a b e (ml_log s1)))
    [command_at i packet] [] [].
Proof.
  intros Hq Ho en req s0 s1. subst s1. unfold mirror_command. rewrite (proj2 (Z.eqb_neq _ _) Hq).
  destruct (filter_allows _ _ _ _) as [allowed reason] eqn:Ef.
  replace (command_at i packet) with (MkHandled (e_uuid en) packet allowed).
  2: { unfold command_at. f_equal. unfold filter_allows in Ef. destruct queryFilter; [|congruence]. fold en req. by rewrite Ef. }
  destruct (logPrimaryExecution_ids (e_timing en) req a b e (ml_log (if negb allowed then
     MkLoop cr (ml_client s) (ml_primaryReader s) p (ml_mirrored s) m
       (logFilteredShadow has_logger (e_timing en) req reason (ml_log s)) else s0))) as (l & El & Hl).
  destruct allowed; cbn [negb ml_mirrored ml_log] in *.
  - split; cbn [ml_primary ml_mirrored ml_log map concat h_packet h_id h_mirrored List.filter negb].
    + by rewrite Ho, !app_nil_r.
    + by exists [req].
    + by repeat constructor.
    + by exists l.
  - split; cbn [ml_primary ml_mirrored ml_log map concat h_packet h_id h_mirrored List.filter negb].
    + by rewrite Ho, !app_nil_r.
    + exists []. by rewrite app_nil_r.
    + constructor; [intros _|constructor]. by eapply filter_blocks_only_queries.
    + change (ml_log s0) with (ml_log s). rewrite El. unfold logFilteredShadow. destruct has_logger; [|by exists l].
      exists (filtered_entry (e_timing en) req reason :: l). rewrite <- app_assoc. split; [done|].
      intros _. destruct (Hl eq_refl) as [E1 E2].
      change (filtered_entry (e_timing en) req reason :: l) with ([filtered_entry (e_timing en) req reason] ++ l).
      rewrite !entry_ids_app, E1, E2. done.
Qed.

(** Only a Quit and a failed write leave something written to the primary that
    was not considered for the shadow. *)
Definition considered_all (ended : option loop_end) : bool :=
  match ended with Some Quit | Some (PrimaryWriteFailed _) => false | _ => true end.

(** The last command has the id of the round after the handled ones. *)
Definition last_of (i : nat) (packets : list bytes) (last_id : list bytes) : Prop :=
  last_id = [] \/ last_id = [e_uuid (env (i + length packets))].

Lemma mirror_round_effects i s ended s' :
  round i s = (Ok ended, s') ->
  exists packets last last_id, effects s s' (commands_from i packets) last last_id /\ last_of i packets last_id /\
    (ended = None -> length packets = 1) /\ (considered_all ended = true -> last = [] /\ last_id = []).
Proof.
  unfold mirror_round. destruct (ReadMultiPacket (ml_clientReader s)) as [[packet|e| |] cr]; [|intros [= <- <-]|done..].
  2: { exists [], [], []. split; [|by split; [left|]]. by eapply (effects_last _ _ _ []); rewrite ?app_nil_r. }
  cbn [ml_client ml_primaryReader ml_primary ml_mirrored ml_metrics ml_log].
  destruct (conn_write packet (ml_primary s)) as [[n werr] p1] eqn:Ew.
  apply conn_write_any in Ew as (d & _ & Ho & _ & Hd & _).
  set (req := NewQueryRequest _ _ packet clientAddr). destruct werr as [werr|].
  { intros [= <- <-].
    destruct (logPrimaryExecution_ids (e_timing (env i)) req (Z.of_nat n) 0 (Some werr) (ml_log s)) as (l & El & Hl).
    exists [], d, [e_uuid (env i)]. split; [|by split; [right; rewrite Nat.add_0_r|]]. by eapply (effects_last _ _ _ l). }
  rewrite Hd in Ho by done. destruct (Z.eqb_spec (u8 (default Byte.x00 (getMySQLCommand packet))) comQuit) as [Hq|Hq].
  - unfold mirror_command, isNoResponseCommand. rewrite Hq. cbn [orb Z.eqb]. intros [= <- <-].
    destruct (logPrimaryExecution_ids (e_timing (env i)) req (Z.of_nat n) 0 None (ml_log s)) as (l & El & Hl).
    exists [], packet, [e_uuid (env i)]. split; [|by split; [right; rewrite Nat.add_0_r|]]. by eapply (effects_last _ _ _ l).
  - match goal with |- context [mirror_command _ _ _ _ _ _ (MkLoop _ _ _ _ _ ?m _)] =>
      pose proof (fun client pr => effects_command i packet cr p1 s m client pr (Z.of_nat n)) as Hcmd end.
    cbv zeta in Hcmd. fold req in Hcmd.
    destruct (isNoResponseCommand _).
    { intros [= <- <-]. exists [packet], [], []. split; [by apply Hcmd|by split; [left|]]. }
    destruct (forward_response _ _) as [[[k [rerr|]]|e| |] [p2 c2]]; [intros [= <- <-]..|done|done|done].
    all: exists [packet], [], []; split; [by apply Hcmd|by split; [left|]].
Qed.

Lemma mirror_loop_effects fuel : forall i s why s',
  loop fuel i s = (Ok why, s') ->
  exists packets last last_id, effects s s' (commands_from i packets) last last_id /\ last_of i packets last_id /\
    (considered_all (Some why) = true -> last = [] /\ last_id = []).
Proof.
  induction fuel as [|fuel IH]; intros i s why s'; [done|]. cbn [mirror_loop].
  destruct (round i s) as [[[w|]|e| |] s1] eqn:Er; cbn [and_then]; [| |done..];
    apply mirror_round_effects in Er as (ps & last & last_id & Heff & Hid & H1 & Hl).
  - intros [= <- <-]. by exists ps, last, last_id.
  - intros (ps2 & last2 & last_id2 & Heff2 & Hid2 & Hl2)%IH. destruct (Hl eq_refl) as [-> ->]. specialize (H1 eq_refl).
    exists (ps ++ ps2), last2, last_id2. rewrite commands_from_app, H1, Nat.add_1_r.
    split; [by eapply effects_trans|]. split; [|done]. unfold last_of in *. by rewrite length_app, H1, Nat.add_assoc, Nat.add_1_r.
Qed.
End refinement.

Lemma proxyWithMirrorWorker_exchanges `{RegexpLib Regexp} upper_table queryFilter has_logger env clientAddr
    `{PacketSource R} exs quit crest prest (clientReader : R) client primaryReader primary :
  Forall (fun ex => mysql_exchange ex.1 ex.2) exs ->
  one_command quit -> getMySQLCommand (concat quit) = Some (byte_of_Z comQuit) ->
  src_holds clientReader (concat (map fst exs) ++ quit ++ crest) ->
  src_holds primaryReader (concat (map snd exs) ++ prest) -> c_wr client = [] -> c_wr primary = [] ->
  exists s,
    proxyWithMirrorWorker upper_table queryFilter has_logger env clientAddr clientReader client
      primaryReader primary = (Ok Quit, s) /\
    c_out (ml_primary s) = c_out primary ++ concat (concat (map fst exs)) ++ concat quit /\
    c_out (ml_client s) = c_out client ++ concat (concat (map snd exs)) /\
    src_holds (ml_clientReader s) crest /\ src_holds (ml_primaryReader s) prest.
Proof.
  intros Hex H1 Hq Hcr Hpr Hwc Hwp. unfold proxyWithMirrorWorker. set (fuel := S _). set (s0 := MkLoop _ _ _ _ [] [] []).
  destruct (mirror_loop_relay upper_table queryFilter has_logger env clientAddr fuel 0 s0) as [E1 E2].
  change (visible s0) with (MkRelay clientReader client primaryReader primary) in *.
  destruct (relay_loop_exchanges exs fuel clientReader client primaryReader primary quit crest prest)
    as (cr' & pr' & E & Hc' & Hp'); [done|done|by rewrite Hq|done|done|done|done| |].
  { pose proof (src_holds_length _ _ Hcr) as Hlen. rewrite length_app in Hlen. subst fuel.
    assert (length exs <= length (concat (map fst exs))); [|lia]. clear -Hex.
    induction Hex as [|ex exs ((full & l & Ef & _) & _) _ IH]; [simpl; lia|].
    cbn [map concat length]. rewrite Ef, !length_app. simpl. lia. }
  rewrite E in *. destruct (mirror_loop _ _ _ _ _ _ _ _) as [res s]. cbn [fst snd] in *. subst res. exists s.
  unfold visible in E2. injection E2 as -> -> -> ->. done.
Qed.

(** ** Properties *)

(** C5: The shadow does not interfere: whatever the filter, the sampling, the
    logger and the environment, the request loop returns, ends for the same reason
    as the plain relay without shadow, metrics and log, and leaves both connections
    exactly as the relay does. No input stream makes it panic or run without end. *)
Theorem mysql_loop_refines_relay `{RegexpLib Regexp} upper_table queryFilter has_logger env clientAddr
    `{PacketSource R} (clientReader : R) client primaryReader primary :
  src_inv clientReader -> src_inv primaryReader ->
  exists why s,
    proxyWithMirrorWorker upper_table queryFilter has_logger env clientAddr clientReader client primaryReader primary
    = (Ok why, s) /\
    relay_loop (S (src_size clientReader)) (MkRelay clientReader client primaryReader primary)
    = (Ok why, MkRelay (ml_clientReader s) (ml_client s) (ml_primaryReader s) (ml_primary s)).
Proof.
  intros Hc Hp. unfold proxyWithMirrorWorker. set (fuel := S _). set (s0 := MkLoop _ _ _ _ [] [] []).
  destruct (mirror_loop_relay upper_table queryFilter has_logger env clientAddr fuel 0 s0) as [E1 E2].
  change (visible s0) with (MkRelay clientReader client primaryReader primary) in *.
  destruct (relay_loop_total fuel (MkRelay clientReader client primaryReader primary)) as (why & r & E & _);
    [by split|simpl; lia|].
  rewrite E in *. destruct (mirror_loop _ _ _ _ _ _ _ _) as [res s]. cbn [fst snd] in *. subst res. exists why, s.
  by rewrite <- E2.
Qed.

(** The MySQL session is transparent: when the client sends commands - of any
    number of packets - and ends with COM_QUIT, and the primary answers each with
    one response of the protocol, the primary receives exactly the client's
    packets, COM_QUIT included, and the client exactly the primary's, in order; the
    loop stops at COM_QUIT and reads nothing more. This holds for any filter,
    sampling and logger. *)
Theorem mysql_session_transparent `{RegexpLib Regexp} upper_table queryFilter has_logger env clientAddr
    `{PacketSource R} exs quit crest prest (clientReader : R) primaryReader :
  Forall (fun ex => mysql_exchange ex.1 ex.2) exs ->
  one_command quit -> getMySQLCommand (concat quit) = Some (byte_of_Z comQuit) ->
  src_holds clientReader (concat (map fst exs) ++ quit ++ crest) ->
  src_holds primaryReader (concat (map snd exs) ++ prest) ->
  exists s,
    proxyWithMirrorWorker upper_table queryFilter has_logger env clientAddr clientReader (MkConn [] [] [])
      primaryReader (MkConn [] [] []) = (Ok Quit, s) /\
    c_out (ml_primary s) = concat (concat (map fst exs)) ++ concat quit /\
    c_out (ml_client s) = concat (concat (map snd exs)) /\
    src_holds (ml_clientReader s) crest /\ src_holds (ml_primaryReader s) prest.
Proof.
  intros Hex H1 Hq Hcr Hpr. by apply (proxyWithMirrorWorker_exchanges upper_table queryFilter has_logger env clientAddr
    exs quit crest prest clientReader (MkConn [] [] []) primaryReader (MkConn [] [] [])).
Qed.

(** The shadow and the log are given what the primary was given. When the loop
    returns, the commands written to the primary are those it handled, in order,
    plus possibly a last COM_QUIT or failed write. The requests given to the shadow
    worker are, in order and under the same ids, the handled commands that were not
    filtered; only COM_QUERY commands are ever filtered, and only when a filter is
    configured. With a logger, every command has exactly one primary entry, and
    every filtered one exactly one shadow entry, under the same id. *)
Theorem mysql_shadow_given_primary_commands `{RegexpLib Regexp} upper_table queryFilter has_logger env clientAddr
    `{PacketSource R} (clientReader : R) client primaryReader primary why s :
  proxyWithMirrorWorker upper_table queryFilter has_logger env clientAddr clientReader client primaryReader primary
  = (Ok why, s) ->
  exists cmds last last_id,
    c_out (ml_primary s) = c_out primary ++ concat (map h_packet cmds) ++ last /\
    map (fun req => (qr_ID req, qr_Packet req)) (ml_mirrored s)
    = map (fun h => (h_id h, h_packet h)) (List.filter h_mirrored cmds) /\
    Forall (fun h => h_mirrored h = false ->
      queryFilter <> None /\ getMySQLCommand (h_packet h) = Some (byte_of_Z comQuery)) cmds /\
    (has_logger = true ->
     entry_ids primary_target (ml_log s) = map h_id cmds ++ last_id /\
     entry_ids shadow (ml_log s) = map h_id (List.filter (fun h => negb (h_mirrored h)) cmds)) /\
    (considered_all (Some why) = true -> last = [] /\ last_id = []).
Proof.
  intros Hr. apply mirror_loop_effects in Hr as (ps & last & last_id & [Ho (g & Hg & Hm) Hf (l & Hl & Hi)] & _ & Hc).
  exists (commands_from upper_table queryFilter env clientAddr 0 ps), last, last_id. cbn in Ho, Hg, Hl. rewrite Hg, Hl. by split_and!.
Qed.

(** ** The handshakes *)

Lemma readMySQLPacket_ok p cl rest :
  valid_packet p -> clean cl -> data cl = p ++ rest ->
  exists cl', readMySQLPacket cl = (Ok p, cl') /\ clean cl' /\ data cl' = rest.
Proof.
  intros Hp Hcl Hd. destruct p as [|b0 [|b1 [|b2 [|b3 pl]]]]; try done. cbn in Hp.
  destruct (ReadFull_clean 4 cl [] Hcl) as (cl1 & E1 & Hcl1 & Hd1); [rewrite Hd; simpl; lia|].
  rewrite !app_nil_r, Hd in *. cbn [app take drop] in E1, Hd1. rewrite ?drop_0, ?take_0 in *.
  destruct (ReadFull_clean (length pl) cl1 [] Hcl1) as (cl2 & E2 & Hcl2 & Hd2); [rewrite Hd1, length_app; lia|].
  rewrite !app_nil_r, Hd1 in *. rewrite take_app_length in E2. rewrite drop_app_length in Hd2.
  exists cl2. unfold readMySQLPacket. rewrite E1. cbn [and_then]. rewrite <- Hp, Nat2Z.id, E2. done.
Qed.

(** A connection that will deliver [w] and accepts all writes. *)
Definition delivers (c : Conn) (w : bytes) : Prop := clean (c_in c) /\ data (c_in c) = w /\ c_wr c = [].

Section steps.
Context (msg : string).

Lemma read_packet_ok p c rest : valid_packet p -> delivers c (p ++ rest) ->
  exists c', read_packet c = (Ok p, c') /\ delivers c' rest /\ c_out c' = c_out c.
Proof.
  intros Hp (Hcl & Hd & Hw). destruct (readMySQLPacket_ok p _ rest Hp Hcl Hd) as (cl' & E & ? & ?).
  unfold read_packet. rewrite E. eexists. split; [reflexivity|]. done.
Qed.

Lemma write_packet_ok p c w : delivers c w ->
  exists c', write_packet p c = (Ok tt, c') /\ delivers c' w /\ c_out c' = c_out c ++ p.
Proof.
  intros (Hcl & Hd & Hw). unfold write_packet, conn_write. rewrite Hw. eexists. split; [reflexivity|]. done.
Qed.

Lemma read_client_ok p c rest q : valid_packet p -> delivers c (p ++ rest) ->
  exists c', read_client msg (c, q) = (Ok p, (c', q)) /\ delivers c' rest /\ c_out c' = c_out c.
Proof.
  intros Hp Hd. destruct (read_packet_ok p c rest Hp Hd) as (c' & E & ?).
  exists c'. unfold read_client. cbn [fst snd]. by rewrite E.
Qed.

Lemma read_primary_ok p c rest q : valid_packet p -> delivers q (p ++ rest) ->
  exists q', read_primary msg (c, q) = (Ok p, (c, q')) /\ delivers q' rest /\ c_out q' = c_out q.
Proof.
  intros Hp Hd. destruct (read_packet_ok p q rest Hp Hd) as (q' & E & ?).
  exists q'. unfold read_primary. cbn [fst snd]. by rewrite E.
Qed.

Lemma write_client_ok p c w q : delivers c w ->
  exists c', write_client msg p (c, q) = (Ok tt, (c', q)) /\ delivers c' w /\ c_out c' = c_out c ++ p.
Proof.
  intros Hd. destruct (write_packet_ok p c w Hd) as (c' & E & ?).
  exists c'. unfold write_client. cbn [fst snd]. by rewrite E.
Qed.

Lemma write_primary_ok p c q w : delivers q w ->
  exists q', write_primary msg p (c, q) = (Ok tt, (c, q')) /\ delivers q' w /\ c_out q' = c_out q ++ p.
Proof.
  intros Hd. destruct (write_packet_ok p q w Hd) as (q' & E & ?).
  exists q'. unfold write_primary. cbn [fst snd]. by rewrite E.
Qed.
End steps.

(** The second round of authentication, if any: the primary's request and the
    client's reply. *)
Definition switch_ok (sw : option (bytes * bytes)) (final : bytes) : Prop :=
  valid_packet final /\
  match sw with
  | None => has_type Byte.xfe final = false
  | Some (q, reply) => has_type Byte.xfe q = true /\ valid_packet q /\ valid_packet reply
  end.
Definition sw_request (sw : option (bytes * bytes)) : bytes := match sw with Some (q, _) => q | None => [] end.
Definition sw_reply (sw : option (bytes * bytes)) : bytes := match sw with Some (_, r) => r | None => [] end.

(** What the primary sends after the client's login: the response, or the switch
    request and, later, the response. *)
Lemma auth_response_ok msg sw final c crest q qrest :
  switch_ok sw final -> delivers c (sw_reply sw ++ crest) -> delivers q (sw_request sw ++ final ++ qrest) ->
  exists c' q',
    (let? authResponse, s := read_primary msg (c, q) in auth_switch authResponse s) = (Ok final, (c', q')) /\
    delivers c' crest /\ delivers q' qrest /\
    c_out c' = c_out c ++ sw_request sw /\ c_out q' = c_out q ++ sw_reply sw.
Proof.
  intros [Hf Hsw] Hc Hq. destruct sw as [[req reply]|]; cbn [sw_request sw_reply app] in *.
  - destruct Hsw as (Hty & Hreq & Hreply).
    destruct (read_primary_ok msg req c _ q Hreq Hq) as (q1 & -> & Hq1 & Eq1). cbn [and_then].
    unfold auth_switch. rewrite Hty.
    destruct (write_client_ok "failed to forward auth switch to client" req c _ q1 Hc) as (c1 & -> & Hc1 & Ec1).
    cbn [and_then].
    destruct (read_client_ok "failed to read auth switch response" reply c1 _ q1 Hreply Hc1) as (c2 & -> & Hc2 & Ec2).
    cbn [and_then].
    destruct (write_primary_ok "failed to forward auth switch response" reply c2 q1 _ Hq1) as (q2 & -> & Hq2 & Eq2).
    cbn [and_then].
    destruct (read_primary_ok "failed to read final auth response" final c2 _ q2 Hf Hq2) as (q3 & -> & Hq3 & Eq3).
    exists c2, q3. rewrite Eq3, Eq2, Eq1, Ec2, Ec1. done.
  - destruct (read_primary_ok msg final c _ q Hf Hq) as (q1 & -> & Hq1 & Eq1). cbn [and_then].
    unfold auth_switch. rewrite Hsw. exists c, q1. by rewrite Eq1, !app_nil_r.
Qed.

(** The login as the primary gets it: the two capabilities cleared, nothing else
    changed. *)
Definition stripped (login login' : bytes) : Prop :=
  exists caps, capabilities login = Ok caps /\
    capabilities login' = Ok (Z.ldiff caps (Z.lor clientSSL clientDeprecateEOF)) /\
    take 4 login' = take 4 login /\ drop 8 login' = drop 8 login.

Lemma capabilities_exist packet : 8 <= length packet -> exists caps, capabilities packet = Ok caps.
Proof.
  intros Hl. destruct (packet_caps packet Hl) as (h & b0 & b1 & b2 & b3 & t & -> & Hh).
  destruct (capabilities_at h b0 b1 b2 b3 t Hh) as [E1 E2]. unfold capabilities. rewrite E1, E2. eauto.
Qed.

Lemma strip_ok login : 8 <= length login ->
  exists login', removeUnsupportedCapabilities login = Ok login' /\ stripped login login'.
Proof.
  intros Hl. destruct (capabilities_exist login Hl) as [caps Hc].
  destruct (removeUnsupported_spec login caps Hl Hc) as (login' & E & Hcaps & Ht & Hd & _).
  exists login'. split; [done|]. by exists caps.
Qed.

Lemma forwardMySQLHandshake_relays handshake login sw final c crest q qrest :
  valid_packet handshake -> valid_packet login -> 8 <= length login -> switch_ok sw final ->
  delivers c (login ++ sw_reply sw ++ crest) -> delivers q (handshake ++ sw_request sw ++ final ++ qrest) ->
  exists c' q' login',
    forwardMySQLHandshake (c, q)
    = (if has_type Byte.xff final then Err (ErrMsg "primary authentication failed") else Ok tt, (c', q')) /\
    delivers c' crest /\ delivers q' qrest /\
    c_out c' = c_out c ++ handshake ++ sw_request sw ++ final /\
    c_out q' = c_out q ++ login' ++ sw_reply sw /\ stripped login login'.
Proof.
  intros Hh Hl H8 Hsw Hc Hq. unfold forwardMySQLHandshake.
  destruct (read_primary_ok "failed to read handshake from primary" handshake c _ q Hh Hq) as (q1 & -> & Hq1 & Eq1).
  cbn [and_then].
  destruct (write_client_ok "failed to send handshake to client" handshake c _ q1 Hc) as (c1 & -> & Hc1 & Ec1).
  cbn [and_then].
  destruct (read_client_ok "failed to read auth from client" login c1 _ q1 Hl Hc1) as (c2 & -> & Hc2 & Ec2).
  cbn [and_then]. destruct (strip_ok login H8) as (login' & -> & Hst). cbn [and_then].
  destruct (write_primary_ok "failed to forward auth to primary" login' c2 q1 _ Hq1) as (q2 & -> & Hq2 & Eq2).
  cbn [and_then].
  destruct (auth_response_ok "failed to read auth response from primary" sw final c2 crest q2 qrest Hsw Hc2 Hq2)
    as (c3 & q3 & E & Hc3 & Hq3 & Ec3 & Eq3).
  destruct (read_primary _ _) as [[r|e| |] s2]; cbn [and_then] in *; [|discriminate E..].
  rewrite E. cbn [and_then].
  destruct (write_client_ok "failed to forward auth response to client" final c3 crest q3 Hc3) as (c4 & -> & Hc4 & Ec4).
  cbn [and_then]. exists c4, q3, login'.
  rewrite Ec4, Ec3, Ec2, Ec1, Eq3, Eq2, Eq1, <- !app_assoc. by destruct (has_type Byte.xff final).
Qed.

(** The login handshake is relayed, and only the two capabilities the response
    parser cannot handle are removed: the client receives the primary's handshake,
    switch request (if any) and response unchanged; the primary receives the
    client's login with CLIENT_SSL and CLIENT_DEPRECATE_EOF cleared and nothing
    else changed, and its switch reply unchanged. Exactly the packets of the
    handshake are read, so the session that follows starts at its first byte; the
    result is an error exactly when the primary rejected the login. *)
Theorem mysql_handshake_relayed handshake login sw final c crest q qrest :
  valid_packet handshake -> valid_packet login -> 8 <= length login -> switch_ok sw final ->
  delivers c (login ++ sw_reply sw ++ crest) -> delivers q (handshake ++ sw_request sw ++ final ++ qrest) ->
  exists c' q' login',
    forwardMySQLHandshake (c, q)
    = (if has_type Byte.xff final then Err (ErrMsg "primary authentication failed") else Ok tt, (c', q')) /\
    delivers c' crest /\ delivers q' qrest /\
    c_out c' = c_out c ++ handshake ++ sw_request sw ++ final /\
    c_out q' = c_out q ++ login' ++ sw_reply sw /\ stripped login login'.
Proof. apply forwardMySQLHandshake_relays. Qed.

(** With TLS configured, a client that declines TLS keeps CLIENT_DEPRECATE_EOF:
    its login reaches the primary unchanged, so the primary may answer without the
    EOF packets the response parser relies on. *)
Theorem plain_login_not_stripped tls_server handshake handshake' login sw final c crest q qrest :
  valid_packet handshake -> modifyHandshakeForSSL handshake = Ok handshake' ->
  valid_packet login -> isSSLRequest login = Ok false -> switch_ok sw final ->
  delivers c (login ++ sw_reply sw ++ crest) -> delivers q (handshake ++ sw_request sw ++ final ++ qrest) ->
  exists c' q',
    handleMySQLSSLUpgrade tls_server (c, q)
    = (if has_type Byte.xff final then Err (ErrMsg "primary authentication failed (non-SSL)") else Ok tt, (c', q'), []) /\
    c_out c' = c_out c ++ handshake' ++ sw_request sw ++ final /\
    c_out q' = c_out q ++ login ++ sw_reply sw.
Proof.
  intros Hh Hm Hl Hssl Hsw Hc Hq. unfold handleMySQLSSLUpgrade, ssl_greeting.
  destruct (read_primary_ok "failed to read handshake from primary" handshake c _ q Hh Hq) as (q1 & -> & Hq1 & Eq1).
  cbn [and_then]. rewrite Hm. cbn [and_then].
  destruct (write_client_ok "failed to send handshake to client" handshake' c _ q1 Hc) as (c1 & -> & Hc1 & Ec1).
  cbn [and_then].
  destruct (read_client_ok "failed to read client response" login c1 _ q1 Hl Hc1) as (c2 & -> & Hc2 & Ec2).
  cbn [and_then]. rewrite Hssl. cbn [and_then]. unfold plain_session.
  destruct (write_primary_ok "failed to forward auth to primary" login c2 q1 _ Hq1) as (q2 & -> & Hq2 & Eq2).
  cbn [and_then].
  destruct (auth_response_ok "failed to read auth response from primary (non-SSL)" sw final c2 crest q2 qrest Hsw Hc2 Hq2)
    as (c3 & q3 & E & Hc3 & Hq3 & Ec3 & Eq3).
  destruct (read_primary _ _) as [[r|e| |] s2]; cbn [and_then] in *; [|discriminate E..].
  rewrite E. cbn [and_then].
  destruct (write_client_ok "failed to forward auth response to client (non-SSL)" final c3 crest q3 Hc3)
    as (c4 & -> & Hc4 & Ec4).
  cbn [and_then]. exists c4, q3.
  rewrite Ec4, Ec3, Ec2, Ec1, Eq3, Eq2, Eq1, <- !app_assoc. by destruct (has_type Byte.xff final).
Qed.

Lemma set_seq_ok seq p : valid_packet p -> exists p', set_seq seq p = Ok p' /\ p' = <[3 := seq]> p.
Proof. intros Hp%valid_packet_length. unfold set_seq. rewrite bool_decide_true by lia. eauto. Qed.

Lemma remove_length p p' : removeUnsupportedCapabilities p = Ok p' -> length p' = length p.
Proof.
  unfold removeUnsupportedCapabilities. case_bool_decide; [by intros [= <-]|].
  destruct (get16 p 4), (get16 p 6); try done. intros [= <-]. unfold put16. by rewrite !length_insert.
Qed.

Lemma ssl_login_relays (tls_server : Conn -> Conn + error) handshake handshake' request login final c q qrest tlsConn
    crest :
  valid_packet handshake -> modifyHandshakeForSSL handshake = Ok handshake' ->
  valid_packet request -> isSSLRequest request = Ok true ->
  valid_packet login -> 8 <= length login -> valid_packet final ->
  clean (c_in c) -> data (c_in c) = request -> c_wr c = [] -> delivers q (handshake ++ final ++ qrest) ->
  (forall c', c_out c' = c_out c ++ handshake' -> data (c_in c') = [] -> tls_server c' = inl tlsConn) ->
  delivers tlsConn (login ++ crest) ->
  exists tlsConn' q' login',
    handleMySQLSSLUpgrade tls_server (c, q) = (Ok tt, (tlsConn', q'), [Inc "tlsUpgrades" []]) /\
    c_out q' = c_out q ++ <[3 := Byte.x01]> login' /\ stripped login login' /\
    c_out tlsConn' = c_out tlsConn ++ <[3 := Byte.x03]> final /\
    delivers tlsConn' crest /\ delivers q' qrest.
Proof.
  intros Hh Hm Hr Hssl Hl H8 Hf Hcl Hd Hw Hq Htls Ht. unfold handleMySQLSSLUpgrade, ssl_greeting.
  destruct (read_primary_ok "failed to read handshake from primary" handshake c _ q Hh Hq) as (q1 & -> & Hq1 & Eq1).
  cbn [and_then]. rewrite Hm. cbn [and_then].
  assert (Hc : delivers c (request ++ [])) by (rewrite app_nil_r; done).
  destruct (write_client_ok "failed to send handshake to client" handshake' c _ q1 Hc) as (c1 & -> & Hc1 & Ec1).
  cbn [and_then].
  destruct (read_client_ok "failed to read client response" request c1 _ q1 Hr Hc1) as (c2 & -> & Hc2 & Ec2).
  cbn [and_then]. rewrite Hssl. cbn [and_then]. unfold ssl_session. cbn [fst snd].
  rewrite (Htls c2) by (rewrite ?Ec2; done || apply Hc2).
  destruct (read_client_ok "failed to read auth packet after TLS upgrade" login tlsConn _ q1 Hl Ht)
    as (t1 & -> & Ht1 & Et1).
  cbn [and_then]. destruct (strip_ok login H8) as (login' & Er & Hst). rewrite Er. cbn [and_then].
  unfold set_seq at 1. rewrite (remove_length _ _ Er), bool_decide_true by lia. cbn [and_then].
  destruct (write_primary_ok "failed to forward auth to primary" (<[3 := Byte.x01]> login') t1 q1 _ Hq1)
    as (q2 & -> & Hq2 & Eq2). cbn [and_then].
  destruct (read_primary_ok "failed to read auth response from primary" final t1 _ q2 Hf Hq2) as (q3 & -> & Hq3 & Eq3).
  cbn [and_then]. destruct (set_seq_ok Byte.x03 final Hf) as (final' & -> & ->). cbn [and_then].
  destruct (write_client_ok "failed to forward auth response to client" (<[3 := Byte.x03]> final) t1 _ q3 Ht1)
    as (t2 & -> & Ht2 & Et2).
  exists t2, q3, login'. by rewrite Et2, Et1, Eq3, Eq2, Eq1.
Qed.

(** With TLS, the sequence numbers seen by each side are the ones it expects,
    and the login is stripped: after the client's SSL request and the TLS
    handshake, the primary receives the login with sequence number 1 and the two
    capabilities cleared, and the client receives the primary's response with
    sequence number 3, over TLS - whatever that response is: an authentication
    switch request is forwarded as if the session were established, and the client's
    reply to it is left unread. *)
Theorem ssl_login_relayed (tls_server : Conn -> Conn + error) handshake handshake' request login final c q qrest tlsConn
    crest :
  valid_packet handshake -> modifyHandshakeForSSL handshake = Ok handshake' ->
  valid_packet request -> isSSLRequest request = Ok true ->
  valid_packet login -> 8 <= length login -> valid_packet final ->
  clean (c_in c) -> data (c_in c) = request -> c_wr c = [] -> delivers q (handshake ++ final ++ qrest) ->
  (forall c', c_out c' = c_out c ++ handshake' -> data (c_in c') = [] -> tls_server c' = inl tlsConn) ->
  delivers tlsConn (login ++ crest) ->
  exists tlsConn' q' login',
    handleMySQLSSLUpgrade tls_server (c, q) = (Ok tt, (tlsConn', q'), [Inc "tlsUpgrades" []]) /\
    c_out q' = c_out q ++ <[3 := Byte.x01]> login' /\ stripped login login' /\
    c_out tlsConn' = c_out tlsConn ++ <[3 := Byte.x03]> final /\
    delivers tlsConn' crest /\ delivers q' qrest.
Proof. exact (ssl_login_relays tls_server handshake handshake' request login final c q qrest tlsConn crest). Qed.

(** C36: The proxy logs in to the shadow. When the shadow's handshake carries a
    20-byte scramble, the proxy sends one packet, number 1, with the protocol-4.1
    capabilities, the configured user, and - unless the password is empty - a
    20-byte token that a server storing the double hash of that password accepts
    for that scramble; the login succeeds unless the shadow answers with an error
    or a switch request, each of which is counted; and nothing is read beyond the
    answer. *)
Theorem shadow_login username password h len part2 more response c rest :
  handshake_ok h -> length (hs_reserved h) = 10 -> hs_rest h = part2 ++ more ->
  length part2 = 12 -> Byte.x00 ∉ part2 ->
  valid_packet (hs_packet h len) -> valid_packet response ->
  delivers c (hs_packet h len ++ response ++ rest) ->
  exists c' token res metrics,
    authenticateWithShadow None username password c = (res, c', metrics) /\
    delivers c' rest /\
    c_out c' = c_out c ++ mk_packet Byte.x01 (login_head 0x8200 ++ username ++ [Byte.x00] ++ token) /\
    (if bool_decide (password = []) then token = [Byte.x00]
     else exists tok, token = byte_of_Z 20 :: tok /\ length tok = 20 /\
            server_accepts (SHA1.sum (SHA1.sum password)) (hs_part1 h ++ part2) tok) /\
    (res = Ok tt <-> has_type Byte.xff response = false /\ has_type Byte.xfe response = false) /\
    (res <> Ok tt -> metrics = [Inc "authFailures" [shadow]]).
Proof.
  intros Hok Hres Hrest H2 Hz Hh Hr Hd. unfold authenticateWithShadow.
  destruct (read_packet_ok _ c _ Hh Hd) as (c1 & -> & Hd1 & Ec1). cbn [wrap_error].
  rewrite (extractScramble_ok h len part2 more Hok Hres Hrest H2 Hz).
  unfold shadow_auth, fullPacket. set (scramble := hs_part1 h ++ part2). unfold authPacket.
  set (token := match mysqlNativePassword password scramble with None => _ | Some _ => _ end).
  set (packet := mk_packet Byte.x01 _).
  destruct (write_packet_ok packet c1 _ Hd1) as (c2 & -> & Hd2 & Ec2). cbn [wrap_error and_then].
  destruct (read_packet_ok response c2 rest Hr Hd2) as (c3 & -> & Hd3 & Ec3). cbn [wrap_error].
  assert (Htok : if bool_decide (password = []) then token = [Byte.x00]
     else exists tok, token = byte_of_Z 20 :: tok /\ length tok = 20 /\
            server_accepts (SHA1.sum (SHA1.sum password)) scramble tok).
  { pose proof (native_password_ok password scramble) as Hn. subst token.
    destruct (mysqlNativePassword password scramble) as [tok|] eqn:E.
    - rewrite bool_decide_false by (intros ->; discriminate E). destruct Hn as [Hl Ha].
      exists tok. by rewrite Hl.
    - by rewrite bool_decide_true. }
  assert (Ho : c_out c3 = c_out c ++ packet) by by rewrite Ec3, Ec2, Ec1.
  exists c3, token. destruct (has_type Byte.xff response), (has_type Byte.xfe response);
    (do 2 eexists; split; [reflexivity|]; split_and!; [done|done|done|by intuition congruence..]).
Qed.

(** ** A whole connection *)

Section connection.
Context `{RegexpLib Regexp} (upper_table : Z -> Z).
Context (queryFilter : option (QueryFilter Regexp)) (has_logger : bool).
(** The TLS server and client when TLS is configured for clients and for the
    shadow; the shadow's credentials. *)
Context (tls_server tls_client : option (Conn -> Conn + error)) (config : Config).
Context (env : nat -> round_env) (clientAddr : bytes).

(** How a connection ends. [Unmirrored] is the call of [proxyWithoutShadow], the two
    [io.Copy] of file Duplex, on the connections as they are then. *)
Inductive conn_end :=
  | DialFailed (e : error)
  | TLSFailed (e : error)
  | HandshakeFailed (e : error)
  | Unmirrored
  | Mirrored (why : loop_end) (s : MirrorLoop MySQLPacketReader) (shadowConn : Conn).

(** The handshake with client and primary. *)
Definition establish (s : Conn * Conn) : result unit * (Conn * Conn) * list metric :=
  match tls_server with
  | Some tls => handleMySQLSSLUpgrade tls s
  | None => (forwardMySQLHandshake s, [])
  end.

(** What is left to run of [handleConnection] after such a call, if it returns. *)
Definition deferred (res : result conn_end) : list metric :=
  match res with Ok Unmirrored => [Dec "activeConnections" []] | _ => [] end.

(** [dial] and [shadow_dial] are the outcomes of dialling primary and shadow; the metrics
    of an unmirrored connection are those up to [proxyWithoutShadow]. *)
Definition handleConnection (client : Conn) (dial shadow_dial : Conn + error)
    : result conn_end * (Conn * Conn) * list metric :=
  let opened := [Inc "activeConnections" []; Inc "totalConnections" []] in
  let closed := [Dec "activeConnections" []] in
  match dial with
  | inr err => (Ok (DialFailed err), (client, MkConn [] [] []),
                opened ++ [Inc "connectionFailures" [primary_target]] ++ closed)
  | inl primary =>
      let '(res, (client, primary), handshake_metrics) := establish (client, primary) in
      let opened := opened ++ handshake_metrics in
      match res with
      | Err err =>
          match tls_server with
          | Some _ => (Ok (TLSFailed err), (client, primary), opened ++ [Inc "tlsFailures" []] ++ closed)
          | None => (Ok (HandshakeFailed err), (client, primary), opened ++ closed)
          end
      | Panic => (Panic, (client, primary), opened ++ closed)
      | Stuck => (Stuck, (client, primary), opened ++ closed)
      | Ok _ =>
          let '(initialized, shadow_metrics) :=
            match NewShadowWorker config with
            | Ok _ => Initialize tls_client (ShadowUser config) (ShadowPassword config) shadow_dial
            | _ => (Panic, [])
            end in
          let opened := opened ++ shadow_metrics in
          match initialized with
          | Panic => (Panic, (client, primary), opened ++ closed)
          | Stuck => (Stuck, (client, primary), opened ++ closed)
          | Err _ =>
              (Ok Unmirrored, (client, primary),
               opened ++ [Inc "connectionFailures" [shadow]; Inc "connectionsWithoutShadow" []])
          | Ok shadowConn =>
              let '(res, s) :=
                proxyWithMirrorWorker upper_table queryFilter has_logger env clientAddr
                  (NewMySQLPacketReader (c_in client)) client (NewMySQLPacketReader (c_in primary)) primary in
              let metrics := opened ++ [Inc "connectionsWithShadow" []] ++ ml_metrics s ++ closed in
              match res with
              | Ok why => (Ok (Mirrored why s shadowConn), (ml_client s, ml_primary s), metrics)
              | Err err => (Err err, (ml_client s, ml_primary s), metrics)
              | Panic => (Panic, (ml_client s, ml_primary s), metrics)
              | Stuck => (Stuck, (ml_client s, ml_primary s), metrics)
              end
          end
      end
  end.
End connection.

Lemma new_reader_holds c (ps : list bytes) :
  delivers c (concat ps) -> Forall valid_packet ps -> src_holds (NewMySQLPacketReader (c_in c)) ps.
Proof.
  intros (Hcl & Hd & _) Hv. exists [], []. split; [|done]. rewrite app_nil_r, <- Hd.
  rewrite <- (app_nil_r (c_in c)) at 1. by apply NewMySQLPacketReader_will_read.
Qed.

(** The request loop from the end of the handshake on, for a connection that can
    still deliver the commands and a primary that can still deliver the answers. *)
Lemma handleConnection_established `{RegexpLib Regexp} upper_table queryFilter has_logger tls_server tls_client config
    env clientAddr exs quit client dial shadow_dial shadowConn c q ms :
  (0 <= ShadowQueueSize config)%Z ->
  (Initialize tls_client (ShadowUser config) (ShadowPassword config) shadow_dial).1 = Ok shadowConn ->
  Forall (fun ex => mysql_exchange ex.1 ex.2) exs ->
  one_command quit -> getMySQLCommand (concat quit) = Some (byte_of_Z comQuit) ->
  Forall valid_packet (concat (map fst exs) ++ quit) -> Forall valid_packet (concat (map snd exs)) ->
  establish tls_server (client, dial) = (Ok tt, (c, q), ms) ->
  delivers c (concat (concat (map fst exs) ++ quit)) -> delivers q (concat (concat (map snd exs))) ->
  exists s metrics,
    handleConnection upper_table queryFilter has_logger tls_server tls_client config env clientAddr client (inl dial)
      shadow_dial = (Ok (Mirrored Quit s shadowConn), (ml_client s, ml_primary s), metrics) /\
    c_out (ml_primary s) = c_out q ++ concat (concat (map fst exs) ++ quit) /\
    c_out (ml_client s) = c_out c ++ concat (concat (map snd exs)).
Proof.
  intros Hqs Hinit Hex H1 Hq Hvc Hvp He Hc Hp. unfold handleConnection. rewrite He.
  unfold NewShadowWorker. rewrite make_chan_ok by done.
  destruct (Initialize _ _ _ _) as [initialized shadow_metrics]. cbn [fst] in Hinit. subst initialized.
  destruct (proxyWithMirrorWorker_exchanges upper_table queryFilter has_logger env clientAddr exs quit [] []
    (NewMySQLPacketReader (c_in c)) c (NewMySQLPacketReader (c_in q)) q) as (s & -> & Op & Oc & _);
    [done|done|done| | |apply Hc|apply Hp|].
  - rewrite app_nil_r. by apply new_reader_holds.
  - rewrite app_nil_r. by apply new_reader_holds.
  - do 2 eexists. split; [reflexivity|]. by rewrite Op, Oc, concat_app.
Qed.

(** C1: A MySQL connection is transparent from its first byte to its last, but for
    the two capabilities: the login handshake is relayed (with its second round if
    the primary asks for one), then every command - of any number of packets - is
    delivered to the primary and its response to the client, up to COM_QUIT. The
    switch from unbuffered to buffered reading at the end of the handshake loses no
    byte. This holds for any filter, sampling and logger, and however TCP cuts the
    two streams. *)
Theorem mysql_connection_transparent `{RegexpLib Regexp} upper_table queryFilter has_logger tls_client
    config env clientAddr handshake login sw final exs quit ccl pcl shadow_dial shadowConn :
  (0 <= ShadowQueueSize config)%Z ->
  (Initialize tls_client (ShadowUser config) (ShadowPassword config) shadow_dial).1 = Ok shadowConn ->
  valid_packet handshake -> valid_packet login -> 8 <= length login -> switch_ok sw final ->
  has_type Byte.xff final = false ->
  Forall (fun ex => mysql_exchange ex.1 ex.2) exs ->
  one_command quit -> getMySQLCommand (concat quit) = Some (byte_of_Z comQuit) ->
  Forall valid_packet (concat (map fst exs) ++ quit) -> Forall valid_packet (concat (map snd exs)) ->
  clean ccl -> data ccl = login ++ sw_reply sw ++ concat (concat (map fst exs) ++ quit) ->
  clean pcl -> data pcl = handshake ++ sw_request sw ++ final ++ concat (concat (map snd exs)) ->
  exists s login' metrics,
    handleConnection upper_table queryFilter has_logger None tls_client config env clientAddr
      (MkConn ccl [] []) (inl (MkConn pcl [] [])) shadow_dial
    = (Ok (Mirrored Quit s shadowConn), (ml_client s, ml_primary s), metrics) /\
    stripped login login' /\
    c_out (ml_primary s) = login' ++ sw_reply sw ++ concat (concat (map fst exs) ++ quit) /\
    c_out (ml_client s) = data pcl.
Proof.
  intros Hqs Hinit Hh Hl H8 Hsw Hff Hex H1 Hq Hvc Hvp Hcc Hcd Hpc Hpd.
  destruct (forwardMySQLHandshake_relays handshake login sw final (MkConn ccl [] []) _ (MkConn pcl [] []) _ Hh Hl H8 Hsw
    (conj Hcc (conj Hcd eq_refl)) (conj Hpc (conj Hpd eq_refl))) as (c & q & login' & E & Hc & Hp & Oc & Op & Hst).
  rewrite Hff in E.
  destruct (handleConnection_established upper_table queryFilter has_logger None tls_client config env clientAddr exs
    quit (MkConn ccl [] []) (MkConn pcl [] []) shadow_dial shadowConn c q [] Hqs Hinit Hex H1 Hq Hvc Hvp) as (s & metrics & Eh & Op' & Oc');
    [unfold establish; by rewrite E|exact Hc|exact Hp|].
  exists s, login', metrics. split; [exact Eh|]. split; [exact Hst|]. by rewrite Op', Oc', Op, Oc, Hpd, <- !app_assoc.
Qed.

(** ** Examples and witnesses *)

Definition env0 (i : nat) : round_env := MkEnv (B (pretty i)) 0 (MkTiming [] 0) f_zero.
Definition client_addr : bytes := B "10.0.0.1:5000".

(** A filtered and a mirrored query, a ping, then COM_QUIT. *)
Definition secret_query : list bytes := [mk_packet Byte.x00 (Byte.x03 :: B "SELECT secret")].
Definition ok_query : list bytes := [mk_packet Byte.x00 select_1].
Definition ping_command : list bytes := [mk_packet Byte.x00 ping].
Definition quit_command : list bytes := [mk_packet Byte.x00 [Byte.x01]].
Definition mysql_exchanges : list (list bytes * list bytes) :=
  [(secret_query, c3_response); (ok_query, [ok_packet]); (ping_command, [ok_packet])].

Lemma one_packet_command p : (packet_length p < 0xFFFFFF)%Z -> one_command [p].
Proof. intros Hp. by exists [], p. Qed.

Lemma ok_packet_response : mysql_response [ok_packet].
Proof. by apply resp_ok. Qed.

Lemma mysql_exchanges_ok : Forall (fun ex => mysql_exchange ex.1 ex.2) mysql_exchanges.
Proof.
  constructor; [|constructor; [|constructor; [|constructor]]];
    (split; [by apply one_packet_command; vm_compute|]; split; [by vm_compute|]).
  - exact c3_response_ok.
  - exact ok_packet_response.
  - by exists ok_packet.
Qed.

Definition mysql_client_stream : list bytes := concat (map fst mysql_exchanges) ++ quit_command.
Definition mysql_primary_stream : list bytes := concat (map snd mysql_exchanges).

Lemma streams_valid : Forall valid_packet mysql_client_stream /\ Forall valid_packet mysql_primary_stream.
Proof. split; vm_decide. Qed.

(** The loop on lists of packets, with the excluding filter and a logger. *)
Definition mysql_run : result loop_end * MirrorLoop (list bytes) :=
  proxyWithMirrorWorker (H := literal_regexp) (fun r => r) (Some exclude_filter) true env0 client_addr
    mysql_client_stream (MkConn [] [] []) mysql_primary_stream (MkConn [] [] []).

Lemma mysql_loop_refines_relay_witness :
  exists why s,
    mysql_run = (Ok why, s) /\
    relay_loop (S (src_size mysql_client_stream))
      (MkRelay mysql_client_stream (MkConn [] [] []) mysql_primary_stream (MkConn [] [] []))
    = (Ok why, MkRelay (ml_clientReader s) (ml_client s) (ml_primaryReader s) (ml_primary s)).
Proof.
  exact (mysql_loop_refines_relay (H := literal_regexp) (fun r => r) (Some exclude_filter) true env0 client_addr
           mysql_client_stream (MkConn [] [] []) mysql_primary_stream (MkConn [] [] [])
           (proj1 streams_valid) (proj2 streams_valid)).
Defined.

Lemma mysql_session_transparent_witness :
  exists s, mysql_run = (Ok Quit, s) /\
    c_out (ml_primary s) = concat (concat (map fst mysql_exchanges)) ++ concat quit_command /\
    c_out (ml_client s) = concat (concat (map snd mysql_exchanges)) /\
    src_holds (ml_clientReader s) [] /\ src_holds (ml_primaryReader s) [].
Proof.
  apply (mysql_session_transparent (H := literal_regexp) (fun r => r) (Some exclude_filter) true env0 client_addr
           mysql_exchanges quit_command [] [] mysql_client_stream mysql_primary_stream mysql_exchanges_ok).
  - apply one_packet_command. by vm_compute.
  - vm_compute. reflexivity.
  - split; [vm_compute; reflexivity|exact (proj1 streams_valid)].
  - split; [vm_compute; reflexivity|exact (proj2 streams_valid)].
Defined.

(** The first query was filtered, the other two commands mirrored. *)
Example mysql_run_mirrored :
  map qr_Packet (ml_mirrored mysql_run.2) = ok_query ++ ping_command /\
  entry_ids shadow (ml_log mysql_run.2) = [B "0"] /\
  entry_ids primary_target (ml_log mysql_run.2) = [B "0"; B "1"; B "2"; B "3"].
Proof. vm_compute. done. Qed.

Lemma mysql_shadow_given_primary_commands_witness :
  exists cmds last last_id,
    c_out (ml_primary mysql_run.2) = [] ++ concat (map h_packet cmds) ++ last /\
    map (fun req => (qr_ID req, qr_Packet req)) (ml_mirrored mysql_run.2)
    = map (fun h => (h_id h, h_packet h)) (List.filter h_mirrored cmds) /\
    Forall (fun h => h_mirrored h = false ->
      Some exclude_filter <> None /\ getMySQLCommand (h_packet h) = Some (byte_of_Z comQuery)) cmds /\
    (true = true ->
     entry_ids primary_target (ml_log mysql_run.2) = map h_id cmds ++ last_id /\
     entry_ids shadow (ml_log mysql_run.2) = map h_id (List.filter (fun h => negb (h_mirrored h)) cmds)) /\
    (considered_all (Some Quit) = true -> last = [] /\ last_id = []).
Proof.
  apply (mysql_shadow_given_primary_commands (H := literal_regexp) (fun r => r) (Some exclude_filter) true env0
           client_addr mysql_client_stream (MkConn [] [] []) mysql_primary_stream (MkConn [] [] []) Quit mysql_run.2).
  vm_compute. reflexivity.
Defined.

(** A server's handshake, a login that asks for CLIENT_DEPRECATE_EOF, a switch to
    another plugin and the reply. *)
Definition server_handshake : bytes := hs_packet example_handshake 73.
Definition switch_request : bytes := mk_packet Byte.x02 (Byte.xfe :: B "mysql_native_password").
Definition switch_reply : bytes := mk_packet Byte.x03 (B "token").
Definition login_ok : bytes := mk_packet Byte.x04 (ok_payload 0 0 2 0 []).
(** CLIENT_PROTOCOL_41 and CLIENT_DEPRECATE_EOF. *)
Definition login_41 : bytes := mk_packet Byte.x01 ([Byte.x00; Byte.x02; Byte.x00; Byte.x01] ++ B "user").
Definition ssl_request : bytes := mk_packet Byte.x01 (login_head 0x01000A00).
Definition ssl_handshake : bytes :=
  default [] (match modifyHandshakeForSSL server_handshake with Ok p => Some p | _ => None end).

Lemma deliver (l : list bytes) w : concat l = w -> delivers (MkConn (segments l) [] []) w.
Proof. intros <-. split; [apply clean_segments|]. split; [apply data_segments|done]. Qed.

Lemma example_switch_ok : switch_ok (Some (switch_request, switch_reply)) login_ok.
Proof. repeat split; vm_compute; reflexivity. Qed.

Lemma mysql_handshake_relayed_witness :
  exists c' q' login',
    forwardMySQLHandshake (MkConn (segments [login_41; switch_reply]) [] [],
                           MkConn (segments [server_handshake; switch_request ++ login_ok]) [] [])
    = (Ok tt, (c', q')) /\
    delivers c' [] /\ delivers q' [] /\
    c_out c' = [] ++ server_handshake ++ switch_request ++ login_ok /\
    c_out q' = [] ++ login' ++ switch_reply /\ stripped login_41 login'.
Proof.
  apply (mysql_handshake_relayed server_handshake login_41 (Some (switch_request, switch_reply)) login_ok
           (MkConn (segments [login_41; switch_reply]) [] []) []
           (MkConn (segments [server_handshake; switch_request ++ login_ok]) [] []) []).
  - vm_compute. reflexivity.
  - vm_compute. reflexivity.
  - vm_decide.
  - exact example_switch_ok.
  - apply deliver. vm_compute. reflexivity.
  - apply deliver. vm_compute. reflexivity.
Defined.

Lemma plain_login_not_stripped_witness :
  exists c' q',
    handleMySQLSSLUpgrade inl (MkConn (segments [login_41; switch_reply]) [] [],
                               MkConn (segments [server_handshake; switch_request ++ login_ok]) [] [])
    = (Ok tt, (c', q'), []) /\
    c_out c' = [] ++ ssl_handshake ++ switch_request ++ login_ok /\
    c_out q' = [] ++ login_41 ++ switch_reply.
Proof.
  apply (plain_login_not_stripped inl server_handshake ssl_handshake login_41 (Some (switch_request, switch_reply))
           login_ok (MkConn (segments [login_41; switch_reply]) [] []) []
           (MkConn (segments [server_handshake; switch_request ++ login_ok]) [] []) []).
  - vm_compute. reflexivity.
  - vm_compute. reflexivity.
  - vm_compute. reflexivity.
  - vm_compute. reflexivity.
  - exact example_switch_ok.
  - apply deliver. vm_compute. reflexivity.
  - apply deliver. vm_compute. reflexivity.
Defined.

(** TLS as a connection whose peer sends the login and then the reply to the switch
    request that was forwarded in place of the result. *)
Definition tls_example : Conn := MkConn (segments [login_41; switch_reply]) [] [].

Lemma ssl_login_relayed_witness :
  exists tlsConn' q' login',
    handleMySQLSSLUpgrade (fun _ => inl tls_example)
      (MkConn (segments [ssl_request]) [] [], MkConn (segments [server_handshake; switch_request]) [] [])
    = (Ok tt, (tlsConn', q'), [Inc "tlsUpgrades" []]) /\
    c_out q' = [] ++ <[3 := Byte.x01]> login' /\ stripped login_41 login' /\
    c_out tlsConn' = [] ++ <[3 := Byte.x03]> switch_request /\
    delivers tlsConn' switch_reply /\ delivers q' [].
Proof.
  apply (ssl_login_relayed (fun _ => inl tls_example) server_handshake ssl_handshake ssl_request login_41
           switch_request (MkConn (segments [ssl_request]) [] [])
           (MkConn (segments [server_handshake; switch_request]) [] []) [] tls_example switch_reply).
  - vm_compute. reflexivity.
  - vm_compute. reflexivity.
  - vm_compute. reflexivity.
  - vm_compute. reflexivity.
  - vm_compute. reflexivity.
  - vm_decide.
  - vm_compute. reflexivity.
  - apply clean_segments.
  - vm_compute. reflexivity.
  - reflexivity.
  - apply deliver. vm_compute. reflexivity.
  - reflexivity.
  - apply deliver. vm_compute. reflexivity.
Defined.

Lemma shadow_login_witness :
  exists c' token res metrics,
    authenticateWithShadow None (B "shadow") (B "pw") (MkConn (segments [server_handshake; login_ok]) [] [])
    = (res, c', metrics) /\ delivers c' [] /\
    c_out c' = [] ++ mk_packet Byte.x01 (login_head 0x8200 ++ B "shadow" ++ [Byte.x00] ++ token) /\
    (if bool_decide (B "pw" = []) then token = [Byte.x00]
     else exists tok, token = byte_of_Z 20 :: tok /\ length tok = 20 /\
            server_accepts (SHA1.sum (SHA1.sum (B "pw"))) (B "abcdefghijklmnopqrst") tok) /\
    (res = Ok tt <-> has_type Byte.xff login_ok = false /\ has_type Byte.xfe login_ok = false) /\
    (res <> Ok tt -> metrics = [Inc "authFailures" [shadow]]).
Proof.
  refine (shadow_login (B "shadow") (B "pw") example_handshake 73 (B "ijklmnopqrst")
           ([Byte.x00] ++ B "mysql_native_password" ++ [Byte.x00]) login_ok
           (MkConn (segments [server_handshake; login_ok]) [] []) [] example_handshake_ok eq_refl eq_refl eq_refl
           _ _ _ _).
  - vm_decide.
  - vm_compute. reflexivity.
  - vm_compute. reflexivity.
  - apply deliver. vm_compute. reflexivity.
Defined.

(** The shadow, which accepts the login, before and after it. *)
Definition shadow_server : Conn := MkConn (segments [server_handshake; login_ok]) [] [].
Definition shadow_session : Conn :=
  match (Initialize None (B "shadow") (B "pw") (inl shadow_server)).1 with Ok c => c | _ => shadow_server end.

Definition shadow_env (key : bytes) : bytes :=
  if bool_decide (key = B "SHADOW_USER") then B "shadow"
  else if bool_decide (key = B "SHADOW_PASSWORD") then B "pw" else [].
Definition shadow_config : Config := loadConfig shadow_env (fun r => r) (fun _ => None).

Lemma mysql_connection_transparent_witness :
  exists s login' metrics,
    handleConnection (H := literal_regexp) (fun r => r) (Some exclude_filter) true None None shadow_config
      env0 client_addr
      (MkConn (segments [login_41; switch_reply ++ concat mysql_client_stream]) [] [])
      (inl (MkConn (segments [server_handshake; switch_request ++ login_ok ++ concat mysql_primary_stream]) [] []))
      (inl shadow_server)
    = (Ok (Mirrored Quit s shadow_session), (ml_client s, ml_primary s), metrics) /\
    stripped login_41 login' /\
    c_out (ml_primary s) = login' ++ switch_reply ++ concat mysql_client_stream /\
    c_out (ml_client s) = data (segments [server_handshake; switch_request ++ login_ok ++ concat mysql_primary_stream]).
Proof.
  apply (mysql_connection_transparent (H := literal_regexp) (fun r => r) (Some exclude_filter) true None shadow_config
           env0 client_addr
           server_handshake login_41 (Some (switch_request, switch_reply)) login_ok mysql_exchanges quit_command
           (segments [login_41; switch_reply ++ concat mysql_client_stream])
           (segments [server_handshake; switch_request ++ login_ok ++ concat mysql_primary_stream])
           (inl shadow_server) shadow_session).
  - vm_compute. intros [=].
  - vm_compute. reflexivity.
  - vm_compute. reflexivity.
  - vm_compute. reflexivity.
  - vm_decide.
  - exact example_switch_ok.
  - vm_compute. reflexivity.
  - exact mysql_exchanges_ok.
  - apply one_packet_command. by vm_compute.
  - vm_compute. reflexivity.
  - exact (proj1 streams_valid).
  - exact (proj2 streams_valid).
  - apply clean_segments.
  - vm_compute. reflexivity.
  - apply clean_segments.
  - vm_compute. reflexivity.
Defined.
