(* ===== verification/MySQLSession.v ===== *)
(** * MySQL connections over TLS (src/proxy.go)

    File Proxy follows a connection without TLS from its first byte to its last, and
    the TLS handshake by itself. Here the two are composed: the SSL upgrade, the
    login over the encrypted connection, and the request loop on it. The TLS library
    is an argument, as in Proxy. *)

From S2P Require Import Prelude GoNet GoFloat Config Metrics MySQLProtocol MySQLResponse MySQLAuth QueryLogger QueryFilter Proxy.

(** C13: A MySQL connection whose client takes up TLS is transparent from its login to
    its last byte. The client is sent the primary's handshake with the SSL capability
    added, asks for TLS, and from then on everything goes over the encrypted
    connection: the primary receives the login - with number 1 and the two
    capabilities cleared - and exactly the client's commands; the client receives the
    primary's answer to the login - with number 3 - and exactly its responses. This
    holds for any filter, sampling and logger, and however TLS and TCP cut the
    streams. *)
Theorem mysql_tls_connection_transparent `{RegexpLib Regexp} upper_table queryFilter has_logger tls tls_client config env
    clientAddr handshake handshake' request login final exs quit raw ccl pcl shadow_dial shadowConn :
  (0 <= ShadowQueueSize config)%Z ->
  (Initialize tls_client (ShadowUser config) (ShadowPassword config) shadow_dial).1 = Ok shadowConn ->
  valid_packet handshake -> modifyHandshakeForSSL handshake = Ok handshake' ->
  valid_packet request -> isSSLRequest request = Ok true ->
  valid_packet login -> 8 <= length login -> valid_packet final ->
  Forall (fun ex => mysql_exchange ex.1 ex.2) exs ->
  one_command quit -> getMySQLCommand (concat quit) = Some (byte_of_Z comQuit) ->
  Forall valid_packet (concat (map fst exs) ++ quit) -> Forall valid_packet (concat (map snd exs)) ->
  clean raw -> data raw = request ->
  (forall c, c_out c = handshake' -> data (c_in c) = [] -> tls c = inl (MkConn ccl [] [])) ->
  clean ccl -> data ccl = login ++ concat (concat (map fst exs) ++ quit) ->
  clean pcl -> data pcl = handshake ++ final ++ concat (concat (map snd exs)) ->
  exists s login' metrics,
    handleConnection upper_table queryFilter has_logger (Some tls) tls_client config env clientAddr
      (MkConn raw [] []) (inl (MkConn pcl [] [])) shadow_dial
    = (Ok (Mirrored Quit s shadowConn), (ml_client s, ml_primary s), metrics) /\
    stripped login login' /\
    c_out (ml_primary s) = <[3 := Byte.x01]> login' ++ concat (concat (map fst exs) ++ quit) /\
    c_out (ml_client s) = <[3 := Byte.x03]> final ++ concat (concat (map snd exs)).
Proof.
  intros Hqs Hinit Hh Hm Hr Hssl Hl H8 Hf Hex H1 Hq Hvc Hvp Hraw Hrd Htls Hcc Hcd Hpc Hpd.
  destruct (ssl_login_relays tls handshake handshake' request login final (MkConn raw [] []) (MkConn pcl [] [])
    (concat (concat (map snd exs))) (MkConn ccl [] []) (concat (concat (map fst exs) ++ quit)))
    as (c & q & login' & E & Oq & Hst & Oc & Hc & Hp); try done.
  destruct (handleConnection_established upper_table queryFilter has_logger (Some tls) tls_client config env clientAddr exs
    quit (MkConn raw [] []) (MkConn pcl [] []) shadow_dial shadowConn c q _ Hqs Hinit Hex H1 Hq Hvc Hvp E Hc Hp)
    as (s & metrics & Eh & Op & Oc').
  exists s, login', metrics. split; [exact Eh|]. split; [exact Hst|]. by rewrite Op, Oc', Oq, Oc.
Qed.

(** ** LOAD DATA LOCAL INFILE *)

Lemma forward_response_silent cmd c :
  forward_response cmd ([] : list bytes, c) = (Ok (0%Z, Some ErrEOF), ([], c)).
Proof. unfold forward_response. by destruct (isSimpleResponseCommand cmd). Qed.

(** C39: LOAD DATA LOCAL INFILE does not get through. After the primary's request for the
    file the loop is back to commands: the first packet of the file's contents is
    forwarded as one, and the loop then waits for the primary to answer it, which the
    primary does only after the rest; the rest of the file stays unread. When the
    file starts with the byte 1, the packet is taken for COM_QUIT and the session
    ends. (The primary's stream ends where it would stay silent.) *)
Theorem local_infile_stalls `{RegexpLib Regexp} upper_table queryFilter has_logger env clientAddr
    cmd seq name chunk b rest client primary :
  mysql_exchange cmd [mk_packet seq (Byte.xfb :: name)] ->
  Forall valid_packet (cmd ++ chunk :: rest) -> valid_packet (mk_packet seq (Byte.xfb :: name)) ->
  (packet_length chunk < 0xFFFFFF)%Z -> getMySQLCommand chunk = Some b ->
  isNoResponseCommand b = false \/ u8 b = comQuit -> c_wr client = [] -> c_wr primary = [] ->
  exists why s,
    proxyWithMirrorWorker upper_table queryFilter has_logger env clientAddr (cmd ++ chunk :: rest) client
      [mk_packet seq (Byte.xfb :: name)] primary = (Ok why, s) /\
    why = (if (u8 b =? comQuit)%Z then Quit else PrimaryResponseFailed ErrEOF) /\
    c_out (ml_primary s) = c_out primary ++ concat cmd ++ chunk /\ ml_clientReader s = rest.
Proof.
  intros Hex Hv Hans Hlen Hb Hno Hwc Hwp. unfold proxyWithMirrorWorker. set (fuel := S _). set (s0 := MkLoop _ _ _ _ [] [] []).
  destruct (mirror_loop_relay upper_table queryFilter has_logger env clientAddr fuel 0 s0) as [E1 E2].
  change (visible s0) with (MkRelay (cmd ++ chunk :: rest) client [mk_packet seq (Byte.xfb :: name)] primary) in *.
  destruct (relay_round_exchange cmd [mk_packet seq (Byte.xfb :: name)] (cmd ++ chunk :: rest) client (chunk :: rest)
    [mk_packet seq (Byte.xfb :: name)] primary [] Hex) as (cr & pr & Er & [-> Hv'] & [-> _]); [done|by split; [|constructor]|done..|].
  assert (Hf : exists n, fuel = S (S n)).
  { subst fuel. cbn [src_size list_source]. apply Forall_app in Hv as [_ Hv]. apply Forall_cons_iff in Hv as [Hc _].
    apply valid_packet_length in Hc. exists (length (concat (cmd ++ chunk :: rest)) - 1).
    rewrite concat_app, length_app. cbn [concat]. rewrite length_app. lia. }
  destruct Hf as [n ->]. cbn [relay_loop] in *. rewrite Er in *. cbn [and_then] in *.
  destruct (ReadMultiPacket_ok (chunk :: rest) [chunk] rest) as (cr & Em & [-> _]); [by exists [], chunk|done|].
  unfold relay_round in *. cbn [rl_clientReader rl_client rl_primaryReader rl_primary] in *. rewrite Em in *.
  unfold conn_write in *. cbn [c_wr c_in c_out concat] in *. rewrite !app_nil_r, Hb in *. cbn [default from_option id] in *.
  rewrite forward_response_silent in *.
  destruct (mirror_loop _ _ _ _ _ _ _ _) as [res s]. cbn [fst snd] in *. unfold visible in E2.
  destruct Hno as [Hno|Hno].
  - assert ((u8 b =? comQuit)%Z = false) as ->.
    { apply Z.eqb_neq. intros Hq. unfold isNoResponseCommand in Hno. by rewrite Hq in Hno. }
    rewrite Hno in *. cbn [and_then fst snd] in *. injection E2 as E3 _ _ E4. do 2 eexists. split; [by rewrite E1|].
    rewrite E3, E4. cbn [c_out]. by rewrite <- app_assoc.
  - assert (isNoResponseCommand b = true) as Hn by (unfold isNoResponseCommand; by rewrite Hno).
    rewrite Hn, Hno in *. cbn [and_then fst snd] in *. injection E2 as E3 _ _ E4. do 2 eexists. split; [by rewrite E1|].
    rewrite E3, E4. cbn [c_out]. by rewrite <- app_assoc.
Qed.

(** The session of file Proxy, over TLS. *)
Definition tls_plain : list read_ev := segments [login_41; concat mysql_client_stream].
Definition tls_primary : list read_ev := segments [server_handshake; login_ok ++ concat mysql_primary_stream].
Definition tls_library (c : Conn) : Conn + error :=
  if bool_decide (c_out c = ssl_handshake) then inl (MkConn tls_plain [] []) else inr (ErrMsg "unexpected message").

Lemma mysql_tls_connection_transparent_witness :
  exists s login' metrics,
    handleConnection (H := literal_regexp) (fun r => r) (Some exclude_filter) true (Some tls_library) None shadow_config
      env0 client_addr (MkConn (segments [ssl_request]) [] []) (inl (MkConn tls_primary [] [])) (inl shadow_server)
    = (Ok (Mirrored Quit s shadow_session), (ml_client s, ml_primary s), metrics) /\
    stripped login_41 login' /\
    c_out (ml_primary s) = <[3 := Byte.x01]> login' ++ concat mysql_client_stream /\
    c_out (ml_client s) = <[3 := Byte.x03]> login_ok ++ concat mysql_primary_stream.
Proof.
  apply (mysql_tls_connection_transparent (H := literal_regexp) (fun r => r) (Some exclude_filter) true tls_library None
           shadow_config env0 client_addr server_handshake ssl_handshake ssl_request login_41 login_ok mysql_exchanges
           quit_command (segments [ssl_request]) tls_plain tls_primary (inl shadow_server) shadow_session).
  - vm_compute. intros [=].
  - vm_compute. reflexivity.
  - vm_compute. reflexivity.
  - vm_compute. reflexivity.
  - vm_compute. reflexivity.
  - vm_compute. reflexivity.
  - vm_compute. reflexivity.
  - vm_decide.
  - vm_compute. reflexivity.
  - exact mysql_exchanges_ok.
  - apply one_packet_command. by vm_compute.
  - vm_compute. reflexivity.
  - exact (proj1 streams_valid).
  - exact (proj2 streams_valid).
  - apply clean_segments.
  - vm_compute. reflexivity.
  - intros c Hc _. unfold tls_library. by rewrite bool_decide_true.
  - apply clean_segments.
  - vm_compute. reflexivity.
  - apply clean_segments.
  - vm_compute. reflexivity.
Defined.

Definition load_data : list bytes := [mk_packet Byte.x00 (Byte.x03 :: B "LOAD DATA LOCAL INFILE 'f' INTO TABLE t")].
Definition file_packets : list bytes := [mk_packet Byte.x02 (B "1,2"); mk_packet Byte.x03 []].

(** A file of one packet: the empty packet that ends it is never forwarded. *)
Lemma local_infile_stalls_witness :
  exists why s,
    proxyWithMirrorWorker (H := literal_regexp) (fun r => r) None true env0 client_addr (load_data ++ file_packets)
      (MkConn [] [] []) [mk_packet Byte.x01 (Byte.xfb :: B "f")] (MkConn [] [] []) = (Ok why, s) /\
    why = PrimaryResponseFailed ErrEOF /\
    c_out (ml_primary s) = [] ++ concat load_data ++ mk_packet Byte.x02 (B "1,2") /\
    ml_clientReader s = [mk_packet Byte.x03 []].
Proof.
  apply (local_infile_stalls (H := literal_regexp) (fun r => r) None true env0 client_addr load_data Byte.x01 (B "f")
           (mk_packet Byte.x02 (B "1,2")) Byte.x31 [mk_packet Byte.x03 []] (MkConn [] [] []) (MkConn [] [] [])).
  - split; [apply one_packet_command; by vm_compute|]. split; [by vm_compute|]. apply resp_infile.
  - by repeat constructor.
  - by vm_compute.
  - by vm_compute.
  - by vm_compute.
  - by left; vm_compute.
  - done.
  - done.
Defined.
