(* ===== verification/ProxyMetrics.v ===== *)
(** * The metrics of the MySQL side

    Every update the shadow session, the request loop and the whole connection
    of the MySQL proxy emit keeps to the discipline of file Metrics, and the
    byte counters count the bytes that were sent. *)

From S2P Require Import Prelude GoNet GoFloat MySQLProtocol MySQLResponse Config QueryLogger QueryFilter.
From S2P Require Import Metrics ShadowSession Proxy.

(** ** Names and reasons are label text *)

Lemma command_name_ascii cmd : ascii_label (B (getMySQLCommandName cmd)) = true.
Proof. by destruct cmd; vm_compute. Qed.

Definition reasons : list bytes :=
  [FilterReasonSQLOperation; FilterReasonPattern; FilterReasonSampling; FilterReasonStickyStmt].

Lemma reason_ascii reason : In reason reasons -> ascii_label reason = true.
Proof. intros Hr. repeat destruct Hr as [<- |Hr]; by vm_compute. Qed.

Lemma passesFilter_reason `{RegexpLib Regexp} upper_table f req reason :
  passesFilter upper_table f req = (false, reason) -> In reason reasons.
Proof.
  unfold passesFilter, matchInclude, matchExclude, reasons. repeat case_match; intros; simplify_eq; simpl; tauto.
Qed.

Lemma Allow_reason `{RegexpLib Regexp} upper_table f roll req reason :
  Allow upper_table f roll req = (false, reason) -> In reason reasons.
Proof.
  unfold Allow. destruct (qr_QueryText req); [done|].
  destruct (passesFilter upper_table f req) as [[] r] eqn:E; cbn [negb].
  - case_match; [intros [= <-]; simpl; tauto|done].
  - intros [= <-]. by eapply passesFilter_reason.
Qed.

Lemma used_filtered reason : In reason reasons -> well_used (Inc "shadowFilteredTotal" [reason]) = true.
Proof.
  intros Hr. apply (well_used_Add (MkDecl "shadowFilteredTotal" Counter "shadow_proxy_shadow_filtered_total" ["reason"]));
    [done..| |lia]. cbn [forallb]. by rewrite reason_ascii.
Qed.

Lemma used_command target packet : In target [primary_target; shadow] -> used (command_metrics target packet).
Proof.
  intros Ht. assert (Ha : ascii_label target = true) by (repeat destruct Ht as [<- |Ht]; by vm_compute).
  unfold command_metrics. apply used_cons. split.
  { apply (well_used_Add (MkDecl "mysqlPackets" Counter "shadow_proxy_mysql_packets_total" ["target"])); [done..| |lia].
    cbn [forallb]. by rewrite Ha. }
  destruct (getMySQLCommand packet) as [cmd|]; [|constructor]. apply used_cons. split.
  - apply (well_used_Add (MkDecl "mysqlCommands" Counter "shadow_proxy_mysql_commands_total" ["target"; "command"]));
      [done..| |lia]. cbn [forallb]. by rewrite Ha, command_name_ascii.
  - destruct (isCountableCommand cmd); [|constructor]. apply used_cons. split; [|constructor].
    apply (well_used_Add (MkDecl "queryTotal" Counter "shadow_proxy_queries_total" ["target"])); [done..| |lia].
    cbn [forallb]. by rewrite Ha.
Qed.

Lemma command_no_bytes target packet labels : total "bytesTotal" labels (command_metrics target packet) = 0%Z.
Proof.
  apply total_other. unfold command_metrics. repeat case_match; repeat (constructor; [cbn; intros [=]|]); constructor.
Qed.

(** ** The shadow session *)

Section session.
Context `{PacketSource R}.

(** [ReadFullResponse] and [ReadSimpleResponse] report a size. *)
Lemma shadow_read_nonneg cmd (r : R) n e r' :
  src_inv r ->
  (if isSimpleResponseCommand cmd then ReadSimpleResponse r else ReadFullResponse r) = (Ok (n, e), r') ->
  (0 <= n)%Z.
Proof.
  intros Hr. destruct (isSimpleResponseCommand cmd).
  - unfold ReadSimpleResponse. destruct (ReadPacket r) as [[p|e'| |] r1]; intros [= <- _ _] || done; lia.
  - intros E. destruct (fwd_loop_fine (S (src_size r)) 0%Z (r, MkConn [] [] []) Hr)
      as (t & e' & s' & E' & _ & f & _ & [Ht _] & _); [simpl; lia|].
    destruct (same_loop (S (src_size r)) 0%Z r (MkConn [] [] []) eq_refl) as (E1 & _ & _).
    unfold ReadFullResponse in E. rewrite E, E' in E1. cbn [fst] in E1. by injection E1 as <- _.
Qed.

Lemma processRequest_used t req (s : ShadowSession R) :
  src_inv (ss_reader s) ->
  exists ms, ss_metrics (processRequest true false t req s).2 = ss_metrics s ++ ms /\ used ms.
Proof.
  intros Hr. unfold processRequest.
  assert (Hc : used (command_metrics shadow (qr_Packet req))) by (apply used_command; simpl; tauto).
  destruct (conn_write (qr_Packet req) (ss_conn s)) as [[n [err|]] conn].
  { eexists. split; [by rewrite <- app_assoc|]. apply used_app. split; [done|].
    destruct (is_countable _); used_tac. }
  assert (Hs : well_used (Add "bytesTotal" [shadow; B "sent"] (Z.of_nat n)) = true)
    by (apply used_bytes; simpl; auto; lia).
  destruct (isNoResponseCommand _).
  { eexists. split; [by rewrite <- app_assoc|]. apply used_app. split; [done|]. by used_tac. }
  destruct (if isSimpleResponseCommand _ then _ else _) as [[[m e]|e| |] reader] eqn:E.
  2-4: eexists; (split; [by rewrite <- app_assoc|]); apply used_app; (split; [done|]); by used_tac.
  apply shadow_read_nonneg in E; [|done]. destruct e as [e|].
  - eexists. split; [by rewrite <- !app_assoc|]. apply used_app. split; [done|]. destruct (is_timeout e); by used_tac.
  - eexists. split; [by rewrite <- !app_assoc|]. apply used_app. split; [done|]. used_tac.
    apply used_bytes; simpl; auto.
Qed.
End session.

(** ** The request loop *)

Definition loop_vars : list string :=
  ["mysqlPackets"; "mysqlCommands"; "queryTotal"; "queryErrors"; "bytesTotal"; "shadowFilteredTotal"; "queryDuration"].

Lemma only_command target packet : only loop_vars (command_metrics target packet).
Proof. unfold command_metrics. repeat case_match; only_tac. Qed.

Lemma quiet_command packet : quiet loop_vars (command_metrics primary_target packet).
Proof.
  split; [|intros; apply command_no_bytes]. split; [apply used_command; simpl; tauto|apply only_command].
Qed.

Section loop.
Context `{RegexpLib Regexp} (upper_table : Z -> Z) (queryFilter : option (QueryFilter Regexp)) (has_logger : bool).
Context (env : nat -> round_env) (clientAddr : bytes) `{PacketSource R}.

Abbreviation round := (mirror_round upper_table queryFilter has_logger env clientAddr).
Abbreviation loop := (mirror_loop upper_table queryFilter has_logger env clientAddr).

Lemma forward_response_counts cmd (r : R) c : src_inv r ->
  exists n e r' c' f, forward_response cmd (r, c) = (Ok (n, e), (r', c')) /\ src_inv r' /\
    c_out c' = c_out c ++ f /\ (0 <= n)%Z /\ counts (bool_decide (e = None)) n (Z.of_nat (length f)).
Proof.
  intros Hr. unfold forward_response, counts. destruct (isSimpleResponseCommand cmd).
  - unfold ReadAndForwardSimpleResponse. cbn [fst snd]. destruct (ReadPacket r) as [res r'] eqn:E.
    destruct (src_any _ _ _ Hr E) as (Hi & _ & [(p & -> & _)|[e ->]]).
    2: { eexists 0%Z, _, _, _, []. rewrite app_nil_r. repeat split; try done. }
    destruct (conn_write p c) as [[n [e|]] c'] eqn:Ew; apply conn_write_any in Ew as (d & _ & Ho & _ & Hd & _).
    + eexists 0%Z, _, _, _, d. repeat split; try done; lia.
    + rewrite (Hd eq_refl) in Ho. eexists _, _, _, _, p. repeat split; try done; lia.
  - destruct (fwd_loop_fine (S (src_size r)) 0%Z (r, c) Hr) as (t & e & [r' c'] & E & Hr' & f & Ho & [Ht Hl] & He);
      [simpl; lia|]. exists t, e, r', c', f. rewrite Z.add_0_l in *. repeat split; try done.
    intros Hn. apply bool_decide_eq_true in Hn. auto.
Qed.

(** From [s] to [s'] the loop emitted [ms], wrote [sent] to the primary and [recv]
    to the client; the counters say so, exactly if [sx] and [rx]. *)
Definition accounted (sx rx : bool) (s s' : MirrorLoop R) : Prop :=
  exists ms sent recv,
    ml_metrics s' = ml_metrics s ++ ms /\ used ms /\ only loop_vars ms /\
    c_out (ml_primary s') = c_out (ml_primary s) ++ sent /\
    c_out (ml_client s') = c_out (ml_client s) ++ recv /\
    counts sx (total "bytesTotal" [primary_target; B "sent"] ms) (Z.of_nat (length sent)) /\
    counts rx (total "bytesTotal" [primary_target; B "received"] ms) (Z.of_nat (length recv)).

Definition sent_exactly (ended : option loop_end) : bool :=
  match ended with Some (PrimaryWriteFailed _) => false | _ => true end.
Definition received_exactly (ended : option loop_end) : bool :=
  match ended with Some (PrimaryResponseFailed _) => false | _ => true end.

Lemma accounted_trans rx s1 s2 s3 sx :
  accounted true true s1 s2 -> accounted sx rx s2 s3 -> accounted sx rx s1 s3.
Proof.
  intros (ms & a & b & Em & Hu & Ho & Ea & Eb & Ca & Cb) (ms' & a' & b' & Em' & Hu' & Ho' & Ea' & Eb' & Ca' & Cb').
  exists (ms ++ ms'), (a ++ a'), (b ++ b').
  rewrite Em', Em, Ea', Ea, Eb', Eb, !app_assoc, !total_app, !length_app, !Nat2Z.inj_add.
  split_and!; [done|by apply used_app|by apply only_app|done|done|by eapply counts_add|by eapply counts_add].
Qed.

Lemma accounted_intro s s' q1 sn q2 rn q3 sent recv sx rx :
  quiet loop_vars q1 -> quiet loop_vars q2 -> quiet loop_vars q3 -> (0 <= default 0 sn)%Z -> (0 <= default 0 rn)%Z ->
  ml_metrics s' = ml_metrics s ++ round_events primary_target q1 sn q2 rn q3 ->
  c_out (ml_primary s') = c_out (ml_primary s) ++ sent -> c_out (ml_client s') = c_out (ml_client s) ++ recv ->
  counts sx (default 0%Z sn) (Z.of_nat (length sent)) -> counts rx (default 0%Z rn) (Z.of_nat (length recv)) ->
  accounted sx rx s s'.
Proof.
  intros H1 H2 H3 Hsn Hrn Em Ep Ec Hs Hr. exists (round_events primary_target q1 sn q2 rn q3), sent, recv.
  destruct (round_events_spec loop_vars primary_target q1 sn q2 rn q3) as ([Hu Ho] & -> & ->); try done.
  simpl; tauto.
Qed.

(** The same when the packet was written whole. *)
Lemma accounted_whole s s' q1 packet q2 rn q3 recv sx rx :
  quiet loop_vars q1 -> quiet loop_vars q2 -> quiet loop_vars q3 -> (0 <= default 0 rn)%Z ->
  ml_metrics s' = ml_metrics s ++ round_events primary_target q1 (Some (Z.of_nat (length packet))) q2 rn q3 ->
  c_out (ml_primary s') = c_out (ml_primary s) ++ packet -> c_out (ml_client s') = c_out (ml_client s) ++ recv ->
  counts rx (default 0%Z rn) (Z.of_nat (length recv)) -> accounted sx rx s s'.
Proof.
  intros H1 H2 H3 Hrn Em Ep Ec Hr. eapply accounted_intro; [exact H1|exact H2|exact H3| |exact Hrn|exact Em|exact Ep|exact Ec| |exact Hr].
  - cbn [default from_option id]. lia.
  - split; [apply Z.le_refl|done].
Qed.

(** The filter's event, if any. *)
Lemma mirror_command_emits e cmd req (s : MirrorLoop R) :
  exists ms, ml_metrics (mirror_command upper_table queryFilter has_logger e cmd req s) = ml_metrics s ++ ms /\
    emits ["shadowFilteredTotal"] ms.
Proof.
  unfold mirror_command. destruct (u8 cmd =? comQuit)%Z; [apply emits_nothing|].
  unfold filter_allows. destruct queryFilter as [f|]; [|apply emits_nothing].
  destruct (Allow upper_table f (e_roll e) req) as [[] reason] eqn:E; cbn [negb].
  - apply emits_nothing.
  - eexists. split; [reflexivity|]. apply Allow_reason in E. split; [|only_tac]. used_tac. by apply used_filtered.
Qed.

Lemma mirror_round_accounted i s :
  src_inv (ml_clientReader s) -> src_inv (ml_primaryReader s) ->
  exists ended s', round i s = (Ok ended, s') /\ src_inv (ml_clientReader s') /\ src_inv (ml_primaryReader s') /\
    (ended = None -> src_size (ml_clientReader s') < src_size (ml_clientReader s)) /\
    accounted (sent_exactly ended) (received_exactly ended) s s'.
Proof.
  intros Hc Hp. unfold mirror_round. destruct (ReadMultiPacket (ml_clientReader s)) as [res r'] eqn:E.
  destruct (ReadMultiPacket_any _ _ _ Hc E) as (Hi & _ & [(ps & -> & _ & _ & Hs)|[e ->]]).
  2: { do 2 eexists. split; [reflexivity|]. split_and!; [done|done|done|].
       eapply (accounted_intro _ _ [] None [] None [] [] []); [exact (quiet_nil _)..|done|done| | | |done|done];
         cbn; by rewrite app_nil_r. }
  cbn [ml_client ml_primaryReader ml_primary ml_mirrored ml_metrics ml_log].
  set (packet := concat ps) in *. pose proof (quiet_command packet) as Hq.
  assert (He : quiet loop_vars [Inc "queryErrors" [primary_target]])
    by (apply (quiet_emits ["queryErrors"]); [by emits_tac|done|done]).
  destruct (conn_write packet (ml_primary s)) as [[n werr] p1] eqn:Ew.
  apply conn_write_any in Ew as (d & Hpre & Ho & -> & Hd & _). destruct werr as [werr|].
  { do 2 eexists. split; [reflexivity|]. split_and!; [done|done|done|].
    eapply (accounted_intro _ _ _ None _ None [] d []); [exact Hq|exact He|exact (quiet_nil _)|done|done| |done| | |done].
    - cbn [ml_metrics]; unfold round_events; cbn [bytes_event app]. by rewrite ?app_nil_r, <- ?app_assoc.
    - by rewrite app_nil_r.
    - cbn. split; [lia|done]. }
  specialize (Hd eq_refl). subst d.
  match goal with |- context [mirror_command ?a ?b ?c ?d ?e ?f ?g] =>
    pose proof (mirror_command_visible a b c d e f g) as Hv;
    destruct (mirror_command_emits d e f g) as (fm & Efm & Hfm);
    set (s1 := mirror_command a b c d e f g) in * end.
  unfold visible in Hv. injection Hv as Hv1 Hv2 Hv3 Hv4. cbn in Hv1, Hv2, Hv3, Hv4. cbn [ml_metrics] in Efm.
  assert (Hf : quiet loop_vars fm) by (apply (quiet_emits ["shadowFilteredTotal"]); done).
  destruct (isNoResponseCommand _).
  { do 2 eexists. split; [reflexivity|]. cbn [ml_clientReader ml_primaryReader]. rewrite Hv3.
    split_and!; [done|done|done|].
    eapply (accounted_whole _ _ _ packet _ None [] []); [exact Hq|exact Hf|exact (quiet_nil _)|done| |done| |done].
    - cbn [ml_metrics]; unfold round_events; cbn [bytes_event]. by rewrite Efm, ?app_nil_r, <- ?app_assoc.
    - cbn [ml_client]. by rewrite Hv2, app_nil_r. }
  rewrite Hv3, Hv2.
  destruct (forward_response_counts (default Byte.x00 (getMySQLCommand packet)) (ml_primaryReader s) (ml_client s) Hp)
    as (m & e & r2 & c2 & f & -> & Hr2 & Hof & Hm & Hcm).
  destruct e as [e|]; (do 2 eexists; split; [reflexivity|]; split_and!; [done|done|done|]).
  - eapply (accounted_whole _ _ _ packet fm None _ f); [exact Hq|exact Hf|exact He|done| |done|done|by split; [cbn; lia|]].
    cbn [ml_metrics]; unfold round_events; cbn [bytes_event]. by rewrite Efm, <- !app_assoc.
  - eapply (accounted_whole _ _ _ packet fm (Some m) [Observe "queryDuration" [primary_target] (t_ns (e_timing (env i)))] f);
      [exact Hq|exact Hf| |exact Hm| |done|done|exact Hcm].
    + apply (quiet_emits ["queryDuration"]); [by emits_tac|done|done].
    + cbn [ml_metrics]; unfold round_events; cbn [bytes_event]. by rewrite Efm, <- !app_assoc.
Qed.

Lemma mirror_loop_accounted fuel : forall i s,
  src_inv (ml_clientReader s) -> src_inv (ml_primaryReader s) -> src_size (ml_clientReader s) < fuel ->
  exists why s', loop fuel i s = (Ok why, s') /\
    accounted (sent_exactly (Some why)) (received_exactly (Some why)) s s'.
Proof.
  induction fuel as [|fuel IH]; intros i s Hc Hp Hf; [lia|]. cbn [mirror_loop].
  destruct (mirror_round_accounted i s Hc Hp) as (ended & s1 & -> & Hc1 & Hp1 & Hs & Ha). cbn [and_then].
  destruct ended as [why|]; [by eauto|]. specialize (Hs eq_refl).
  destruct (IH (S i) s1 Hc1 Hp1) as (why & s2 & -> & Ha2); [lia|].
  exists why, s2. split; [done|]. by eapply accounted_trans.
Qed.
End loop.

(** ** A whole connection *)

Definition shake_vars : list string := ["tlsUpgrades"; "tlsFailures"; "authFailures"].

Lemma establish_emits tls_server s res s' ms : establish tls_server s = (res, s', ms) -> emits shake_vars ms.
Proof.
  unfold establish. destruct tls_server as [tls|]; [|intros [= _ <-]; by emits_tac].
  unfold handleMySQLSSLUpgrade, ssl_session. repeat case_match; intros; simplify_eq; by emits_tac.
Qed.

Lemma Initialize_emits tls_client user password dial res ms :
  Initialize tls_client user password dial = (res, ms) -> emits shake_vars ms.
Proof.
  unfold Initialize, authenticateWithShadow, shadow_upgrade, shadow_auth.
  repeat case_match; intros; simplify_eq; by emits_tac.
Qed.

Lemma new_reader_inv (conn : list read_ev) : src_inv (NewMySQLPacketReader conn).
Proof. change (reader_ok (NewMySQLPacketReader conn)). unfold reader_ok. simpl. lia. Qed.

(** How a connection is counted: accepted connections, those with and without
    shadow, and failures to reach the primary and the shadow. *)
Definition connection_counts (res : result conn_end) : Z * Z * Z * Z :=
  match res with
  | Ok (DialFailed _) => (0, 0, 1, 0)
  | Ok (Mirrored _ _ _) => (1, 0, 0, 0)
  | Ok Unmirrored => (0, 1, 0, 1)
  | _ => (0, 0, 0, 0)
  end%Z.

(** Whether the connection is still being served, by the copying without a shadow. *)
Definition still_active (res : result conn_end) : Z := match res with Ok Unmirrored => 1%Z | _ => 0%Z end.

Definition well_counted (res : result conn_end) (ms : list metric) : Prop :=
  used (ms ++ deferred res) /\ total "activeConnections" [] ms = still_active res /\
  total "activeConnections" [] (ms ++ deferred res) = 0%Z /\ total "totalConnections" [] ms = 1%Z /\
  (total "connectionsWithShadow" [] ms, total "connectionsWithoutShadow" [] ms,
   total "connectionFailures" [primary_target] ms, total "connectionFailures" [shadow] ms) = connection_counts res.

(** The events of a connection, [mid] and [mid'] being of other variables. *)
Definition count_events (res : result conn_end) : list metric :=
  match res with
  | Ok (DialFailed _) => [Inc "connectionFailures" [primary_target]]
  | Ok (Mirrored _ _ _) => [Inc "connectionsWithShadow" []]
  | Ok Unmirrored => [Inc "connectionFailures" [shadow]; Inc "connectionsWithoutShadow" []]
  | _ => []
  end.

Lemma well_counted_intro res mid mid' ms :
  emits (shake_vars ++ loop_vars) mid -> emits (shake_vars ++ loop_vars) mid' ->
  ms = [Inc "activeConnections" []; Inc "totalConnections" []] ++ mid ++ count_events res ++ mid' ++
       match res with Ok Unmirrored => [] | _ => [Dec "activeConnections" []] end ->
  well_counted res ms.
Proof.
  intros Hm Hm' ->. pose proof Hm as [Hu _]. pose proof Hm' as [Hu' _]. unfold well_counted.
  rewrite !total_app, !(emits_total _ _ _ _ Hm), !(emits_total _ _ _ _ Hm') by reflexivity.
  destruct res as [[| | | |]| | |]; cbn [connection_counts count_events still_active deferred]; (split; [by used_tac|]); by vm_compute.
Qed.

Section conn.
Context `{RegexpLib Regexp} (upper_table : Z -> Z) (queryFilter : option (QueryFilter Regexp)) (has_logger : bool).
Context (tls_server tls_client : option (Conn -> Conn + error)) (config : Config).
Context (env : nat -> round_env) (clientAddr : bytes).

Lemma handleConnection_counted client dial shadow_dial res conns ms :
  handleConnection upper_table queryFilter has_logger tls_server tls_client config env clientAddr
    client dial shadow_dial = (res, conns, ms) -> well_counted res ms.
Proof.
  unfold handleConnection. destruct dial as [primary|err].
  2: { intros [= <- _ <-]. apply (well_counted_intro _ [] []); [by emits_tac..|done]. }
  destruct (establish tls_server (client, primary)) as [[est [c p]] hm] eqn:Ee.
  apply establish_emits in Ee. apply (emits_wider _ (shake_vars ++ loop_vars)) in Ee; [|apply incl_appl, incl_refl].
  destruct est as [u|err| |].
  2: { destruct tls_server; intros [= <- _ <-]; cycle 1.
       { apply (well_counted_intro _ hm []); [done|by emits_tac|by rewrite <- ?app_assoc]. }
       apply (well_counted_intro _ hm [Inc "tlsFailures" []]); [done|by emits_tac|by rewrite <- ?app_assoc]. }
  2, 3: intros [= <- _ <-]; apply (well_counted_intro _ hm []); [done|by emits_tac|by rewrite <- ?app_assoc].
  destruct (match NewShadowWorker config with Ok _ => _ | _ => _ end) as [initialized sm] eqn:Ei.
  assert (Es : emits (shake_vars ++ loop_vars) sm).
  { destruct (NewShadowWorker config); [|by injection Ei as _ <-; emits_tac..].
    apply Initialize_emits in Ei. apply (emits_wider _ (shake_vars ++ loop_vars)) in Ei; [done|apply incl_appl, incl_refl]. }
  pose proof (emits_app _ _ _ Ee Es) as Ehs.
  destruct initialized as [shadowConn|err| |].
  2-4: intros [= <- _ <-]; apply (well_counted_intro _ (hm ++ sm) []); [done|by emits_tac|by rewrite <- ?app_assoc].
  destruct (mirror_loop_accounted upper_table queryFilter has_logger env clientAddr
    (S (src_size (NewMySQLPacketReader (c_in c)))) 0
    (MkLoop (NewMySQLPacketReader (c_in c)) c (NewMySQLPacketReader (c_in p)) p [] [] []))
    as (why & s & E & lm & sent & recv & Em & Hu & Ho & _); [apply new_reader_inv..|cbn; lia|].
  unfold proxyWithMirrorWorker. rewrite E. intros [= <- _ <-]. cbn [ml_metrics app] in Em. rewrite Em.
  apply (well_counted_intro _ (hm ++ sm) lm); [done| |by rewrite <- ?app_assoc].
  apply (emits_wider loop_vars); [done|apply incl_appr, incl_refl].
Qed.

(** The bytes counted over a connection: those of its request loop, if it has one. *)
Definition bytes_counted (client : Conn) (dial : Conn + error) (res : result conn_end) (conns : Conn * Conn)
    (ms : list metric) : Prop :=
  let sent_total := total "bytesTotal" [primary_target; B "sent"] ms in
  let recv_total := total "bytesTotal" [primary_target; B "received"] ms in
  match res with
  | Ok (Mirrored why _ _) =>
      exists primary c p hm sent recv,
        dial = inl primary /\ establish tls_server (client, primary) = (Ok tt, (c, p), hm) /\
        c_out conns.2 = c_out p ++ sent /\ c_out conns.1 = c_out c ++ recv /\
        counts (sent_exactly (Some why)) sent_total (Z.of_nat (length sent)) /\
        counts (received_exactly (Some why)) recv_total (Z.of_nat (length recv))
  | _ => sent_total = 0%Z /\ recv_total = 0%Z
  end.

Lemma opened_bytes labels ms :
  total "bytesTotal" labels (Inc "activeConnections" [] :: Inc "totalConnections" [] :: ms) = total "bytesTotal" labels ms.
Proof. done. Qed.

Lemma handleConnection_bytes client dial shadow_dial res conns ms :
  handleConnection upper_table queryFilter has_logger tls_server tls_client config env clientAddr
    client dial shadow_dial = (res, conns, ms) -> bytes_counted client dial res conns ms.
Proof.
  unfold handleConnection. destruct dial as [primary|err]; [|by intros [= <- _ <-]].
  destruct (establish tls_server (client, primary)) as [[est [c p]] hm] eqn:Ee.
  pose proof (establish_emits _ _ _ _ _ Ee) as Hh.
  destruct est as [u|err| |].
  2: { destruct tls_server; intros [= <- _ <-]; unfold bytes_counted; cbv zeta iota; by rewrite !opened_bytes, !total_app, !(emits_total _ _ _ _ Hh). }
  2, 3: intros [= <- _ <-]; unfold bytes_counted; cbv zeta iota; by rewrite !opened_bytes, !total_app, !(emits_total _ _ _ _ Hh).
  destruct (match NewShadowWorker config with Ok _ => _ | _ => _ end) as [initialized sm] eqn:Ei.
  assert (Hs : emits shake_vars sm).
  { destruct (NewShadowWorker config); [|by injection Ei as _ <-; emits_tac..]. by eapply Initialize_emits. }
  destruct initialized as [shadowConn|err| |].
  2-4: intros [= <- _ <-]; unfold bytes_counted; cbv zeta iota; by rewrite !opened_bytes, !total_app, !(emits_total _ _ _ _ Hh), !(emits_total _ _ _ _ Hs).
  destruct (mirror_loop_accounted upper_table queryFilter has_logger env clientAddr
    (S (src_size (NewMySQLPacketReader (c_in c)))) 0
    (MkLoop (NewMySQLPacketReader (c_in c)) c (NewMySQLPacketReader (c_in p)) p [] [] []))
    as (why & s & E & lm & sent & recv & Em & _ & _ & Hp & Hc & Cs & Cr); [apply new_reader_inv..|cbn; lia|].
  unfold proxyWithMirrorWorker. rewrite E. intros [= <- <- <-]. cbn [ml_metrics app] in Em. destruct u.
  unfold bytes_counted. cbv zeta iota. exists primary, c, p, hm, sent, recv. cbn [fst snd].
  assert (Et : forall labels, total "bytesTotal" labels
    ((([Inc "activeConnections" []; Inc "totalConnections" []] ++ hm) ++ sm) ++ [Inc "connectionsWithShadow" []] ++ lm ++ [Dec "activeConnections" []])
    = total "bytesTotal" labels lm).
  { intros labels. rewrite !total_app, !(emits_total _ _ _ _ Hh), !(emits_total _ _ _ _ Hs) by done.
    change (total "bytesTotal" labels [Inc "activeConnections" []; Inc "totalConnections" []]) with 0%Z.
    change (total "bytesTotal" labels [Inc "connectionsWithShadow" []]) with 0%Z.
    change (total "bytesTotal" labels [Dec "activeConnections" []]) with 0%Z. lia. }
  cbn [app] in Et. rewrite Em, !Et. by split_and!.
Qed.
End conn.

(** ** Properties *)

(** C29: Every metric update of a MySQL connection is well typed: it goes to a
    declared metric of a kind that has the operation, with as many labels as were
    declared, of valid text, and never takes anything off a counter - so no update
    can panic. The gauge of active connections is back where it was when the handler
    returns: at once in every case but the connection without a shadow, which it counts
    until the copying has returned. The connection is counted once, and as mirrored, as
    unmirrored or as failed exactly when it was; whatever client, primary and shadow do.
    (These are the updates of the handler's goroutine.) *)
Theorem mysql_metrics_well_typed `{RegexpLib Regexp} upper_table queryFilter has_logger tls_server tls_client config
    env clientAddr client dial shadow_dial :
  let '(res, _, ms) := handleConnection upper_table queryFilter has_logger tls_server tls_client config env clientAddr
                         client dial shadow_dial in
  used (ms ++ deferred res) /\ total "activeConnections" [] ms = still_active res /\
  total "activeConnections" [] (ms ++ deferred res) = 0%Z /\ total "totalConnections" [] ms = 1%Z /\
  (total "connectionsWithShadow" [] ms, total "connectionsWithoutShadow" [] ms,
   total "connectionFailures" [primary_target] ms, total "connectionFailures" [shadow] ms) = connection_counts res.
Proof.
  destruct (handleConnection _ _ _ _ _ _ _ _ _ _ _) as [[res conns] ms] eqn:E.
  by apply handleConnection_counted in E.
Qed.

(** C30: What the byte counters of the primary count, over a whole MySQL connection and
    whatever client, primary and shadow do. If the connection is mirrored,
    [bytes_total{primary,sent}] is the number of bytes written to the primary after the
    login, and [bytes_total{primary,received}] the number of bytes forwarded to the client
    after the login; they are exact unless the loop ended with a failed write to the
    primary (sent) or in the middle of a response (received), in which case they are not
    more than that. The login itself is never counted, and a connection that fails
    before the loop or is served without a shadow counts nothing. *)
Theorem mysql_bytes_accounted `{RegexpLib Regexp} upper_table queryFilter has_logger tls_server tls_client config
    env clientAddr client dial shadow_dial :
  let '(res, conns, ms) := handleConnection upper_table queryFilter has_logger tls_server tls_client config env clientAddr
                             client dial shadow_dial in
  let sent_total := total "bytesTotal" [primary_target; B "sent"] ms in
  let recv_total := total "bytesTotal" [primary_target; B "received"] ms in
  match res with
  | Ok (Mirrored why _ _) =>
      exists primary c p hm sent recv,
        dial = inl primary /\ establish tls_server (client, primary) = (Ok tt, (c, p), hm) /\
        c_out conns.2 = c_out p ++ sent /\ c_out conns.1 = c_out c ++ recv /\
        counts (sent_exactly (Some why)) sent_total (Z.of_nat (length sent)) /\
        counts (received_exactly (Some why)) recv_total (Z.of_nat (length recv))
  | _ => sent_total = 0%Z /\ recv_total = 0%Z
  end.
Proof.
  destruct (handleConnection _ _ _ _ _ _ _ _ _ _ _) as [[res conns] ms] eqn:E.
  exact (handleConnection_bytes _ _ _ _ _ _ _ _ _ _ _ _ _ _ E).
Qed.

(** The same run, evaluated: the bytes of the four commands and of the three answers. *)
Example mysql_bytes_counted :
  let ms := ml_metrics (proxyWithMirrorWorker (H := literal_regexp) (fun r => r) (Some exclude_filter) true env0 client_addr
              mysql_client_stream (MkConn [] [] []) mysql_primary_stream (MkConn [] [] [])).2 in
  total "bytesTotal" [primary_target; B "sent"] ms = Z.of_nat (length (concat mysql_client_stream)) /\
  total "bytesTotal" [primary_target; B "received"] ms = Z.of_nat (length (concat mysql_primary_stream)) /\
  total "queryTotal" [primary_target] ms = 2%Z.
Proof. by vm_compute. Qed.
