(* ===== verification/ShadowOutage.v ===== *)
(** * MySQL service without a shadow (src/proxy.go)

    [NewTCPProxy], and what a client sees when its shadow cannot be reached or
    refuses: the login of file Proxy followed by the copying of file Duplex. Whether
    the shadow can be used at all with TLS is decided by the configuration
    [NewTCPProxy] builds and by the rule of the TLS library on it. *)

From S2P Require Import Prelude GoNet GoStrings GoFloat MySQLProtocol MySQLAuth Config TLSConfig.
From stdpp Require Import relations.
From S2P Require Import Metrics Duplex QueryLogger QueryFilter Proxy.

(** ** [NewTCPProxy] *)

(** The fields of [TCPProxy] but the filter, which [main] sets. *)
Record TCPProxy (Cert Pool : Type) := MkProxy {
  p_config : Config;
  p_primaryAddr : bytes;
  p_shadowAddr : bytes;
  p_tlsConfig : option (tls_config Cert Pool);
  p_shadowTLSConfig : option (tls_config Cert Pool);
}.
Arguments MkProxy {_ _} _ _ _ _ _.
Arguments p_config {_ _} _.
Arguments p_primaryAddr {_ _} _.
Arguments p_shadowAddr {_ _} _.
Arguments p_tlsConfig {_ _} _.
Arguments p_shadowTLSConfig {_ _} _.

(** [fmt.Sprintf("%s:%s", host, port)] *)
Definition host_port (host port : bytes) : bytes := host ++ Byte.x3a :: port.

Section tcp_proxy.
Context {Cert Pool : Type} (LoadX509KeyPair : bytes -> bytes -> Cert + error).

Definition NewTCPProxy (config : Config) : result (TCPProxy Cert Pool) :=
  match mysql_listener_tls LoadX509KeyPair config with
  | Ok tlsConfig =>
      Ok (MkProxy config (host_port (PrimaryHost config) (PrimaryPort config))
            (host_port (ShadowHost config) (ShadowPort config)) tlsConfig (mysql_shadow_tls config))
  | Err e => Err e
  | Panic => Panic
  | Stuck => Stuck
  end.

Lemma NewTCPProxy_total config : (exists p, NewTCPProxy config = Ok p) \/ (exists e, NewTCPProxy config = Err e).
Proof. unfold NewTCPProxy, mysql_listener_tls. repeat case_match; simplify_eq; eauto. Qed.

(** [dialShadow], which nothing calls: with TLS when it is configured. *)
Definition dialShadow (p : TCPProxy Cert Pool) (DialTLS : tls_config Cert Pool -> bytes -> Conn + error)
    (Dial : bytes -> Conn + error) : Conn + error :=
  match p_shadowTLSConfig p with
  | Some c => DialTLS c (p_shadowAddr p)
  | None => Dial (p_shadowAddr p)
  end.
End tcp_proxy.

(** ** The whole connection of a proxy *)

(** The TLS library: [tls.Server] and [tls.Client] with their handshakes. The rule it
    documents for clients: a configuration needs a server name or no verification. *)
Class TLSLib (Cert Pool : Type) := {
  tls_Server : tls_config Cert Pool -> Conn -> Conn + error;
  tls_Client : tls_config Cert Pool -> Conn -> Conn + error;
  tls_Client_unusable : forall c conn, ~ usable_client c -> exists err, tls_Client c conn = inr err;
}.

Section serve.
Context `{TLSLib Cert Pool} `{RegexpLib Regexp}.
Context (upper_table : Z -> Z) (queryFilter : option (QueryFilter Regexp)) (has_logger : bool).
Context (env : nat -> round_env) (clientAddr : bytes).

(** [p.handleConnection] for the proxy built. *)
Definition serve (p : TCPProxy Cert Pool) (client : Conn) (dial shadow_dial : Conn + error)
    : result conn_end * (Conn * Conn) * list metric :=
  handleConnection upper_table queryFilter has_logger (tls_Server <$> p_tlsConfig p)
    (tls_Client <$> p_shadowTLSConfig p) (p_config p) env clientAddr client dial shadow_dial.
End serve.

(** With a client configuration the library refuses, no login succeeds. *)
Lemma Initialize_unusable (tls : Conn -> Conn + error) username password dial shadowConn :
  (forall conn, exists err, tls conn = inr err) ->
  (Initialize (Some tls) username password dial).1 <> Ok shadowConn.
Proof.
  intros Htls. unfold Initialize, authenticateWithShadow, shadow_upgrade. destruct dial as [raw|]; [|done].
  destruct (wrap_error _ (read_packet raw)) as [[handshake|e| |] c]; try done.
  destruct (extractScrambleFromHandshake handshake) as [[scramble|]|e| |]; try done.
  destruct (wrap_error _ (write_packet _ c)) as [[u|e| |] c']; try done.
  by destruct (Htls c') as [err ->].
Qed.

(** A connection is mirrored only if its shadow was initialized. *)
Lemma handleConnection_mirrored `{RegexpLib Regexp} upper_table queryFilter has_logger tls_server tls_client config
    env clientAddr client dial shadow_dial why s shadowConn conns metrics :
  handleConnection upper_table queryFilter has_logger tls_server tls_client config env clientAddr client dial shadow_dial
  = (Ok (Mirrored why s shadowConn), conns, metrics) ->
  (Initialize tls_client (ShadowUser config) (ShadowPassword config) shadow_dial).1 = Ok shadowConn.
Proof.
  unfold handleConnection. destruct dial as [primary|]; [|done]. destruct (establish _ _) as [[res [c q]] hm].
  destruct res; [|by destruct tls_server|done..]. destruct (NewShadowWorker config); [|done..].
  destruct (Initialize _ _ _ _) as [init m]. destruct init; [|done..].
  destruct (proxyWithMirrorWorker _ _ _ _ _ _ _ _ _) as [[] s']; try done. by intros [= <- <- <- _ _].
Qed.

(** ** A shadow outage does not reach the client *)

Lemma dx_arrived_data waits client primary x :
  rtc (dx_step waits) (dx_start client primary) x ->
  data (c_in client) `prefix_of` data (d_arrived (to_primary x)) /\
  data (c_in primary) `prefix_of` data (d_arrived (to_client x)).
Proof.
  intros [[m1 ->] [m2 ->]]%dx_arrived. rewrite !data_app. split; by apply prefix_app_r.
Qed.

Lemma handleConnection_unmirrored `{RegexpLib Regexp} upper_table queryFilter has_logger tls_client config env clientAddr
    client primary shadow_dial e c q :
  (0 <= ShadowQueueSize config)%Z ->
  (Initialize tls_client (ShadowUser config) (ShadowPassword config) shadow_dial).1 = Err e ->
  forwardMySQLHandshake (client, primary) = (Ok tt, (c, q)) ->
  exists metrics,
    handleConnection upper_table queryFilter has_logger None tls_client config env clientAddr client (inl primary) shadow_dial
    = (Ok Unmirrored, (c, q), metrics).
Proof.
  intros Hqs Hinit Hf. unfold handleConnection, establish. rewrite Hf. unfold NewShadowWorker.
  rewrite make_chan_ok by done. destruct (Initialize _ _ _ _) as [init sm]. cbn [fst] in Hinit. subst init. eauto.
Qed.

(** C7: A shadow outage does not reach the client. When the shadow cannot be dialled,
    fails its TLS handshake or refuses the login, the connection is served all the
    same: the login handshake is relayed, and from then on, in every interleaving of
    the two copying goroutines and the peers, primary and client have received the
    relayed handshake followed by a prefix of what the other side sent after it - the
    bytes that arrived together with the handshake included - and all of it whenever
    a direction is idle or has reached the end of its source. *)
Theorem mysql_survives_shadow_outage `{RegexpLib Regexp} upper_table queryFilter has_logger tls_client
    config env clientAddr handshake login sw final crest qrest ccl pcl shadow_dial e :
  (0 <= ShadowQueueSize config)%Z ->
  (Initialize tls_client (ShadowUser config) (ShadowPassword config) shadow_dial).1 = Err e ->
  valid_packet handshake -> valid_packet login -> 8 <= length login -> switch_ok sw final ->
  has_type Byte.xff final = false ->
  clean ccl -> data ccl = login ++ sw_reply sw ++ crest ->
  clean pcl -> data pcl = handshake ++ sw_request sw ++ final ++ qrest ->
  exists client primary login' metrics,
    handleConnection upper_table queryFilter has_logger None tls_client config env clientAddr
      (MkConn ccl [] []) (inl (MkConn pcl [] [])) shadow_dial
    = (Ok Unmirrored, (client, primary), metrics) /\
    stripped login login' /\
    c_out primary = login' ++ sw_reply sw /\ c_out client = handshake ++ sw_request sw ++ final /\
    forall x, proxyWithoutShadow client primary x ->
      faithful (to_primary x) /\ crest `prefix_of` data (d_arrived (to_primary x)) /\
      faithful (to_client x) /\ qrest `prefix_of` data (d_arrived (to_client x)).
Proof.
  intros Hqs Hinit Hh Hl H8 Hsw Hff Hcc Hcd Hpc Hpd.
  destruct (forwardMySQLHandshake_relays handshake login sw final (MkConn ccl [] []) crest (MkConn pcl [] []) qrest
    Hh Hl H8 Hsw (conj Hcc (conj Hcd eq_refl)) (conj Hpc (conj Hpd eq_refl)))
    as (c & q & login' & Hf & (Hc1 & Hc2 & _) & (Hq1 & Hq2 & _) & Oc & Op & Hst).
  rewrite Hff in Hf.
  destruct (handleConnection_unmirrored upper_table queryFilter has_logger tls_client config env clientAddr
    _ _ shadow_dial e c q Hqs Hinit Hf) as [metrics Hhc].
  exists c, q, login', metrics. split; [done|]. split; [done|]. split; [done|]. split; [done|].
  intros x Hx. destruct (dx_reachable_inv _ _ _ _ Hc1 Hq1 Hx) as [Hp Hc].
  destruct (dx_arrived_data _ _ _ _ Hx) as [Ap Ac]. rewrite Hc2 in Ap. rewrite Hq2 in Ac.
  auto using dir_inv_faithful.
Qed.

(** The shadow is down; the client's first query arrives with its login. *)
Lemma mysql_survives_shadow_outage_witness :
  exists client primary login' metrics,
    handleConnection (H := literal_regexp) (fun r => r) None true None None shadow_config env0 client_addr
      (MkConn (segments [login_41; switch_reply ++ B "query"]) [] [])
      (inl (MkConn (segments [server_handshake; switch_request ++ login_ok ++ B "more"]) [] []))
      (inr (ErrConn "connection refused"))
    = (Ok Unmirrored, (client, primary), metrics) /\
    stripped login_41 login' /\
    c_out primary = login' ++ switch_reply /\ c_out client = server_handshake ++ switch_request ++ login_ok /\
    forall x, proxyWithoutShadow client primary x ->
      faithful (to_primary x) /\ B "query" `prefix_of` data (d_arrived (to_primary x)) /\
      faithful (to_client x) /\ B "more" `prefix_of` data (d_arrived (to_client x)).
Proof.
  apply (mysql_survives_shadow_outage (H := literal_regexp) (fun r => r) None true None shadow_config env0 client_addr
           server_handshake login_41 (Some (switch_request, switch_reply)) login_ok (B "query") (B "more")
           (segments [login_41; switch_reply ++ B "query"])
           (segments [server_handshake; switch_request ++ login_ok ++ B "more"])
           (inr (ErrConn "connection refused")) (ErrWrap "failed to dial shadow" (ErrConn "connection refused"))).
  - vm_compute. intros [=].
  - reflexivity.
  - vm_compute. reflexivity.
  - vm_compute. reflexivity.
  - vm_decide.
  - exact example_switch_ok.
  - vm_compute. reflexivity.
  - apply clean_segments.
  - vm_compute. reflexivity.
  - apply clean_segments.
  - vm_compute. reflexivity.
Defined.

(** ** TLS to the shadow *)

(** TLS to the MySQL shadow works only without verification. [NewTCPProxy] sets no
    server name, which the TLS library requires of a client that verifies; so with
    SHADOW_TLS_ENABLED and without SHADOW_TLS_INSECURE every handshake with the shadow
    fails, and no connection is ever mirrored, whatever client, primary and shadow do. *)
Theorem mysql_shadow_tls_never_verified `{TLSLib Cert Pool} `{RegexpLib Regexp} LoadX509KeyPair upper_table queryFilter
    has_logger env clientAddr config (p : TCPProxy Cert Pool) client dial shadow_dial :
  ShadowTLSEnabled config = true -> ShadowTLSInsecure config = false ->
  NewTCPProxy LoadX509KeyPair config = Ok p ->
  forall why s shadowConn,
    (serve upper_table queryFilter has_logger env clientAddr p client dial shadow_dial).1.1 <> Ok (Mirrored why s shadowConn).
Proof.
  intros Ht Hi Hp why s shadowConn Hm. unfold NewTCPProxy in Hp.
  destruct (mysql_listener_tls _ config); [|done..]. injection Hp as <-. unfold serve in Hm. cbn in Hm.
  match type of Hm with ?x.1.1 = _ => destruct x as [[res conns] ms] eqn:E end. cbn in Hm. subst res.
  apply handleConnection_mirrored in E. unfold mysql_shadow_tls in E. rewrite Ht in E. cbn [fmap option_fmap option_map] in E.
  revert E. apply Initialize_unusable. intros conn. apply tls_Client_unusable.
  unfold usable_client. cbn. rewrite Hi. by intros [?|?].
Qed.

(** A library that checks its rule and otherwise leaves the connection as it is. *)
#[export] Instance plain_tls : TLSLib unit unit.
Proof.
  refine {| tls_Server := fun _ c => inl c;
            tls_Client := fun cfg c => if InsecureSkipVerify cfg || bool_decide (ServerName cfg <> []) then inl c
                                       else inr (ErrMsg "tls: either ServerName or InsecureSkipVerify must be specified") |}.
  intros c conn Hu. unfold usable_client in Hu. destruct (InsecureSkipVerify c); [tauto|]. case_bool_decide; [tauto|]. eauto.
Defined.

Definition tls_env (insecure : string) (key : bytes) : bytes :=
  if bool_decide (key = B "SHADOW_TLS_ENABLED") then B "true"
  else if bool_decide (key = B "SHADOW_TLS_INSECURE") then B insecure else shadow_env key.
Definition tls_shadow_config (insecure : string) : Config := loadConfig (tls_env insecure) (fun r => r) (fun _ => None).

Definition tls_proxy (insecure : string) : TCPProxy unit unit :=
  let config := tls_shadow_config insecure in
  MkProxy config (host_port (PrimaryHost config) (PrimaryPort config))
    (host_port (ShadowHost config) (ShadowPort config)) None (mysql_shadow_tls config).

Definition served_with (insecure : string) : result conn_end :=
  (serve (H0 := literal_regexp) (fun r => r) None true env0 client_addr (tls_proxy insecure)
      (MkConn (segments [login_41; switch_reply ++ concat quit_command]) [] [])
      (inl (MkConn (segments [server_handshake; switch_request ++ login_ok]) [] []))
      (inl shadow_server)).1.1.

Definition is_mirrored (r : result conn_end) : bool := match r with Ok (Mirrored _ _ _) => true | _ => false end.
Definition is_unmirrored (r : result conn_end) : bool := match r with Ok Unmirrored => true | _ => false end.

(** With verification switched off the same shadow is mirrored to. *)
Lemma mysql_shadow_tls_never_verified_witness :
  is_mirrored (served_with "true") = true /\ is_unmirrored (served_with "false") = true /\
  forall why s shadowConn, served_with "false" <> Ok (Mirrored why s shadowConn).
Proof.
  split; [vm_compute; reflexivity|]. split; [vm_compute; reflexivity|].
  apply (mysql_shadow_tls_never_verified (H0 := literal_regexp) (fun _ _ => inl tt) (fun r => r) None true env0 client_addr
           (tls_shadow_config "false")); vm_compute; reflexivity.
Defined.
