(* ===== verification/PgProxy.v ===== *)
(** * The pgwire proxy (src/pg_proxy.go, src/pg_tls.go)

    The startup and authentication relays, the request and response loop with
    shadow mirroring, and the sticky-statement filter. A connection is a [Conn];
    a TLS upgrade, which is the Go TLS library's, is an argument that gives the
    upgraded connection or an error. [shadow.Send] is recorded as a call: what the
    worker does with it is in file PgShadowWorker, and its result is ignored here. *)

From S2P Require Import Prelude GoNet GoStrings GoFloat MySQLProtocol PgProtocol Config QueryLogger QueryFilter.
From S2P Require Import Metrics PgShadowWorker PgShadowInit.

Definition pgBackendAuthRequest : byte := Byte.x52.
Definition pgBackendErrorResponse : byte := Byte.x45.
Definition pgBackendCopyInResponse : byte := Byte.x47.
Definition pgBackendCopyOutResponse : byte := Byte.x48.
Definition pgBackendCopyBothResponse : byte := Byte.x57.

(** [msg, err := ReadMessage(conn)] and [conn.Write(p)] on a connection in the
    state; a failing write returns early. *)
Definition read_message (c : Conn) : result PgPacket * Conn :=
  let '(res, s) := ReadMessage (c_in c) in (res, MkConn s (c_out c) (c_wr c)).
Definition write_bytes (p : bytes) (c : Conn) : option error * Conn :=
  let '(_, err, c) := conn_write p c in (err, c).

(** ** TLS on either hop (src/pg_tls.go) *)

Section tls.
(** The TLS handshake on a connection: the encrypted connection or an error. *)
Context (tls_server tls_client : Conn -> Conn + error).

Definition upgradeClientTLS (client : Conn) : (Conn + error) * Conn :=
  match write_bytes [Byte.x53] client with
  | (Some err, client) => (inr (ErrWrap "write SSLRequest 'S' ack to client" err), client)
  | (None, client) =>
      match tls_server client with
      | inl tlsConn => (inl tlsConn, client)
      | inr err => (inr (ErrWrap "client TLS handshake" err), client)
      end
  end.

Definition sslReq : bytes := be32_bytes 8 ++ be32_bytes pgMagicSSLRequest.

Definition upgradeBackendTLS (primary : Conn) : result Conn * Conn :=
  match write_bytes sslReq primary with
  | (Some err, primary) => (Err (ErrWrap "send SSLRequest to primary" err), primary)
  | (None, primary) =>
      let '(res, s) := ReadFull 1 (c_in primary) in
      let primary := MkConn s (c_out primary) (c_wr primary) in
      match res with
      | Ok (b :: _) =>
          if negb (bool_decide (b = Byte.x53)) then
            (Err (ErrMsg ("primary refused TLS upgrade (replied 0x" +:+ fmt_02x false b +:+
               "); PRIMARY_TLS_ENABLED is set but the backend will not accept TLS")), primary)
          else
            match tls_client primary with
            | inl tlsConn => (Ok tlsConn, primary)
            | inr err => (Err (ErrWrap "backend TLS handshake" err), primary)
            end
      | Ok [] => (Panic, primary)
      | Err err => (Err (ErrWrap "read SSLRequest response from primary" err), primary)
      | Panic => (Panic, primary)
      | Stuck => (Stuck, primary)
      end
  end.

(** ** Startup *)

(** What [forwardStartup] returns: the client connection in effect and the
    startup message, if any. *)
Definition startup_result : Type := result (option PgPacket) * (Conn * Conn) * list metric.

(** The loop; [listenerTLS] tells whether client TLS is terminated. Every round
    but those of a TLS upgrade takes at least eight bytes off the stream. *)
Fixpoint startup_loop (fuel : nat) (listenerTLS : bool) (client primary : Conn) : startup_result :=
  match fuel with
  | O => (Stuck, (client, primary), [])
  | S fuel =>
      let '(res, s) := ReadStartupMessage (c_in client) in
      let client := MkConn s (c_out client) (c_wr client) in
      match res with
      | Err err => (Err (ErrWrap "read startup from client" err), (client, primary), [])
      | Panic => (Panic, (client, primary), [])
      | Stuck => (Stuck, (client, primary), [])
      | Ok startup =>
          if IsSSLRequest (Some startup) then
            if listenerTLS then
              match upgradeClientTLS client with
              | (inl tlsConn, _) => startup_loop fuel listenerTLS tlsConn primary
              | (inr err, client) => (Err err, (client, primary), [Inc "tlsFailures" []])
              end
            else
              match write_bytes [Byte.x4e] client with
              | (Some err, client) => (Err (ErrWrap "write 'N' SSL reject to client" err), (client, primary), [])
              | (None, client) => startup_loop fuel listenerTLS client primary
              end
          else if IsGSSENCRequest (Some startup) then
            match write_bytes [Byte.x4e] client with
            | (Some err, client) => (Err (ErrWrap "write 'N' GSSENC reject to client" err), (client, primary), [])
            | (None, client) => startup_loop fuel listenerTLS client primary
            end
          else if IsCancelRequest (Some startup) then
            match write_bytes (pg_Payload startup) primary with
            | (Some err, primary) => (Err (ErrWrap "forward cancel to primary" err), (client, primary), [])
            | (None, primary) => (Ok None, (client, primary), [])
            end
          else
            match write_bytes (pg_Payload startup) primary with
            | (Some err, primary) => (Err (ErrWrap "forward startup to primary" err), (client, primary), [])
            | (None, primary) => (Ok (Some startup), (client, primary), [])
            end
      end
  end.
End tls.

(** ** Authentication relay *)

(** The number of messages the primary can still send bounds the rounds. *)
Fixpoint auth_loop (fuel : nat) (client primary : Conn) : result unit * (Conn * Conn) * list metric :=
  match fuel with
  | O => (Stuck, (client, primary), [])
  | S fuel =>
      let '(res, primary) := read_message primary in
      match res with
      | Err err => (Err (ErrWrap "read auth msg from primary" err), (client, primary), [])
      | Panic => (Panic, (client, primary), [])
      | Stuck => (Stuck, (client, primary), [])
      | Ok msg =>
          match write_bytes (Bytes msg) client with
          | (Some err, client) => (Err (ErrWrap "forward auth msg to client" err), (client, primary), [])
          | (None, client) =>
              if bool_decide (pg_Type msg = pgBackendAuthRequest) then
                if bool_decide (length (pg_Payload msg) < 8) then
                  (Err (ErrMsg "malformed AuthenticationRequest"), (client, primary), [])
                else
                  match BigEndian_Uint32 (drop 4 (pg_Payload msg)) with
                  | Ok code =>
                      if (code =? 0)%Z || (code =? 12)%Z then auth_loop fuel client primary
                      else
                        let '(res, client) := read_message client in
                        match res with
                        | Err err =>
                            (Err (ErrWrap ("read password msg from client (auth code "
                                           +:+ fmt_d code +:+ ")") err), (client, primary), [])
                        | Panic => (Panic, (client, primary), [])
                        | Stuck => (Stuck, (client, primary), [])
                        | Ok pwMsg =>
                            match write_bytes (Bytes pwMsg) primary with
                            | (Some err, primary) =>
                                (Err (ErrWrap ("forward password to primary (auth code "
                                               +:+ fmt_d code +:+ ")") err), (client, primary), [])
                            | (None, primary) => auth_loop fuel client primary
                            end
                        end
                  | _ => (Panic, (client, primary), [])
                  end
              else if bool_decide (pg_Type msg = pgBackendReadyForQuery) then (Ok tt, (client, primary), [])
              else if bool_decide (pg_Type msg = pgBackendErrorResponse) then
                (Err (ErrMsg "primary auth error response"), (client, primary), [Inc "authFailures" [B "primary"]])
              else auth_loop fuel client primary
          end
      end
  end.

Definition forwardAuthPhase (client primary : Conn) : result unit * (Conn * Conn) * list metric :=
  auth_loop (S (length (data (c_in primary)))) client primary.

(** ** Responses *)

(** [forwardResponseUntilReady]: bytes forwarded, whether COPY was entered, and
    the error. *)
Fixpoint response_loop (fuel : nat) (total : Z) (primary client : Conn)
    : result (Z * bool * option error) * (Conn * Conn) :=
  match fuel with
  | O => (Stuck, (primary, client))
  | S fuel =>
      let '(res, primary) := read_message primary in
      match res with
      | Err err => (Ok (total, false, Some err), (primary, client))
      | Panic => (Panic, (primary, client))
      | Stuck => (Stuck, (primary, client))
      | Ok msg =>
          let '(n, werr, client) := conn_write (Bytes msg) client in
          let total := (total + Z.of_nat n)%Z in
          match werr with
          | Some err => (Ok (total, false, Some err), (primary, client))
          | None =>
              if bool_decide (pg_Type msg = pgBackendReadyForQuery) then
                (Ok (total, false, None), (primary, client))
              else if bool_decide (pg_Type msg ∈ [pgBackendCopyInResponse; pgBackendCopyOutResponse;
                                                  pgBackendCopyBothResponse]) then
                (Ok (total, true, None), (primary, client))
              else response_loop fuel total primary client
          end
      end
  end.

Definition forwardResponseUntilReady (primary client : Conn)
    : result (Z * bool * option error) * (Conn * Conn) :=
  response_loop (S (length (data (c_in primary)))) 0 primary client.

(** ** The shadow filter *)

Definition pgStickyStmtMapCap : nat := 4096.
#[global] Opaque pgStickyStmtMapCap.

Section loop.
Context `{RegexpLib Regexp} (upper_table : Z -> Z).
(** [p.queryFilter], whether a logger and a shadow worker are present. *)
Context (queryFilter : option (QueryFilter Regexp)) (has_logger has_shadow : bool).

(** The decision, the set of statement names afterwards, and whether it was
    reset. *)
Definition shouldMirrorPgFrame (msg : PgPacket) (req : QueryRequest) (filteredStmtNames : gset bytes)
    : bool * bytes * gset bytes * bool :=
  let p := Some msg in
  let ty := pg_Type msg in
  if bool_decide (ty = pgMsgQuery) then
    let '(allowed, reason) := shouldShadowMirror upper_table req queryFilter in
    (allowed, reason, filteredStmtNames, false)
  else if bool_decide (ty = pgMsgParse) then
    let '(allowed, reason) := shouldShadowMirror upper_table req queryFilter in
    let name := extractPgParseStmtName p in
    if negb allowed && bool_decide (name <> []) then
      if bool_decide (pgStickyStmtMapCap <= size filteredStmtNames)
      then (allowed, reason, {[ name ]}, true)
      else (allowed, reason, {[ name ]} ∪ filteredStmtNames, false)
    else (allowed, reason, filteredStmtNames, false)
  else if bool_decide (ty = pgMsgBind) then
    let name := extractPgBindStmtName p in
    if bool_decide (name <> []) && bool_decide (name ∈ filteredStmtNames)
    then (false, FilterReasonStickyStmt, filteredStmtNames, false)
    else (true, FilterReasonNone, filteredStmtNames, false)
  else if bool_decide (ty = pgMsgDescribe) then
    let '(kind, name) := extractPgDescribeTarget p in
    if bool_decide (kind = Byte.x53) && bool_decide (name <> []) && bool_decide (name ∈ filteredStmtNames)
    then (false, FilterReasonStickyStmt, filteredStmtNames, false)
    else (true, FilterReasonNone, filteredStmtNames, false)
  else if bool_decide (ty = pgMsgClose) then
    let '(kind, name) := extractPgCloseTarget p in
    if bool_decide (kind = Byte.x53) && bool_decide (name <> []) && bool_decide (name ∈ filteredStmtNames)
    then (false, FilterReasonStickyStmt, filteredStmtNames ∖ {[ name ]}, false)
    else (true, FilterReasonNone, filteredStmtNames, false)
  else (true, FilterReasonNone, filteredStmtNames, false).

(** ** The request and response loop *)

(** What the environment supplies to one round: the fresh id, the time, the
    timing of its log entries. *)
Record round_env := MkEnv { e_uuid : bytes; e_now : Z; e_timing : timing }.
Context (env : nat -> round_env) (clientAddr : bytes).

Definition primary_target : bytes := B "primary".

(** Everything the loop changes: both connections, the statement names, the
    frames given to [shadow.Send], metrics and log. *)
Record PgLoop := MkLoop {
  pl_client : Conn;
  pl_primary : Conn;
  pl_filtered : gset bytes;
  pl_mirrored : list pgShadowFrame;
  pl_metrics : list metric;
  pl_log : list QueryLogEntry;
}.

(** Why the loop returned. *)
Inductive loop_end :=
  | ClientReadEnd (e : error)
  | PrimaryWriteFailed (e : error)
  | Terminated
  | PrimaryResponseFailed (e : error)
  | CopyMode.

(** [p.logEntry], [p.logFilteredShadow] *)
Definition logEntry (t : timing) (req : QueryRequest) (sent recv : Z) (err : option error)
    (log : list QueryLogEntry) : list QueryLogEntry :=
  if has_logger then log ++ [execution_entry primary_target t req sent recv err] else log.
Definition logFilteredShadow (t : timing) (req : QueryRequest) (reason : bytes)
    (log : list QueryLogEntry) : list QueryLogEntry :=
  if has_logger then log ++ [filtered_entry t req reason] else log.

(** The request built from a frontend message. *)
Definition pg_request (e : round_env) (msg : PgPacket) : QueryRequest :=
  let queryText := extractPgQueryText (Some msg) in
  let queryHash := match queryText with [] => [] | _ => Digest.fmt_x (Digest.MD5.sum queryText) end in
  MkRequest (e_uuid e) [] queryText queryHash (B (pgFrontendCommandName (pg_Type msg)))
    clientAddr (e_now e).

(** [if shadow != nil && msg.Type != pgMsgTerminate { ... }] *)
Definition mirror_frame (t : timing) (msg : PgPacket) (req : QueryRequest) (s : PgLoop) : PgLoop :=
  if has_shadow && negb (bool_decide (pg_Type msg = pgMsgTerminate)) then
    let '(allowed, filterReason, names, reset) := shouldMirrorPgFrame msg req (pl_filtered s) in
    let metrics := pl_metrics s ++ (if reset then [Inc "pgStickyStmtMapResets" []] else []) in
    if negb allowed then
      MkLoop (pl_client s) (pl_primary s) names (pl_mirrored s)
        (metrics ++ [Inc "shadowFilteredTotal" [filterReason]])
        (logFilteredShadow t req filterReason (pl_log s))
    else
      let frame := MkFrame req (Bytes msg)
        (bool_decide (pg_Type msg = pgMsgQuery) || bool_decide (pg_Type msg = pgMsgSync)) in
      let names :=
        if bool_decide (pg_Type msg = pgMsgClose) then
          let '(kind, name) := extractPgCloseTarget (Some msg) in
          if bool_decide (kind = Byte.x53) && bool_decide (name <> []) then names ∖ {[ name ]} else names
        else names in
      MkLoop (pl_client s) (pl_primary s) names (pl_mirrored s ++ [frame]) metrics (pl_log s)
  else s.

(** One round of [runQueryLoop]: [None] is [continue]. *)
Definition query_round (i : nat) (s : PgLoop) : result (option loop_end) * PgLoop :=
  let e := env i in
  let t := e_timing e in
  let '(res, client) := read_message (pl_client s) in
  let s := MkLoop client (pl_primary s) (pl_filtered s) (pl_mirrored s) (pl_metrics s) (pl_log s) in
  match res with
  | Err err => (Ok (Some (ClientReadEnd err)), s)
  | Panic => (Panic, s)
  | Stuck => (Stuck, s)
  | Ok msg =>
      let ty := pg_Type msg in
      let req := pg_request e msg in
      let metrics := pl_metrics s ++
        [Inc "pgPackets" [primary_target];
         Inc "pgCommands" [primary_target; B (pgFrontendCommandName ty)]] in
      let '(nWritten, werr, primary) := conn_write (Bytes msg) (pl_primary s) in
      let sent := Z.of_nat nWritten in
      match werr with
      | Some werr =>
          (Ok (Some (PrimaryWriteFailed werr)),
           MkLoop client primary (pl_filtered s) (pl_mirrored s)
             (metrics ++ [Inc "queryErrors" [primary_target]])
             (logEntry t req sent 0 (Some werr) (pl_log s)))
      | None =>
          let metrics := metrics ++ Add "bytesTotal" [primary_target; B "sent"] sent
            :: (if isPgCountableQuery ty then [Inc "queryTotal" [primary_target]] else []) in
          let s := mirror_frame t msg req
            (MkLoop client primary (pl_filtered s) (pl_mirrored s) metrics (pl_log s)) in
          if bool_decide (ty = pgMsgTerminate) then
            (Ok (Some Terminated),
             MkLoop client primary (pl_filtered s) (pl_mirrored s) (pl_metrics s)
               (logEntry t req sent 0 None (pl_log s)))
          else if negb (bool_decide (ty = pgMsgQuery)) && negb (bool_decide (ty = pgMsgSync)) then
            (Ok None,
             MkLoop client primary (pl_filtered s) (pl_mirrored s) (pl_metrics s)
               (logEntry t req sent 0 None (pl_log s)))
          else
            match forwardResponseUntilReady primary client with
            | (Ok (bytesRecv, copyMode, rerr), (primary, client)) =>
                match rerr with
                | Some rerr =>
                    (Ok (Some (PrimaryResponseFailed rerr)),
                     MkLoop client primary (pl_filtered s) (pl_mirrored s)
                       (pl_metrics s ++ [Inc "queryErrors" [primary_target]])
                       (logEntry t req sent bytesRecv (Some rerr) (pl_log s)))
                | None =>
                    (Ok (if copyMode : bool then Some CopyMode else None),
                     MkLoop client primary (pl_filtered s) (pl_mirrored s)
                       (pl_metrics s ++ [Add "bytesTotal" [primary_target; B "received"] bytesRecv;
                                         Observe "queryDuration" [primary_target] (t_ns t)])
                       (logEntry t req sent bytesRecv None (pl_log s)))
                end
            | (Err err, (primary, client)) =>
                (Err err, MkLoop client primary (pl_filtered s) (pl_mirrored s) (pl_metrics s) (pl_log s))
            | (Panic, (primary, client)) =>
                (Panic, MkLoop client primary (pl_filtered s) (pl_mirrored s) (pl_metrics s) (pl_log s))
            | (Stuck, (primary, client)) =>
                (Stuck, MkLoop client primary (pl_filtered s) (pl_mirrored s) (pl_metrics s) (pl_log s))
            end
      end
  end.

Fixpoint query_loop (fuel i : nat) (s : PgLoop) : result loop_end * PgLoop :=
  match fuel with
  | O => (Stuck, s)
  | S fuel =>
      let? ended, s := query_round i s in
      match ended with
      | Some why => (Ok why, s)
      | None => query_loop fuel (S i) s
      end
  end.

Definition runQueryLoop (client primary : Conn) : result loop_end * PgLoop :=
  query_loop (S (length (data (c_in client)))) 0 (MkLoop client primary ∅ [] [] []).
End loop.

(** ** The plain relay

    The loop without shadow, metrics and log: what the client and the primary can
    see of the proxy. It is the specification the proxy's loop refines. *)

Definition relay_round (client primary : Conn) : result (option loop_end) * (Conn * Conn) :=
  let '(res, client) := read_message client in
  match res with
  | Err err => (Ok (Some (ClientReadEnd err)), (client, primary))
  | Panic => (Panic, (client, primary))
  | Stuck => (Stuck, (client, primary))
  | Ok msg =>
      match write_bytes (Bytes msg) primary with
      | (Some err, primary) => (Ok (Some (PrimaryWriteFailed err)), (client, primary))
      | (None, primary) =>
          if bool_decide (pg_Type msg = pgMsgTerminate) then (Ok (Some Terminated), (client, primary))
          else if negb (bool_decide (pg_Type msg = pgMsgQuery)) && negb (bool_decide (pg_Type msg = pgMsgSync))
          then (Ok None, (client, primary))
          else
            match forwardResponseUntilReady primary client with
            | (Ok (_, copyMode, rerr), (primary, client)) =>
                (Ok (match rerr with
                     | Some rerr => Some (PrimaryResponseFailed rerr)
                     | None => if copyMode : bool then Some CopyMode else None
                     end), (client, primary))
            | (Err err, (primary, client)) => (Err err, (client, primary))
            | (Panic, (primary, client)) => (Panic, (client, primary))
            | (Stuck, (primary, client)) => (Stuck, (client, primary))
            end
      end
  end.

Fixpoint relay_loop (fuel : nat) (client primary : Conn) : result loop_end * (Conn * Conn) :=
  match fuel with
  | O => (Stuck, (client, primary))
  | S fuel =>
      match relay_round client primary with
      | (Ok (Some why), s) => (Ok why, s)
      | (Ok None, (client, primary)) => relay_loop fuel client primary
      | (Err err, s) => (Err err, s)
      | (Panic, s) => (Panic, s)
      | (Stuck, s) => (Stuck, s)
      end
  end.

(** ** Totality *)

(** What a read leaves on the stream. *)
Definition pending (c : Conn) : nat := length (data (c_in c)).

Lemma read_message_any c res c' : read_message c = (res, c') ->
  c_out c' = c_out c /\ c_wr c' = c_wr c /\
  ((exists p, res = Ok p /\ pg_wf p /\ pending c' < pending c) \/
   (exists e, res = Err e /\ pending c' <= pending c)).
Proof.
  unfold read_message, pending. destruct (ReadMessage (c_in c)) as [r s] eqn:E. intros [= <- <-].
  split; [done|]. split; [done|]. simpl.
  apply ReadMessage_any in E as [(p & -> & Hw & Hl)|(e & -> & Hl)]; [left|right; eauto].
  exists p. split_and!; [done|done|lia].
Qed.

Lemma conn_write_in p c n e c' : conn_write p c = (n, e, c') -> c_in c' = c_in c.
Proof. unfold conn_write. destruct (c_wr c) as [|[[k er]|] w]; by intros [= <- <- <-]. Qed.

Lemma response_loop_total fuel : forall total primary client,
  pending primary < fuel ->
  exists n m e p' c', response_loop fuel total primary client = (Ok (n, m, e), (p', c')) /\
    c_in c' = c_in client.
Proof.
  induction fuel as [|fuel IH]; intros total primary client Hf; [lia|]. cbn [response_loop].
  destruct (read_message primary) as [res p'] eqn:Er.
  apply read_message_any in Er as (_ & _ & [(p & -> & _ & Hp)|(e & -> & Hp)]); [|by eauto 10].
  destruct (conn_write (Bytes p) client) as [[n w] c'] eqn:Ew. apply conn_write_in in Ew.
  destruct w as [w|]; [by eauto 10|]. case_bool_decide; [by eauto 10|]. case_bool_decide; [by eauto 10|].
  destruct (IH (total + Z.of_nat n)%Z p' c') as (n' & m & e & p2 & c2 & E & Hc); [lia|].
  exists n', m, e, p2, c2. split; [done|]. by rewrite Hc.
Qed.

Lemma pg_relay_round_total client primary :
  exists ended c' p', relay_round client primary = (Ok ended, (c', p')) /\
    (ended = None -> pending c' < pending client).
Proof.
  unfold relay_round. destruct (read_message client) as [res c1] eqn:Er.
  apply read_message_any in Er as (_ & _ & [(p & -> & _ & Hp)|(e & -> & Hp)]); [|do 3 eexists; split; [reflexivity|done]].
  destruct (write_bytes (Bytes p) primary) as [[e|] p1]; [do 3 eexists; split; [reflexivity|done]|].
  case_bool_decide; [do 3 eexists; split; [reflexivity|done]|]. destruct (_ && _); [do 3 eexists; split; [reflexivity|done]|].
  destruct (response_loop_total (S (pending p1)) 0%Z p1 c1) as (n & m & e & p' & c' & E & Hc); [lia|].
  unfold forwardResponseUntilReady. unfold pending in *. rewrite E.
  do 3 eexists. split; [reflexivity|]. intros _. by rewrite Hc.
Qed.

Lemma pg_relay_loop_total fuel : forall client primary,
  pending client < fuel -> exists why c' p', relay_loop fuel client primary = (Ok why, (c', p')).
Proof.
  induction fuel as [|fuel IH]; intros client primary Hf; [lia|]. cbn [relay_loop].
  destruct (pg_relay_round_total client primary) as (ended & c' & p' & -> & Hn).
  destruct ended as [why|]; [by eauto|]. apply IH. specialize (Hn eq_refl). lia.
Qed.

(** ** Refinement *)

Section refinement.
Context `{RegexpLib Regexp} (upper_table : Z -> Z).
Context (queryFilter : option (QueryFilter Regexp)) (has_logger has_shadow : bool).
Context (env : nat -> round_env) (clientAddr : bytes).

Abbreviation round := (query_round upper_table queryFilter has_logger has_shadow env clientAddr).
Abbreviation loop := (query_loop upper_table queryFilter has_logger has_shadow env clientAddr).

Lemma mirror_frame_conns t msg req s :
  pl_client (mirror_frame upper_table queryFilter has_logger has_shadow t msg req s) = pl_client s /\
  pl_primary (mirror_frame upper_table queryFilter has_logger has_shadow t msg req s) = pl_primary s.
Proof.
  unfold mirror_frame. destruct (_ && _); [|done].
  destruct (shouldMirrorPgFrame _ _ _ _ _) as [[[allowed reason] names] reset].
  by destruct (negb allowed).
Qed.

Lemma query_round_relay i s :
  (round i s).1 = (relay_round (pl_client s) (pl_primary s)).1 /\
  (pl_client (round i s).2, pl_primary (round i s).2) = (relay_round (pl_client s) (pl_primary s)).2.
Proof.
  unfold query_round, relay_round. destruct (read_message (pl_client s)) as [res c1].
  destruct res as [msg|e| |]; [|done..]. unfold write_bytes.
  destruct (conn_write (Bytes msg) _) as [[n werr] p1].
  destruct werr as [werr|]; [done|].
  set (s1 := mirror_frame _ _ _ _ _ _ _ _).
  case_bool_decide; [done|]. destruct (_ && _); [done|].
  destruct (forwardResponseUntilReady p1 c1) as [[[[m cm] rerr]|e| |] [p2 c2]]; try done.
  by destruct rerr.
Qed.

Lemma query_loop_relay fuel : forall i s,
  (loop fuel i s).1 = (relay_loop fuel (pl_client s) (pl_primary s)).1 /\
  (pl_client (loop fuel i s).2, pl_primary (loop fuel i s).2)
  = (relay_loop fuel (pl_client s) (pl_primary s)).2.
Proof.
  induction fuel as [|fuel IH]; intros i s; [done|]. cbn [query_loop relay_loop].
  destruct (query_round_relay i s) as [E1 E2].
  destruct (round i s) as [res s1], (relay_round (pl_client s) (pl_primary s)) as [res' [c1 p1]].
  cbn [fst snd] in *. subst res'. injection E2 as <- <-.
  destruct res as [[why|]|e| |]; cbn [and_then]; by try apply IH.
Qed.
End refinement.

(** ** Transparency *)

(** A message inside a response: none of the types that end it. *)
Definition response_msg (m : PgPacket) : Prop :=
  pg_wf m /\ pg_Type m <> Byte.x00 /\ pg_Type m <> pgBackendReadyForQuery /\
  (pg_Type m ∉ [pgBackendCopyInResponse; pgBackendCopyOutResponse; pgBackendCopyBothResponse]).

(** A frontend message and the primary's answer to it: messages up to
    ReadyForQuery for Query and Sync, nothing otherwise. *)
Definition pg_exchange (msg : PgPacket) (answer : list PgPacket) : Prop :=
  pg_wf msg /\ pg_Type msg <> Byte.x00 /\ pg_Type msg <> pgMsgTerminate /\
  if bool_decide (pg_Type msg = pgMsgQuery) || bool_decide (pg_Type msg = pgMsgSync)
  then exists body zs, answer = body ++ [pg_frame pgBackendReadyForQuery zs] /\ pg_fits zs /\
                       Forall response_msg body
  else answer = [].

Definition wire (msgs : list PgPacket) : bytes := concat (map Bytes msgs).

Lemma read_message_ok m cl tl out wr rest :
  pg_wf m -> pg_Type m <> Byte.x00 -> clean cl -> data cl = Bytes m ++ rest ->
  exists cl', read_message (MkConn (cl ++ tl) out wr) = (Ok m, MkConn (cl' ++ tl) out wr) /\
    clean cl' /\ data cl' = rest.
Proof.
  intros Hw Ht Hcl Hd. destruct (pg_wf_reads m Hw Ht cl tl rest Hcl Hd) as (cl' & E & ? & ?).
  exists cl'. unfold read_message. cbn [c_in]. by rewrite E.
Qed.

Lemma ready_frame_wf zs : pg_fits zs -> pg_wf (pg_frame pgBackendReadyForQuery zs).
Proof. intros Hz. by exists zs. Qed.

(** The message that ends a response: ReadyForQuery or, with [copy], the start of a
    COPY. *)
Definition ends_response (copy : bool) (m : PgPacket) : Prop :=
  pg_wf m /\ pg_Type m <> Byte.x00 /\
  if copy then pg_Type m ∈ [pgBackendCopyInResponse; pgBackendCopyOutResponse; pgBackendCopyBothResponse]
  else pg_Type m = pgBackendReadyForQuery.

Lemma response_loop_answer body : forall fuel total last copy cl tl rest pout pwr cin cout,
  Forall response_msg body -> ends_response copy last -> clean cl ->
  data cl = wire (body ++ [last]) ++ rest -> length body < fuel ->
  exists cl', response_loop fuel total (MkConn (cl ++ tl) pout pwr) (MkConn cin cout [])
    = (Ok ((total + Z.of_nat (length (wire (body ++ [last]))))%Z, copy, None),
       (MkConn (cl' ++ tl) pout pwr, MkConn cin (cout ++ wire (body ++ [last])) []))
    /\ clean cl' /\ data cl' = rest.
Proof.
  induction body as [|m body IH]; intros fuel total last copy cl tl rest pout pwr cin cout Hb Hz Hcl Hd Hf;
    (destruct fuel as [|fuel]; [lia|]); cbn [response_loop].
  - unfold wire in *. cbn [app map concat] in *. rewrite app_nil_r in *. destruct Hz as (Hw & H0 & Ht).
    destruct (read_message_ok last cl tl pout pwr rest) as (cl' & -> & ? & ?); [done|done|done|by rewrite Hd|].
    unfold conn_write. cbn [c_wr c_in c_out]. exists cl'. destruct copy; [|by rewrite bool_decide_true].
    rewrite bool_decide_false, bool_decide_true; [done|done|]. intros E. rewrite E in Ht.
    rewrite !elem_of_cons in Ht. by destruct Ht as [[=]|[[=]|[[=]|?%elem_of_nil]]].
  - apply Forall_cons_iff in Hb as [(Hw & H0 & Hr & Hc) Hb]. unfold wire in *. cbn [app map concat] in *.
    rewrite <- app_assoc in Hd.
    destruct (read_message_ok m cl tl pout pwr _ Hw H0 Hcl Hd) as (cl' & -> & Hcl' & Hd').
    unfold conn_write. cbn [c_wr c_in c_out]. rewrite !bool_decide_false by done.
    destruct (IH fuel (total + Z.of_nat (length (Bytes m)))%Z last copy cl' tl rest pout pwr cin (cout ++ Bytes m)
                Hb Hz Hcl' Hd') as (cl2 & -> & ? & ?); [simpl in Hf; lia|].
    exists cl2. rewrite <- app_assoc, length_app, Nat2Z.inj_add, Z.add_assoc. done.
Qed.

(** Messages take at least a byte each. *)
Lemma length_wire {A} (f : A -> PgPacket) (l : list A) :
  Forall (fun x => pg_wf (f x)) l -> length l <= length (wire (map f l)).
Proof.
  unfold wire. induction 1 as [|x l Hw _ IH]; [done|]. cbn [map concat length]. rewrite length_app.
  pose proof (length_Bytes_pos _ Hw). lia.
Qed.

Lemma length_response_wire body : Forall response_msg body -> length body <= length (wire body).
Proof.
  intros Hb. rewrite <- (map_id body) at 2. apply length_wire.
  eapply Forall_impl; [|exact Hb]. by intros m (Hw & _).
Qed.

(** A Query or Sync and its response through the relay. *)
Lemma pg_relay_round_response msg body last copy ccl ctl cout crest pcl ptl pout prest :
  pg_wf msg -> pg_Type msg = pgMsgQuery \/ pg_Type msg = pgMsgSync ->
  Forall response_msg body -> ends_response copy last ->
  clean ccl -> data ccl = Bytes msg ++ crest -> clean pcl -> data pcl = wire (body ++ [last]) ++ prest ->
  exists ccl' pcl',
    relay_round (MkConn (ccl ++ ctl) cout []) (MkConn (pcl ++ ptl) pout [])
    = (Ok (if copy then Some CopyMode else None),
       (MkConn (ccl' ++ ctl) (cout ++ wire (body ++ [last])) [], MkConn (pcl' ++ ptl) (pout ++ Bytes msg) [])) /\
    clean ccl' /\ data ccl' = crest /\ clean pcl' /\ data pcl' = prest.
Proof.
  intros Hw Hq Hb Hl Hcc Hcd Hpc Hpd. unfold relay_round.
  destruct (read_message_ok msg ccl ctl cout [] crest Hw) as (ccl' & -> & Hcc' & Hcd'); [by destruct Hq as [-> | ->]|done..|].
  unfold write_bytes, conn_write. cbn [c_wr c_in c_out]. rewrite bool_decide_false by by destruct Hq as [-> | ->].
  rewrite (proj2 (andb_false_iff _ _)) by (destruct Hq; [left|right]; by rewrite bool_decide_true).
  unfold forwardResponseUntilReady. cbn [c_in].
  destruct (response_loop_answer body (S (length (data (pcl ++ ptl)))) 0 last copy pcl ptl prest
              (pout ++ Bytes msg) [] (ccl' ++ ctl) cout Hb Hl Hpc Hpd) as (pcl' & -> & Hpc' & Hpd').
  { unfold data at 1. rewrite map_app, concat_app, length_app. fold (data pcl). rewrite Hpd, length_app.
    unfold wire at 1. rewrite map_app, concat_app, length_app. fold (wire body).
    pose proof (length_response_wire body Hb). lia. }
  exists ccl', pcl'. by split_and!.
Qed.

(** One exchange through the relay. *)
Lemma pg_relay_round_exchange msg answer ccl ctl cout crest pcl ptl pout prest :
  pg_exchange msg answer -> clean ccl -> data ccl = Bytes msg ++ crest ->
  clean pcl -> data pcl = wire answer ++ prest ->
  exists ccl' pcl',
    relay_round (MkConn (ccl ++ ctl) cout []) (MkConn (pcl ++ ptl) pout [])
    = (Ok None, (MkConn (ccl' ++ ctl) (cout ++ wire answer) [],
                 MkConn (pcl' ++ ptl) (pout ++ Bytes msg) [])) /\
    clean ccl' /\ data ccl' = crest /\ clean pcl' /\ data pcl' = prest.
Proof.
  intros (Hw & H0 & Ht & Ha) Hcc Hcd Hpc Hpd.
  destruct (bool_decide (pg_Type msg = pgMsgQuery) || bool_decide (pg_Type msg = pgMsgSync)) eqn:Eq.
  - destruct Ha as (body & zs & -> & Hz & Hb).
    apply (pg_relay_round_response msg body _ false); try done; [|by split; [apply ready_frame_wf|]].
    apply orb_true_iff in Eq as [Eq|Eq]; apply bool_decide_eq_true in Eq; auto.
  - unfold relay_round.
    destruct (read_message_ok msg ccl ctl cout [] crest Hw H0 Hcc Hcd) as (ccl' & -> & Hcc' & Hcd').
    unfold write_bytes, conn_write. cbn [c_wr c_in c_out]. rewrite bool_decide_false by done.
    rewrite <- negb_orb, Eq. subst answer. exists ccl', pcl. unfold wire in *. cbn in *. rewrite app_nil_r. by split_and!.
Qed.

Lemma read_message_eof cl out wr : clean cl -> data cl = [] ->
  read_message (MkConn cl out wr) = (Err ErrEOF, MkConn [] out wr).
Proof.
  intros Hcl Hd. unfold read_message, ReadMessage. cbn [c_in].
  rewrite ReadFull_short by (rewrite ?Hd; simpl; auto with lia). by rewrite Hd.
Qed.

(** Exchanges first, then whatever comes after them. *)
Lemma pg_relay_loop_exchanges exs : forall fuel ccl cout crest pcl ptl pout prest,
  Forall (fun ex => pg_exchange ex.1 ex.2) exs -> clean ccl -> data ccl = wire (map fst exs) ++ crest ->
  clean pcl -> data pcl = wire (concat (map snd exs)) ++ prest ->
  exists ccl' pcl',
    relay_loop (length exs + fuel) (MkConn ccl cout []) (MkConn (pcl ++ ptl) pout [])
    = relay_loop fuel (MkConn ccl' (cout ++ wire (concat (map snd exs))) [])
        (MkConn (pcl' ++ ptl) (pout ++ wire (map fst exs)) []) /\
    clean ccl' /\ data ccl' = crest /\ clean pcl' /\ data pcl' = prest.
Proof.
  induction exs as [|[msg ans] exs IH]; intros fuel ccl cout crest pcl ptl pout prest Hex Hcc Hcd Hpc Hpd.
  - exists ccl, pcl. unfold wire in *. cbn in *. by rewrite !app_nil_r.
  - apply Forall_cons_iff in Hex as [Hex Hexs]. unfold wire in *. cbn [map fst snd concat] in *.
    rewrite map_app, concat_app in *. rewrite <- app_assoc in Hcd, Hpd.
    destruct (pg_relay_round_exchange msg ans ccl [] cout _ pcl ptl pout _ Hex Hcc Hcd Hpc Hpd)
      as (ccl' & pcl' & E & Hcc' & Hcd' & Hpc' & Hpd').
    cbn [length Nat.add relay_loop]. rewrite !app_nil_r in E. rewrite E. unfold wire.
    destruct (IH fuel ccl' (cout ++ concat (map Bytes ans)) crest pcl' ptl (pout ++ Bytes msg) prest
                Hexs Hcc' Hcd' Hpc' Hpd') as (ccl2 & pcl2 & -> & H).
    exists ccl2, pcl2. by rewrite <- !app_assoc.
Qed.

(** ** Sticky statements *)

Section sticky.
Context `{RegexpLib Regexp} (upper_table : Z -> Z) (queryFilter : option (QueryFilter Regexp)).

Abbreviation decide_frame := (shouldMirrorPgFrame upper_table queryFilter).

(** The decision alone, and the names after the loop has handled a frame. *)
Definition decision (msg : PgPacket) (req : QueryRequest) (names : gset bytes) : bool * bytes :=
  (decide_frame msg req names).1.1.
Definition names_after (msg : PgPacket) (req : QueryRequest) (names : gset bytes) : gset bytes :=
  pl_filtered (mirror_frame upper_table queryFilter false true (MkTiming [] 0) msg req
                 (MkLoop (MkConn [] [] []) (MkConn [] [] []) names [] [] [])).
Definition names_after_all (frames : list (PgPacket * QueryRequest)) (names : gset bytes) : gset bytes :=
  foldl (fun names mr => names_after mr.1 mr.2 names) names frames.

(** [Close('S', name)] *)
Definition closes (msg : PgPacket) (name : bytes) : Prop :=
  pg_Type msg = pgMsgClose /\ extractPgCloseTarget (Some msg) = (Byte.x53, name).

(** A Parse that names its statement [name]. *)
Definition parses (msg : PgPacket) (name : bytes) : Prop :=
  pg_Type msg = pgMsgParse /\ extractPgParseStmtName (Some msg) = name.

Lemma cap_pos : 1 <= pgStickyStmtMapCap.
Proof. #[local] Transparent pgStickyStmtMapCap. unfold pgStickyStmtMapCap. lia. Qed.

(** The set a decision leaves: unchanged, grown by one name, reset to one name,
    or without the name a Close was for. *)
Lemma decide_frame_names msg req names :
  let names' := (decide_frame msg req names).1.2 in
  let reset := (decide_frame msg req names).2 in
  names' = names /\ reset = false \/
  (exists n, names' = {[ n ]} ∪ names /\ size names < pgStickyStmtMapCap /\ reset = false /\ parses msg n) \/
  (exists n, names' = {[ n ]} /\ pgStickyStmtMapCap <= size names /\ reset = true /\ parses msg n) \/
  (exists n, names' = names ∖ {[ n ]} /\ reset = false /\ closes msg n).
Proof.
  unfold shouldMirrorPgFrame.
  case_bool_decide; [destruct (shouldShadowMirror _ _ _); by left|].
  case_bool_decide as Hp.
  { destruct (shouldShadowMirror _ _ _) as [allowed reason]. destruct (negb allowed && _); [|by left].
    case_bool_decide; [right; right; left|right; left]; eexists; (split; [reflexivity|]); (split; [lia|done]). }
  case_bool_decide; [destruct (_ && _); by left|].
  case_bool_decide; [destruct (extractPgDescribeTarget _), (_ && _); by left|].
  case_bool_decide as Hc; [|by left].
  destruct (extractPgCloseTarget (Some msg)) as [kind name] eqn:E.
  destruct (_ && _) eqn:Ed; [|by left]. right. right. right. exists name. split; [done|]. split; [done|].
  apply andb_true_iff in Ed as [Ed _]. apply andb_true_iff in Ed as [Ed _].
  apply bool_decide_eq_true in Ed. subst kind. done.
Qed.

Lemma names_after_eq msg req names :
  let names' := (decide_frame msg req names).1.2 in
  names_after msg req names = names' \/ names_after msg req names = names /\ pg_Type msg = pgMsgTerminate \/
  (exists n, names_after msg req names = names' ∖ {[ n ]} /\ closes msg n).
Proof.
  unfold names_after, mirror_frame. cbn [andb].
  case_bool_decide as Ht; cbn [negb]; [by right; left|].
  destruct (decide_frame msg req names) as [[[allowed reason] names'] reset] eqn:E.
  cbn [pl_filtered] in *. rewrite E. cbn [fst snd]. destruct (negb allowed); [by left|]. cbn [pl_filtered].
  case_bool_decide as Hc; [|by left]. destruct (extractPgCloseTarget (Some msg)) as [kind name] eqn:Et.
  destruct (_ && _) eqn:Ed; [|by left]. right. right. exists name. split; [done|]. split; [done|].
  apply andb_true_iff in Ed as [Ed _]. apply bool_decide_eq_true in Ed. by subst.
Qed.

Lemma size_difference_le (X : gset bytes) n : size (X ∖ {[ n ]}) <= size X.
Proof. apply subseteq_size. set_solver. Qed.

Lemma names_after_size msg req names :
  size (names_after msg req names) <= S (size names) /\
  (size names <= pgStickyStmtMapCap -> size (names_after msg req names) <= pgStickyStmtMapCap).
Proof.
  assert (Hd : size (decide_frame msg req names).1.2 <= S (size names) /\
    (size names <= pgStickyStmtMapCap -> size (decide_frame msg req names).1.2 <= pgStickyStmtMapCap)).
  { pose proof cap_pos.
    destruct (decide_frame_names msg req names) as [[-> _]|[(n & -> & Hs & _)|[(n & -> & Hs & _)|(n & -> & _)]]].
    - lia.
    - rewrite size_union_alt, size_singleton.
      pose proof (subseteq_size (names ∖ {[n]}) names ltac:(set_solver)). lia.
    - rewrite size_singleton. lia.
    - pose proof (size_difference_le names n). lia. }
  destruct (names_after_eq msg req names) as [-> |[[-> _]|(n & -> & _)]]; [done|lia|].
  pose proof (size_difference_le (decide_frame msg req names).1.2 n). lia.
Qed.

Lemma names_after_all_size frames : forall names,
  size (names_after_all frames names) <= length frames + size names /\
  (size names <= pgStickyStmtMapCap -> size (names_after_all frames names) <= pgStickyStmtMapCap).
Proof.
  induction frames as [|[msg req] frames IH]; intros names; cbn [names_after_all foldl length]; [simpl; lia|].
  destruct (names_after_size msg req names) as [H1 H2]. fold (names_after_all frames) in *.
  destruct (IH (names_after msg req names)) as [H3 H4]. cbn [fst snd]. unfold names_after_all in *. lia.
Qed.

(** A name stays until it is closed or the set is reset. *)
Lemma names_after_keeps_name msg req names n :
  n ∈ names -> ~ closes msg n -> (decide_frame msg req names).2 = false -> n ∈ names_after msg req names.
Proof.
  intros Hn Hc Hr.
  assert (n ∈ (decide_frame msg req names).1.2) as Hd.
  { destruct (decide_frame_names msg req names) as [[-> _]|[(m & -> & _)|[(m & _ & _ & Hm & _)|(m & -> & _ & Hm)]]].
    - done.
    - set_solver.
    - congruence.
    - apply elem_of_difference. split; [done|]. intros ->%elem_of_singleton. done. }
  destruct (names_after_eq msg req names) as [-> |[[-> _]|(m & -> & Hm)]]; [done|done|].
  apply elem_of_difference. split; [done|]. intros ->%elem_of_singleton. done.
Qed.

Lemma reset_full msg req names :
  (decide_frame msg req names).2 = true -> pgStickyStmtMapCap <= size names /\ pg_Type msg = pgMsgParse.
Proof.
  intros Hr. destruct (decide_frame_names msg req names) as [[_ E]|[(m & _ & _ & E & _)|[(m & _ & Hs & _ & [Hp _])|(m & _ & E & _)]]];
    [congruence|congruence|done|congruence].
Qed.

Lemma names_after_keeps msg req names n :
  n ∈ names -> ~ closes msg n -> size names < pgStickyStmtMapCap -> n ∈ names_after msg req names.
Proof.
  intros Hn Hc Hs. apply names_after_keeps_name; [done|done|].
  destruct ((decide_frame msg req names).2) eqn:E; [|done]. apply reset_full in E. lia.
Qed.

(** A reset forgets every name but that of its Parse. *)
Lemma names_after_forgets msg req names n :
  ~ parses msg n -> (n ∉ names) \/ (decide_frame msg req names).2 = true -> n ∉ names_after msg req names.
Proof.
  intros Hp Hn.
  assert (Hd : n ∉ (decide_frame msg req names).1.2).
  { destruct (decide_frame_names msg req names) as [[E1 E2]|[(m & -> & _ & E2 & Hm)|[(m & -> & _ & _ & Hm)|(m & -> & E2 & _)]]].
    - rewrite E1, E2 in *. by destruct Hn.
    - rewrite E2 in Hn. destruct Hn; [|done]. rewrite elem_of_union, elem_of_singleton. intros [-> |?]; done.
    - rewrite elem_of_singleton. by intros ->.
    - rewrite E2 in Hn. destruct Hn; [|done]. rewrite elem_of_difference. by intros [? _]. }
  destruct (names_after_eq msg req names) as [-> |[[-> Ht]|(m & -> & Hm)]].
  - done.
  - destruct Hn as [Hn|Hr]; [done|]. apply reset_full in Hr as [_ Hr]. by rewrite Ht in Hr.
  - rewrite elem_of_difference. by intros [? _].
Qed.

(** Only a Parse makes the set grow. *)
Lemma names_after_size_other msg req names :
  pg_Type msg <> pgMsgParse -> size (names_after msg req names) <= size names.
Proof.
  intros Ht.
  assert (Hd : size (decide_frame msg req names).1.2 <= size names).
  { destruct (decide_frame_names msg req names) as [[-> _]|[(n & _ & _ & _ & [Hn _])|[(n & _ & _ & _ & [Hn _])|(n & -> & _)]]];
      [done|done|done|apply size_difference_le]. }
  destruct (names_after_eq msg req names) as [-> |[[-> _]|(n & -> & _)]]; [done|done|].
  pose proof (size_difference_le (decide_frame msg req names).1.2 n). lia.
Qed.

(** How often the set is reset. *)
Fixpoint resets (frames : list (PgPacket * QueryRequest)) (names : gset bytes) : nat :=
  match frames with
  | [] => 0
  | (msg, req) :: frames =>
      (if (decide_frame msg req names).2 then 1 else 0) + resets frames (names_after msg req names)
  end.

Lemma names_after_all_keeps frames : forall names n,
  n ∈ names -> Forall (fun mr => ~ closes mr.1 n) frames -> resets frames names = 0 -> n ∈ names_after_all frames names.
Proof.
  induction frames as [|[msg req] frames IH]; intros names n Hn Hc Hr; [done|].
  apply Forall_cons_iff in Hc as [Hc Hcs]. cbn [resets fst] in *. unfold names_after_all. cbn [foldl fst snd].
  destruct (decide_frame msg req names).2 eqn:E; [done|]. apply IH; [by apply names_after_keeps_name|done|done].
Qed.

Lemma names_after_all_forgets frames : forall names n,
  (n ∉ names) \/ resets frames names <> 0 -> Forall (fun mr => ~ parses mr.1 n) frames -> n ∉ names_after_all frames names.
Proof.
  induction frames as [|[msg req] frames IH]; intros names n Hn Hp; [by destruct Hn|].
  apply Forall_cons_iff in Hp as [Hp Hps]. cbn [resets fst] in *. unfold names_after_all. cbn [foldl fst snd].
  apply IH; [|done]. destruct (decide_frame msg req names).2 eqn:E.
  - left. apply names_after_forgets; [done|by right].
  - destruct Hn as [Hn|Hn]; [|by right]. left. apply names_after_forgets; [done|by left].
Qed.

(** The set is reset only when more than its cap of names were added. *)
Definition is_parse (msg : PgPacket) : bool := bool_decide (pg_Type msg = pgMsgParse).

Lemma resets_none frames : forall names,
  length (List.filter (fun mr => is_parse mr.1) frames) + size names <= pgStickyStmtMapCap -> resets frames names = 0.
Proof.
  induction frames as [|[msg req] frames IH]; intros names Hs; [done|]. cbn [resets List.filter fst] in *.
  assert (Hs' : length (List.filter (fun mr => is_parse mr.1) frames) + size (names_after msg req names) <= pgStickyStmtMapCap).
  { unfold is_parse in *. case_bool_decide as Ht; cbn [length] in Hs.
    - destruct (names_after_size msg req names). lia.
    - pose proof (names_after_size_other msg req names Ht). lia. }
  rewrite (IH _ Hs'). destruct (decide_frame msg req names).2 eqn:E; [|done].
  apply reset_full in E as [Hfull Ht]. unfold is_parse in Hs. rewrite bool_decide_true in Hs by done. cbn [length] in Hs. lia.
Qed.

(** A filtered Parse makes its statement sticky. *)
Lemma parse_type name sql rest : pg_Type (parse_frame name sql rest) = pgMsgParse.
Proof. done. Qed.

Lemma names_after_parse name sql rest req names :
  name <> [] -> Byte.x00 ∉ name -> (shouldShadowMirror upper_table req queryFilter).1 = false ->
  name ∈ names_after (parse_frame name sql rest) req names.
Proof.
  intros Hne Hz Hf. unfold names_after, mirror_frame, shouldMirrorPgFrame.
  rewrite extractPgParseStmtName_parse, parse_type by done.
  destruct (shouldShadowMirror upper_table req queryFilter) as [allowed reason]. cbn [fst] in Hf. subst allowed.
  rewrite (bool_decide_true (name <> [])) by done.
  rewrite (bool_decide_true (pgMsgParse = pgMsgParse)), !bool_decide_false by done.
  cbn [andb negb pl_filtered]. case_bool_decide; cbn [negb pl_filtered]; set_solver.
Qed.

(** Frames for a sticky statement are dropped. *)
Lemma sticky_dropped name portal rest req names :
  name <> [] -> Byte.x00 ∉ name -> Byte.x00 ∉ portal -> name ∈ names ->
  decision (bind_frame portal name rest) req names = (false, FilterReasonStickyStmt) /\
  decision (describe_frame Byte.x53 name) req names = (false, FilterReasonStickyStmt) /\
  decision (close_frame Byte.x53 name) req names = (false, FilterReasonStickyStmt) /\
  name ∉ names_after (close_frame Byte.x53 name) req names.
Proof.
  intros Hne Hz Hp Hn. unfold names_after, mirror_frame, decision, shouldMirrorPgFrame.
  unfold extractPgDescribeTarget, extractPgCloseTarget.
  rewrite extractPgBindStmtName_bind by done. unfold describe_frame, close_frame.
  rewrite !extract_target_frame by done.
  cbn [pl_filtered]. rewrite !(bool_decide_true (name <> [])), !(bool_decide_true (name ∈ names)) by done.
  cbn -[difference]. split_and!; [done|done|done|]. set_solver.
Qed.
End sticky.

Section sticky_loop.
Context `{RegexpLib Regexp} (upper_table : Z -> Z) (queryFilter : option (QueryFilter Regexp)).
Context (has_logger : bool).

Abbreviation mirror := (mirror_frame upper_table queryFilter has_logger true).

Lemma mirror_frame_names t msg req s :
  pl_filtered (mirror t msg req s) = names_after upper_table queryFilter msg req (pl_filtered s).
Proof.
  unfold names_after, mirror_frame. cbn [andb pl_filtered]. destruct (negb _); [|done].
  destruct (shouldMirrorPgFrame _ _ _ _ _) as [[[[] reason] names] reset]; done.
Qed.

Lemma mirror_frame_dropped t msg req s reason :
  pg_Type msg <> pgMsgTerminate ->
  decision upper_table queryFilter msg req (pl_filtered s) = (false, reason) ->
  pl_mirrored (mirror t msg req s) = pl_mirrored s /\
  exists resets, pl_metrics (mirror t msg req s)
    = pl_metrics s ++ resets ++ [Inc "shadowFilteredTotal" [reason]].
Proof.
  intros Ht. unfold decision, mirror_frame. rewrite (bool_decide_false (_ = pgMsgTerminate)) by done.
  cbn [andb negb]. destruct (shouldMirrorPgFrame _ _ _ _ _) as [[[a r] names] reset].
  cbn [fst]. intros [= -> ->]. cbn [negb pl_mirrored pl_metrics].
  split; [done|]. eexists. by rewrite <- app_assoc.
Qed.

(** The frames a client sends, in order, through the shadow part of the loop. *)
Definition mirror_all (frames : list (timing * PgPacket * QueryRequest)) (s : PgLoop) : PgLoop :=
  foldl (fun s f => mirror f.1.1 f.1.2 f.2 s) s frames.

Lemma mirror_all_names frames : forall s,
  pl_filtered (mirror_all frames s)
  = names_after_all upper_table queryFilter (map (fun f => (f.1.2, f.2)) frames) (pl_filtered s).
Proof.
  unfold mirror_all, names_after_all.
  induction frames as [|[[t msg] req] frames IH]; intros s; [done|]. cbn [foldl map fst snd].
  by rewrite IH, mirror_frame_names.
Qed.

(** The counter of resets. *)
Definition reset_count (s : PgLoop) : Z := total "pgStickyStmtMapResets" [] (pl_metrics s).

Lemma mirror_frame_resets t msg req s :
  reset_count (mirror t msg req s)
  = (reset_count s + if (shouldMirrorPgFrame upper_table queryFilter msg req (pl_filtered s)).2 then 1 else 0)%Z.
Proof.
  unfold reset_count, mirror_frame. cbn [andb]. case_bool_decide as Ht; cbn [negb].
  { unfold shouldMirrorPgFrame. rewrite Ht, !bool_decide_false by done. cbn [snd]. lia. }
  destruct (shouldMirrorPgFrame _ _ _ _ _) as [[[a r] names] reset]. cbn [snd].
  destruct a, reset; cbn [negb pl_metrics]; rewrite ?total_app; simpl; lia.
Qed.

Lemma mirror_all_resets frames : forall s,
  reset_count (mirror_all frames s)
  = (reset_count s + Z.of_nat (resets upper_table queryFilter (map (fun f => (f.1.2, f.2)) frames) (pl_filtered s)))%Z.
Proof.
  unfold mirror_all.
  induction frames as [|[[t msg] req] frames IH]; intros s; cbn [foldl map fst snd resets]; [lia|].
  rewrite IH, mirror_frame_resets, mirror_frame_names. destruct (_.2); lia.
Qed.
End sticky_loop.

Lemma query_round_names `{RegexpLib Regexp} upper_table queryFilter has_logger has_shadow env clientAddr i s :
  size (pl_filtered s) <= pgStickyStmtMapCap ->
  size (pl_filtered (query_round upper_table queryFilter has_logger has_shadow env clientAddr i s).2)
  <= pgStickyStmtMapCap.
Proof.
  intros Hs. unfold query_round. destruct (read_message (pl_client s)) as [res c1].
  destruct res as [msg|e| |]; [|done..]. destruct (conn_write (Bytes msg) _) as [[n werr] p1].
  destruct werr as [werr|]; [done|]. set (s1 := mirror_frame _ _ _ _ _ _ _ _).
  assert (size (pl_filtered s1) <= pgStickyStmtMapCap) as Hs1.
  { subst s1. destruct has_shadow; [|done]. rewrite mirror_frame_names. by apply names_after_size. }
  case_bool_decide; [done|]. destruct (_ && _); [done|].
  destruct (forwardResponseUntilReady p1 c1) as [[[[m cm] rerr]|e| |] [p2 c2]]; [|done..].
  by destruct rerr.
Qed.

Lemma query_loop_names `{RegexpLib Regexp} upper_table queryFilter has_logger has_shadow env clientAddr fuel :
  forall i s, size (pl_filtered s) <= pgStickyStmtMapCap ->
  size (pl_filtered (query_loop upper_table queryFilter has_logger has_shadow env clientAddr fuel i s).2)
  <= pgStickyStmtMapCap.
Proof.
  induction fuel as [|fuel IH]; intros i s Hs; [done|]. cbn [query_loop].
  pose proof (query_round_names upper_table queryFilter has_logger has_shadow env clientAddr i s Hs) as Hr.
  destruct (query_round _ _ _ _ _ _ _ _) as [[[why|]|e| |] s1]; cbn [and_then snd] in *; auto.
Qed.

(** ** What the shadow is given *)

Lemma response_loop_out fuel : forall total primary client,
  c_out (response_loop fuel total primary client).2.1 = c_out primary.
Proof.
  induction fuel as [|fuel IH]; intros total primary client; [done|]. cbn [response_loop].
  destruct (read_message primary) as [res p'] eqn:Er.
  apply read_message_any in Er as (Ho & _ & [(p & -> & _)|(e & -> & _)]); [|done].
  destruct (conn_write (Bytes p) client) as [[n [w|]] c']; [done|].
  case_bool_decide; [done|]. case_bool_decide; [done|]. by rewrite IH.
Qed.

(** The loop's last message is not mirrored when it is Terminate or its write
    failed. *)
Definition ends_unmirrored (why : loop_end) : bool :=
  match why with PrimaryWriteFailed _ | Terminated => true | _ => false end.

(** A message that was read is not empty: it has its length. *)
Lemma read_message_nonempty c msg c' : read_message c = (Ok msg, c') -> Bytes msg <> [].
Proof.
  unfold read_message, ReadMessage, Bytes. destruct (ReadFull 5 (c_in c)) as [[header|e| |] s1]; [|done..]. cbn [and_then].
  destruct (index header 0); [|done..]. cbn [and_then].
  destruct (BigEndian_Uint32 (drop 1 header)) as [len|e| |] eqn:El; [|done..]. cbn [and_then].
  destruct (_ || _); [done|]. destruct (ReadFull _ s1) as [[body|e| |] s2]; [|done..]. cbn [and_then].
  intros [= <- <-]. cbn [pg_Type pg_Payload]. case_bool_decide; [|done].
  intros [Hd _]%app_eq_nil. by rewrite Hd in El.
Qed.

Section mirrored.
Context `{RegexpLib Regexp} (upper_table : Z -> Z).
Context (queryFilter : option (QueryFilter Regexp)) (has_logger : bool).
Context (env : nat -> round_env) (clientAddr : bytes).

Abbreviation round := (query_round upper_table queryFilter has_logger true env clientAddr).
Abbreviation loop := (query_loop upper_table queryFilter has_logger true env clientAddr).

Lemma shouldMirrorPgFrame_no_filter msg req names :
  queryFilter = None -> names = ∅ ->
  (shouldMirrorPgFrame upper_table queryFilter msg req names).1.1.1 = true /\
  (shouldMirrorPgFrame upper_table queryFilter msg req names).1.2 = ∅.
Proof.
  intros -> ->. unfold shouldMirrorPgFrame, shouldShadowMirror. cbn [negb andb].
  case_bool_decide; [done|]. case_bool_decide; [done|].
  case_bool_decide; [rewrite (bool_decide_false (_ ∈ ∅)), andb_false_r by set_solver; done|].
  case_bool_decide.
  { destruct (extractPgDescribeTarget _). by rewrite (bool_decide_false (_ ∈ ∅)), andb_false_r by set_solver. }
  case_bool_decide; [|done].
  destruct (extractPgCloseTarget _). by rewrite (bool_decide_false (_ ∈ ∅)), andb_false_r by set_solver.
Qed.

(** Without a filter no statement name is remembered. *)
Definition no_names (s : PgLoop) : Prop := queryFilter = None -> pl_filtered s = ∅.

Lemma mirror_frame_gives t msg req s :
  pg_Type msg <> pgMsgTerminate -> no_names s ->
  let s' := mirror_frame upper_table queryFilter has_logger true t msg req s in
  no_names s' /\
  exists given, pl_mirrored s' = pl_mirrored s ++ given /\
    sublist (map pf_payload given) [Bytes msg] /\
    (queryFilter = None -> map pf_payload given = [Bytes msg]).
Proof.
  intros Ht Hn. unfold mirror_frame, no_names. rewrite (bool_decide_false (_ = pgMsgTerminate)) by done.
  cbn [andb negb].
  pose proof (fun Hf => shouldMirrorPgFrame_no_filter msg req (pl_filtered s) Hf (Hn Hf)) as Hs.
  destruct (shouldMirrorPgFrame _ _ _ _ _) as [[[a r] names] reset]. cbn [fst snd] in Hs.
  destruct a; cbn [negb pl_filtered pl_mirrored].
  - split.
    + intros [_ ->]%Hs. case_bool_decide; [|done]. destruct (extractPgCloseTarget _) as [k n].
      destruct (_ && _); [set_solver|done].
    + eexists. split; [reflexivity|]. cbn [map pf_payload]. done.
  - split; [by intros [? _]%Hs|]. exists []. rewrite app_nil_r. split; [done|].
    split; [apply sublist_nil_l|by intros [? _]%Hs].
Qed.

(** What a run does: [sent] are the messages it wrote to the primary before the
    last one, [last] what it wrote of a message it did not give to the shadow. *)
Definition gives (s s' : PgLoop) (sent : list bytes) (last : bytes) : Prop :=
  no_names s' /\ c_out (pl_primary s') = c_out (pl_primary s) ++ concat sent ++ last /\
  Forall (fun m => m <> []) sent /\
  exists given, pl_mirrored s' = pl_mirrored s ++ given /\
    sublist (map pf_payload given) sent /\ (queryFilter = None -> map pf_payload given = sent).

Lemma gives_nothing s s' last :
  no_names s -> pl_filtered s' = pl_filtered s -> pl_mirrored s' = pl_mirrored s ->
  c_out (pl_primary s') = c_out (pl_primary s) ++ last -> gives s s' [] last.
Proof.
  intros Hn Hf Hm Ho. unfold gives, no_names in *. rewrite Hf, Hm. split; [done|]. split; [done|].
  split; [constructor|]. exists []. by rewrite app_nil_r.
Qed.

Lemma gives_trans s1 s2 s3 sent1 sent2 last :
  gives s1 s2 sent1 [] -> gives s2 s3 sent2 last -> gives s1 s3 (sent1 ++ sent2) last.
Proof.
  intros (_ & Ho1 & Hne1 & g1 & Hg1 & Hs1 & He1) (Hn & Ho2 & Hne2 & g2 & Hg2 & Hs2 & He2). split; [done|].
  split; [by rewrite Ho2, Ho1, concat_app, app_nil_r, <- !app_assoc|]. split; [by apply Forall_app|].
  exists (g1 ++ g2). rewrite map_app, Hg2, Hg1, app_assoc. split; [done|]. split; [by apply sublist_app|].
  intros Hf. by rewrite He1, He2.
Qed.

Lemma query_round_gives i s ended s' :
  no_names s -> round i s = (Ok ended, s') ->
  exists sent last, gives s s' sent last /\ (option_map ends_unmirrored ended <> Some true -> last = []).
Proof.
  intros Hn. unfold query_round. destruct (read_message (pl_client s)) as [res c1] eqn:Erd.
  destruct res as [msg|e| |]; [|intros [= <- <-]|done..].
  2: { exists [], []. split; [|done]. apply gives_nothing; [done..|by rewrite app_nil_r]. }
  destruct (conn_write (Bytes msg) _) as [[n werr] p1] eqn:Ew. apply conn_write_any in Ew as (d & _ & Ho & _ & Hd & _).
  destruct werr as [werr|]; [intros [= <- <-]; exists [], d; split; [|done]; by apply gives_nothing|].
  rewrite Hd in Ho by done. cbn [pl_primary pl_filtered pl_mirrored pl_metrics pl_log] in *.
  case_bool_decide as Ht.
  { intros [= <- <-]. exists [], (Bytes msg). split; [|done]. unfold mirror_frame.
    rewrite (bool_decide_true (_ = pgMsgTerminate)) by done. by apply gives_nothing. }
  match goal with |- context [mirror_frame _ _ _ _ _ _ _ ?s1] => set (s0 := s1) end.
  destruct (mirror_frame_gives (e_timing (env i)) msg (pg_request clientAddr (env i) msg) s0 Ht Hn) as [Hn' Hg].
  assert (Hgives : forall p2 c2 m l, c_out p2 = c_out p1 -> let s1 := mirror_frame upper_table queryFilter has_logger
            true (e_timing (env i)) msg (pg_request clientAddr (env i) msg) s0 in
          gives s (MkLoop c2 p2 (pl_filtered s1) (pl_mirrored s1) m l) [Bytes msg] []).
  { intros p2 c2 m l Hp2. split; [exact Hn'|]. cbn [pl_primary pl_mirrored concat].
    rewrite Hp2, Ho, !app_nil_r. split; [done|]. split; [|exact Hg].
    constructor; [by eapply read_message_nonempty|constructor]. }
  destruct (_ && _); [intros [= <- <-]; exists [Bytes msg], []; by auto|].
  pose proof (response_loop_out (S (length (data (c_in p1)))) 0 p1 c1) as Hp.
  unfold forwardResponseUntilReady. destruct (response_loop _ _ _ _) as [[[[m cm] rerr]|e| |] [p2 c2]]; [|done..].
  cbn [fst snd] in Hp. destruct rerr as [rerr|]; intros [= <- <-]; exists [Bytes msg], []; by auto.
Qed.

Lemma query_loop_gives fuel : forall i s why s',
  no_names s -> loop fuel i s = (Ok why, s') ->
  exists sent last, gives s s' sent last /\ (ends_unmirrored why = false -> last = []).
Proof.
  induction fuel as [|fuel IH]; intros i s why s' Hn; [done|]. cbn [query_loop].
  destruct (round i s) as [[[w|]|e| |] s1] eqn:Er; cbn [and_then]; [| |done..];
    apply query_round_gives in Er as (sent & last & Hg & Hl); [|done| |done].
  - intros [= <- <-]. exists sent, last. split; [done|]. intros Hw. apply Hl. cbn. rewrite Hw. done.
  - intros Hl'. rewrite Hl in Hg by done. apply IH in Hl' as (sent2 & last2 & Hg2 & Hl2); [|apply Hg].
    exists (sent ++ sent2), last2. split; [by eapply gives_trans|done].
Qed.
End mirrored.

Lemma names_after_all_cons `{RegexpLib Regexp} upper_table queryFilter msg req frames names :
  names_after_all upper_table queryFilter ((msg, req) :: frames) names
  = names_after_all upper_table queryFilter frames (names_after upper_table queryFilter msg req names).
Proof. done. Qed.

(** ** Properties *)

(** C6: The shadow does not interfere: whatever the filter, the logger, the shadow
    worker and the environment, the request loop returns, ends for the same
    reason as the plain relay without shadow, metrics and log, and leaves both
    connections - the bytes read and the bytes written - exactly as the relay
    does. No input stream makes it panic or run without end. *)
Theorem pg_loop_refines_relay `{RegexpLib Regexp} upper_table queryFilter has_logger has_shadow env
    clientAddr client primary :
  exists why s,
    runQueryLoop upper_table queryFilter has_logger has_shadow env clientAddr client primary = (Ok why, s) /\
    relay_loop (S (length (data (c_in client)))) client primary = (Ok why, (pl_client s, pl_primary s)).
Proof.
  unfold runQueryLoop. set (fuel := S _). set (s0 := MkLoop client primary ∅ [] [] []).
  destruct (query_loop_relay upper_table queryFilter has_logger has_shadow env clientAddr fuel 0 s0) as [E1 E2].
  destruct (pg_relay_loop_total fuel client primary) as (why & c' & p' & E); [unfold pending; lia|].
  cbn [pl_client pl_primary s0] in *. rewrite E in *.
  destruct (query_loop _ _ _ _ _ _ _ _ _) as [r s]. cbn [fst snd] in *. subst r. exists why, s.
  by rewrite <- E2.
Qed.

(** The shadow is given what the primary was given: the frames handed to the
    shadow worker are, in order, a subsequence of the messages written to the
    primary - all of them when no filter is configured; only the last message is
    ever written to the primary and not considered, when it is Terminate or its
    write failed. *)
Theorem pg_shadow_given_primary_frames `{RegexpLib Regexp} upper_table queryFilter has_logger env
    clientAddr client primary why s :
  runQueryLoop upper_table queryFilter has_logger true env clientAddr client primary = (Ok why, s) ->
  exists sent last,
    c_out (pl_primary s) = c_out primary ++ concat sent ++ last /\
    sublist (map pf_payload (pl_mirrored s)) sent /\
    (queryFilter = None -> map pf_payload (pl_mirrored s) = sent) /\
    (ends_unmirrored why = false -> last = []).
Proof.
  intros Hr. apply query_loop_gives in Hr as (sent & last & (_ & Ho & _ & g & Hg & Hs & He) & Hl); [|done].
  exists sent, last. cbn [pl_primary pl_mirrored app] in *. rewrite Hg. done.
Qed.

Section decisions.
Context `{RegexpLib Regexp} (upper_table : Z -> Z) (queryFilter : option (QueryFilter Regexp)).
Context (has_logger : bool).

Lemma mirror_frame_allowed t msg req s :
  pg_Type msg <> pgMsgTerminate ->
  (decision upper_table queryFilter msg req (pl_filtered s)).1 = true ->
  map pf_payload (pl_mirrored (mirror_frame upper_table queryFilter has_logger true t msg req s))
  = map pf_payload (pl_mirrored s) ++ [Bytes msg].
Proof.
  intros Ht. unfold decision, mirror_frame. rewrite (bool_decide_false (_ = pgMsgTerminate)) by done.
  cbn [andb negb]. destruct (shouldMirrorPgFrame _ _ _ _ _) as [[[a r] names] reset].
  cbn [fst]. intros ->. cbn [negb pl_mirrored]. by rewrite map_app.
Qed.

Lemma decision_parse name sql rest req names :
  decision upper_table queryFilter (parse_frame name sql rest) req names
  = shouldShadowMirror upper_table req queryFilter.
Proof.
  unfold decision, shouldMirrorPgFrame. rewrite parse_type, (bool_decide_false (_ = pgMsgQuery)) by done.
  rewrite (bool_decide_true (_ = pgMsgParse)) by done.
  destruct (shouldShadowMirror _ _ _) as [a r]. destruct (_ && _); [|done]. by destruct (bool_decide _).
Qed.

Lemma decision_bind portal name rest req names :
  Byte.x00 ∉ portal -> Byte.x00 ∉ name -> name = [] \/ (name ∉ names) ->
  decision upper_table queryFilter (bind_frame portal name rest) req names = (true, FilterReasonNone).
Proof.
  intros Hp Hz Hn. unfold decision, shouldMirrorPgFrame. rewrite extractPgBindStmtName_bind by done.
  change (pg_Type (bind_frame portal name rest)) with pgMsgBind. rewrite !bool_decide_false by done.
  rewrite (bool_decide_true (_ = pgMsgBind)) by done.
  destruct Hn as [-> |Hn]; [done|]. by rewrite (bool_decide_false (name ∈ names)), andb_false_r.
Qed.
End decisions.

(** A filtered Parse that finds the table full resets it. *)
Lemma full_table_resets `{RegexpLib Regexp} upper_table queryFilter has_logger t name sql rest req s :
  name <> [] -> Byte.x00 ∉ name -> (shouldShadowMirror upper_table req queryFilter).1 = false ->
  pgStickyStmtMapCap <= size (pl_filtered s) ->
  let s' := mirror_frame upper_table queryFilter has_logger true t (parse_frame name sql rest) req s in
  reset_count s' = (reset_count s + 1)%Z /\ pl_filtered s' = {[ name ]}.
Proof.
  intros Hne Hz Hf Hs s'. unfold s'. rewrite mirror_frame_resets. unfold mirror_frame, shouldMirrorPgFrame.
  rewrite extractPgParseStmtName_parse, parse_type by done.
  destruct (shouldShadowMirror upper_table req queryFilter) as [allowed reason]. cbn [fst] in Hf. subst allowed.
  rewrite (bool_decide_true (name <> [])), (bool_decide_true (_ <= _)) by done.
  rewrite (bool_decide_true (pgMsgParse = pgMsgParse)), !bool_decide_false by done. done.
Qed.

(** C24: A filtered statement stays filtered until it is closed or the table of filtered
    names overflows. After the Parse of a named statement was filtered, and any frames
    none of which closes it: if the table was not reset meanwhile (as its counter tells),
    a Bind, Describe or Close of the statement is not given to the shadow and is counted
    as [sticky_stmt], and the Close forgets the name; if it was, and the statement was not
    parsed again, the Bind is given to the shadow. There is no reset as long as the table
    and the Parses among the frames are together fewer than 4096 - frames of other kinds
    do not count. *)
Theorem pg_filtered_statement_stays_filtered `{RegexpLib Regexp} upper_table queryFilter has_logger
    name sql rest req portal rest' req' t frames s :
  name <> [] -> Byte.x00 ∉ name -> Byte.x00 ∉ portal ->
  (shouldShadowMirror upper_table req queryFilter).1 = false ->
  Forall (fun f => ~ closes f.1.2 name) frames ->
  let mirror := mirror_frame upper_table queryFilter has_logger true in
  let s0 := mirror t (parse_frame name sql rest) req s in
  let s1 := mirror_all upper_table queryFilter has_logger frames s0 in
  (reset_count s1 = reset_count s0 -> forall msg,
   msg ∈ [bind_frame portal name rest'; describe_frame Byte.x53 name; close_frame Byte.x53 name] ->
   let s2 := mirror t msg req' s1 in
   pl_mirrored s2 = pl_mirrored s1 /\
   (exists resets, pl_metrics s2 = pl_metrics s1 ++ resets ++ [Inc "shadowFilteredTotal" [FilterReasonStickyStmt]]) /\
   (msg = close_frame Byte.x53 name -> name ∉ pl_filtered s2)) /\
  (reset_count s1 <> reset_count s0 -> Forall (fun f => ~ parses f.1.2 name) frames ->
   map pf_payload (pl_mirrored (mirror t (bind_frame portal name rest') req' s1))
   = map pf_payload (pl_mirrored s1) ++ [Bytes (bind_frame portal name rest')]) /\
  (S (length (List.filter (fun f => is_parse f.1.2) frames) + size (pl_filtered s)) <= pgStickyStmtMapCap ->
   reset_count s1 = reset_count s0).
Proof.
  intros Hne Hz Hp Hf Hc mirror s0 s1. set (fs := map (fun f => (f.1.2, f.2)) frames).
  assert (En : pl_filtered s1 = names_after_all upper_table queryFilter fs (pl_filtered s0)) by apply mirror_all_names.
  assert (Er : reset_count s1 = (reset_count s0 + Z.of_nat (resets upper_table queryFilter fs (pl_filtered s0)))%Z)
    by apply mirror_all_resets.
  assert (E0 : pl_filtered s0 = names_after upper_table queryFilter (parse_frame name sql rest) req (pl_filtered s))
    by apply mirror_frame_names.
  split_and!.
  - intros Hr msg Hm s2. rewrite Hr in Er.
    assert (name ∈ pl_filtered s1) as Hin.
    { rewrite En. apply names_after_all_keeps; [|by apply Forall_map|lia]. rewrite E0. by apply names_after_parse. }
    destruct (sticky_dropped upper_table queryFilter name portal rest' req' (pl_filtered s1) Hne Hz Hp Hin)
      as (Hb & Hd & Hcl & Hgone).
    destruct (mirror_frame_dropped upper_table queryFilter has_logger t msg req' s1 FilterReasonStickyStmt)
      as [E1 E2]; [by apply list_elem_of_In in Hm as [<- |[<- |[<- |[]]]]..|].
    split_and!; [done|done|]. intros ->. unfold s2, mirror. by rewrite mirror_frame_names.
  - intros Hr Hps. apply mirror_frame_allowed; [done|]. rewrite decision_bind; [done|done|done|right].
    rewrite En. apply names_after_all_forgets; [right; lia|by apply Forall_map].
  - intros Hs. rewrite Er, resets_none; [lia|]. rewrite E0.
    destruct (names_after_size upper_table queryFilter (parse_frame name sql rest) req (pl_filtered s)) as [Hz1 _].
    assert (El : length (List.filter (fun mr => is_parse mr.1) fs) = length (List.filter (fun f => is_parse f.1.2) frames)).
    { unfold fs. clear. induction frames as [|f frames IH]; [done|]. cbn [map List.filter fst].
      destruct (is_parse f.1.2); cbn [length]; by rewrite IH. }
    lia.
Qed.


(** The table of filtered statements never holds more than its cap, whatever
    the client sends. *)
Theorem pg_sticky_table_bounded `{RegexpLib Regexp} upper_table queryFilter has_logger has_shadow env
    clientAddr client primary :
  size (pl_filtered (runQueryLoop upper_table queryFilter has_logger has_shadow env clientAddr client primary).2)
  <= pgStickyStmtMapCap.
Proof. unfold runQueryLoop. apply query_loop_names. cbn [pl_filtered]. rewrite size_empty. lia. Qed.

(** A filtered unnamed statement is only half filtered: its Parse is dropped,
    but the Bind of the unnamed statement and the Execute that follow are given to
    the shadow, which runs whatever unnamed statement it was given before. *)
Theorem pg_unnamed_statement_half_filtered `{RegexpLib Regexp} upper_table queryFilter has_logger
    sql rest req portal rest' execute bind_req exec_req t s :
  (shouldShadowMirror upper_table req queryFilter).1 = false -> Byte.x00 ∉ portal ->
  let parse := parse_frame [] sql rest in
  let bind := bind_frame portal [] rest' in
  let exec := pg_frame pgMsgExecute execute in
  map pf_payload (pl_mirrored (mirror_all upper_table queryFilter has_logger
    [(t, parse, req); (t, bind, bind_req); (t, exec, exec_req)] s))
  = map pf_payload (pl_mirrored s) ++ [Bytes bind; Bytes exec].
Proof.
  intros Hf Hp parse bind exec. unfold mirror_all. cbn [foldl fst snd].
  rewrite mirror_frame_allowed by done.
  rewrite mirror_frame_allowed by (first [done|by unfold bind; rewrite decision_bind by (auto; set_solver)]).
  destruct (shouldShadowMirror upper_table req queryFilter) as [a reason] eqn:E. cbn in Hf. subst a.
  destruct (mirror_frame_dropped upper_table queryFilter has_logger t parse req s reason) as [-> _];
    [done|by unfold parse; rewrite decision_parse|]. by rewrite <- app_assoc.
Qed.

(** A statement name that is prepared again stays filtered: when a name is in
    the table, a Parse of the same name that passes the filter is given to the
    shadow, but its Bind is still dropped. *)
Theorem pg_reparse_stays_filtered `{RegexpLib Regexp} upper_table queryFilter has_logger
    name sql rest req portal rest' bind_req t s :
  name <> [] -> Byte.x00 ∉ name -> Byte.x00 ∉ portal -> name ∈ pl_filtered s ->
  size (pl_filtered s) < pgStickyStmtMapCap ->
  (shouldShadowMirror upper_table req queryFilter).1 = true ->
  map pf_payload (pl_mirrored (mirror_all upper_table queryFilter has_logger
    [(t, parse_frame name sql rest, req); (t, bind_frame portal name rest', bind_req)] s))
  = map pf_payload (pl_mirrored s) ++ [Bytes (parse_frame name sql rest)].
Proof.
  intros Hne Hz Hp Hin Hs Hf. unfold mirror_all. cbn [foldl fst snd].
  set (s1 := mirror_frame _ _ _ _ _ (parse_frame _ _ _) _ _).
  assert (name ∈ pl_filtered s1) as Hin1.
  { subst s1. rewrite mirror_frame_names. apply names_after_keeps; [done| |done]. by intros [? _]. }
  destruct (sticky_dropped upper_table queryFilter name portal rest' bind_req (pl_filtered s1) Hne Hz Hp Hin1)
    as (Hb & _).
  destruct (mirror_frame_dropped upper_table queryFilter has_logger t
    (bind_frame portal name rest') bind_req s1 FilterReasonStickyStmt ltac:(done) Hb) as [-> _].
  subst s1. rewrite mirror_frame_allowed; [done|done|]. by rewrite decision_parse.
Qed.

(** ** Witnesses *)

Definition env0 (_ : nat) : round_env := MkEnv (B "id") 0 (MkTiming [] 0).

(** A simple query, then Parse and Sync. *)
Definition select_1 : PgPacket := pg_frame pgMsgQuery (cstr (B "SELECT 1")).
Definition parse_1 : PgPacket := parse_frame (B "S_1") (B "SELECT secret") [Byte.x00; Byte.x00].
Definition sync_msg : PgPacket := pg_frame pgMsgSync [].
Definition ready : PgPacket := pg_frame pgBackendReadyForQuery [Byte.x49].
Definition done_msg : PgPacket := pg_frame Byte.x43 (cstr (B "SELECT 1")).
Definition exchanges : list (PgPacket * list PgPacket) :=
  [(select_1, [done_msg; ready]); (parse_1, []); (sync_msg, [pg_frame Byte.x31 []; ready])].

Lemma frame_wf ty body : pg_fits body -> pg_wf (pg_frame ty body).
Proof. intros Hf. by exists body. Qed.

Ltac pg_wf_tac := apply frame_wf; vm_compute; intros [=].

Lemma exchanges_ok : Forall (fun ex => pg_exchange ex.1 ex.2) exchanges.
Proof.
  constructor; [|constructor; [|constructor; [|constructor]]].
  - split_and!; [pg_wf_tac|done..|]. exists [done_msg], [Byte.x49]. split_and!; [done|vm_compute; intros [=]|].
    constructor; [|done]. split_and!; [pg_wf_tac|done..|]. vm_decide.
  - split_and!; [pg_wf_tac|done..].
  - split_and!; [pg_wf_tac|done..|]. exists [pg_frame Byte.x31 []], [Byte.x49].
    split_and!; [done|vm_compute; intros [=]|].
    constructor; [|done]. split_and!; [pg_wf_tac|done..|]. vm_decide.
Qed.

(** The client's bytes in two segments, cut inside the first message. *)
Definition client_stream : list read_ev :=
  segments [take 3 (wire (map fst exchanges)); drop 3 (wire (map fst exchanges))].
Definition primary_stream : list read_ev := segments [wire (concat (map snd exchanges))].

(** The loop with the excluding filter, a logger and a shadow. *)
Definition loop_run : result loop_end * PgLoop :=
  runQueryLoop (H := literal_regexp) (fun r => r) (Some exclude_filter) true true env0 (B "10.0.0.1:5000")
    (MkConn client_stream [] []) (MkConn primary_stream [] []).

Example loop_run_mirrors :
  map pf_payload (pl_mirrored loop_run.2) = [Bytes select_1; Bytes sync_msg].
Proof. vm_compute. reflexivity. Qed.

Lemma pg_shadow_given_primary_frames_witness :
  exists sent last,
    c_out (pl_primary loop_run.2) = [] ++ concat sent ++ last /\
    sublist (map pf_payload (pl_mirrored loop_run.2)) sent /\
    (Some exclude_filter = None -> map pf_payload (pl_mirrored loop_run.2) = sent) /\
    (false = false -> last = []).
Proof.
  apply (pg_shadow_given_primary_frames (H := literal_regexp) (fun r => r) (Some exclude_filter) true env0
           (B "10.0.0.1:5000") (MkConn client_stream [] []) (MkConn primary_stream [] [])
           (ClientReadEnd ErrEOF) loop_run.2).
  vm_compute. reflexivity.
Defined.

(** The loop's state before any frame. *)
Definition loop_start : PgLoop := MkLoop (MkConn [] [] []) (MkConn [] [] []) ∅ [] [] [].
Definition now : timing := MkTiming [] 0.
Definition parse_request : QueryRequest := pg_request (B "10.0.0.1:5000") (env0 0) parse_1.

(** The filtered Parse of S_1, a Sync, and then a Bind or the Close of S_1. *)
Lemma pg_filtered_statement_stays_filtered_witness :
  let mirror := mirror_frame (H := literal_regexp) (fun r => r) (Some exclude_filter) true true in
  let s0 := mirror now parse_1 parse_request loop_start in
  let s1 := mirror_all (H := literal_regexp) (fun r => r) (Some exclude_filter) true [(now, sync_msg, query_request [])] s0 in
  reset_count s1 = reset_count s0 /\
  forall msg, msg ∈ [bind_frame [] (B "S_1") []; describe_frame Byte.x53 (B "S_1"); close_frame Byte.x53 (B "S_1")] ->
   let s2 := mirror now msg (query_request []) s1 in
   pl_mirrored s2 = pl_mirrored s1 /\
   (exists resets, pl_metrics s2 = pl_metrics s1 ++ resets ++ [Inc "shadowFilteredTotal" [FilterReasonStickyStmt]]) /\
   (msg = close_frame Byte.x53 (B "S_1") -> B "S_1" ∉ pl_filtered s2).
Proof.
  intros mirror s0 s1.
  destruct (pg_filtered_statement_stays_filtered (H := literal_regexp) (fun r => r) (Some exclude_filter) true
           (B "S_1") (B "SELECT secret") [Byte.x00; Byte.x00] parse_request [] [] (query_request []) now
           [(now, sync_msg, query_request [])] loop_start) as (H1 & _ & H3).
  - done.
  - vm_decide.
  - vm_decide.
  - vm_compute. reflexivity.
  - constructor; [|constructor]. by intros [? _].
  - assert (Hr : reset_count s1 = reset_count s0) by (apply H3; vm_decide).
    split; [exact Hr|exact (H1 Hr)].
Defined.

Lemma pg_unnamed_statement_half_filtered_witness :
  map pf_payload (pl_mirrored (mirror_all (H := literal_regexp) (fun r => r) (Some exclude_filter) true
    [(now, parse_frame [] (B "SELECT secret") [Byte.x00; Byte.x00], parse_request);
     (now, bind_frame [] [] [], query_request []);
     (now, pg_frame pgMsgExecute [Byte.x00], query_request [])] loop_start))
  = [Bytes (bind_frame [] [] []); Bytes (pg_frame pgMsgExecute [Byte.x00])].
Proof.
  apply (pg_unnamed_statement_half_filtered (H := literal_regexp) (fun r => r) (Some exclude_filter) true
           (B "SELECT secret") [Byte.x00; Byte.x00] parse_request [] [] [Byte.x00] (query_request [])
           (query_request []) now loop_start).
  - vm_compute. reflexivity.
  - vm_decide.
Defined.

Lemma pg_reparse_stays_filtered_witness :
  let s := MkLoop (MkConn [] [] []) (MkConn [] [] []) {[ B "S_1" ]} [] [] [] in
  map pf_payload (pl_mirrored (mirror_all (H := literal_regexp) (fun r => r) (Some exclude_filter) true
    [(now, parse_frame (B "S_1") (B "SELECT 1") [], query_request (B "SELECT 1"));
     (now, bind_frame [] (B "S_1") [], query_request [])] s))
  = [Bytes (parse_frame (B "S_1") (B "SELECT 1") [])].
Proof.
  apply (pg_reparse_stays_filtered (H := literal_regexp) (fun r => r) (Some exclude_filter) true
           (B "S_1") (B "SELECT 1") [] (query_request (B "SELECT 1")) [] [] (query_request []) now
           (MkLoop (MkConn [] [] []) (MkConn [] [] []) {[ B "S_1" ]} [] [] [])).
  - done.
  - vm_decide.
  - vm_decide.
  - vm_decide.
  - vm_decide.
  - vm_compute. reflexivity.
Defined.

(** ** The authentication relay *)

(** A message of the primary during authentication and the client's reply to it:
    a password message for an authentication request other than AuthenticationOk
    (0) and SASLFinal (12), none for anything else. *)
Definition auth_exchange (msg : PgPacket) (reply : option PgPacket) : Prop :=
  pg_wf msg /\ pg_Type msg <> Byte.x00 /\ pg_Type msg <> pgBackendReadyForQuery /\
  pg_Type msg <> pgBackendErrorResponse /\
  if bool_decide (pg_Type msg = pgBackendAuthRequest)
  then exists code rest, msg = pg_frame pgBackendAuthRequest (be32_bytes code ++ rest) /\
         (0 <= code < 2 ^ 32)%Z /\
         match reply with
         | None => code = 0%Z \/ code = 12%Z
         | Some pw => code <> 0%Z /\ code <> 12%Z /\ pg_wf pw /\ pg_Type pw <> Byte.x00
         end
  else reply = None.

Definition replies (steps : list (PgPacket * option PgPacket)) : list PgPacket :=
  concat (map (fun st => match st.2 with Some pw => [pw] | None => [] end) steps).

Lemma auth_code code rest :
  (0 <= code < 2 ^ 32)%Z ->
  length (pg_Payload (pg_frame pgBackendAuthRequest (be32_bytes code ++ rest))) < 8 -> False.
Proof. intros _. rewrite pg_frame_length, length_app, length_be32_bytes. lia. Qed.

Lemma auth_loop_relays steps : forall fuel zs ccl ctl cout crest pcl ptl pout prest,
  Forall (fun st => auth_exchange st.1 st.2) steps -> pg_fits zs ->
  clean ccl -> data ccl = wire (replies steps) ++ crest ->
  clean pcl -> data pcl = wire (map fst steps ++ [pg_frame pgBackendReadyForQuery zs]) ++ prest ->
  length steps < fuel ->
  exists ccl' pcl',
    auth_loop fuel (MkConn (ccl ++ ctl) cout []) (MkConn (pcl ++ ptl) pout [])
    = (Ok tt, (MkConn (ccl' ++ ctl) (cout ++ wire (map fst steps ++ [pg_frame pgBackendReadyForQuery zs])) [],
               MkConn (pcl' ++ ptl) (pout ++ wire (replies steps)) []), []) /\
    clean ccl' /\ data ccl' = crest /\ clean pcl' /\ data pcl' = prest.
Proof.
  induction steps as [|[msg reply] steps IH];
    intros fuel zs ccl ctl cout crest pcl ptl pout prest Hst Hz Hcc Hcd Hpc Hpd Hf;
    (destruct fuel as [|fuel]; [lia|]); cbn [auth_loop].
  - unfold wire, replies in *. cbn [map concat app] in *. rewrite app_nil_r in *.
    destruct (read_message_ok (pg_frame pgBackendReadyForQuery zs) pcl ptl pout [] prest) as (pcl' & -> & ? & ?);
      [by apply ready_frame_wf|done|done|done|].
    unfold write_bytes, conn_write. cbn [c_wr c_in c_out].
    rewrite bool_decide_false, bool_decide_true by done. rewrite app_nil_r. by exists ccl, pcl'.
  - apply Forall_cons_iff in Hst as [(Hw & H0 & Hr & He & Ha) Hst]. unfold replies, wire in *.
    cbn [map fst snd concat app] in *. rewrite <- app_assoc in Hpd.
    destruct (read_message_ok msg pcl ptl pout [] _ Hw H0 Hpc Hpd) as (pcl' & -> & Hpc' & Hpd').
    unfold write_bytes at 1, conn_write at 1. cbn [c_wr c_in c_out].
    case_bool_decide as Ht.
    + destruct Ha as (code & rest & -> & Hcode & Hreply). case_bool_decide as Hl; [by apply auth_code in Hl|].
      rewrite pg_frame_drop, BigEndian_be32_bytes by done. destruct reply as [pw|].
      * destruct Hreply as (Hc0 & Hc12 & Hpw & Hpw0).
        replace ((code =? 0)%Z || (code =? 12)%Z) with false by lia.
        cbn [map concat app] in Hcd |- *. rewrite <- app_assoc in Hcd.
        destruct (read_message_ok pw ccl ctl (cout ++ Bytes (pg_frame pgBackendAuthRequest (be32_bytes code ++ rest)))
                    [] _ Hpw Hpw0 Hcc Hcd) as (ccl' & -> & Hcc' & Hcd').
        unfold write_bytes, conn_write. cbn [c_wr c_in c_out].
        edestruct (IH fuel zs) as (ccl2 & pcl2 & -> & ?); [done..|simpl in Hf; lia|].
        exists ccl2, pcl2. by rewrite <- !app_assoc.
      * replace ((code =? 0)%Z || (code =? 12)%Z) with true by lia. cbn [app] in Hcd |- *.
        edestruct (IH fuel zs) as (ccl2 & pcl2 & -> & ?); [done..|simpl in Hf; lia|].
        exists ccl2, pcl2. by rewrite <- !app_assoc.
    + subst reply. rewrite !bool_decide_false by done. cbn [app] in Hcd |- *.
      edestruct (IH fuel zs) as (ccl2 & pcl2 & -> & ?); [done..|simpl in Hf; lia|].
      exists ccl2, pcl2. by rewrite <- !app_assoc.
Qed.

(** ** A whole connection *)

Section connection.
Context `{RegexpLib Regexp} (upper_table : Z -> Z).
(** The configuration and the filter of the proxy; whether a logger is present. *)
Context (config : Config) (queryFilter : option (QueryFilter Regexp)) (has_logger : bool).
(** TLS on either hop, when configured. *)
Context (tls_server : option (Conn -> Conn + error)) (tls_client : option (Conn -> Conn + error)).
(** [rand.Float64()], and the pgx library. *)
Context (roll : float64) {Cert Pool Rest PgConn : Type} (pgconn : pgconn_lib Cert Pool Rest PgConn).
Context (env : nat -> round_env) (clientAddr : bytes).

(** The connection of the shadow worker that was started, if any, and the metrics. *)
Definition startShadowWorker (startup : PgPacket) : result (option Conn) * list metric :=
  if bool_decide (ShadowHost config = []) then (Ok None, [])
  else
    let lost :=
      match queryFilter with
      | None => false
      | Some _ => let rate := SampleRate queryFilter in f_lt rate f_one && f_ge roll rate
      end in
    if lost then
      (Ok None, [Inc "shadowFilteredTotal" [FilterReasonSampling]; Inc "connectionsWithoutShadow" []])
    else
      let params := parseStartupParams (Some startup) in
      let dbname := default [] (params !! B "database") in
      match NewPgShadowWorker config with
      | Ok _ =>
          match Initialize pgconn config dbname with
          | (inr _, metrics) => (Ok None, metrics ++ [Inc "connectionsWithoutShadow" []])
          | (inl conn, metrics) => (Ok (Some conn), metrics ++ [Inc "connectionsWithShadow" []])
          end
      | _ => (Panic, [])
      end.

(** [forwardStartup]; without TLS the client's bytes bound the rounds. *)
Definition forwardStartup (fuel : nat) (client primary : Conn) : startup_result :=
  startup_loop (default inl tls_server) fuel (bool_decide (tls_server <> None)) client primary.

(** How a connection ends, with both connections and the metrics. A session that ended in
    [CopyMode] goes on in [copyFallback], the two [io.Copy] of file Duplex. *)
Inductive conn_end :=
  | DialFailed (e : error)
  | BackendTLSFailed (e : error)
  | StartupFailed (e : error)
  | Cancelled
  | AuthFailed (e : error)
  | SessionEnded (why : loop_end) (frames : list pgShadowFrame) (shadow : option Conn).

(** What is left to run of [handleConnection] after [copyFallback], if it returns. *)
Definition deferred (res : result conn_end) : list metric :=
  match res with Ok (SessionEnded CopyMode _ _) => [Dec "activeConnections" []] | _ => [] end.

Definition handleConnection (fuel : nat) (client : Conn) (dial : Conn + error)
    : result conn_end * (Conn * Conn) * list metric :=
  let opened := [Inc "activeConnections" []; Inc "totalConnections" []] in
  let closed := [Dec "activeConnections" []] in
  match dial with
  | inr err =>
      (Ok (DialFailed err), (client, MkConn [] [] []),
       opened ++ [Inc "connectionFailures" [primary_target]] ++ closed)
  | inl primary =>
      let '(upgraded, primary) :=
        match tls_client with
        | Some tls => upgradeBackendTLS tls primary
        | None => (Ok primary, primary)
        end in
      match upgraded with
      | Err err => (Ok (BackendTLSFailed err), (client, primary), opened ++ [Inc "tlsFailures" []] ++ closed)
      | Panic => (Panic, (client, primary), opened ++ closed)
      | Stuck => (Stuck, (client, primary), opened ++ closed)
      | Ok primary =>
          let '(started, (client, primary), startup_metrics) := forwardStartup fuel client primary in
          match started with
          | Err err => (Ok (StartupFailed err), (client, primary), opened ++ startup_metrics ++ closed)
          | Panic => (Panic, (client, primary), opened ++ closed)
          | Stuck => (Stuck, (client, primary), opened ++ closed)
          | Ok None => (Ok Cancelled, (client, primary), opened ++ closed)
          | Ok (Some startup) =>
              let '(auth, (client, primary), auth_metrics) := forwardAuthPhase client primary in
              match auth with
              | Err err => (Ok (AuthFailed err), (client, primary), opened ++ auth_metrics ++ closed)
              | Panic => (Panic, (client, primary), opened ++ closed)
              | Stuck => (Stuck, (client, primary), opened ++ closed)
              | Ok _ =>
                  let '(worker, metrics) := startShadowWorker startup in
                  match worker with
                  | Err err => (Err err, (client, primary), opened ++ metrics ++ closed)
                  | Panic => (Panic, (client, primary), opened ++ metrics ++ closed)
                  | Stuck => (Stuck, (client, primary), opened ++ metrics ++ closed)
                  | Ok shadow =>
                      let '(res, s) := runQueryLoop upper_table queryFilter has_logger (bool_decide (is_Some shadow))
                                         env clientAddr client primary in
                      let metrics := opened ++ metrics ++ pl_metrics s ++
                                     match res with Ok CopyMode => [] | _ => closed end in
                      match res with
                      | Ok why =>
                          (Ok (SessionEnded why (pl_mirrored s) shadow), (pl_client s, pl_primary s), metrics)
                      | Err err => (Err err, (pl_client s, pl_primary s), metrics)
                      | Panic => (Panic, (pl_client s, pl_primary s), metrics)
                      | Stuck => (Stuck, (pl_client s, pl_primary s), metrics)
                      end
                  end
              end
          end
      end
  end.
End connection.

(** Starting the shadow worker cannot fail the connection, but for a negative queue
    size. *)
Lemma startShadowWorker_ok `{RegexpLib Regexp} config (queryFilter : option (QueryFilter Regexp)) roll
    {Cert Pool Rest PgConn} (pgconn : pgconn_lib Cert Pool Rest PgConn) startup :
  (0 <= ShadowQueueSize config)%Z ->
  exists shadow metrics, startShadowWorker config queryFilter roll pgconn startup = (Ok shadow, metrics).
Proof.
  intros Hq. unfold startShadowWorker, NewPgShadowWorker. rewrite make_chan_ok by done.
  repeat case_match; eauto.
Qed.

(** A probe the proxy refuses with [N]. *)
Definition probe (p : PgPacket) : Prop :=
  p = pg_frame Byte.x00 (be32_bytes pgMagicSSLRequest) \/ p = pg_frame Byte.x00 (be32_bytes pgMagicGSSENCRequest).

(** A startup message that is none of the special requests. *)
Definition startup_msg (p : PgPacket) : Prop :=
  (exists body, p = pg_frame Byte.x00 body /\ 4 <= length body /\ pg_fits body) /\
  IsSSLRequest (Some p) = false /\ IsGSSENCRequest (Some p) = false /\ IsCancelRequest (Some p) = false.

Lemma probe_reads p : probe p ->
  pg_reads ReadStartupMessage p (pg_Payload p) /\ Bytes p = pg_Payload p /\
  (IsSSLRequest (Some p) = true \/ IsSSLRequest (Some p) = false /\ IsGSSENCRequest (Some p) = true).
Proof.
  intros [-> | ->]; (split; [apply ReadStartupMessage_reads; [done|vm_compute; intros [=]]|]);
    (split; [done|]); [left|right]; vm_compute; done.
Qed.

(** What [N] is answered to when TLS is, or is not, terminated. *)
Definition refused (listenerTLS : bool) (p : PgPacket) : Prop :=
  probe p /\ (listenerTLS = true -> p = pg_frame Byte.x00 (be32_bytes pgMagicGSSENCRequest)).

Lemma refused_plain probes : Forall probe probes -> Forall (refused false) probes.
Proof. intros Hp. eapply Forall_impl; [|exact Hp]. by intros q Hq. Qed.

(** Refused probes first, then whatever comes after them. *)
Lemma startup_loop_refused tls b probes : forall fuel ccl ctl cout crest primary,
  Forall (refused b) probes -> clean ccl -> data ccl = wire probes ++ crest ->
  exists ccl',
    startup_loop tls (length probes + fuel) b (MkConn (ccl ++ ctl) cout []) primary
    = startup_loop tls fuel b (MkConn (ccl' ++ ctl) (cout ++ replicate (length probes) Byte.x4e) []) primary /\
    clean ccl' /\ data ccl' = crest.
Proof.
  induction probes as [|q probes IH]; intros fuel ccl ctl cout crest primary Hp Hcl Hd.
  { exists ccl. unfold wire in Hd. cbn in *. by rewrite app_nil_r. }
  apply Forall_cons_iff in Hp as [[Hq Hb] Hps]. destruct (probe_reads q Hq) as (Hr & HB & Hs).
  unfold wire in Hd. cbn [map concat length Nat.add replicate startup_loop c_in] in *. rewrite HB, <- app_assoc in Hd.
  destruct (Hr ccl ctl _ Hcl Hd) as (ccl' & -> & Hcl' & Hd').
  destruct (IH fuel ccl' ctl (cout ++ [Byte.x4e]) crest primary Hps Hcl' Hd') as (ccl2 & E & ?).
  exists ccl2. rewrite <- app_assoc in E.
  destruct Hs as [Hs|[Hs Hg]]; rewrite Hs, ?Hg; unfold write_bytes, conn_write; cbn [c_wr c_in c_out]; [|by rewrite E].
  destruct b; [|by rewrite E]. rewrite (Hb eq_refl) in Hs. by vm_compute in Hs.
Qed.

Lemma startup_loop_plain tls b probes p : forall fuel ccl ctl cout crest primary,
  Forall (refused b) probes -> startup_msg p -> c_wr primary = [] ->
  clean ccl -> data ccl = wire (probes ++ [p]) ++ crest -> length probes < fuel ->
  exists ccl',
    startup_loop tls fuel b (MkConn (ccl ++ ctl) cout []) primary
    = (Ok (Some p), (MkConn (ccl' ++ ctl) (cout ++ replicate (length probes) Byte.x4e) [],
                     MkConn (c_in primary) (c_out primary ++ Bytes p) []), []) /\
    clean ccl' /\ data ccl' = crest.
Proof.
  intros fuel ccl ctl cout crest primary Hp Hst Hw Hcl Hd Hf.
  unfold wire in Hd. rewrite map_app, concat_app, <- app_assoc in Hd. cbn [map concat] in Hd. rewrite app_nil_r in Hd.
  destruct (startup_loop_refused tls b probes (fuel - length probes) ccl ctl cout _ primary Hp Hcl Hd)
    as (ccl1 & E & Hcl1 & Hd1).
  replace (length probes + (fuel - length probes)) with fuel in E by lia. rewrite E.
  destruct (fuel - length probes) as [|n] eqn:En; [lia|]. cbn [startup_loop c_in].
  destruct Hst as ((body & -> & H4 & Hfit) & Hs & Hg & Hc).
  destruct (ReadStartupMessage_reads body H4 Hfit ccl1 ctl crest Hcl1 Hd1) as (ccl' & -> & ? & ?).
  rewrite Hs, Hg, Hc. unfold write_bytes, conn_write. rewrite Hw. exists ccl'. done.
Qed.

(** The request loop does what the relay does with the same fuel. *)
Lemma runQueryLoop_relay `{RegexpLib Regexp} upper_table queryFilter has_logger has_shadow env clientAddr
    client primary res client' primary' :
  relay_loop (S (length (data (c_in client)))) client primary = (res, (client', primary')) ->
  exists s, runQueryLoop upper_table queryFilter has_logger has_shadow env clientAddr client primary = (res, s) /\
    pl_client s = client' /\ pl_primary s = primary'.
Proof.
  intros E. unfold runQueryLoop. set (s0 := MkLoop client primary ∅ [] [] []). set (fuel := S _) in *.
  destruct (query_loop_relay upper_table queryFilter has_logger has_shadow env clientAddr fuel 0 s0) as [E1 E2].
  cbn [pl_client pl_primary s0] in *. rewrite E in *.
  destruct (query_loop _ _ _ _ _ _ _ _ _) as [r s]. cbn [fst snd] in *. subst r. injection E2 as E2 E3. by exists s.
Qed.

(** The session after the handshake: exchanges, with enough fuel for what follows. *)
Lemma relay_session exs ccl cout crest pcl pout prest :
  Forall (fun ex => pg_exchange ex.1 ex.2) exs ->
  clean ccl -> data ccl = wire (map fst exs) ++ crest ->
  clean pcl -> data pcl = wire (concat (map snd exs)) ++ prest ->
  exists fuel ccl' pcl',
    relay_loop (S (length (data ccl))) (MkConn ccl cout []) (MkConn pcl pout [])
    = relay_loop (S fuel) (MkConn ccl' (cout ++ wire (concat (map snd exs))) [])
        (MkConn pcl' (pout ++ wire (map fst exs)) []) /\
    clean ccl' /\ data ccl' = crest /\ clean pcl' /\ data pcl' = prest.
Proof.
  intros Hex Hcc Hcd Hpc Hpd.
  assert (Hlen : length exs <= length (data ccl)).
  { rewrite Hcd, length_app. assert (length exs <= length (wire (map fst exs))); [|lia].
    apply length_wire. eapply Forall_impl; [|exact Hex]. by intros ex (Hw & _). }
  destruct (pg_relay_loop_exchanges exs (S (length (data ccl) - length exs)) ccl cout crest pcl [] pout prest
    Hex Hcc Hcd Hpc Hpd) as (ccl' & pcl' & E & Hr).
  replace (length exs + S (length (data ccl) - length exs)) with (S (length (data ccl))) in E by lia.
  rewrite !app_nil_r in E. eauto 6.
Qed.

Lemma runQueryLoop_exchanges `{RegexpLib Regexp} upper_table queryFilter has_logger has_shadow env
    clientAddr exs ccl cout pcl pout :
  Forall (fun ex => pg_exchange ex.1 ex.2) exs ->
  clean ccl -> data ccl = wire (map fst exs) ->
  clean pcl -> data pcl = wire (concat (map snd exs)) ->
  exists s,
    runQueryLoop upper_table queryFilter has_logger has_shadow env clientAddr
      (MkConn ccl cout []) (MkConn pcl pout []) = (Ok (ClientReadEnd ErrEOF), s) /\
    c_out (pl_primary s) = pout ++ data ccl /\ c_out (pl_client s) = cout ++ data pcl.
Proof.
  intros Hex Hcc Hcd Hpc Hpd.
  destruct (relay_session exs ccl cout [] pcl pout [] Hex Hcc) as (fuel & ccl' & pcl' & E & Hcc' & Hcd' & _);
    [by rewrite app_nil_r|done|by rewrite app_nil_r|].
  cbn [relay_loop] in E. unfold relay_round in E. rewrite (read_message_eof ccl') in E by done.
  destruct (runQueryLoop_relay upper_table queryFilter has_logger has_shadow env clientAddr
    (MkConn ccl cout []) (MkConn pcl pout []) _ _ _ E) as (s & Er & Ec & Ep).
  exists s. by rewrite Er, Ec, Ep, Hcd, Hpd.
Qed.

Lemma forwardAuthPhase_relays steps zs ccl cout crest pcl pout prest :
  Forall (fun st => auth_exchange st.1 st.2) steps -> pg_fits zs ->
  clean ccl -> data ccl = wire (replies steps) ++ crest ->
  clean pcl -> data pcl = wire (map fst steps ++ [pg_frame pgBackendReadyForQuery zs]) ++ prest ->
  exists ccl' pcl',
    forwardAuthPhase (MkConn ccl cout []) (MkConn pcl pout [])
    = (Ok tt, (MkConn ccl' (cout ++ wire (map fst steps ++ [pg_frame pgBackendReadyForQuery zs])) [],
               MkConn pcl' (pout ++ wire (replies steps)) []), []) /\
    clean ccl' /\ data ccl' = crest /\ clean pcl' /\ data pcl' = prest.
Proof.
  intros Hst Hz Hcc Hcd Hpc Hpd.
  destruct (auth_loop_relays steps (S (length (data pcl))) zs ccl [] cout crest pcl [] pout prest Hst Hz Hcc Hcd
              Hpc Hpd) as (ccl' & pcl' & E & H).
  { rewrite Hpd, length_app. unfold wire at 1. rewrite map_app, concat_app, length_app. fold (wire (map fst steps)).
    assert (length steps <= length (wire (map fst steps))); [|lia].
    apply length_wire. eapply Forall_impl; [|exact Hst]. by intros st (Hw & _). }
  rewrite !app_nil_r in E. by exists ccl', pcl'.
Qed.

(** A connection is transparent from its first byte to its last: the client
    may probe for SSL and GSS encryption (each probe is refused with N and not
    forwarded), sends its startup message, answers the authentication requests,
    then sends messages which the primary answers up to ReadyForQuery. The primary
    receives exactly the startup message, the client's replies and its messages;
    the client receives the refusals and exactly the bytes of the primary. This
    holds for any filter, sampling and shadow - present, sampled out or failing -
    and however TCP cuts the two streams. *)
Theorem pg_connection_transparent `{RegexpLib Regexp} upper_table config queryFilter has_logger roll
    {Cert Pool Rest PgConn} (pgconn : pgconn_lib Cert Pool Rest PgConn) env clientAddr probes p steps zs exs ccl pcl :
  (0 <= ShadowQueueSize config)%Z -> Forall probe probes -> startup_msg p -> Forall (fun st => auth_exchange st.1 st.2) steps -> pg_fits zs ->
  Forall (fun ex => pg_exchange ex.1 ex.2) exs ->
  clean ccl -> data ccl = wire (probes ++ [p]) ++ wire (replies steps) ++ wire (map fst exs) ->
  clean pcl ->
  data pcl = wire (map fst steps ++ [pg_frame pgBackendReadyForQuery zs]) ++ wire (concat (map snd exs)) ->
  exists frames shadow client primary metrics,
    handleConnection upper_table config queryFilter has_logger None None roll pgconn env clientAddr
      (S (length probes)) (MkConn ccl [] []) (inl (MkConn pcl [] []))
    = (Ok (SessionEnded (ClientReadEnd ErrEOF) frames shadow), (client, primary), metrics) /\
    c_out primary = Bytes p ++ wire (replies steps) ++ wire (map fst exs) /\
    c_out client = replicate (length probes) Byte.x4e ++ data pcl.
Proof.
  intros Hq Hp Hst Hau Hz Hex Hcc Hcd Hpc Hpd. unfold handleConnection, forwardStartup. cbn [default].
  rewrite (bool_decide_false (None <> None)) by tauto.
  destruct (startup_loop_plain inl false probes p (S (length probes)) ccl [] [] _ (MkConn pcl [] []) (refused_plain _ Hp) Hst eq_refl Hcc Hcd)
    as (ccl1 & E & Hcc1 & Hcd1); [lia|].
  rewrite !app_nil_r in E. rewrite E. cbn [c_in c_out app].
  destruct (forwardAuthPhase_relays steps zs ccl1 (replicate (length probes) Byte.x4e) _ pcl (Bytes p) _
              Hau Hz Hcc1 Hcd1 Hpc Hpd) as (ccl2 & pcl2 & -> & Hcc2 & Hcd2 & Hpc2 & Hpd2).
  destruct (startShadowWorker_ok config queryFilter roll pgconn p Hq) as (shadow & metrics & ->).
  destruct (runQueryLoop_exchanges upper_table queryFilter has_logger (bool_decide (is_Some shadow)) env clientAddr exs ccl2
    (replicate (length probes) Byte.x4e ++ wire (map fst steps ++ [pg_frame pgBackendReadyForQuery zs])) pcl2
    (Bytes p ++ wire (replies steps)) Hex Hcc2 Hcd2 Hpc2 Hpd2) as (s & -> & Ho & Ho').
  do 5 eexists. split; [reflexivity|]. by rewrite Ho, Ho', Hcd2, Hpd2, Hpd, <- !app_assoc.
Qed.

(** An SSL probe, a startup message, MD5 authentication, then the session above. *)
Definition startup_1 : PgPacket :=
  pg_frame Byte.x00 (be32_bytes 196608 ++ encode_params [(B "user", B "u"); (B "database", B "d")]).
Definition auth_steps : list (PgPacket * option PgPacket) :=
  [(pg_frame pgBackendAuthRequest (be32_bytes 5 ++ B "salt"), Some (pg_frame pgMsgPasswordMsg (cstr (B "md5"))));
   (pg_frame pgBackendAuthRequest (be32_bytes 0), None);
   (pg_frame Byte.x53 (cstr (B "TimeZone") ++ cstr (B "UTC")), None)].

Lemma auth_steps_ok : Forall (fun st => auth_exchange st.1 st.2) auth_steps.
Proof.
  constructor; [|constructor; [|constructor; [|constructor]]].
  - split_and!; [pg_wf_tac|done..|]. exists 5%Z, (B "salt"). split; [done|]. split; [lia|].
    split_and!; [done|done|pg_wf_tac|done].
  - split_and!; [pg_wf_tac|done..|]. exists 0%Z, []. split; [done|]. split; [lia|]. by left.
  - split_and!; [pg_wf_tac|done..].
Qed.

Lemma startup_1_ok : startup_msg startup_1.
Proof.
  split; [|vm_compute; done]. eexists. split; [reflexivity|]. split; [vm_decide|vm_compute; intros [=]].
Qed.

Definition ssl_probe : PgPacket := pg_frame Byte.x00 (be32_bytes pgMagicSSLRequest).

(** A pgx whose connection is ready at once. *)
Definition example_pgconn : pgconn_lib unit unit unit unit :=
  MkPgconnLib (fun _ => inl (MkPgconn (B "localhost") 5432 [] [] [] 0 None tt)) (fun _ => inl tt)
    (fun _ => inl (MkConn [] [] [])).

Lemma pg_connection_transparent_witness :
  exists frames shadow client primary metrics,
    handleConnection (H := literal_regexp) (fun r => r) exclude_config (Some exclude_filter) true None None f_zero
      example_pgconn env0 (B "10.0.0.1:5000") 2
      (MkConn (segments [wire [ssl_probe; startup_1] ++ wire (replies auth_steps) ++
                         wire (map fst exchanges)]) [] [])
      (inl (MkConn (segments [wire (map fst auth_steps ++ [ready]) ++ wire (concat (map snd exchanges))]) [] []))
    = (Ok (SessionEnded (ClientReadEnd ErrEOF) frames shadow), (client, primary), metrics) /\
    c_out primary = Bytes startup_1 ++ wire (replies auth_steps) ++ wire (map fst exchanges) /\
    c_out client = [Byte.x4e] ++
      data (segments [wire (map fst auth_steps ++ [ready]) ++ wire (concat (map snd exchanges))]).
Proof.
  apply (pg_connection_transparent (H := literal_regexp) (fun r => r) exclude_config (Some exclude_filter) true
           f_zero example_pgconn env0 (B "10.0.0.1:5000") [ssl_probe] startup_1 auth_steps [Byte.x49] exchanges
           (segments [wire [ssl_probe; startup_1] ++ wire (replies auth_steps) ++ wire (map fst exchanges)])
           (segments [wire (map fst auth_steps ++ [ready]) ++ wire (concat (map snd exchanges))])).
  - done.
  - by repeat constructor.
  - exact startup_1_ok.
  - exact auth_steps_ok.
  - vm_compute. intros [=].
  - exact exchanges_ok.
  - apply clean_segments.
  - vm_compute. reflexivity.
  - apply clean_segments.
  - vm_compute. reflexivity.
Defined.
