(* ===== verification/PgSession.v ===== *)
(** * pgwire connections over TLS and through COPY (src/pg_proxy.go, src/pg_tls.go)

    File PgProxy follows a plain connection up to the end of its request loop. Here
    the two things that change the transport are composed with it: TLS on either hop,
    where a handshake replaces a connection by an encrypted one before anything of
    the session is sent, and COPY, at which the loop hands both connections to
    [copyFallback] (file Duplex). The TLS library is an argument, as in PgProxy. *)

From stdpp Require Import relations.
From S2P Require Import Prelude GoNet GoFloat Metrics Config QueryLogger QueryFilter PgProtocol PgShadowWorker PgShadowInit PgProxy Duplex.

(** ** The hops *)

(** The client's connection and the one the session uses: the same, or what the TLS
    handshake makes of it. Before the handshake the client may send GSS probes; it
    then sends the SSLRequest, which is answered with [S], and [cipher]. [out] is what
    the client has been sent in the session's connection. *)
Inductive client_hop (tls_server : option (Conn -> Conn + error)) (p : PgPacket) (session : bytes)
    : nat -> Conn -> bytes -> Prop :=
  | client_plain probes ccl :
      tls_server = None -> Forall probe probes ->
      clean ccl -> data ccl = wire (probes ++ [p]) ++ session ->
      client_hop tls_server p session (S (length probes)) (MkConn ccl [] []) (replicate (length probes) Byte.x4e)
  | client_tls tls gss gss' raw cipher ccl :
      tls_server = Some tls -> Forall (refused true) gss -> Forall (refused true) gss' ->
      clean raw -> data raw = wire (gss ++ [pg_frame Byte.x00 (be32_bytes pgMagicSSLRequest)]) ++ cipher ->
      (forall raw', clean raw' -> data raw' = cipher ->
         tls (MkConn raw' (replicate (length gss) Byte.x4e ++ [Byte.x53]) []) = inl (MkConn ccl [] [])) ->
      clean ccl -> data ccl = wire (gss' ++ [p]) ++ session ->
      client_hop tls_server p session (length gss + (S (S (length gss')))) (MkConn raw [] [])
        (replicate (length gss') Byte.x4e).

(** The primary's connection: plain, or one that answers the SSLRequest with [S]. *)
Inductive primary_hop (tls_client : option (Conn -> Conn + error)) (pcl : list read_ev) : Conn -> Prop :=
  | primary_plain : tls_client = None -> primary_hop tls_client pcl (MkConn pcl [] [])
  | primary_tls tls raw raw' :
      tls_client = Some tls -> ReadFull 1 raw = (Ok [Byte.x53], raw') ->
      tls (MkConn raw' sslReq []) = inl (MkConn pcl [] []) ->
      primary_hop tls_client pcl (MkConn raw [] []).

Lemma forwardStartup_hop tls_server p session fuel client out primary :
  client_hop tls_server p session fuel client out -> startup_msg p -> c_wr primary = [] ->
  exists ccl,
    forwardStartup tls_server fuel client primary
    = (Ok (Some p), (MkConn ccl out [], MkConn (c_in primary) (c_out primary ++ Bytes p) []), []) /\
    clean ccl /\ data ccl = session.
Proof.
  intros [probes ccl -> Hp Hcl Hd|tls gss gss' raw cipher ccl -> Hg Hg' Hraw Hrd Htls Hcl Hd] Hst Hw; unfold forwardStartup.
  - rewrite bool_decide_false by tauto. cbn [default].
    destruct (startup_loop_plain inl false probes p (S (length probes)) ccl [] [] session primary (refused_plain _ Hp) Hst Hw
      Hcl Hd) as (ccl' & E & H'); [lia|]. rewrite !app_nil_r in E. eauto.
  - rewrite bool_decide_true by done. change (default inl (Some tls)) with tls.
    unfold wire in Hrd. rewrite map_app, concat_app, <- app_assoc in Hrd. cbn [map concat] in Hrd. rewrite app_nil_r in Hrd.
    destruct (startup_loop_refused tls true gss (S (S (length gss'))) raw [] [] _ primary Hg Hraw Hrd) as (r1 & E & Hr1 & Hd1).
    rewrite !app_nil_r in E. rewrite E. set (n := S (length gss')). cbn [startup_loop c_in].
    destruct (probe_reads (pg_frame Byte.x00 (be32_bytes pgMagicSSLRequest)) (or_introl eq_refl)) as (Hread & HB & _).
    rewrite HB in Hd1. destruct (Hread r1 [] cipher Hr1 Hd1) as (r2 & E2 & Hr2 & Hd2). rewrite !app_nil_r in E2. rewrite E2.
    change (IsSSLRequest _) with true. unfold upgradeClientTLS, write_bytes, conn_write. cbn [c_wr c_in c_out app].
    rewrite (Htls r2 Hr2 Hd2).
    destruct (startup_loop_plain tls true gss' p n ccl [] [] session primary Hg' Hst Hw Hcl Hd) as (ccl' & E3 & H');
      [lia|]. rewrite !app_nil_r in E3. eauto.
Qed.

(** ** Up to the request loop *)

Section session.
Context `{RegexpLib Regexp} (upper_table : Z -> Z).
Context (config : Config) (queryFilter : option (QueryFilter Regexp)) (has_logger : bool).
Context (tls_server tls_client : option (Conn -> Conn + error)).
Context (roll : float64) {Cert Pool Rest PgConn : Type} (pgconn : pgconn_lib Cert Pool Rest PgConn).
Context (env : nat -> round_env) (clientAddr : bytes).

Abbreviation handle := (handleConnection upper_table config queryFilter has_logger tls_server tls_client roll pgconn env
  clientAddr).
Abbreviation loop shadow := (runQueryLoop upper_table queryFilter has_logger (bool_decide (is_Some shadow)) env clientAddr).

(** The connection as the request loop finds it: what is left to read on either side
    and what was written. *)
Lemma handleConnection_hops p steps zs fuel client out primary session prest pcl :
  (0 <= ShadowQueueSize config)%Z ->
  client_hop tls_server p (wire (replies steps) ++ session) fuel client out -> primary_hop tls_client pcl primary ->
  startup_msg p -> Forall (fun st => auth_exchange st.1 st.2) steps -> pg_fits zs -> clean pcl ->
  data pcl = wire (map fst steps ++ [pg_frame pgBackendReadyForQuery zs]) ++ prest ->
  exists (shadow : option Conn) ccl' pcl',
    clean ccl' /\ data ccl' = session /\ clean pcl' /\ data pcl' = prest /\
    forall why s,
      loop shadow (MkConn ccl' (out ++ wire (map fst steps ++ [pg_frame pgBackendReadyForQuery zs])) [])
        (MkConn pcl' (Bytes p ++ wire (replies steps)) []) = (Ok why, s) ->
      exists metrics,
        handle fuel client (inl primary)
        = (Ok (SessionEnded why (pl_mirrored s) shadow), (pl_client s, pl_primary s), metrics).
Proof.
  intros Hq Hc Hp Hst Hau Hz Hpc Hpd.
  destruct (forwardStartup_hop _ _ _ _ _ _ (MkConn pcl [] []) Hc Hst eq_refl) as (ccl1 & E1 & Hcc1 & Hcd1).
  destruct (forwardAuthPhase_relays steps zs ccl1 out session pcl (Bytes p) prest Hau Hz Hcc1 Hcd1 Hpc Hpd)
    as (ccl2 & pcl2 & E2 & Hcc2 & Hcd2 & Hpc2 & Hpd2).
  destruct (startShadowWorker_ok config queryFilter roll pgconn p Hq) as (shadow & ms & E3).
  exists shadow, ccl2, pcl2. split_and!; [done..|]. intros why s Er.
  destruct Hp as [-> |tls raw raw' -> Hread Htls]; unfold handleConnection, upgradeBackendTLS, write_bytes, conn_write;
    cbn [c_wr c_in c_out app]; rewrite ?Hread; try change (negb _) with false; cbn [c_wr c_in c_out app] in *;
    rewrite ?Htls, E1; cbn [c_in c_out app]; rewrite E2, E3, Er; by eexists.
Qed.

(** ** Properties *)

(** C2: A connection is transparent from its first byte to its last, with TLS on
    neither hop, on either or on both. The client may probe for GSS encryption and,
    without TLS, for SSL (each probe is refused with N and not forwarded), sends its
    startup message, answers the authentication requests, then sends messages which
    the primary answers up to ReadyForQuery. Over the connections the session uses,
    the primary receives exactly the startup message, the client's replies and its
    messages; the client receives the refusals and exactly the bytes of the primary.
    This holds for any filter, sampling and shadow - present, sampled out or failing -
    and however TCP or TLS cuts the two streams. *)
Theorem pg_session_transparent p steps zs exs fuel client out primary pcl :
  (0 <= ShadowQueueSize config)%Z ->
  client_hop tls_server p (wire (replies steps) ++ wire (map fst exs)) fuel client out -> primary_hop tls_client pcl primary ->
  startup_msg p -> Forall (fun st => auth_exchange st.1 st.2) steps -> pg_fits zs ->
  Forall (fun ex => pg_exchange ex.1 ex.2) exs -> clean pcl ->
  data pcl = wire (map fst steps ++ [pg_frame pgBackendReadyForQuery zs]) ++ wire (concat (map snd exs)) ->
  exists frames shadow client' primary' metrics,
    handle fuel client (inl primary)
    = (Ok (SessionEnded (ClientReadEnd ErrEOF) frames shadow), (client', primary'), metrics) /\
    c_out primary' = Bytes p ++ wire (replies steps) ++ wire (map fst exs) /\
    c_out client' = out ++ data pcl.
Proof.
  intros Hq Hc Hp Hst Hau Hz Hex Hpc Hpd.
  destruct (handleConnection_hops p steps zs fuel client out primary _ _ pcl Hq Hc Hp Hst Hau Hz Hpc Hpd)
    as (shadow & ccl' & pcl' & Hcc & Hcd & Hpc' & Hpd' & Hh).
  edestruct (runQueryLoop_exchanges upper_table queryFilter has_logger (bool_decide (is_Some shadow)) env clientAddr exs ccl')
    as (s & Er & Ho & Ho'); [exact Hex|exact Hcc|exact Hcd|exact Hpc'|exact Hpd'|].
  destruct (Hh _ _ Er) as [metrics E]. do 5 eexists. split; [exact E|]. by rewrite Ho, Ho', Hcd, Hpd', Hpd, <- !app_assoc.
Qed.
End session.

(** ** TLS to the primary or nothing *)

Lemma upgradeBackendTLS_cases tls primary :
  (exists raw' inner primary', ReadFull 1 (c_in primary) = (Ok [Byte.x53], raw') /\
     tls (MkConn raw' (c_out primary ++ sslReq) (tail (c_wr primary))) = inl inner /\
     upgradeBackendTLS tls primary = (Ok inner, primary')) \/
  (exists e primary' sent, upgradeBackendTLS tls primary = (Err e, primary') /\
     c_out primary' = c_out primary ++ sent /\ sent `prefix_of` sslReq).
Proof.
  assert (Hw : (exists e primary' sent, write_bytes sslReq primary = (Some e, primary') /\
                  c_out primary' = c_out primary ++ sent /\ sent `prefix_of` sslReq) \/
               write_bytes sslReq primary = (None, MkConn (c_in primary) (c_out primary ++ sslReq) (tail (c_wr primary)))).
  { unfold write_bytes, conn_write. destruct (c_wr primary) as [|[[n e]|] w]; [by right| |by right].
    left. do 3 eexists. split; [done|]. split; [done|]. apply prefix_take. }
  unfold upgradeBackendTLS. destruct Hw as [(e & primary' & sent & -> & Hs) | ->]; [right; eauto|]. cbn [c_in c_out c_wr].
  destruct (ReadFull 1 (c_in primary)) as [res raw'] eqn:Er.
  destruct (ReadFull_any _ _ _ _ Er) as [([|b [|]] & -> & Hb & _)|(e & -> & _)]; try done.
  - destruct (decide (b = Byte.x53)) as [->|Hb'].
    + rewrite (bool_decide_true (Byte.x53 = Byte.x53)) by done. cbn [negb].
      destruct (tls _) as [inner|e] eqn:Et; [left; by exists raw', inner; eexists|right; do 3 eexists; split; [reflexivity|]; by split; [reflexivity|]].
    + rewrite bool_decide_false by done. right. do 3 eexists. split; [reflexivity|]. split; [reflexivity|done].
  - right. do 3 eexists. split; [reflexivity|]. split; [reflexivity|done].
Qed.

(** C20: With TLS configured towards the primary, nothing of the client ever goes out in
    the clear. Whatever the primary answers and the TLS library does: either the
    primary accepted the SSLRequest and the handshake succeeded, and the connection is
    served over the encrypted connection exactly as over a plain one; or it ends
    there, with at most the SSLRequest written to the primary, nothing read from or
    written to the client, and the failure counted. *)
Theorem pg_backend_tls_or_nothing `{RegexpLib Regexp} upper_table config queryFilter has_logger tls_server tls roll
    {Cert Pool Rest PgConn} (pgconn : pgconn_lib Cert Pool Rest PgConn) env clientAddr fuel client primary :
  let handle tls_client := handleConnection upper_table config queryFilter has_logger tls_server tls_client roll pgconn env
                             clientAddr fuel client in
  (exists raw' inner, ReadFull 1 (c_in primary) = (Ok [Byte.x53], raw') /\
     tls (MkConn raw' (c_out primary ++ sslReq) (tail (c_wr primary))) = inl inner /\
     handle (Some tls) (inl primary) = handle None (inl inner)) \/
  (exists e primary', handle (Some tls) (inl primary)
     = (Ok (BackendTLSFailed e), (client, primary'),
        [Inc "activeConnections" []; Inc "totalConnections" []; Inc "tlsFailures" []; Dec "activeConnections" []]) /\
     exists sent, c_out primary' = c_out primary ++ sent /\ sent `prefix_of` sslReq).
Proof.
  cbn zeta. unfold handleConnection.
  destruct (upgradeBackendTLS_cases tls primary) as [(raw' & inner & primary' & Hr & Ht & ->)|(e & primary' & sent & -> & Hs)].
  - left. by exists raw', inner.
  - right. exists e, primary'. eauto.
Qed.

(** ** Through COPY *)

(** What one side was sent, first by the request loop and then by a copying
    goroutine: a prefix of what the other side sent, and all of it when that side
    ended its stream or the goroutine waits for more. *)
Definition relayed (before : bytes) (d : Direction) (sent : bytes) : Prop :=
  (before ++ d_out d) `prefix_of` sent /\
  (d_phase d = Finished None \/ (d_phase d = Reading /\ d_in d = []) -> before ++ d_out d = sent).

Lemma faithful_relayed before d start more rest :
  faithful d -> d_arrived d = start ++ more -> data start = rest -> relayed before d (before ++ rest ++ data more).
Proof.
  intros (Hp & Hf & Hr) Ha <-. rewrite Ha, data_app in *. split.
  - apply prefix_app. exact Hp.
  - intros [E|[E1 E2]]; f_equal; auto.
Qed.

Section copy.
Context `{RegexpLib Regexp} (upper_table : Z -> Z).
Context (config : Config) (queryFilter : option (QueryFilter Regexp)) (has_logger : bool).
Context (tls_server tls_client : option (Conn -> Conn + error)).
Context (roll : float64) {Cert Pool Rest PgConn : Type} (pgconn : pgconn_lib Cert Pool Rest PgConn).
Context (env : nat -> round_env) (clientAddr : bytes).

Lemma runQueryLoop_copy has_shadow exs msg body last ccl cout crest pcl pout prest :
  Forall (fun ex => pg_exchange ex.1 ex.2) exs ->
  pg_wf msg -> pg_Type msg = pgMsgQuery \/ pg_Type msg = pgMsgSync -> Forall response_msg body -> ends_response true last ->
  clean ccl -> data ccl = wire (map fst exs) ++ Bytes msg ++ crest ->
  clean pcl -> data pcl = wire (concat (map snd exs)) ++ wire (body ++ [last]) ++ prest ->
  exists s,
    runQueryLoop upper_table queryFilter has_logger has_shadow env clientAddr (MkConn ccl cout []) (MkConn pcl pout [])
    = (Ok CopyMode, s) /\
    clean (c_in (pl_client s)) /\ data (c_in (pl_client s)) = crest /\
    clean (c_in (pl_primary s)) /\ data (c_in (pl_primary s)) = prest /\
    c_out (pl_primary s) = pout ++ wire (map fst exs) ++ Bytes msg /\
    c_out (pl_client s) = cout ++ wire (concat (map snd exs)) ++ wire (body ++ [last]).
Proof.
  intros Hex Hw Hm Hb Hl Hcc Hcd Hpc Hpd.
  destruct (relay_session exs ccl cout _ pcl pout _ Hex Hcc Hcd Hpc Hpd)
    as (fuel & ccl1 & pcl1 & E & Hcc1 & Hcd1 & Hpc1 & Hpd1).
  edestruct (pg_relay_round_response msg body last true ccl1 []) as (ccl2 & pcl2 & E2 & Hr);
    [exact Hw|exact Hm|exact Hb|exact Hl|exact Hcc1|exact Hcd1|exact Hpc1|exact Hpd1|].
  rewrite !app_nil_r in E2. cbn [relay_loop] in E. rewrite E2 in E. cbn [app] in E.
  destruct (runQueryLoop_relay upper_table queryFilter has_logger has_shadow env clientAddr
    (MkConn ccl cout []) (MkConn pcl pout []) _ _ _ E) as (s & Er & Ec & Ep).
  exists s. rewrite Er, Ec, Ep. cbn [c_in c_out]. rewrite <- !app_assoc. tauto.
Qed.

(** C14: COPY loses no byte. A client that, after any exchanges, sends a statement which
    the primary answers with the start of a COPY - in, out or both - is handed over to
    [copyFallback] with exactly the rest of both streams unread; then, in every
    interleaving of the two copying goroutines, the peers and the return, all that the
    primary was sent from the startup message on is a prefix of what the client sent
    in the session, and all the client was sent - after the refusals of probes - a
    prefix of what the primary sent; a direction that waits for more or has seen its
    source end has sent it all. TLS may be on either hop. *)
Theorem pg_copy_transparent p steps zs exs msg body last crest prest fuel client out primary pcl :
  (0 <= ShadowQueueSize config)%Z ->
  client_hop tls_server p (wire (replies steps) ++ wire (map fst exs) ++ Bytes msg ++ crest) fuel client out ->
  primary_hop tls_client pcl primary ->
  startup_msg p -> Forall (fun st => auth_exchange st.1 st.2) steps -> pg_fits zs ->
  Forall (fun ex => pg_exchange ex.1 ex.2) exs ->
  pg_wf msg -> pg_Type msg = pgMsgQuery \/ pg_Type msg = pgMsgSync -> Forall response_msg body -> ends_response true last ->
  clean pcl ->
  data pcl = wire (map fst steps ++ [pg_frame pgBackendReadyForQuery zs]) ++ wire (concat (map snd exs)) ++
             wire (body ++ [last]) ++ prest ->
  exists frames shadow client' primary' metrics,
    handleConnection upper_table config queryFilter has_logger tls_server tls_client roll pgconn env clientAddr fuel client
      (inl primary) = (Ok (SessionEnded CopyMode frames shadow), (client', primary'), metrics) /\
    forall x, copyFallback client' primary' x ->
      exists cmore pmore,
        d_arrived (to_primary x) = c_in client' ++ cmore /\ d_arrived (to_client x) = c_in primary' ++ pmore /\
        relayed (c_out primary') (to_primary x)
          ((Bytes p ++ wire (replies steps) ++ wire (map fst exs) ++ Bytes msg ++ crest) ++ data cmore) /\
        relayed (c_out client') (to_client x) (out ++ data pcl ++ data pmore).
Proof.
  intros Hq Hc Hp Hst Hau Hz Hex Hw Hm Hb Hl Hpc Hpd.
  destruct (handleConnection_hops upper_table config queryFilter has_logger tls_server tls_client roll pgconn env clientAddr
    p steps zs fuel client out primary _ _ pcl Hq Hc Hp Hst Hau Hz Hpc Hpd)
    as (shadow & ccl' & pcl' & Hcc & Hcd & Hpc' & Hpd' & Hh).
  edestruct (runQueryLoop_copy (bool_decide (is_Some shadow)) exs msg body last ccl')
    as (s & Er & Hc1 & Hd1 & Hc2 & Hd2 & Ho & Ho');
    [exact Hex|exact Hw|exact Hm|exact Hb|exact Hl|exact Hcc|exact Hcd|exact Hpc'|exact Hpd'|].
  destruct (Hh _ _ Er) as [metrics E]. do 5 eexists. split; [exact E|]. intros x Hx.
  destruct (dx_arrived _ _ _ _ Hx) as [[cmore E1] [pmore E2]].
  destruct (dx_reachable_inv _ _ _ _ Hc1 Hc2 Hx) as [F1%dir_inv_faithful F2%dir_inv_faithful].
  exists cmore, pmore. split; [done|]. split; [done|].
  pose proof (faithful_relayed (c_out (pl_primary s)) _ _ _ _ F1 E1 Hd1) as R1.
  pose proof (faithful_relayed (c_out (pl_client s)) _ _ _ _ F2 E2 Hd2) as R2.
  rewrite Ho in R1 at 2. rewrite Ho' in R2 at 2. rewrite Hpd. rewrite <- !app_assoc in *. by split.
Qed.
End copy.

(** ** Witnesses *)

(** A client that asks for GSS encryption, then for TLS, and a primary reached over
    TLS: the library turns the records of the one, and what follows the [S] of the
    other, into the plain streams. *)
Definition gss_probe : PgPacket := pg_frame Byte.x00 (be32_bytes pgMagicGSSENCRequest).
Definition decrypts (cipher : bytes) (plain : list read_ev) (c : Conn) : Conn + error :=
  if bool_decide (data (c_in c) = cipher) then inl (MkConn plain [] []) else inr (ErrMsg "bad record MAC").

Definition raw_client : Conn := MkConn (segments [wire [gss_probe; ssl_probe]; B "records"]) [] [].
Definition raw_primary : Conn := MkConn (segments [[Byte.x53]; B "records"]) [] [].

Lemma raw_client_hop session :
  client_hop (Some (decrypts (B "records") (segments [wire [startup_1]; session]))) startup_1 session 3 raw_client [].
Proof.
  apply (client_tls _ _ _ (decrypts (B "records") (segments [wire [startup_1]; session])) [gss_probe] [] _ (B "records")
           (segments [wire [startup_1]; session])); try done.
  - constructor; [|done]. split; [by right|done].
  - apply clean_segments.
  - intros raw' _ Hd. unfold decrypts. cbn [c_in]. by rewrite Hd, bool_decide_true.
  - apply clean_segments.
  - rewrite data_segments. cbn [concat]. by rewrite app_nil_r.
Qed.

Lemma raw_primary_hop pcl : primary_hop (Some (decrypts (B "records") pcl)) pcl raw_primary.
Proof. by apply (primary_tls _ _ (decrypts (B "records") pcl) _ (segments [B "records"])). Qed.

Definition tls_answers : bytes := wire (map fst auth_steps ++ [ready]) ++ wire (concat (map snd exchanges)).

Lemma pg_session_transparent_witness :
  exists frames shadow client' primary' metrics,
    handleConnection (H := literal_regexp) (fun r => r) exclude_config (Some exclude_filter) true
      (Some (decrypts (B "records") (segments [wire [startup_1]; wire (replies auth_steps) ++ wire (map fst exchanges)])))
      (Some (decrypts (B "records") (segments [tls_answers]))) f_zero example_pgconn env0 (B "10.0.0.1:5000") 3
      raw_client (inl raw_primary)
    = (Ok (SessionEnded (ClientReadEnd ErrEOF) frames shadow), (client', primary'), metrics) /\
    c_out primary' = Bytes startup_1 ++ wire (replies auth_steps) ++ wire (map fst exchanges) /\
    c_out client' = [] ++ data (segments [tls_answers]).
Proof.
  apply (pg_session_transparent (H := literal_regexp) (fun r => r) exclude_config (Some exclude_filter) true _ _ f_zero
           example_pgconn env0 (B "10.0.0.1:5000") startup_1 auth_steps [Byte.x49] exchanges 3 raw_client []).
  - done.
  - apply raw_client_hop.
  - apply raw_primary_hop.
  - exact startup_1_ok.
  - exact auth_steps_ok.
  - vm_compute. intros [=].
  - exact exchanges_ok.
  - apply clean_segments.
  - vm_compute. reflexivity.
Defined.

(** [COPY t FROM STDIN], two rows, and the end of the client; in the clear. *)
Definition copy_stmt : PgPacket := pg_frame pgMsgQuery (cstr (B "COPY t FROM STDIN")).
Definition copy_in : PgPacket := pg_frame pgBackendCopyInResponse [Byte.x00; Byte.x00; Byte.x00].
Definition copy_rows : bytes := wire [pg_frame Byte.x64 (B "1"); pg_frame Byte.x64 (B "2"); pg_frame Byte.x63 []].
Definition copy_sent : bytes := wire (replies auth_steps) ++ wire (map fst exchanges) ++ Bytes copy_stmt ++ copy_rows.
Definition copy_answers : bytes :=
  wire (map fst auth_steps ++ [ready]) ++ wire (concat (map snd exchanges)) ++ wire ([] ++ [copy_in]) ++ [].

Lemma pg_copy_transparent_witness :
  exists frames shadow client' primary' metrics,
    handleConnection (H := literal_regexp) (fun r => r) exclude_config (Some exclude_filter) true None None f_zero
      example_pgconn env0 (B "10.0.0.1:5000") 2 (MkConn (segments [wire [ssl_probe; startup_1]; copy_sent]) [] [])
      (inl (MkConn (segments [copy_answers]) [] []))
    = (Ok (SessionEnded CopyMode frames shadow), (client', primary'), metrics) /\
    (relayed (c_out primary') (to_primary (dx_start client' primary')) (Bytes startup_1 ++ copy_sent) /\
     relayed (c_out client') (to_client (dx_start client' primary')) ([Byte.x4e] ++ copy_answers)).
Proof.
  destruct (pg_copy_transparent (H := literal_regexp) (fun r => r) exclude_config (Some exclude_filter) true None None f_zero
    example_pgconn env0 (B "10.0.0.1:5000") startup_1 auth_steps [Byte.x49] exchanges copy_stmt [] copy_in copy_rows [] 2
    (MkConn (segments [wire [ssl_probe; startup_1]; copy_sent]) [] []) [Byte.x4e] (MkConn (segments [copy_answers]) [] [])
    (segments [copy_answers])) as (frames & shadow & client' & primary' & metrics & E & Hx).
  - done.
  - apply (client_plain None startup_1 copy_sent [ssl_probe]); [done|by repeat constructor|apply clean_segments|].
    rewrite data_segments. cbn [concat]. by rewrite app_nil_r.
  - by apply primary_plain.
  - exact startup_1_ok.
  - exact auth_steps_ok.
  - vm_compute. intros [=].
  - exact exchanges_ok.
  - pg_wf_tac.
  - by left.
  - done.
  - split; [pg_wf_tac|]. split; [done|]. vm_decide.
  - apply clean_segments.
  - by vm_compute.
  - do 5 eexists. split; [exact E|]. destruct (Hx _ (rtc_refl _ _)) as (cmore & pmore & E1 & E2 & R1 & R2).
    assert (cmore = []) as -> by (eapply app_inv_head; rewrite app_nil_r; by symmetry).
    assert (pmore = []) as -> by (eapply app_inv_head; rewrite app_nil_r; by symmetry).
    change (data []) with (@nil byte) in *. rewrite !app_nil_r in *. split; [exact R1|].
    rewrite data_segments in R2. cbn [concat] in R2. by rewrite app_nil_r in R2.
Defined.

(** ** What the shape of the loop costs *)

(** Until Query or Sync the proxy listens to the client only: whatever the primary
    answers - to a Flush, say - stays unread. *)
Theorem pg_flush_not_answered `{RegexpLib Regexp} upper_table queryFilter has_logger has_shadow env clientAddr
    msgs ccl cout pcl pout :
  Forall (fun m => pg_exchange m []) msgs ->
  clean ccl -> data ccl = wire msgs -> clean pcl ->
  exists s,
    runQueryLoop upper_table queryFilter has_logger has_shadow env clientAddr (MkConn ccl cout []) (MkConn pcl pout [])
    = (Ok (ClientReadEnd ErrEOF), s) /\
    c_out (pl_primary s) = pout ++ wire msgs /\ c_out (pl_client s) = cout /\ data (c_in (pl_primary s)) = data pcl.
Proof.
  intros Hm Hcc Hcd Hpc. set (exs := map (fun m => (m, @nil PgPacket)) msgs).
  assert (E1 : map fst exs = msgs) by (unfold exs; rewrite map_map; apply map_id).
  assert (E2 : concat (map snd exs) = []) by (unfold exs; rewrite map_map; clear; by induction msgs).
  destruct (relay_session exs ccl cout [] pcl pout (data pcl)) as (fuel & ccl' & pcl' & E & Hcc' & Hcd' & _ & Hpd').
  - apply Forall_map. exact Hm.
  - done.
  - by rewrite app_nil_r, E1.
  - done.
  - by rewrite E2.
  - cbn [relay_loop] in E. unfold relay_round in E. rewrite (read_message_eof ccl') in E by done. rewrite E1, E2 in E.
    destruct (runQueryLoop_relay upper_table queryFilter has_logger has_shadow env clientAddr
      (MkConn ccl cout []) (MkConn pcl pout []) _ _ _ E) as (s & Er & Ec & Ep).
    exists s. rewrite Er, Ec, Ep. cbn [c_out c_in]. by rewrite app_nil_r.
Qed.

(** Messages other than ReadyForQuery, then a failing read. *)
Lemma read_until_ready_cut e msgs : forall fuel n cl,
  Forall (fun m => pg_wf m /\ pg_Type m <> Byte.x00 /\ pg_Type m <> pgBackendReadyForQuery) msgs ->
  clean cl -> data cl = wire msgs -> length msgs < fuel ->
  exists rest,
    read_until_ready fuel n (cl ++ [ReadEv [] (Some e)])
    = (Ok ((n + Z.of_nat (length (wire msgs)))%Z, Some e), rest).
Proof.
  induction msgs as [|m msgs IH]; intros fuel n cl Hm Hcl Hd Hf; (destruct fuel as [|fuel]; [lia|]); cbn [read_until_ready].
  - unfold ReadMessage. rewrite ReadFull_cut by (done || lia). exists []. unfold wire. cbn. by rewrite Z.add_0_r.
  - apply Forall_cons_iff in Hm as [(Hw & H0 & Hz) Hm]. unfold wire in *. cbn [map concat] in *.
    destruct (pg_wf_reads m Hw H0 cl [ReadEv [] (Some e)] _ Hcl Hd) as (cl' & -> & Hcl' & Hd').
    rewrite bool_decide_false by done.
    destruct (IH fuel (n + Z.of_nat (length (Bytes m)))%Z cl' Hm Hcl' Hd') as (rest & ->); [simpl in Hf; lia|].
    exists rest. by rewrite length_app, Nat2Z.inj_add, Z.add_assoc.
Qed.

(** COPY kills the shadow session. The worker waits for ReadyForQuery only: when the
    shadow answers a mirrored statement with anything else - for COPY FROM STDIN with
    CopyInResponse, after which it waits for data that is not mirrored - and then
    stays silent until the read deadline, the connection is marked dead and the
    statement logged as failed; every later frame of the connection is dropped. *)
Theorem pg_copy_in_kills_shadow t frame s msgs e cl later :
  pf_payload frame <> [] -> pf_expectsResponse frame = true -> ps_dead s = false -> c_wr (ps_conn s) = [] ->
  Forall (fun m => pg_wf m /\ pg_Type m <> Byte.x00 /\ pg_Type m <> pgBackendReadyForQuery) msgs ->
  clean cl -> data cl = wire msgs -> c_in (ps_conn s) = cl ++ [ReadEv [] (Some e)] ->
  let s' := pg_process t frame s in
  ps_dead s' = true /\
  ps_log s' = ps_log s ++ [execution_entry shadow_target t (pf_req frame) (Z.of_nat (length (pf_payload frame)))
                             (Z.of_nat (length (wire msgs))) (Some e)] /\
  let s'' := foldl (fun s tf => pg_process tf.1 tf.2 s) s' later in
  c_out (ps_conn s'') = c_out (ps_conn s) ++ pf_payload frame /\ ps_log s'' = ps_log s'.
Proof.
  intros Hne Hx Hd Hw Hm Hcl Hdata Hin. cbn zeta.
  assert (Hp : ps_dead (pg_process t frame s) = true /\
    ps_log (pg_process t frame s) = ps_log s ++ [execution_entry shadow_target t (pf_req frame)
      (Z.of_nat (length (pf_payload frame))) (Z.of_nat (length (wire msgs))) (Some e)] /\
    c_out (ps_conn (pg_process t frame s)) = c_out (ps_conn s) ++ pf_payload frame).
  { unfold pg_process, processFrame. rewrite Hd. destruct (pf_payload frame) as [|ty pl] eqn:Ep; [done|].
    unfold conn_write. rewrite Hw, Hx. cbn [negb c_in c_out c_wr]. rewrite Hin.
    destruct (read_until_ready_cut e msgs (S (length (data (cl ++ [ReadEv [] (Some e)])))) 0 cl Hm Hcl Hdata) as (rest & ->).
    { unfold data at 1. rewrite map_app, concat_app, length_app. fold (data cl). rewrite Hdata.
      pose proof (length_concat_Bytes msgs Hm). unfold wire. lia. }
    done. }
  destruct Hp as (H1 & H2 & H3). split; [done|]. split; [done|]. rewrite <- H3. clear -H1. revert H1.
  generalize (pg_process t frame s). induction later as [|[t' f] later IH]; intros s1 H1; [done|]. cbn [foldl fst snd].
  destruct (IH (pg_process t' f s1)) as [E1 E2].
  - unfold pg_process, processFrame. by rewrite H1.
  - rewrite E1, E2. unfold pg_process, processFrame. by rewrite H1.
Qed.

(** Parse, Describe and Flush, with the primary's answers waiting. *)
Definition flush_msgs : list PgPacket := [parse_1; pg_frame pgMsgDescribe (Byte.x53 :: cstr (B "S_1")); pg_frame pgMsgFlush []].

Lemma pg_flush_not_answered_witness :
  exists s,
    runQueryLoop (H := literal_regexp) (fun r => r) None true true env0 (B "10.0.0.1:5000")
      (MkConn (segments [wire flush_msgs]) [] []) (MkConn (segments [Bytes done_msg]) [] [])
    = (Ok (ClientReadEnd ErrEOF), s) /\
    c_out (pl_primary s) = [] ++ wire flush_msgs /\ c_out (pl_client s) = [] /\
    data (c_in (pl_primary s)) = data (segments [Bytes done_msg]).
Proof.
  apply (pg_flush_not_answered (H := literal_regexp) (fun r => r) None true true env0 (B "10.0.0.1:5000") flush_msgs).
  - do 3 (constructor; [split; [pg_wf_tac|done]|]). constructor.
  - apply clean_segments.
  - rewrite data_segments. cbn [concat]. by rewrite app_nil_r.
  - apply clean_segments.
Defined.

Definition copy_frame : pgShadowFrame :=
  MkFrame (pg_request (B "10.0.0.1:5000") (env0 0) copy_stmt) (Bytes copy_stmt) true.
Definition copy_shadow : PgSession :=
  MkPgSession (MkConn (segments [Bytes copy_in] ++ [ReadEv [] (Some (ErrTimeout "i/o timeout"))]) [] []) false [] [].

Lemma pg_copy_in_kills_shadow_witness :
  let s' := pg_process now copy_frame copy_shadow in
  ps_dead s' = true /\ map le_Success (ps_log s') = [false] /\
  let s'' := foldl (fun s tf => pg_process tf.1 tf.2 s) s' [(now, copy_frame); (now, copy_frame)] in
  c_out (ps_conn s'') = c_out (ps_conn copy_shadow) ++ Bytes copy_stmt /\ ps_log s'' = ps_log s'.
Proof.
  destruct (pg_copy_in_kills_shadow now copy_frame copy_shadow [copy_in] (ErrTimeout "i/o timeout") (segments [Bytes copy_in])
    [(now, copy_frame); (now, copy_frame)]) as (H1 & H2 & H3).
  - discriminate.
  - reflexivity.
  - reflexivity.
  - reflexivity.
  - constructor; [|constructor]. split; [pg_wf_tac|]. split; discriminate.
  - apply clean_segments.
  - rewrite data_segments. reflexivity.
  - reflexivity.
  - split; [exact H1|]. split; [rewrite H2; reflexivity|exact H3].
Defined.
