(* ===== verification/PgProxyMetrics.v ===== *)
(** * The metrics of the pgwire side

    The counterpart of file ProxyMetrics: every update of the pgwire shadow
    worker, the query loop and the whole connection keeps to the discipline of
    file Metrics, and the byte counters count the bytes that were sent. *)

From S2P Require Import Prelude GoNet GoFloat PgProtocol Config QueryLogger QueryFilter.
From S2P Require Import Metrics ProxyMetrics PgShadowWorker PgShadowInit PgProxy.

Lemma pg_command_name_ascii ty : ascii_label (B (pgFrontendCommandName ty)) = true.
Proof. by destruct ty; vm_compute. Qed.

Definition frame_metrics (target : bytes) (ty : byte) : list metric :=
  [Inc "pgPackets" [target]; Inc "pgCommands" [target; B (pgFrontendCommandName ty)]].

Lemma frame_metrics_emits target ty :
  In target [B "primary"; B "shadow"] -> emits ["pgPackets"; "pgCommands"] (frame_metrics target ty).
Proof.
  intros Ht. assert (Ha : ascii_label target = true) by (repeat destruct Ht as [<- |Ht]; by vm_compute).
  split; [|only_tac]. apply used_cons. split.
  - apply (well_used_Add (MkDecl "pgPackets" Counter "shadow_proxy_pg_packets_total" ["target"])); [done..| |lia].
    cbn [forallb]. by rewrite Ha.
  - apply used_cons. split; [|constructor].
    apply (well_used_Add (MkDecl "pgCommands" Counter "shadow_proxy_pg_commands_total" ["target"; "command"]));
      [done..| |lia]. cbn [forallb]. by rewrite Ha, pg_command_name_ascii.
Qed.

(** ** The shadow worker *)

Definition worker_vars : list string :=
  ["pgPackets"; "pgCommands"; "shadowDropped"; "shadowWriteErrors"; "queryErrors"; "bytesTotal"; "queryTotal";
   "shadowReadTimeouts"; "queryDuration"].

Lemma read_until_ready_nonneg fuel : forall n s n' e s',
  read_until_ready fuel n s = (Ok (n', e), s') -> (0 <= n)%Z -> (0 <= n')%Z.
Proof.
  induction fuel as [|fuel IH]; intros n s n' e s'; [done|]. cbn [read_until_ready].
  destruct (ReadMessage s) as [[msg|err| |] s1]; [|by intros [= <- _ _]|done..].
  case_bool_decide; [intros [= <- _ _]; lia|]. intros E Hn. eapply IH; [exact E|lia].
Qed.

Lemma processFrame_emits lg closeCh t frame s :
  exists ms, ps_metrics (processFrame lg closeCh t frame s).2 = ps_metrics s ++ ms /\ emits worker_vars ms.
Proof.
  unfold processFrame. destruct closeCh; [apply emits_nothing|].
  destruct (ps_dead s); [eexists; split; [reflexivity|by emits_tac]|].
  destruct (pf_payload frame) as [|ty pl]; [apply emits_nothing|].
  assert (Hf : emits worker_vars (frame_metrics shadow_target ty)).
  { eapply emits_wider; [apply frame_metrics_emits; simpl; tauto|]. intros v Hv; simpl in *; tauto. }
  fold (frame_metrics shadow_target ty). generalize dependent (frame_metrics shadow_target ty). intros fm [Hfu Hfo].
  assert (Hs : forall n d, In d ["sent"; "received"] -> (0 <= n)%Z ->
    well_used (Add "bytesTotal" [shadow_target; B d] n) = true) by (intros; apply used_bytes; simpl in *; tauto).
  destruct (conn_write _ _) as [[n [werr|]] conn].
  { eexists. split; [by rewrite <- app_assoc|]. by emits_tac. }
  destruct (negb _).
  { eexists. split; [by rewrite <- app_assoc|]. split; [used_tac; first [done|apply Hs; simpl; auto; lia]|only_tac; done]. }
  destruct (read_until_ready _ _ _) as [[[m [err|]]|e| |] rest] eqn:E; [| |apply emits_nothing..].
  - eexists. split; [by rewrite <- !app_assoc|]. split.
    + destruct (is_timeout err); used_tac; first [done|apply Hs; simpl; auto; lia].
    + destruct (is_timeout err); only_tac; done.
  - apply read_until_ready_nonneg in E; [|lia]. eexists. split; [by rewrite <- !app_assoc|].
    split; [used_tac; first [done|apply Hs; simpl; auto; lia]|only_tac; done].
Qed.

(** ** The query loop *)

Definition pg_loop_vars : list string :=
  ["pgPackets"; "pgCommands"; "queryErrors"; "bytesTotal"; "queryTotal"; "shadowFilteredTotal";
   "pgStickyStmtMapResets"; "queryDuration"].

Lemma response_loop_counts fuel : forall total primary client,
  pending primary < fuel ->
  exists n m e p' c' f, response_loop fuel total primary client = (Ok (n, m, e), (p', c')) /\
    c_in c' = c_in client /\ c_out p' = c_out primary /\ c_out c' = c_out client ++ f /\
    n = (total + Z.of_nat (length f))%Z.
Proof.
  induction fuel as [|fuel IH]; intros total primary client Hf; [lia|]. cbn [response_loop].
  destruct (read_message primary) as [res p'] eqn:Er.
  apply read_message_any in Er as (Hpo & _ & [(p & -> & _ & Hp)|(e & -> & Hp)]).
  2: { eexists _, _, _, _, _, []. rewrite app_nil_r. repeat split; try done. simpl. lia. }
  destruct (conn_write (Bytes p) client) as [[n w] c'] eqn:Ew. pose proof (conn_write_in _ _ _ _ _ Ew) as Hin.
  apply conn_write_any in Ew as (d & _ & Ho & -> & _ & _).
  destruct w as [w|]; [eexists _, _, _, _, _, d; repeat split; try done; by rewrite Hpo|].
  case_bool_decide; [eexists _, _, _, _, _, d; repeat split; try done; by rewrite Hpo|].
  case_bool_decide; [eexists _, _, _, _, _, d; repeat split; try done; by rewrite Hpo|].
  destruct (IH (total + Z.of_nat (length d))%Z p' c') as (n' & m & e & p2 & c2 & f & E & Hc & Hp2 & Hf2 & Hn); [lia|].
  exists n', m, e, p2, c2, (d ++ f). rewrite Hc, Hp2, Hf2, Ho, app_assoc, length_app, Nat2Z.inj_add.
  split_and!; [done|done|done|done|lia].
Qed.

Lemma quiet_frame ty : quiet pg_loop_vars (frame_metrics primary_target ty).
Proof. apply (quiet_emits ["pgPackets"; "pgCommands"]); [apply frame_metrics_emits; simpl; tauto|done|done]. Qed.

Lemma quiet_error : quiet pg_loop_vars [Inc "queryErrors" [primary_target]].
Proof. apply (quiet_emits ["queryErrors"]); [by emits_tac|done|done]. Qed.

Lemma quiet_duration ns : quiet pg_loop_vars [Observe "queryDuration" [primary_target] ns].
Proof. apply (quiet_emits ["queryDuration"]); [by emits_tac|done|done]. Qed.

(** The events between the bytes sent and the bytes received. *)
Lemma quiet_mirrored ty fm :
  emits ["shadowFilteredTotal"; "pgStickyStmtMapResets"] fm ->
  quiet pg_loop_vars ((if isPgCountableQuery ty then [Inc "queryTotal" [primary_target]] else []) ++ fm).
Proof.
  intros Hfm. apply (quiet_emits ["queryTotal"; "shadowFilteredTotal"; "pgStickyStmtMapResets"]); [|done|done].
  apply emits_app; [by destruct (isPgCountableQuery _); emits_tac|].
  eapply emits_wider; [exact Hfm|]. intros v; simpl; tauto.
Qed.

Section loop.
Context `{RegexpLib Regexp} (upper_table : Z -> Z) (queryFilter : option (QueryFilter Regexp)).
Context (has_logger has_shadow : bool) (env : nat -> round_env) (clientAddr : bytes).

Abbreviation round := (query_round upper_table queryFilter has_logger has_shadow env clientAddr).
Abbreviation loop := (query_loop upper_table queryFilter has_logger has_shadow env clientAddr).

Definition pg_accounted (sx rx : bool) (s s' : PgLoop) : Prop :=
  exists ms sent recv,
    pl_metrics s' = pl_metrics s ++ ms /\ emits pg_loop_vars ms /\
    c_out (pl_primary s') = c_out (pl_primary s) ++ sent /\
    c_out (pl_client s') = c_out (pl_client s) ++ recv /\
    counts sx (total "bytesTotal" [primary_target; B "sent"] ms) (Z.of_nat (length sent)) /\
    counts rx (total "bytesTotal" [primary_target; B "received"] ms) (Z.of_nat (length recv)).

Definition pg_sent_exactly (ended : option loop_end) : bool :=
  match ended with Some (PrimaryWriteFailed _) => false | _ => true end.
Definition pg_received_exactly (ended : option loop_end) : bool :=
  match ended with Some (PrimaryResponseFailed _) => false | _ => true end.

Lemma pg_accounted_trans rx s1 s2 s3 sx :
  pg_accounted true true s1 s2 -> pg_accounted sx rx s2 s3 -> pg_accounted sx rx s1 s3.
Proof.
  intros (ms & a & b & Em & Hu & Ea & Eb & Ca & Cb) (ms' & a' & b' & Em' & Hu' & Ea' & Eb' & Ca' & Cb').
  exists (ms ++ ms'), (a ++ a'), (b ++ b').
  rewrite Em', Em, Ea', Ea, Eb', Eb, !app_assoc, !total_app, !length_app, !Nat2Z.inj_add.
  split_and!; [done|by apply emits_app|done|done|by eapply counts_add|by eapply counts_add].
Qed.

Lemma pg_accounted_intro s s' q1 sn q2 rn q3 sent recv sx rx :
  quiet pg_loop_vars q1 -> quiet pg_loop_vars q2 -> quiet pg_loop_vars q3 ->
  (0 <= default 0 sn)%Z -> (0 <= default 0 rn)%Z ->
  pl_metrics s' = pl_metrics s ++ round_events primary_target q1 sn q2 rn q3 ->
  c_out (pl_primary s') = c_out (pl_primary s) ++ sent -> c_out (pl_client s') = c_out (pl_client s) ++ recv ->
  counts sx (default 0%Z sn) (Z.of_nat (length sent)) -> counts rx (default 0%Z rn) (Z.of_nat (length recv)) ->
  pg_accounted sx rx s s'.
Proof.
  intros H1 H2 H3 Hsn Hrn Em Ep Ec Hs Hr. exists (round_events primary_target q1 sn q2 rn q3), sent, recv.
  destruct (round_events_spec pg_loop_vars primary_target q1 sn q2 rn q3) as (He & -> & ->); try done.
  simpl; tauto.
Qed.

(** The same when the message was written whole, with what was then received. *)
Lemma pg_accounted_whole s s' q1 msg q2 rn q3 recv sx rx :
  quiet pg_loop_vars q1 -> quiet pg_loop_vars q2 -> quiet pg_loop_vars q3 -> (0 <= default 0 rn)%Z ->
  pl_metrics s' = pl_metrics s ++ round_events primary_target q1 (Some (Z.of_nat (length msg))) q2 rn q3 ->
  c_out (pl_primary s') = c_out (pl_primary s) ++ msg -> c_out (pl_client s') = c_out (pl_client s) ++ recv ->
  counts rx (default 0%Z rn) (Z.of_nat (length recv)) -> pg_accounted sx rx s s'.
Proof.
  intros H1 H2 H3 Hrn Em Ep Ec Hr. eapply pg_accounted_intro; [exact H1|exact H2|exact H3| |exact Hrn|exact Em|exact Ep|exact Ec| |exact Hr].
  - cbn [default from_option id]. lia.
  - split; [apply Z.le_refl|done].
Qed.

(** The events of a round, listed in the order of [round_events]. *)
Ltac pg_events := cbn [pl_metrics]; unfold round_events; cbn [bytes_event app]; rewrite ?app_nil_r, <- ?app_assoc; reflexivity.

Lemma shouldMirrorPgFrame_reason msg req names reason names' reset :
  shouldMirrorPgFrame upper_table queryFilter msg req names = (false, reason, names', reset) -> In reason reasons.
Proof.
  assert (Hq : forall r, shouldShadowMirror upper_table req queryFilter = (false, r) -> In r reasons).
  { intros r. unfold shouldShadowMirror, AllowDeterministic. destruct queryFilter as [f|]; [|done].
    destruct (qr_QueryText req); [done|]. destruct (passesFilter upper_table f req) as [[] r'] eqn:E; [done|].
    intros [= <-]. by eapply passesFilter_reason. }
  unfold shouldMirrorPgFrame. destruct (shouldShadowMirror upper_table req queryFilter) as [a r].
  repeat case_match; intros; simplify_eq; try (by apply Hq); simpl; tauto.
Qed.

Lemma mirror_frame_emits t msg req s :
  exists ms, pl_metrics (mirror_frame upper_table queryFilter has_logger has_shadow t msg req s) = pl_metrics s ++ ms /\
    emits ["shadowFilteredTotal"; "pgStickyStmtMapResets"] ms.
Proof.
  unfold mirror_frame. destruct (_ && _); [|apply emits_nothing].
  destruct (shouldMirrorPgFrame _ _ _ _ _) as [[[allowed reason] names] reset] eqn:E.
  assert (Hr : emits ["shadowFilteredTotal"; "pgStickyStmtMapResets"] (if reset then [Inc "pgStickyStmtMapResets" []] else []))
    by (destruct reset; by emits_tac).
  destruct allowed; cbn [negb pl_metrics]; [by eexists|]. eexists. split; [by rewrite <- app_assoc|].
  apply emits_app; [done|]. apply shouldMirrorPgFrame_reason in E. split; [|only_tac]. used_tac. by apply used_filtered.
Qed.

Lemma query_round_accounted i s :
  exists ended s', round i s = (Ok ended, s') /\
    (ended = None -> pending (pl_client s') < pending (pl_client s)) /\
    pg_accounted (pg_sent_exactly ended) (pg_received_exactly ended) s s'.
Proof.
  unfold query_round. destruct (read_message (pl_client s)) as [res c1] eqn:Er.
  apply read_message_any in Er as (Hco & _ & [(msg & -> & _ & Hp)|(e & -> & Hp)]).
  2: { do 2 eexists. split; [reflexivity|]. split; [done|].
       eapply (pg_accounted_intro _ _ [] None [] None [] [] []); [exact (quiet_nil _)..|done|done| | | |done|done];
         cbn; by rewrite ?Hco, app_nil_r. }
  cbn [pl_client pl_primary pl_filtered pl_mirrored pl_metrics pl_log].
  fold (frame_metrics primary_target (pg_Type msg)).
  pose proof (quiet_frame (pg_Type msg)) as Hq.
  destruct (conn_write (Bytes msg) (pl_primary s)) as [[n werr] p1] eqn:Ew.
  apply conn_write_any in Ew as (d & _ & Ho & -> & Hd & _). destruct werr as [werr|].
  { do 2 eexists. split; [reflexivity|]. split; [done|].
    eapply (pg_accounted_intro _ _ _ None _ None [] d []); [exact Hq|exact quiet_error|exact (quiet_nil _)|done|done| |done| | |done].
    - pg_events.
    - cbn. by rewrite Hco, app_nil_r.
    - cbn. split; [lia|done]. }
  specialize (Hd eq_refl). subst d.
  set (cq := if isPgCountableQuery (pg_Type msg) then [Inc "queryTotal" [primary_target]] else []) in *.
  match goal with |- context [mirror_frame ?a ?b ?c ?d ?e ?f ?g ?h] =>
    pose proof (mirror_frame_conns a b c d e f g h) as [Hv1 Hv2];
    destruct (mirror_frame_emits e f g h) as (fm & Efm & Hfm);
    set (s1 := mirror_frame a b c d e f g h) in * end.
  cbn [pl_client pl_primary] in Hv1, Hv2. cbn [pl_metrics] in Efm.
  pose proof (quiet_mirrored (pg_Type msg) fm Hfm) as Hf. fold cq in Hf.
  destruct (response_loop_counts (S (pending p1)) 0%Z p1 c1) as (n & m & e & p' & c' & f & E & Hin & Hpo & Hcf & Hn); [lia|].
  assert (Hquiet : forall sx rx log, pg_accounted sx rx s (MkLoop c1 p1 (pl_filtered s1) (pl_mirrored s1) (pl_metrics s1) log)).
  { intros sx rx log. eapply (pg_accounted_whole _ _ _ (Bytes msg) (cq ++ fm) None [] []);
      [exact Hq|exact Hf|exact (quiet_nil _)|done| |done| |done].
    - cbn [pl_metrics]. rewrite Efm. pg_events.
    - cbn. by rewrite Hco, app_nil_r. }
  case_bool_decide; [do 2 eexists; split; [reflexivity|]; by split|].
  destruct (negb _ && negb _); [do 2 eexists; split; [reflexivity|]; by split|].
  unfold forwardResponseUntilReady. unfold pending in E. rewrite E. rewrite Z.add_0_l in Hn. subst n.
  destruct e as [e|]; (do 2 eexists; split; [reflexivity|]; split; [|]).
  - done.
  - eapply (pg_accounted_whole _ _ _ (Bytes msg) (cq ++ fm) None _ f);
      [exact Hq|exact Hf|exact quiet_error|done| |cbn; by rewrite Hpo|cbn; by rewrite Hcf, Hco|split; [cbn; lia|done]].
    cbn [pl_metrics]. rewrite Efm. pg_events.
  - intros _. unfold pending in *. cbn [pl_client]. by rewrite Hin.
  - eapply (pg_accounted_whole _ _ _ (Bytes msg) (cq ++ fm) (Some (Z.of_nat (length f)))
      [Observe "queryDuration" [primary_target] (t_ns (e_timing (env i)))] f);
      [exact Hq|exact Hf|apply quiet_duration|cbn; lia| |cbn; by rewrite Hpo|cbn; by rewrite Hcf, Hco|by split; [apply Z.le_refl|]].
    cbn [pl_metrics]. rewrite Efm. pg_events.
Qed.

Lemma query_loop_accounted fuel : forall i s, pending (pl_client s) < fuel ->
  exists why s', loop fuel i s = (Ok why, s') /\
    pg_accounted (pg_sent_exactly (Some why)) (pg_received_exactly (Some why)) s s'.
Proof.
  induction fuel as [|fuel IH]; intros i s Hf; [lia|]. cbn [query_loop].
  destruct (query_round_accounted i s) as (ended & s1 & -> & Hs & Ha). cbn [and_then].
  destruct ended as [why|]; [by eauto|]. specialize (Hs eq_refl).
  destruct (IH (S i) s1) as (why & s2 & -> & Ha2); [lia|].
  exists why, s2. split; [done|]. by eapply pg_accounted_trans.
Qed.
End loop.

(** ** A whole connection *)

Definition pg_shake_vars : list string := ["tlsFailures"; "authFailures"; "shadowFilteredTotal"].

Lemma startup_loop_emits tls fuel : forall listenerTLS client primary res conns ms,
  startup_loop tls fuel listenerTLS client primary = (res, conns, ms) -> emits pg_shake_vars ms.
Proof.
  induction fuel as [|fuel IH]; intros listenerTLS client primary res conns ms; cbn [startup_loop].
  { intros [= _ _ <-]. by emits_tac. }
  repeat case_match; intros; simplify_eq; eauto; by emits_tac.
Qed.

Lemma auth_loop_emits fuel : forall client primary res conns ms,
  auth_loop fuel client primary = (res, conns, ms) -> emits pg_shake_vars ms.
Proof.
  induction fuel as [|fuel IH]; intros client primary res conns ms; cbn [auth_loop].
  { intros [= _ _ <-]. by emits_tac. }
  repeat case_match; intros; simplify_eq; eauto; by emits_tac.
Qed.

Lemma shadow_init_emits {Cert Pool Rest PgConn} (pgconn : pgconn_lib Cert Pool Rest PgConn) config dbname res ms :
  Initialize pgconn config dbname = (res, ms) -> emits pg_shake_vars ms.
Proof. unfold Initialize. repeat case_match; intros; simplify_eq; by emits_tac. Qed.

(** The counters of connections: with and without shadow, failed to reach the
    primary. *)
Definition pg_shadow_counts (shadow : result (option Conn)) (ms : list metric) : Prop :=
  match shadow with
  | Ok (Some _) => total "connectionsWithShadow" [] ms = 1%Z /\ total "connectionsWithoutShadow" [] ms = 0%Z
  | _ => total "connectionsWithShadow" [] ms = 0%Z /\ (total "connectionsWithoutShadow" [] ms <= 1)%Z
  end.

Definition start_vars : list string := pg_shake_vars ++ ["connectionsWithShadow"; "connectionsWithoutShadow"].

Lemma startShadowWorker_emits `{RegexpLib Regexp} config (queryFilter : option (QueryFilter Regexp)) roll
    {Cert Pool Rest PgConn} (pgconn : pgconn_lib Cert Pool Rest PgConn) startup res ms :
  startShadowWorker config queryFilter roll pgconn startup = (res, ms) ->
  emits start_vars ms /\ pg_shadow_counts res ms.
Proof.
  unfold startShadowWorker. case_bool_decide; [intros [= <- <-]; split; [by emits_tac|by vm_compute]|].
  destruct (match queryFilter with Some _ => _ | None => _ end).
  { intros [= <- <-]. split; [by emits_tac|by vm_compute]. }
  destruct (NewPgShadowWorker config); [|intros [= <- <-]; split; [by emits_tac|by vm_compute]..].
  destruct (Initialize _ _ _) as [[conn|e] m] eqn:Ei; apply shadow_init_emits in Ei; intros [= <- <-];
    (split; [apply emits_app; [eapply emits_wider; [exact Ei|apply incl_appl, incl_refl]|by emits_tac]|]);
    cbn [pg_shadow_counts]; rewrite !total_app, !(emits_total _ _ _ _ Ei) by done; by vm_compute.
Qed.

Definition rest_vars : list string := start_vars ++ pg_loop_vars.

(** What is said of the events of a connection. *)
Definition pg_well_counted (res : result conn_end) (ms : list metric) : Prop :=
  used (ms ++ deferred res) /\ total "activeConnections" [] (ms ++ deferred res) = 0%Z /\ total "totalConnections" [] ms = 1%Z /\
  total "connectionFailures" [primary_target] ms = (match res with Ok (DialFailed _) => 1 | _ => 0 end)%Z /\
  match res with
  | Ok (SessionEnded _ _ shadow) => pg_shadow_counts (Ok shadow) ms
  | _ => total "connectionsWithShadow" [] ms = 0%Z
  end.

Lemma pg_well_counted_intro res mid :
  emits rest_vars mid ->
  match res with
  | Ok (DialFailed _) => False
  | Ok (SessionEnded _ _ shadow) => pg_shadow_counts (Ok shadow) mid
  | _ => total "connectionsWithShadow" [] mid = 0%Z
  end ->
  forall ms, ms = [Inc "activeConnections" []; Inc "totalConnections" []] ++ mid ++
    match res with Ok (SessionEnded CopyMode _ _) => [] | _ => [Dec "activeConnections" []] end ->
  pg_well_counted res ms.
Proof.
  intros Hm Hr ms ->. pose proof Hm as [Hu _]. unfold pg_well_counted.
  split; [destruct res as [[| | | | |[]]| | |]; cbn [deferred]; by used_tac|]. rewrite !total_app.
  rewrite (emits_total _ "activeConnections" _ _ Hm), (emits_total _ "totalConnections" _ _ Hm),
    (emits_total _ "connectionFailures" _ _ Hm) by done.
  split; [by destruct res as [[| | | | |[]]| | |]|]. split; [by destruct res as [[| | | | |[]]| | |]|].
  destruct res as [[| | | | |[]]| | |]; try done; (split; [done|]); cbn [pg_shadow_counts] in *;
    try destruct shadow; cbn [pg_shadow_counts] in *; rewrite ?total_app; total_tac;
    repeat match goal with H : _ /\ _ |- _ => destruct H end; try split; lia.
Qed.

Lemma emits_rest vars ms : emits vars ms -> incl vars rest_vars -> emits rest_vars ms.
Proof. apply emits_wider. Qed.

Section conn.
Context `{RegexpLib Regexp} (upper_table : Z -> Z) (config : Config) (queryFilter : option (QueryFilter Regexp)).
Context (has_logger : bool) (tls_server tls_client : option (Conn -> Conn + error)) (roll : float64).
Context {Cert Pool Rest PgConn : Type} (pgconn : pgconn_lib Cert Pool Rest PgConn).
Context (env : nat -> round_env) (clientAddr : bytes).

Lemma pg_handleConnection_counted fuel client dial res conns ms :
  handleConnection upper_table config queryFilter has_logger tls_server tls_client roll pgconn env clientAddr
    fuel client dial = (res, conns, ms) -> pg_well_counted res ms.
Proof.
  unfold handleConnection. destruct dial as [primary|err].
  2: { intros [= <- _ <-]. split; [by used_tac|]. by vm_compute. }
  destruct (match tls_client with Some _ => _ | None => _ end) as [[p0|err| |] p1];
    [|intros [= <- _ <-]; by eapply (pg_well_counted_intro _ [Inc "tlsFailures" []]); [emits_tac|..]
     |intros [= <- _ <-]; by eapply (pg_well_counted_intro _ []); [emits_tac|..]..].
  destruct (forwardStartup tls_server fuel client p0) as [[st [c2 p2]] sm] eqn:Es.
  apply startup_loop_emits in Es.
  assert (Es' : emits rest_vars sm) by (eapply emits_rest; [exact Es|]; apply incl_appl, incl_appl, incl_refl).
  destruct st as [[startup|]|err| |];
    [|intros [= <- _ <-]; by eapply (pg_well_counted_intro _ []); [emits_tac|..]
     |intros [= <- _ <-]; eapply (pg_well_counted_intro _ sm); [done|by apply (emits_total _ _ _ _ Es)|done]
     |intros [= <- _ <-]; by eapply (pg_well_counted_intro _ []); [emits_tac|..]..].
  destruct (forwardAuthPhase c2 p2) as [[au [c3 p3]] am] eqn:Ea. apply auth_loop_emits in Ea.
  assert (Ea' : emits rest_vars am) by (eapply emits_rest; [exact Ea|]; apply incl_appl, incl_appl, incl_refl).
  destruct au as [u|err| |];
    [|intros [= <- _ <-]; eapply (pg_well_counted_intro _ am); [done|by apply (emits_total _ _ _ _ Ea)|done]
     |intros [= <- _ <-]; by eapply (pg_well_counted_intro _ []); [emits_tac|..]..].
  destruct (startShadowWorker config queryFilter roll pgconn startup) as [worker wm] eqn:Ew.
  apply startShadowWorker_emits in Ew as [Ew Hw].
  assert (Ew' : emits rest_vars wm) by (eapply emits_rest; [exact Ew|]; apply incl_appl, incl_refl).
  destruct worker as [shadow|err| |];
    [|intros [= <- _ <-]; eapply (pg_well_counted_intro _ wm); [done|by apply Hw|by rewrite <- ?app_assoc]..].
  destruct (query_loop_accounted upper_table queryFilter has_logger (bool_decide (is_Some shadow)) env clientAddr
    (S (pending c3)) 0 (MkLoop c3 p3 ∅ [] [] [])) as (why & s & E & lm & sent & recv & Em & He & _); [cbn; lia|].
  unfold runQueryLoop. unfold pending in E. rewrite E. intros [= <- _ <-]. cbn [pl_metrics app] in Em. rewrite Em.
  eapply (pg_well_counted_intro _ (wm ++ lm)); [apply emits_app; [done|]| |by rewrite <- ?app_assoc].
  - eapply emits_rest; [exact He|apply incl_appr, incl_refl].
  - destruct shadow; cbn [pg_shadow_counts] in *; rewrite !total_app, !(emits_total _ _ _ _ He) by done;
      rewrite !Z.add_0_r; done.
Qed.
End conn.

(** ** Properties *)

(** Every metric update of a pgwire connection is well typed (as for MySQL: no
    update can panic), the gauge of active connections returns to where it was - after
    COPY, when the copying has returned -, the connection is counted once, as failed exactly when the primary could not be
    dialled, and as mirrored exactly when a shadow worker ran; whatever client,
    primary and shadow do. *)
Theorem pg_metrics_well_typed `{RegexpLib Regexp} upper_table config queryFilter has_logger tls_server tls_client roll
    {Cert Pool Rest PgConn} (pgconn : pgconn_lib Cert Pool Rest PgConn) env clientAddr fuel client dial :
  let '(res, _, ms) := handleConnection upper_table config queryFilter has_logger tls_server tls_client roll pgconn
                         env clientAddr fuel client dial in
  used (ms ++ deferred res) /\ total "activeConnections" [] (ms ++ deferred res) = 0%Z /\ total "totalConnections" [] ms = 1%Z /\
  total "connectionFailures" [primary_target] ms = (match res with Ok (DialFailed _) => 1 | _ => 0 end)%Z /\
  match res with
  | Ok (SessionEnded _ _ shadow) => pg_shadow_counts (Ok shadow) ms
  | _ => total "connectionsWithShadow" [] ms = 0%Z
  end.
Proof.
  destruct (handleConnection _ _ _ _ _ _ _ _ _ _ _ _ _) as [[res conns] ms] eqn:E.
  by apply pg_handleConnection_counted in E.
Qed.

(** The byte counters of the pgwire primary are accurate, on every pair of
    connections: [bytes_total{primary,sent}] is the number of bytes written to the
    primary and [bytes_total{primary,received}] the number forwarded to the client -
    exactly, unless the last write or the last response failed part-way, and never
    more. *)
Theorem pg_bytes_accounted `{RegexpLib Regexp} upper_table queryFilter has_logger has_shadow env clientAddr client primary :
  exists why s sent recv,
    runQueryLoop upper_table queryFilter has_logger has_shadow env clientAddr client primary = (Ok why, s) /\
    c_out (pl_primary s) = c_out primary ++ sent /\ c_out (pl_client s) = c_out client ++ recv /\
    counts (pg_sent_exactly (Some why)) (total "bytesTotal" [primary_target; B "sent"] (pl_metrics s))
      (Z.of_nat (length sent)) /\
    counts (pg_received_exactly (Some why)) (total "bytesTotal" [primary_target; B "received"] (pl_metrics s))
      (Z.of_nat (length recv)).
Proof.
  destruct (query_loop_accounted upper_table queryFilter has_logger has_shadow env clientAddr
    (S (pending client)) 0 (MkLoop client primary ∅ [] [] []))
    as (why & s & E & ms & sent & recv & Em & _ & Hs & Hr & Cs & Cr); [cbn; lia|].
  exists why, s, sent, recv. unfold runQueryLoop. unfold pending in E. cbn [pl_metrics app] in Em. by rewrite Em.
Qed.

(** The example session, evaluated: every byte of it is counted. *)
Example pg_bytes_counted :
  let s := (runQueryLoop (H := literal_regexp) (fun r => r) (Some exclude_filter) true true env0 (B "10.0.0.1:5000")
              (MkConn (segments [wire (map fst exchanges)]) [] [])
              (MkConn (segments [wire (concat (map snd exchanges))]) [] [])).2 in
  total "bytesTotal" [primary_target; B "sent"] (pl_metrics s) = Z.of_nat (length (wire (map fst exchanges))) /\
  total "bytesTotal" [primary_target; B "received"] (pl_metrics s)
  = Z.of_nat (length (wire (concat (map snd exchanges)))).
Proof. by vm_compute. Qed.
