(* ===== verification/EndToEnd.v ===== *)
(** * From the client's commands to the bytes on the shadow connection

    The composition of the request loops (files Proxy and PgProxy), which call [Send]
    for every request they mirror, with the workers (files ShadowWorker and
    PgShadowWorker), which take the requests off their queue concurrently. The
    relation [w_calls] is the life cycle of file WorkerLifecycle together with the
    calls of [Send] made so far. *)

From stdpp Require Import relations.
From S2P Require Import Prelude GoNet MySQLProtocol MySQLResponse PgProtocol QueryLogger QueryFilter Metrics.
From S2P Require Import ShadowSession WorkerLifecycle ShadowWorker PgShadowWorker.
From S2P Require Proxy PgProxy.

(** ** Sublists *)

Lemma sublist_same_length {A} (l k : list A) : l `sublist_of` k -> length l = length k -> l = k.
Proof.
  induction 1 as [|x l k Ha IH|x l k Ha IH]; intros Hl; [done|f_equal; apply IH; simpl in Hl; lia|].
  apply sublist_length in Ha. simpl in Hl. lia.
Qed.

Lemma sublist_snoc {A} (l k : list A) x : l `sublist_of` k -> l `sublist_of` k ++ [x].
Proof. intros H. rewrite <- (app_nil_r l). by apply sublist_app; [|apply sublist_nil_l]. Qed.

(** A sublist of an image is the image of a sublist. *)
Lemma sublist_map_inv {A C} (f : A -> C) l : forall k, l `sublist_of` map f k -> exists k', k' `sublist_of` k /\ l = map f k'.
Proof.
  intros k. revert l. induction k as [|x k IH]; intros l Hl; cbn [map] in Hl.
  - apply sublist_nil_r in Hl as ->. by exists [].
  - apply sublist_cons_r in Hl as [Hl|(l' & -> & Hl)].
    + destruct (IH _ Hl) as (k' & Hk & ->). exists k'. split; [by apply sublist_cons|done].
    + destruct (IH _ Hl) as (k' & Hk & ->). exists (x :: k'). split; [by apply sublist_skip|done].
Qed.

(** ** The calls of [Send] *)

Section calls.
Context {Req Sess : Type} (cap : nat) (process : timing -> Req -> Sess -> Sess) (dead : Sess -> bool) (s0 : Sess).

Implicit Types w : Worker Req Sess.

(** A step in which the connection's goroutine does not call [Send]. *)
Definition not_called w w' : Prop :=
  w_caller w = CIdle -> w_caller w' = CClosing \/ (w_caller w' = CIdle /\ w_refused w' = w_refused w).

(** [w_calls calls w]: the worker can be in state [w] after these calls of [Send]. *)
Inductive w_calls : list Req -> Worker Req Sess -> Prop :=
  | wc_new : w_calls [] (NewWorker s0)
  | wc_send r calls w : w_calls calls w -> w_caller w = CIdle -> w_calls (calls ++ [r]) (send_check dead r w)
  | wc_step calls w w' : w_calls calls w -> w_step cap process dead w w' -> not_called w w' -> w_calls calls w'.

Lemma w_calls_reachable calls w : w_calls calls w -> w_reachable cap process dead s0 w.
Proof.
  induction 1 as [|r calls w _ IH Hc|calls w w' _ IH Hs _]; [apply rtc_refl| |by eapply rtc_r].
  eapply rtc_r; [exact IH|]. by apply ws_send_check.
Qed.

(** The calls that have returned, and the one in progress. *)
Definition returned_calls w (calls : list Req) : Prop :=
  w_accepted w `sublist_of` calls /\ length (w_accepted w) + length (w_refused w) = length calls.

Definition calls_inv (calls : list Req) w : Prop :=
  match w_caller w with
  | CSending r => exists calls', calls = calls' ++ [r] /\ returned_calls w calls'
  | _ => returned_calls w calls
  end.

Lemma send_check_calls r calls w : w_caller w = CIdle -> calls_inv calls w -> calls_inv (calls ++ [r]) (send_check dead r w).
Proof.
  intros Hc Hi. unfold calls_inv, returned_calls in *. rewrite Hc in Hi. destruct Hi as [Ha Hl]. unfold send_check.
  destruct (_ || _); cbn [w_caller w_accepted w_refused set_caller]; [|by exists calls].
  split; [by apply sublist_snoc|]. rewrite !length_app. simpl. lia.
Qed.

Lemma step_calls calls w w' : w_step cap process dead w w' -> not_called w w' -> calls_inv calls w -> calls_inv calls w'.
Proof.
  intros Hs Hn Hi. unfold calls_inv, returned_calls, not_called in *.
  destruct Hs as [r w Hc|r w Hc|r w Hc|w Hc Hcl|w Hc|w Hc|w Hc|r q w Hw|w Hw|r q w Hw|w Hw|w Hw|r d w Hw|t r d w Hw];
    try rewrite Hc in Hi; try exact Hi.
  - specialize (Hn Hc). unfold send_check in *. destruct (_ || _); cbn in *; [|by destruct Hn as [|[? ?]]].
    destruct Hn as [|[_ Hn]]; [done|]. apply (f_equal length) in Hn. rewrite length_app in Hn. simpl in Hn. lia.
  - destruct Hi as (calls' & -> & Ha & Hl). unfold send_select. case_bool_decide; cbn.
    + split; [by apply sublist_app|]. rewrite !length_app. simpl. lia.
    + split; [by apply sublist_snoc|]. rewrite !length_app. simpl. lia.
  - destruct Hi as (calls' & -> & Ha & Hl). cbn. split; [by apply sublist_app|]. rewrite !length_app. simpl. lia.
  - unfold close_begin. rewrite Hcl. exact Hi.
  - unfold check_close. destruct (w_closeCh w); exact Hi.
Qed.

Lemma w_calls_inv calls w : w_calls calls w -> calls_inv calls w.
Proof.
  induction 1 as [|r calls w _ IH Hc|calls w w' _ IH Hs Hn].
  - split; [constructor|done].
  - by apply send_check_calls.
  - by eapply step_calls.
Qed.

(** After [Close]: what was accepted is, in order, what was sent less the refused. *)
Lemma w_calls_joined calls w :
  w_calls calls w -> w_caller w = CJoined ->
  w_accepted w `sublist_of` calls /\ length (w_accepted w) + length (w_refused w) = length calls /\
  (w_refused w = [] -> w_accepted w = calls).
Proof.
  intros Hi%w_calls_inv Hj. unfold calls_inv in Hi. rewrite Hj in Hi. destruct Hi as [Ha Hl].
  split; [done|]. split; [done|]. intros Hr. rewrite Hr in Hl. simpl in Hl.
  apply sublist_same_length; [done|lia].
Qed.

Lemma w_calls_accepted calls w : w_calls calls w -> w_accepted w `sublist_of` calls.
Proof.
  intros Hi%w_calls_inv. unfold calls_inv, returned_calls in Hi.
  destruct (w_caller w); try apply Hi. destruct Hi as (calls' & -> & Ha & _). by apply sublist_snoc.
Qed.
End calls.

(** What was accepted of the requests given for some commands, as commands. *)
Lemma sent_subsequence (given accepted : list QueryRequest) (cmds : list Proxy.handled) :
  map (fun req => (qr_ID req, qr_Packet req)) given = map (fun h => (Proxy.h_id h, Proxy.h_packet h)) cmds ->
  accepted `sublist_of` given ->
  exists sent, sent `sublist_of` cmds /\ map qr_Packet accepted = map Proxy.h_packet sent /\
    map qr_ID accepted = map Proxy.h_id sent /\ length sent = length accepted /\ (accepted = given -> sent = cmds).
Proof.
  intros Hm Ha.
  assert (Hs : map (fun req => (qr_ID req, qr_Packet req)) accepted
               `sublist_of` map (fun h => (Proxy.h_id h, Proxy.h_packet h)) cmds).
  { rewrite <- Hm. by apply (fmap_sublist (fun req => (qr_ID req, qr_Packet req))). }
  destruct (sublist_map_inv _ _ _ Hs) as (sent & Hsent & Em).
  pose proof (f_equal length Em) as Hlen. rewrite !length_map in Hlen. pose proof (f_equal length Hm) as Hg.
  rewrite !length_map in Hg. exists sent. split_and!; [done|..|lia|].
  - apply (f_equal (map snd)) in Em. by rewrite !map_map in Em.
  - apply (f_equal (map fst)) in Em. by rewrite !map_map in Em.
  - intros ->. apply sublist_same_length; [done|lia].
Qed.

(** ** Properties *)

(** C3: From the client's commands to the bytes on the MySQL shadow connection. Let the
    request loop have ended and the worker's [Close] have returned without being
    forced, with no write to the shadow having failed. The primary was sent some
    commands, one per round, and after them at most a COM_QUIT or the part of a command
    whose write failed. Those to be mirrored are the ones the filter allows - all of
    them without a filter -, and the bytes sent to the shadow are exactly the packets of
    a subsequence of these, from which as many are missing as [Send] refused. The ids
    are those drawn for the rounds: with a logger they are the ids of the primary's
    entries, the filtered commands have a shadow entry under theirs, and the worker's
    log has exactly one entry for each command sent to the shadow, under its id. *)
Theorem mysql_shadow_end_to_end `{RegexpLib Regexp} upper_table queryFilter has_logger env clientAddr `{PacketSource R}
    `{PacketSource R'} (clientReader : R) client primaryReader primary why s cap (s0 : ShadowSession R') w :
  Proxy.proxyWithMirrorWorker upper_table queryFilter has_logger env clientAddr clientReader client primaryReader primary
    = (Ok why, s) ->
  src_inv (ss_reader s0) -> c_wr (ss_conn s0) = [] ->
  w_calls cap mysql_process (fun _ => false) s0 (Proxy.ml_mirrored s) w -> w_caller w = CJoined -> w_closeCh w = false ->
  exists packets last last_id sent log,
    let cmds := Proxy.commands_from upper_table queryFilter env clientAddr 0 packets in
    let allowed := List.filter Proxy.h_mirrored cmds in
    c_out (Proxy.ml_primary s) = c_out primary ++ concat packets ++ last /\
    (Proxy.considered_all (Some why) = true -> last = []) /\ Proxy.last_of env 0 packets last_id /\
    sent `sublist_of` allowed /\
    length sent + length (w_refused w) = length allowed /\
    (w_refused w = [] -> sent = allowed) /\
    c_out (ss_conn (w_sess w)) = c_out (ss_conn s0) ++ concat (map Proxy.h_packet sent) /\
    ss_log (w_sess w) = ss_log s0 ++ log /\ map le_QueryID log = map Proxy.h_id sent /\
    (has_logger = true ->
     Proxy.entry_ids Proxy.primary_target (Proxy.ml_log s) = map Proxy.h_id cmds ++ last_id /\
     Proxy.entry_ids shadow (Proxy.ml_log s)
     = map Proxy.h_id (List.filter (fun h => negb (Proxy.h_mirrored h)) cmds)).
Proof.
  intros Hr Hi Hwr Hw Hj Hc. unfold Proxy.proxyWithMirrorWorker in Hr.
  apply Proxy.mirror_loop_effects in Hr
    as (packets & last & last_id & [Ho (g & Hg & Hm) _ (l & Hl & Hid)] & Hlo & Hlast).
  set (cmds := Proxy.commands_from upper_table queryFilter env clientAddr 0 packets) in *.
  cbn [Proxy.ml_primary Proxy.ml_mirrored Proxy.ml_log app] in Ho, Hg, Hl. rewrite Hg in Hw.
  destruct (w_calls_joined _ _ _ _ _ _ Hw Hj) as (Ha & Hn & He).
  destruct (delivered_accepted cap s0 w Hi Hwr (w_calls_reachable _ _ _ _ _ _ Hw) Hj Hc) as (Hout & log & Hlog & Hids).
  destruct (sent_subsequence g (w_accepted w) (List.filter Proxy.h_mirrored cmds) Hm Ha) as (sent & Hsent & Ep & Ei & Hlen & Hall).
  exists packets, last, last_id, sent, log. cbv zeta. fold cmds. rewrite <- Ep, <- Ei, Hl.
  rewrite Ho. unfold cmds at 1. rewrite Proxy.commands_from_packets.
  split_and!; [done|by intros Hca; apply Hlast|done|done| |by intros Hrf; apply Hall, He|done|done|done|done].
  apply (f_equal length) in Hm. rewrite !length_map in Hm. lia.
Qed.

(** C4: From the client's messages to the bytes on the pgwire shadow connection. In every
    state of the worker, whatever the shadow does, the bytes sent to the shadow are a
    prefix of the concatenation of messages that are, in order, among those written to
    the primary (none is cut, reordered or repeated); once [Close] has returned without
    being forced and the connection did not fail, they are all the messages [Send]
    accepted - without a filter and with no message refused, all that the primary was
    sent. *)
Theorem pg_shadow_end_to_end `{RegexpLib Regexp} upper_table queryFilter has_logger env clientAddr client primary
    why s cap s0 w :
  PgProxy.runQueryLoop upper_table queryFilter has_logger true env clientAddr client primary = (Ok why, s) ->
  w_calls cap pg_process ps_dead s0 (PgProxy.pl_mirrored s) w ->
  exists msgs last d,
    c_out (PgProxy.pl_primary s) = c_out primary ++ concat msgs ++ last /\
    map pf_payload (w_accepted w) `sublist_of` msgs /\
    c_out (ps_conn (w_sess w)) = c_out (ps_conn s0) ++ d /\
    d `prefix_of` concat (map pf_payload (w_accepted w)) /\
    (w_caller w = CJoined -> w_closeCh w = false -> ps_dead (w_sess w) = false ->
     d = concat (map pf_payload (w_accepted w)) /\ (queryFilter = None -> w_refused w = [] -> d = concat msgs)).
Proof.
  intros Hr Hw. unfold PgProxy.runQueryLoop in Hr.
  apply PgProxy.query_loop_gives in Hr as (msgs & last & (_ & Ho & Hne & g & Hg & Hs & He) & _); [|done].
  cbn [PgProxy.pl_primary PgProxy.pl_mirrored app] in Ho, Hg. rewrite Hg in Hw.
  pose proof (w_calls_accepted _ _ _ _ _ _ Hw) as Ha.
  assert (Has : map pf_payload (w_accepted w) `sublist_of` map pf_payload g) by (by apply (fmap_sublist pf_payload)).
  assert (Hfr : Forall (fun f => pf_payload f <> []) (w_accepted w)).
  { rewrite !Forall_forall in *. intros f Hf. apply Hne, list_elem_of_In. eapply elem_of_sublist; [|exact Hs].
    eapply elem_of_sublist; [|exact Has]. apply list_elem_of_In. by apply in_map. }
  destruct (delivered_prefix cap s0 w (w_calls_reachable _ _ _ _ _ _ Hw) Hfr) as (d & Hd & Hp & Hj).
  exists msgs, last, d. split_and!; [done|by etransitivity|done|done|].
  intros Hjo Hc Hde. specialize (Hj Hjo Hc Hde). split; [done|]. intros Hf Hrf.
  destruct (w_calls_joined _ _ _ _ _ _ Hw Hjo) as (_ & _ & Hall). by rewrite Hj, (Hall Hrf), (He Hf).
Qed.

(** ** Witnesses *)

(** A queue of one: the first request is accepted, the second refused, and [Close]
    drains the first. *)
Section one_place.
Context {Req Sess : Type} (process : timing -> Req -> Sess -> Sess) (dead : Sess -> bool).

Definition two_sends (r1 r2 : Req) (s0 : Sess) : Worker Req Sess :=
  send_select 1 r2 (send_check dead r2 (send_select 1 r1 (send_check dead r1 (NewWorker s0)))).
Definition drained (r1 r2 : Req) (s0 : Sess) : Worker Req Sess :=
  let w := set_worker (close_begin (two_sends r1 r2 s0)) WDrain in
  close_end (set_worker (finish_request process now0 r1 true (check_close r1 true (take_request r1 [] true w))) WDone).

Lemma drained_calls r1 r2 s0 :
  dead s0 = false -> w_calls 1 process dead s0 [r1; r2] (drained r1 r2 s0).
Proof.
  intros Hd.
  assert (Hc : forall (r : Req) (w : Worker Req Sess), w_sess w = s0 -> w_closed w = false -> send_check dead r w = set_caller w (CSending r))
    by (intros r w E1 E2; unfold send_check; by rewrite E1, E2, Hd).
  assert (E : two_sends r1 r2 s0 = MkWorker [r1] s0 false false false false WLoop CIdle [r1] [r2] [] [])
    by (unfold two_sends; rewrite (Hc r1 (NewWorker s0)) by done; by rewrite Hc).
  assert (Ht : w_calls 1 process dead s0 [r1; r2] (two_sends r1 r2 s0)).
  { unfold two_sends. pose proof (Hc r1 (NewWorker s0) eq_refl eq_refl) as E1.
    pose proof (Hc r2 (send_select 1 r1 (send_check dead r1 (NewWorker s0)))) as E2. rewrite E1 in E2.
    specialize (E2 eq_refl eq_refl).
    eapply wc_step; [apply (wc_send _ _ _ _ r2 [r1])|apply ws_send_select; by rewrite E1, E2|by rewrite E1, E2].
    - eapply wc_step; [by apply (wc_send _ _ _ _ r1 []); [constructor|]|apply ws_send_select; by rewrite E1|by rewrite E1].
    - by rewrite E1. }
  unfold drained. cbv zeta. rewrite E in *.
  eapply wc_step; [|by apply ws_close_done|done]. eapply wc_step; [|by apply ws_drained|done].
  eapply wc_step; [|by apply (ws_finish _ _ _ now0 r1 true)|done]. eapply wc_step; [|by apply (ws_check _ _ _ r1 true)|done].
  eapply wc_step; [|by apply (ws_drain_take _ _ _ r1 [])|done]. eapply wc_step; [|by apply ws_drain|done].
  eapply wc_step; [exact Ht|by apply ws_close_begin|by left].
Qed.
End one_place.

Definition sent_requests : list QueryRequest := Proxy.ml_mirrored Proxy.mysql_run.2.
Definition no_request : QueryRequest := MkRequest [] [] [] [] [] [] 0.
Definition mysql_drained : Worker QueryRequest (ShadowSession (list bytes)) :=
  drained mysql_process (fun _ => false) (nth 0 sent_requests no_request) (nth 1 sent_requests no_request) worker_start.

(** Of the two commands the loop mirrors the first reaches the shadow. *)
Lemma mysql_shadow_end_to_end_witness :
  length (w_refused mysql_drained) = 1 /\
  c_out (ss_conn (w_sess mysql_drained)) = concat Proxy.ok_query /\
  exists packets last last_id sent log,
    let cmds := Proxy.commands_from (H := literal_regexp) (fun r => r) (Some exclude_filter) Proxy.env0 Proxy.client_addr 0 packets in
    let allowed := List.filter Proxy.h_mirrored cmds in
    c_out (Proxy.ml_primary Proxy.mysql_run.2) = [] ++ concat packets ++ last /\
    (Proxy.considered_all (Some Proxy.Quit) = true -> last = []) /\ Proxy.last_of Proxy.env0 0 packets last_id /\
    sent `sublist_of` allowed /\
    length sent + length (w_refused mysql_drained) = length allowed /\
    (w_refused mysql_drained = [] -> sent = allowed) /\
    c_out (ss_conn (w_sess mysql_drained)) = [] ++ concat (map Proxy.h_packet sent) /\
    ss_log (w_sess mysql_drained) = [] ++ log /\ map le_QueryID log = map Proxy.h_id sent /\
    (true = true ->
     Proxy.entry_ids Proxy.primary_target (Proxy.ml_log Proxy.mysql_run.2) = map Proxy.h_id cmds ++ last_id /\
     Proxy.entry_ids shadow (Proxy.ml_log Proxy.mysql_run.2)
     = map Proxy.h_id (List.filter (fun h => negb (Proxy.h_mirrored h)) cmds)).
Proof.
  split; [vm_compute; reflexivity|]. split; [vm_compute; reflexivity|].
  apply (mysql_shadow_end_to_end (H := literal_regexp) (R := list bytes) (R' := list bytes) (fun r => r)
    (Some exclude_filter) true Proxy.env0 Proxy.client_addr
    Proxy.mysql_client_stream (MkConn [] [] []) Proxy.mysql_primary_stream (MkConn [] [] []) Proxy.Quit
    Proxy.mysql_run.2 1 worker_start mysql_drained).
  - vm_compute. reflexivity.
  - by repeat constructor.
  - reflexivity.
  - assert (Proxy.ml_mirrored Proxy.mysql_run.2 = [nth 0 sent_requests no_request; nth 1 sent_requests no_request]) as ->
      by (vm_compute; reflexivity).
    by apply drained_calls.
  - reflexivity.
  - vm_compute. reflexivity.
Defined.

Definition sent_frames : list pgShadowFrame := PgProxy.pl_mirrored PgProxy.loop_run.2.
Definition no_frame : pgShadowFrame := MkFrame no_request [] false.
Definition pg_session_start : PgSession := MkPgSession (MkConn [] [] []) false [] [].
Definition pg_drained : Worker pgShadowFrame PgSession :=
  drained pg_process ps_dead (nth 0 sent_frames no_frame) (nth 1 sent_frames no_frame) pg_session_start.

Lemma pg_shadow_end_to_end_witness :
  length (w_refused pg_drained) = 1 /\
  exists msgs last d,
    c_out (PgProxy.pl_primary PgProxy.loop_run.2) = [] ++ concat msgs ++ last /\
    map pf_payload (w_accepted pg_drained) `sublist_of` msgs /\
    c_out (ps_conn (w_sess pg_drained)) = [] ++ d /\
    d `prefix_of` concat (map pf_payload (w_accepted pg_drained)) /\
    (w_caller pg_drained = CJoined -> w_closeCh pg_drained = false -> ps_dead (w_sess pg_drained) = false ->
     d = concat (map pf_payload (w_accepted pg_drained)) /\
     (Some exclude_filter = None -> w_refused pg_drained = [] -> d = concat msgs)).
Proof.
  split; [vm_compute; reflexivity|].
  apply (pg_shadow_end_to_end (H := literal_regexp) (fun r => r) (Some exclude_filter) true PgProxy.env0
    (B "10.0.0.1:5000") (MkConn PgProxy.client_stream [] []) (MkConn PgProxy.primary_stream [] [])
    (PgProxy.ClientReadEnd ErrEOF) PgProxy.loop_run.2 1 pg_session_start pg_drained).
  - vm_compute. reflexivity.
  - assert (PgProxy.pl_mirrored PgProxy.loop_run.2 = [nth 0 sent_frames no_frame; nth 1 sent_frames no_frame]) as ->
      by (vm_compute; reflexivity).
    by apply drained_calls.
Defined.
