(* ===== verification/PgLog.v ===== *)
(** * The query log of a pgwire connection (src/pg_proxy.go)

    Which records the request loop of file PgProxy writes, and how they correspond to
    the messages of the client and to the frames given to the shadow worker: what the
    comparison of primary and shadow relies on. *)

From stdpp Require Import relations.
From S2P Require Import Prelude GoNet MySQLProtocol PgProtocol QueryLogger QueryFilter WorkerLifecycle PgShadowWorker PgProxy EndToEnd.

(** The ids of the records for a target, in order. *)
Definition target_ids (target : bytes) (log : list QueryLogEntry) : list bytes :=
  map le_QueryID (List.filter (fun en => bool_decide (le_Target en = target)) log).

Lemma target_ids_app target l l' : target_ids target (l ++ l') = target_ids target l ++ target_ids target l'.
Proof. unfold target_ids. by rewrite List.filter_app, map_app. Qed.

(** What became of a message: given to the shadow worker, filtered, or not considered
    for the shadow. *)
Inductive fate := Given | Filtered | NotConsidered.

#[export] Instance fate_eq_dec : EqDecision fate.
Proof. solve_decision. Defined.

Definition with_fate (f : fate) (hs : list (bytes * fate)) : list bytes :=
  map fst (List.filter (fun h => bool_decide (h.2 = f)) hs).

Lemma with_fate_app f hs hs' : with_fate f (hs ++ hs') = with_fate f hs ++ with_fate f hs'.
Proof. unfold with_fate. by rewrite List.filter_app, map_app. Qed.

Section log.
Context `{RegexpLib Regexp} (upper_table : Z -> Z).
Context (queryFilter : option (QueryFilter Regexp)) (has_shadow : bool).
Context (env : nat -> round_env) (clientAddr : bytes).

Abbreviation round := (query_round upper_table queryFilter true has_shadow env clientAddr).
Abbreviation loop := (query_loop upper_table queryFilter true has_shadow env clientAddr).
Abbreviation mirror := (mirror_frame upper_table queryFilter true has_shadow).

(** From [s] to [s'] the messages [hs], by id and fate, were handled. *)
Record logged (s s' : PgLoop) (hs : list (bytes * fate)) : Prop := {
  lg_entries : exists es, pl_log s' = pl_log s ++ es /\
    target_ids primary_target es = map fst hs /\ target_ids shadow_target es = with_fate Filtered hs;
  lg_given : exists fs, pl_mirrored s' = pl_mirrored s ++ fs /\
    map (fun f => qr_ID (pf_req f)) fs = with_fate Given hs;
}.

Lemma logged_nil s s' : pl_log s' = pl_log s -> pl_mirrored s' = pl_mirrored s -> logged s s' [].
Proof. intros El Em. split; exists []; by rewrite app_nil_r. Qed.

Lemma logged_trans s1 s2 s3 hs hs' : logged s1 s2 hs -> logged s2 s3 hs' -> logged s1 s3 (hs ++ hs').
Proof.
  intros [(e1 & E1 & P1 & S1) (f1 & F1 & G1)] [(e2 & E2 & P2 & S2) (f2 & F2 & G2)]. split.
  - exists (e1 ++ e2). rewrite E2, E1, app_assoc, !target_ids_app, with_fate_app, map_app. by rewrite P1, P2, S1, S2.
  - exists (f1 ++ f2). rewrite F2, F1, app_assoc, map_app, with_fate_app. by rewrite G1, G2.
Qed.

(** The record of the primary, after the shadow was considered. *)
Definition considered (s s' : PgLoop) (id : bytes) (f : fate) : Prop :=
  exists es fs, pl_log s' = pl_log s ++ es /\ pl_mirrored s' = pl_mirrored s ++ fs /\
    target_ids primary_target es = [] /\ target_ids shadow_target es = with_fate Filtered [(id, f)] /\
    map (fun f => qr_ID (pf_req f)) fs = with_fate Given [(id, f)].

Lemma mirror_considered t msg req s :
  exists f, considered s (mirror t msg req s) (qr_ID req) f /\
    (f = NotConsidered <-> has_shadow = false \/ pg_Type msg = pgMsgTerminate).
Proof.
  unfold mirror_frame. destruct has_shadow; cbn [andb].
  2: { exists NotConsidered. split; [|tauto]. exists [], []. by rewrite !app_nil_r. }
  case_bool_decide as Ht; cbn [negb].
  { exists NotConsidered. split; [|tauto]. exists [], []. by rewrite !app_nil_r. }
  destruct (shouldMirrorPgFrame _ _ _ _ _) as [[[allowed reason] names] reset]. destruct allowed; cbn [negb].
  - exists Given. split; [|split; [done|by intros [|]]]. exists []. eexists [_]. cbn [pl_log pl_mirrored]. by rewrite app_nil_r.
  - exists Filtered. split; [|split; [done|by intros [|]]]. unfold logFilteredShadow. eexists [_], [].
    cbn [pl_log pl_mirrored]. by rewrite app_nil_r.
Qed.

Lemma primary_record_primary t req a b e : target_ids primary_target [execution_entry primary_target t req a b e] = [qr_ID req].
Proof. unfold target_ids. cbn [List.filter]. by rewrite bool_decide_true. Qed.
Lemma primary_record_shadow t req a b e : target_ids shadow_target [execution_entry primary_target t req a b e] = [].
Proof. unfold target_ids. cbn [List.filter]. by rewrite bool_decide_false. Qed.

Lemma considered_logged s s1 s2 id f t req sent recv err :
  considered s s1 id f -> qr_ID req = id ->
  pl_log s2 = logEntry true t req sent recv err (pl_log s1) -> pl_mirrored s2 = pl_mirrored s1 -> logged s s2 [(id, f)].
Proof.
  intros (es & fs & El & Em & Hp & Hs & Hg) Hid E2 M2. unfold logEntry in E2. split.
  - eexists (es ++ [_]). rewrite E2, El, <- app_assoc. split; [reflexivity|].
    rewrite !target_ids_app, Hp, Hs, primary_record_primary, primary_record_shadow, Hid. by rewrite app_nil_r.
  - exists fs. by rewrite M2.
Qed.

Lemma query_round_logged i s ended s' :
  round i s = (Ok ended, s') ->
  logged s s' [] /\ ended <> None \/
  exists f, logged s s' [(e_uuid (env i), f)] /\ (has_shadow = true -> f = NotConsidered -> ended <> None) /\
    (has_shadow = false -> f = NotConsidered).
Proof.
  unfold query_round. destruct (read_message (pl_client s)) as [[msg|e| |] client]; try done.
  2: { intros [= <- <-]. left. split; [by apply logged_nil|done]. }
  cbn [pl_primary pl_log pl_filtered pl_mirrored pl_metrics].
  destruct (conn_write (Bytes msg) (pl_primary s)) as [[n werr] primary].
  destruct werr as [werr|].
  { intros [= <- <-]. right. exists NotConsidered. split; [|done].
    eapply (considered_logged s s _ _ _ _ (pg_request clientAddr (env i) msg)); [|done|reflexivity|done]. exists [], []. by rewrite !app_nil_r. }
  set (req := pg_request clientAddr (env i) msg). match goal with |- context [mirror_frame _ _ _ _ _ _ _ ?x] => set (s1 := x) end.
  destruct (mirror_considered (e_timing (env i)) msg req s1) as (f & Hf & Hn).
  assert (Hc : considered s (mirror (e_timing (env i)) msg req s1) (e_uuid (env i)) f) by exact Hf.
  set (s2 := mirror _ _ _ s1) in *. clearbody s2.
  assert (Hlog : forall s3 sent recv err, pl_log s3 = logEntry true (e_timing (env i)) req sent recv err (pl_log s2) ->
    pl_mirrored s3 = pl_mirrored s2 -> logged s s3 [(e_uuid (env i), f)]).
  { intros s3 sent recv err E3 M3. exact (considered_logged s s2 s3 _ f _ req sent recv err Hc eq_refl E3 M3). }
  assert (Hend : forall x : option loop_end, (pg_Type msg = pgMsgTerminate -> x <> None) ->
    has_shadow = true -> f = NotConsidered -> x <> None).
  { intros x Hx Hs [Hs'|Ht]%Hn; [congruence|by apply Hx]. }
  assert (Hno : has_shadow = false -> f = NotConsidered) by (intros Hs; apply Hn; by left).
  case_bool_decide as Ht.
  { intros [= <- <-]. right. exists f. split; [by eapply Hlog|]. by split; [|exact Hno]. }
  destruct (negb _ && negb _).
  { intros [= <- <-]. right. exists f. split; [by eapply Hlog|]. split; [by apply Hend|exact Hno]. }
  destruct (forwardResponseUntilReady primary client) as [[[[recv copy] [rerr|]]|e| |] [primary' client']]; intros Hr; try done.
  all: injection Hr as <- <-; right; exists f; (split; [by eapply Hlog|]); (split; [by apply Hend|exact Hno]).
Qed.

Lemma query_loop_logged fuel : forall i s why s',
  loop fuel i s = (Ok why, s') ->
  exists hs, logged s s' hs /\ map fst hs = map (fun j => e_uuid (env j)) (List.seq i (length hs)) /\
    (has_shadow = true -> Forall (fun h => h.2 <> NotConsidered) (removelast hs)) /\
    (has_shadow = false -> Forall (fun h => h.2 = NotConsidered) hs).
Proof.
  induction fuel as [|fuel IH]; intros i s why s'; cbn [query_loop]; [done|].
  destruct (round i s) as [[ended|e| |] s1] eqn:Er; cbn [and_then]; try done.
  apply query_round_logged in Er as [[Hl Hne]|(f & Hl & Hend & Hno)].
  { destruct ended as [w|]; [|done]. intros [= <- <-]. exists []. split; [done|]. split; [done|]. by split. }
  destruct ended as [w|].
  { intros [= <- <-]. exists [(e_uuid (env i), f)]. split; [done|]. split; [done|]. split; [by intros _; constructor|].
    intros Hs. constructor; [by apply Hno|constructor]. }
  intros (hs & Hl' & Hid & Hy & Hn)%IH. exists ((e_uuid (env i), f) :: hs).
  split; [by apply (logged_trans s s1 s' [_])|]. split; [cbn; by rewrite Hid|]. split.
  - intros Hs. cbn [removelast]. destruct hs as [|h hs]; [constructor|]. constructor; [|by apply Hy].
    intros Hf. by apply (Hend Hs Hf).
  - intros Hs. constructor; [by apply Hno|by apply Hn].
Qed.

(** The log of a pgwire connection is complete and correlated. With a logger, the
    loop writes one record for the primary per message it handled, in order, under the
    ids drawn for them. With a shadow every message - but the last, if it is Terminate
    or could not be written to the primary - is either given to the shadow worker,
    under the same id, or has exactly one record that says it was filtered, under the
    same id; without a shadow nothing is given and nothing recorded for it. *)
Theorem pg_log_correlated client primary why s :
  runQueryLoop upper_table queryFilter true has_shadow env clientAddr client primary = (Ok why, s) ->
  exists hs,
    map fst hs = map (fun j => e_uuid (env j)) (List.seq 0 (length hs)) /\
    target_ids primary_target (pl_log s) = map fst hs /\
    target_ids shadow_target (pl_log s) = with_fate Filtered hs /\
    map (fun f => qr_ID (pf_req f)) (pl_mirrored s) = with_fate Given hs /\
    (has_shadow = true -> Forall (fun h => h.2 <> NotConsidered) (removelast hs)) /\
    (has_shadow = false -> Forall (fun h => h.2 = NotConsidered) hs).
Proof.
  intros (hs & [(es & El & Hp & Hs) (fs & Em & Hg)] & Hid & Hy & Hn)%query_loop_logged. exists hs.
  cbn [pl_log pl_mirrored app] in El, Em. rewrite El, Em. by split_and!.
Qed.
End log.

(** ** The records of the shadow worker *)

Definition frame_id (f : pgShadowFrame) : bytes := qr_ID (pf_req f).

(** A frame leaves at most one record, and one if the connection is alive afterwards. *)
Lemma pg_process_log t f s :
  pf_payload f <> [] ->
  exists es, ps_log (pg_process t f s) = ps_log s ++ es /\ Forall (fun e => le_Target e = shadow_target) es /\
    map le_QueryID es `sublist_of` [frame_id f] /\
    (ps_dead (pg_process t f s) = false -> ps_dead s = false /\ map le_QueryID es = [frame_id f]).
Proof.
  intros Hne. unfold pg_process, processFrame, frame_id. destruct (ps_dead s) eqn:Ed.
  { exists []. cbn. rewrite app_nil_r. split; [done|]. split; [constructor|]. split; [apply sublist_nil_l|done]. }
  destruct (pf_payload f) as [|ty pl]; [done|]. destruct (conn_write (ty :: pl) (ps_conn s)) as [[n [e|]] c'].
  { eexists [_]. by split_and!; [reflexivity|constructor| |]. }
  destruct (negb (pf_expectsResponse f)); [eexists [_]; by split_and!; [reflexivity|constructor| |]|].
  destruct (read_until_ready_total (S (length (data (c_in c')))) 0%Z (c_in c')) as (m & [e|] & rest & ->);
    [lia|eexists [_]; by split_and!; [reflexivity|constructor| |]..].
Qed.

Lemma pg_run_log trs : forall s,
  Forall (fun tf => pf_payload tf.2 <> []) trs ->
  exists es, ps_log (run pg_process s trs) = ps_log s ++ es /\ Forall (fun e => le_Target e = shadow_target) es /\
    map le_QueryID es `sublist_of` map (fun tf => frame_id tf.2) trs /\
    (ps_dead (run pg_process s trs) = false ->
     ps_dead s = false /\ map le_QueryID es = map (fun tf => frame_id tf.2) trs).
Proof.
  induction trs as [|[t f] trs IH]; intros s Hne.
  { exists []. cbn. rewrite app_nil_r. by split_and!; [|constructor|constructor|]. }
  apply Forall_cons_iff in Hne as [Hf Hne]. cbn [snd] in Hf.
  destruct (pg_process_log t f s Hf) as (e1 & E1 & T1 & S1 & D1).
  destruct (IH (pg_process t f s) Hne) as (e2 & E2 & T2 & S2 & D2).
  exists (e1 ++ e2). change (run pg_process s ((t, f) :: trs)) with (run pg_process (pg_process t f s) trs).
  rewrite E2, E1, app_assoc, map_app. split; [done|]. split; [by apply Forall_app|]. split.
  - change (map _ ((t, f) :: trs)) with ([frame_id f] ++ map (fun tf => frame_id tf.2) trs). by apply sublist_app.
  - intros Hd. destruct (D2 Hd) as [Hd1 ->]. destruct (D1 Hd1) as [Hd0 ->]. done.
Qed.

(** The frames the loop gives to the worker are not empty. *)
Lemma given_not_empty `{RegexpLib Regexp} upper_table queryFilter has_logger env clientAddr client primary why s :
  runQueryLoop upper_table queryFilter has_logger true env clientAddr client primary = (Ok why, s) ->
  Forall (fun f => pf_payload f <> []) (pl_mirrored s).
Proof.
  intros (msgs & last & (_ & _ & Hne & g & Hg & Hs & _) & _)%query_loop_gives; [|done].
  cbn [pl_mirrored app] in Hg. rewrite Hg. rewrite !Forall_forall in *. intros f Hf.
  apply Hne, list_elem_of_In. eapply elem_of_sublist; [|exact Hs]. apply list_elem_of_In. by apply in_map.
Qed.

(** C21: Records of primary and shadow correspond one to one. Every message has exactly
    one record for the primary, and for the shadow - from the loop, if it was filtered,
    or from the worker - at most one, under the same id: in every state of the worker,
    whatever the shadow does, the worker's records are, in order, for messages that were
    given to it. Once [Close] has returned without being forced and the connection did
    not fail, they are for all of them but those that [Send] refused. *)
Theorem pg_records_one_to_one `{RegexpLib Regexp} upper_table queryFilter env clientAddr client primary why s cap s0 w :
  runQueryLoop upper_table queryFilter true true env clientAddr client primary = (Ok why, s) ->
  w_calls cap pg_process ps_dead s0 (pl_mirrored s) w ->
  exists hs records,
    map fst hs = map (fun j => e_uuid (env j)) (List.seq 0 (length hs)) /\
    target_ids primary_target (pl_log s) = map fst hs /\
    target_ids shadow_target (pl_log s) = with_fate Filtered hs /\
    Forall (fun h => h.2 <> NotConsidered) (removelast hs) /\
    ps_log (w_sess w) = ps_log s0 ++ records /\ Forall (fun e => le_Target e = shadow_target) records /\
    map le_QueryID records `sublist_of` with_fate Given hs /\
    (w_caller w = CJoined -> w_closeCh w = false -> ps_dead (w_sess w) = false ->
     length records + length (w_refused w) = length (with_fate Given hs)).
Proof.
  intros Hr Hw. pose proof (given_not_empty _ _ _ _ _ _ _ _ _ Hr) as Hne.
  apply query_loop_logged in Hr as (hs & [(es & El & Hp & Hs) (fs & Em & Hg)] & Hid & Hy & _).
  cbn [pl_log pl_mirrored app] in El, Em. rewrite El. rewrite Em in *.
  pose proof (w_calls_reachable _ _ _ _ _ _ Hw) as Hreach. pose proof (w_calls_accepted _ _ _ _ _ _ Hw) as Ha.
  assert (Hp' : map snd (w_processed w) `sublist_of` fs).
  { etransitivity; [|exact Ha]. rewrite (wi_fifo _ _ _ _ (w_reachable_inv _ _ _ _ _ Hreach)). by apply sublist_inserts_r. }
  destruct (pg_run_log (w_processed w) s0) as (records & Er & Ht & Hi & Hd).
  { apply Forall_frames. rewrite !Forall_forall in *. intros f Hf. apply Hne, list_elem_of_In.
    eapply elem_of_sublist; [|exact Hp']. by apply list_elem_of_In. }
  rewrite <- (wi_sess _ _ _ _ (w_reachable_inv _ _ _ _ _ Hreach)) in Er, Hd.
  exists hs, records. split_and!; [done..|by apply Hy|done|done| |].
  - etransitivity; [exact Hi|]. rewrite <- Hg, <- (map_map snd frame_id). by apply (fmap_sublist frame_id).
  - intros Hj Hc Hal. destruct (Hd Hal) as [_ Hids]. destruct (w_calls_joined _ _ _ _ _ _ Hw Hj) as (_ & Hl & _).
    destruct (w_joined_processed _ _ _ _ _ Hreach Hj Hc) as [E _].
    apply (f_equal length) in Hids, E, Hg. rewrite !length_map in *. lia.
Qed.

(** The session of file PgProxy - a query, a Parse that is filtered, a Sync - with
    distinct ids. *)
Definition pg_log_env (i : nat) : round_env := MkEnv (B (pretty i)) 0 (MkTiming [] 0).
Definition pg_log_run : PgLoop :=
  (runQueryLoop (H := literal_regexp) (fun r => r) (Some exclude_filter) true true pg_log_env (B "10.0.0.1:5000")
    (MkConn client_stream [] []) (MkConn primary_stream [] [])).2.

Lemma pg_log_correlated_witness :
  target_ids primary_target (pl_log pg_log_run) = [B "0"; B "1"; B "2"] /\
  target_ids shadow_target (pl_log pg_log_run) = [B "1"] /\
  exists hs,
    map fst hs = map (fun j => e_uuid (pg_log_env j)) (List.seq 0 (length hs)) /\
    target_ids primary_target (pl_log pg_log_run) = map fst hs /\
    target_ids shadow_target (pl_log pg_log_run) = with_fate Filtered hs /\
    map (fun f => qr_ID (pf_req f)) (pl_mirrored pg_log_run) = with_fate Given hs /\
    (true = true -> Forall (fun h => h.2 <> NotConsidered) (removelast hs)) /\
    (true = false -> Forall (fun h => h.2 = NotConsidered) hs).
Proof.
  split; [by vm_compute|]. split; [by vm_compute|].
  apply (pg_log_correlated (H := literal_regexp) (fun r => r) (Some exclude_filter) true pg_log_env (B "10.0.0.1:5000")
           (MkConn client_stream [] []) (MkConn primary_stream [] []) (ClientReadEnd ErrEOF) pg_log_run).
  vm_compute. reflexivity.
Defined.

(** The worker of file EndToEnd, with these ids: of the two frames given to a queue of
    one the second is refused, and [Close] drains the first. *)
Definition pg_log_worker : Worker pgShadowFrame PgSession :=
  drained pg_process ps_dead (nth 0 (pl_mirrored pg_log_run) no_frame) (nth 1 (pl_mirrored pg_log_run) no_frame)
    pg_session_start.

Lemma pg_records_one_to_one_witness :
  map le_QueryID (ps_log (w_sess pg_log_worker)) = [B "0"] /\ length (w_refused pg_log_worker) = 1 /\
  exists hs records,
    map fst hs = map (fun j => e_uuid (pg_log_env j)) (List.seq 0 (length hs)) /\
    target_ids primary_target (pl_log pg_log_run) = map fst hs /\
    target_ids shadow_target (pl_log pg_log_run) = with_fate Filtered hs /\
    Forall (fun h => h.2 <> NotConsidered) (removelast hs) /\
    ps_log (w_sess pg_log_worker) = ps_log pg_session_start ++ records /\
    Forall (fun e => le_Target e = shadow_target) records /\
    map le_QueryID records `sublist_of` with_fate Given hs /\
    (w_caller pg_log_worker = CJoined -> w_closeCh pg_log_worker = false -> ps_dead (w_sess pg_log_worker) = false ->
     length records + length (w_refused pg_log_worker) = length (with_fate Given hs)).
Proof.
  split; [by vm_compute|]. split; [by vm_compute|].
  apply (pg_records_one_to_one (H := literal_regexp) (fun r => r) (Some exclude_filter) pg_log_env (B "10.0.0.1:5000")
           (MkConn client_stream [] []) (MkConn primary_stream [] []) (ClientReadEnd ErrEOF) pg_log_run 1
           pg_session_start pg_log_worker).
  - vm_compute. reflexivity.
  - assert (pl_mirrored pg_log_run = [nth 0 (pl_mirrored pg_log_run) no_frame; nth 1 (pl_mirrored pg_log_run) no_frame]) as ->
      by (vm_compute; reflexivity).
    by apply drained_calls.
Defined.
