(* ===== verification/Main.v ===== *)
(** * The entry points (src/main.go, src/pg_main.go, [Start] of both proxies)

    From the registration of the metrics through the checks of the configuration,
    the filter, the TLS configurations and the query logger to the listener, with
    every way the process can end on the way; then the accept loop. The health
    checker and the HTTP handlers, which [main] starts in between and nothing waits
    for, are file Health. Files, storage and the network are arguments. *)

From S2P Require Import Prelude GoNet GoStrings GoFloat Config TLSConfig Metrics QueryLogger QueryLogFlush QueryFilter.
From S2P Require Import Proxy ShadowOutage.

(** The fields of [PgProxy] but the filter. *)
Record PgProxy (Cert Pool : Type) := MkPgProxy {
  pp_config : Config;
  pp_primaryAddr : bytes;
  pp_listenerTLS : option (tls_config Cert Pool);
  pp_backendTLS : option (tls_config Cert Pool);
}.
Arguments MkPgProxy {_ _} _ _ _ _.
Arguments pp_config {_ _} _.
Arguments pp_primaryAddr {_ _} _.
Arguments pp_listenerTLS {_ _} _.
Arguments pp_backendTLS {_ _} _.

Definition NewPgProxy {Cert Pool} (config : Config) (listenerTLS backendTLS : option (tls_config Cert Pool))
    : PgProxy Cert Pool :=
  MkPgProxy config (host_port (PrimaryHost config) (PrimaryPort config)) listenerTLS backendTLS.

(** What start-up comes to: [log.Fatal] with its text, a panic (of [main] or of the
    flush goroutine), or a proxy in its accept loop, with its filter and logger. *)
Inductive startup (Cert Pool Regexp : Type) :=
  | Fatal (e : error)
  | Crash
  | ServingMySQL (p : TCPProxy Cert Pool) (queryFilter : option (QueryFilter Regexp)) (queryLogger : option QueryLoggerConfig)
  | ServingPg (p : PgProxy Cert Pool) (queryFilter : option (QueryFilter Regexp)) (queryLogger : option QueryLoggerConfig).
Arguments Fatal {_ _ _} _.
Arguments Crash {_ _ _}.
Arguments ServingMySQL {_ _ _} _ _ _.
Arguments ServingPg {_ _ _} _ _ _.

Definition is_serving {Cert Pool Regexp} (s : startup Cert Pool Regexp) : bool :=
  match s with ServingMySQL _ _ _ | ServingPg _ _ _ => true | _ => false end.

Section main.
Context {Cert Pool : Type}.
Context (LoadX509KeyPair : bytes -> bytes -> Cert + error) (ReadFile : bytes -> bytes + error).
Context (AppendCertsFromPEM : bytes -> option Pool).
Context `{RegexpLib Regexp} (upper_table lower_table : Z -> Z).
Context (fmt_4f : float64 -> string) (fmt_q : bytes -> string).
Context `{PrometheusRegistry Reg} (storage : storage_lib).
(** [net.Listen] on an address: its error, if any. *)
Context (Listen : bytes -> option error).

(** The block of both entry points that creates and starts the query logger: a logger
    that cannot be created is done without. *)
Definition start_logger (config : Config) (s : bool * Reg) : result (option QueryLoggerConfig) * list metric :=
  if bool_decide (QueryLogGCSBucket config <> []) then
    match OpenQueryLogger storage config s with
    | (Ok cfg, _, ms) => match flushLoop_start cfg with Ok _ => (Ok (Some cfg), ms) | _ => (Panic, ms) end
    | (Err _, _, ms) => (Ok None, ms)
    | (Panic, _, ms) => (Panic, ms)
    | (Stuck, _, ms) => (Stuck, ms)
    end
  else (Ok None, []).

(** [Start] up to its accept loop. *)
Definition start_listener (config : Config) : result unit :=
  match Listen (ListenAddr config) with
  | Some err => Err (ErrWrap "failed to start listener" err)
  | None => Ok tt
  end.

Definition runPostgresProxy (config : Config) (s : bool * Reg) : startup Cert Pool Regexp :=
  match loadListenerTLSConfig LoadX509KeyPair config with
  | Err err => Fatal (ErrWrap "Listener TLS config" err)
  | Ok listenerTLSConfig =>
      match loadBackendTLSConfig ReadFile AppendCertsFromPEM config with
      | Err err => Fatal (ErrWrap "Backend TLS config" err)
      | Ok backendTLSConfig =>
          match NewQueryFilter upper_table lower_table fmt_4f fmt_q config with
          | inr err => Fatal (ErrWrap "Failed to create query filter" err)
          | inl queryFilter =>
              match start_logger config s with
              | (Ok queryLogger, _) =>
                  let proxy := NewPgProxy config listenerTLSConfig backendTLSConfig in
                  match start_listener config with
                  | Ok _ => ServingPg proxy queryFilter queryLogger
                  | Err err => Fatal err
                  | _ => Crash
                  end
              | _ => Crash
              end
          end
      | _ => Crash
      end
  | _ => Crash
  end.

(** [main], after [init]. *)
Definition main (config : Config) (s : bool * Reg) : startup Cert Pool Regexp :=
  if bool_decide (PrimaryHost config = []) then Fatal (ErrMsg "PRIMARY_HOST is required")
  else if isPostgresProtocol lower_table (Protocol config) then runPostgresProxy config s
  else if bool_decide (ShadowHost config = []) then Fatal (ErrMsg "SHADOW_HOST is required")
  else
    match NewQueryFilter upper_table lower_table fmt_4f fmt_q config with
    | inr err => Fatal (ErrWrap "Failed to create query filter" err)
    | inl queryFilter =>
        match NewTCPProxy LoadX509KeyPair config with
        | Err err => Fatal (ErrWrap "Failed to create proxy" err)
        | Ok proxy =>
            match start_logger config s with
            | (Ok queryLogger, _) =>
                match start_listener config with
                | Ok _ => ServingMySQL proxy queryFilter queryLogger
                | Err err => Fatal err
                | _ => Crash
                end
            | _ => Crash
            end
        | _ => Crash
        end
    end.

(** The process: [init] of src/metrics.go, then [main] with the loaded configuration. *)
Definition process (config : Config) : startup Cert Pool Regexp :=
  match init reg_empty with
  | (Ok _, r) => main config (false, r)
  | _ => Crash
  end.

(** ** What start-up depends on *)

(** The sizes of the query logger, when it is used. *)
Definition logger_sizes_ok (config : Config) : Prop :=
  QueryLogGCSBucket config <> [] ->
  (0 <= QueryLogBufferSize config /\ 0 <= QueryLogBatchSize config /\ 0 < QueryLogFlushInterval config)%Z.

Definition filter_ok (config : Config) : Prop :=
  exists f, NewQueryFilter upper_table lower_table fmt_4f fmt_q config = inl f.

(** The key pair and the CA file that the settings of the protocol ask for. *)
Definition listener_files_ok (config : Config) : Prop :=
  TLSEnabled config = true -> exists cert, LoadX509KeyPair (TLSCertFile config) (TLSKeyFile config) = inl cert.
Definition ca_file_ok (config : Config) : Prop :=
  PrimaryTLSEnabled config = true -> PrimaryTLSCAFile config <> [] ->
  exists pem pool, ReadFile (PrimaryTLSCAFile config) = inl pem /\ AppendCertsFromPEM pem = Some pool.

Lemma start_logger_ok config r :
  logger_sizes_ok config -> init reg_empty = (Ok tt, r) ->
  exists logger ms, start_logger config (false, r) = (Ok logger, ms) /\
    (logger = None <-> QueryLogGCSBucket config = [] \/ is_Some (NewClient storage) \/
                       is_Some (BucketAttrs storage (QueryLogGCSBucket config))).
Proof.
  intros Hs Hr. unfold start_logger. case_bool_decide as Hb.
  2: { do 2 eexists. split; [done|]. split; [|done]. intros _. by left. }
  destruct (Hs Hb) as (H1 & H2 & H3). unfold OpenQueryLogger, registerQueryLoggerMetrics.
  destruct init_registers as (r0 & r' & E & _ & E' & _). rewrite Hr in E. injection E as <-. rewrite E'.
  destruct (NewClient storage) as [e|]; [do 2 eexists; split; [done|]; split; [eauto|done]|].
  destruct (BucketAttrs storage _) as [e|] eqn:Ea; [do 2 eexists; split; [done|]; split; [eauto|done]|].
  rewrite make_chan_ok by done. unfold flushLoop_start. cbn [lc_FlushInterval lc_BatchSize].
  rewrite (proj2 (Z.leb_gt _ _)), (proj2 (Z.ltb_ge _ _)) by done.
  do 2 eexists. split; [done|]. split; [done|]. intros [?|[[? ?]|[? ?]]]; done.
Qed.

Lemma loadListenerTLSConfig_ok config :
  (exists c, loadListenerTLSConfig (Pool := Pool) LoadX509KeyPair config = Ok c) /\ listener_files_ok config \/
  (exists e, loadListenerTLSConfig (Pool := Pool) LoadX509KeyPair config = Err e) /\ ~ listener_files_ok config.
Proof.
  unfold loadListenerTLSConfig, listener_files_ok. destruct (TLSEnabled config); cbn [negb]; [|left; split; [eauto|done]].
  destruct (LoadX509KeyPair _ _) as [cert|e] eqn:E; [left; eauto|right; split; [eauto|]].
  intros Hc. by destruct (Hc eq_refl).
Qed.

Lemma NewTCPProxy_ok config :
  (exists p, NewTCPProxy (Pool := Pool) LoadX509KeyPair config = Ok p) /\ listener_files_ok config \/
  (exists e, NewTCPProxy (Pool := Pool) LoadX509KeyPair config = Err e) /\ ~ listener_files_ok config.
Proof.
  unfold NewTCPProxy, mysql_listener_tls, listener_files_ok. destruct (TLSEnabled config); [|left; split; [eauto|done]].
  destruct (LoadX509KeyPair _ _) as [cert|e] eqn:E; [left; eauto|right; split; [eauto|]].
  intros Hc. by destruct (Hc eq_refl).
Qed.

Lemma loadBackendTLSConfig_ok config :
  (exists c, loadBackendTLSConfig (Cert := Cert) ReadFile AppendCertsFromPEM config = Ok c) /\ ca_file_ok config \/
  (exists e, loadBackendTLSConfig (Cert := Cert) ReadFile AppendCertsFromPEM config = Err e) /\ ~ ca_file_ok config.
Proof.
  unfold loadBackendTLSConfig, ca_file_ok. destruct (PrimaryTLSEnabled config); cbn [negb]; [|left; split; [eauto|done]].
  case_bool_decide as Hf; [|left; split; [eauto|done]].
  destruct (ReadFile _) as [pem|e] eqn:Er; [|right; split; [eauto|]; intros Hc; by destruct (Hc eq_refl Hf) as (? & ? & ? & ?)].
  destruct (AppendCertsFromPEM pem) as [pool|] eqn:Ea; [left; split; eauto|right; split; [eauto|]].
  intros Hc. destruct (Hc eq_refl Hf) as (? & ? & [= <-] & ?). congruence.
Qed.

Lemma start_listener_ok config :
  start_listener config = Ok tt /\ Listen (ListenAddr config) = None \/
  (exists e, start_listener config = Err e) /\ Listen (ListenAddr config) <> None.
Proof. unfold start_listener. destruct (Listen _); [right|left]; eauto. Qed.

Lemma filter_ok_cases config :
  (exists f, NewQueryFilter upper_table lower_table fmt_4f fmt_q config = inl f) /\ filter_ok config \/
  (exists e, NewQueryFilter upper_table lower_table fmt_4f fmt_q config = inr e) /\ ~ filter_ok config.
Proof.
  unfold filter_ok. destruct (NewQueryFilter _ _ _ _ config) as [f|e]; [left; eauto|right]. split; [eauto|]. by intros [? ?].
Qed.

(** The outcome, given the logger: it serves exactly when every check passes. *)
Lemma runPostgresProxy_serves config s logger ms :
  start_logger config s = (Ok logger, ms) ->
  runPostgresProxy config s <> Crash /\
  (is_serving (runPostgresProxy config s) = true <->
     filter_ok config /\ listener_files_ok config /\ Listen (ListenAddr config) = None /\ ca_file_ok config).
Proof.
  intros Hl. unfold runPostgresProxy. rewrite Hl.
  destruct (loadListenerTLSConfig_ok config) as [[[c ->] ?]|[[e ->] ?]]; [|split; [done|split; [done|tauto]]].
  destruct (loadBackendTLSConfig_ok config) as [[[b ->] ?]|[[e ->] ?]]; [|split; [done|split; [done|tauto]]].
  destruct (filter_ok_cases config) as [[[f ->] ?]|[[e ->] ?]]; [|split; [done|split; [done|tauto]]].
  destruct (start_listener_ok config) as [[-> ?]|[[e ->] ?]]; split; [done|split; [tauto|done]|done|split; [done|tauto]].
Qed.

Lemma main_serves config s logger ms :
  start_logger config s = (Ok logger, ms) ->
  main config s <> Crash /\
  (is_serving (main config s) = true <->
     PrimaryHost config <> [] /\ filter_ok config /\ listener_files_ok config /\ Listen (ListenAddr config) = None /\
     (if isPostgresProtocol lower_table (Protocol config) then ca_file_ok config else ShadowHost config <> [])).
Proof.
  intros Hl. unfold main. case_bool_decide; [split; [done|split; [done|tauto]]|].
  destruct (isPostgresProtocol _ _).
  { destruct (runPostgresProxy_serves _ _ _ _ Hl) as [Hc ->]. split; [done|tauto]. }
  case_bool_decide; [split; [done|split; [done|tauto]]|]. rewrite Hl.
  destruct (filter_ok_cases config) as [[[f ->] ?]|[[e ->] ?]]; [|split; [done|split; [done|tauto]]].
  destruct (NewTCPProxy_ok config) as [[[c ->] ?]|[[e ->] ?]]; [|split; [done|split; [done|tauto]]].
  destruct (start_listener_ok config) as [[-> ?]|[[e ->] ?]]; split; [done|split; [tauto|done]|done|split; [done|tauto]].
Qed.

(** ** Properties *)

(** C33: What the process needs to start. With sensible sizes for the query logger (or
    without one) start-up never panics, and it ends in the accept loop exactly when
    PRIMARY_HOST is set, the filter settings are valid, the listener's key pair loads
    if TLS is on, the address can be listened on and - for pgwire - the CA file is
    usable if one is configured or - for MySQL - SHADOW_HOST is set. Whether object
    storage can be reached plays no part: a logger that cannot be created is done
    without. *)
Theorem process_starts_iff config :
  logger_sizes_ok config ->
  process config <> Crash /\
  (is_serving (process config) = true <->
     PrimaryHost config <> [] /\ filter_ok config /\ listener_files_ok config /\ Listen (ListenAddr config) = None /\
     (if isPostgresProtocol lower_table (Protocol config) then ca_file_ok config else ShadowHost config <> [])).
Proof.
  intros Hs. unfold process. destruct init_registers as (r & _ & Hr & _). rewrite Hr.
  destruct (start_logger_ok config r Hs Hr) as (logger & ms & Hl & _). by apply (main_serves _ _ logger ms).
Qed.

(** Sizes are used unchecked. When the query logger is configured and its bucket
    can be reached, a negative buffer or batch size or a flush interval that is not
    positive - as a very large one may become by wrap-around - makes the process
    panic at start-up if nothing else stopped it; and with a negative SHADOW_QUEUE_SIZE
    it starts, and the first client whose login succeeds makes it panic. *)
Theorem unchecked_sizes_panic config :
  (QueryLogGCSBucket config <> [] -> NewClient storage = None ->
   BucketAttrs storage (QueryLogGCSBucket config) = None -> ~ logger_sizes_ok config ->
   is_serving (process config) = false) /\
  ((ShadowQueueSize config < 0)%Z ->
   forall has_logger (queryFilter : option (QueryFilter Regexp)) tls_client env clientAddr client primary shadow_dial s,
     forwardMySQLHandshake (client, primary) = (Ok tt, s) ->
     (handleConnection upper_table queryFilter has_logger None tls_client config env clientAddr client (inl primary)
        shadow_dial).1.1 = Panic).
Proof.
  split.
  - intros Hb Hn Ha Hs. unfold process. destruct init_registers as (r & r' & -> & _ & E' & _).
    assert (Hl : exists ms, start_logger config (false, r) = (Panic, ms)).
    { unfold start_logger. rewrite bool_decide_true by done. unfold OpenQueryLogger, registerQueryLoggerMetrics.
      rewrite E', Hn, Ha. unfold make_chan. destruct (Z.ltb_spec (QueryLogBufferSize config) 0); [eauto|].
      unfold flushLoop_start. cbn [lc_FlushInterval lc_BatchSize].
      destruct (Z.leb_spec (QueryLogFlushInterval config) 0); [eauto|].
      destruct (Z.ltb_spec (QueryLogBatchSize config) 0); [eauto|]. by destruct Hs. }
    destruct Hl as [ms Hl]. unfold main, runPostgresProxy. rewrite Hl. by repeat case_match.
  - intros Hq has_logger queryFilter tls_client env clientAddr client primary shadow_dial s Hf.
    unfold handleConnection, establish. rewrite Hf. destruct s. unfold NewShadowWorker, make_chan.
    by rewrite (proj2 (Z.ltb_lt _ _)).
Qed.
End main.

(** ** The accept loop *)

(** What the listener and the context bring: a connection, an error of [Accept], the
    cancellation (a signal), after which the listener is closed. *)
Inductive accept_event :=
  | Accepted (conn : Conn)
  | AcceptError (e : error)
  | CtxDone.

(** The [for] loop of [Start] of both proxies: the connections a handler was started
    for, and whether it has returned. *)
Fixpoint accept_loop (done : bool) (evs : list accept_event) : list Conn * bool :=
  match evs with
  | [] => ([], false)
  | CtxDone :: evs => accept_loop true evs
  | Accepted conn :: evs => let '(conns, returned) := accept_loop done evs in (conn :: conns, returned)
  | AcceptError _ :: evs => if done then ([], true) else accept_loop done evs
  end.

Definition Start (Listen : bytes -> option error) (config : Config) (evs : list accept_event)
    : result (list Conn * bool) :=
  match start_listener Listen config with
  | Ok _ => Ok (accept_loop false evs)
  | Err e => Err e
  | Panic => Panic
  | Stuck => Stuck
  end.

Definition is_done (ev : accept_event) : bool := match ev with CtxDone => true | _ => false end.
Definition is_error (ev : accept_event) : bool := match ev with AcceptError _ => true | _ => false end.
Definition accepted (evs : list accept_event) : list Conn :=
  omap (fun ev => match ev with Accepted c => Some c | _ => None end) evs.

Lemma accept_loop_running evs rest :
  existsb is_done evs = false ->
  accept_loop false (evs ++ rest) = (accepted evs ++ (accept_loop false rest).1, (accept_loop false rest).2).
Proof.
  induction evs as [|[c|e|] evs IH]; intros Hd; cbn in *; [by destruct (accept_loop false rest)| |by apply IH|done].
  by rewrite IH.
Qed.

Lemma accept_loop_stopping evs rest :
  existsb is_error evs = false ->
  accept_loop true (evs ++ rest) = (accepted evs ++ (accept_loop true rest).1, (accept_loop true rest).2).
Proof.
  induction evs as [|[c|e|] evs IH]; intros Hd; cbn in *; [by destruct (accept_loop true rest)| |done|by apply IH].
  by rewrite IH.
Qed.

(** Every connection is served and only a shutdown ends the service. Until the
    context is cancelled [Start] starts one handler for each accepted connection, in
    order, and no error of [Accept] makes it return; after the cancellation it returns
    without an error at the first error of [Accept], which closing the listener
    brings about, and has by then started a handler for everything accepted. *)
Theorem Start_serves_until_cancelled Listen config before after e rest :
  Listen (ListenAddr config) = None ->
  existsb is_done before = false -> existsb is_error after = false ->
  Start Listen config before = Ok (accepted before, false) /\
  Start Listen config (before ++ CtxDone :: after ++ AcceptError e :: rest)
  = Ok (accepted before ++ accepted after, true).
Proof.
  intros Hl Hb Ha. unfold Start, start_listener. rewrite Hl. split.
  - pose proof (accept_loop_running before [] Hb) as E. rewrite !app_nil_r in E. by rewrite E.
  - rewrite accept_loop_running by done. cbn [accept_loop]. rewrite accept_loop_stopping by done.
    cbn [accept_loop fst snd]. by rewrite app_nil_r.
Qed.

(** ** Examples and witnesses *)

(** An environment in which these variables are set. *)
Definition environment (vars : list (string * string)) (key : bytes) : bytes :=
  match List.find (fun kv => bool_decide (B kv.1 = key)) vars with Some kv => B kv.2 | None => [] end.

Definition started (vars : list (string * string)) (storage : storage_lib) : startup unit unit bytes :=
  process (fun _ _ => inr (ErrConn "no such file")) (fun _ => inr (ErrConn "no such file")) (fun _ => None)
    (H := literal_regexp) (fun r => r) (fun r => r) (fun _ => EmptyString) (fun _ => EmptyString)
    (Reg := list string) storage (fun _ => None) (loadConfig (environment vars) (fun r => r) (fun _ => None)).

Definition no_storage : storage_lib := MkStorage (Some (ErrConn "no credentials")) (fun _ => None).
Definition good_storage : storage_lib := MkStorage None (fun _ => None).

Definition mysql_vars : list (string * string) :=
  [("PRIMARY_HOST", "fe-1"); ("SHADOW_HOST", "fe-2"); ("QUERY_LOG_GCS_BUCKET", "logs")].

(** Two hosts are all that must be set; storage may be away. *)
Lemma process_starts_iff_witness :
  started mysql_vars no_storage <> Crash /\ is_serving (started mysql_vars no_storage) = true.
Proof.
  destruct (process_starts_iff (fun _ _ => inr (ErrConn "no such file")) (fun _ => inr (ErrConn "no such file"))
    (fun _ => None) (H := literal_regexp) (Cert := unit) (Pool := unit) (fun r => r) (fun r => r) (fun _ => EmptyString)
    (fun _ => EmptyString) (Reg := list string) no_storage (fun _ => None)
    (loadConfig (environment mysql_vars) (fun r => r) (fun _ => None))) as [H1 H2].
  - intros _. by vm_compute.
  - split; [exact H1|]. apply H2. split; [by vm_compute|]. split; [by eexists; vm_compute|].
    split; [by vm_compute|]. split; [by vm_compute|]. vm_compute. done.
Defined.

Example mysql_needs_shadow : started [("PRIMARY_HOST", "fe-1")] no_storage = Fatal (ErrMsg "SHADOW_HOST is required").
Proof. by vm_compute. Qed.
Example pg_needs_no_shadow :
  is_serving (started [("PRIMARY_HOST", "alloy-1"); ("PROTOCOL", "Postgres")] no_storage) = true.
Proof. by vm_compute. Qed.

(** A flush interval of some 300 years, and a queue of size -1. *)
Definition unchecked_vars : list (string * string) :=
  mysql_vars ++ [("QUERY_LOG_FLUSH_INTERVAL_SECONDS", "9500000000"); ("SHADOW_QUEUE_SIZE", "-1")].
Definition unchecked_config : Config := loadConfig (environment unchecked_vars) (fun r => r) (fun _ => None).

Lemma unchecked_sizes_panic_witness :
  QueryLogFlushInterval unchecked_config = (-8946744073709551616)%Z /\
  is_serving (started unchecked_vars good_storage) = false /\
  (handleConnection (H := literal_regexp) (fun r => r) None true None None unchecked_config env0 client_addr
     (MkConn (segments [login_41]) [] []) (inl (MkConn (segments [server_handshake; login_ok]) [] []))
     (inr (ErrConn "connection refused"))).1.1 = Panic.
Proof.
  destruct (unchecked_sizes_panic (fun _ _ => inr (ErrConn "no such file")) (fun _ => inr (ErrConn "no such file"))
    (fun _ => None) (H := literal_regexp) (Cert := unit) (Pool := unit) (fun r => r) (fun r => r) (fun _ => EmptyString)
    (fun _ => EmptyString) (Reg := list string) good_storage (fun _ => None) unchecked_config) as [H1 H2].
  split; [by vm_compute|]. split.
  - apply H1; [by vm_compute..|]. intros Hs. destruct Hs as (_ & _ & Hs); [by vm_compute|]. by vm_compute in Hs.
  - eapply H2; by vm_compute.
Defined.

Lemma Start_serves_until_cancelled_witness :
  Start (fun _ => None) unchecked_config [Accepted (MkConn [] [] []); AcceptError (ErrConn "too many open files")]
  = Ok ([MkConn [] [] []], false) /\
  Start (fun _ => None) unchecked_config
    ([Accepted (MkConn [] [] []); AcceptError (ErrConn "too many open files")] ++
     CtxDone :: [Accepted (MkConn [] [] [])] ++ [AcceptError (ErrConn "use of closed network connection")])
  = Ok ([MkConn [] [] []] ++ [MkConn [] [] []], true).
Proof.
  apply (Start_serves_until_cancelled (fun _ => None) unchecked_config
           [Accepted (MkConn [] [] []); AcceptError (ErrConn "too many open files")]
           [Accepted (MkConn [] [] [])] (ErrConn "use of closed network connection") []); reflexivity.
Defined.
