(* ===== verification/Shutdown.v ===== *)
(** * The process from its start to its end (src/main.go, src/pg_main.go)

    Once the set-up of file Main is through, the goroutines of the process are the
    one of [main], which is in the accept loop of [Start] and, when that returns,
    runs the deferred calls; the one waiting for a signal; the one that closes the
    listener; the flush loop of the query logger; and, for every connection, a
    handler and a shadow worker. Both entry points end with the same code. Their
    interleavings are the step relation [p_step], in which the logger moves as in
    file QueryLogger and each worker as in file WorkerLifecycle. A step carries a
    label that tells what the process does by itself in order to end ([Own]) from
    what clients, the network and the clock bring about ([Env]) and from the calls
    of [Log]. When [main] has returned nothing moves any more. *)

From S2P Require Import Prelude GoNet Config QueryLogger WorkerLifecycle Main.
From stdpp Require Import relations.

(** Where [main] is: in [Accept], between an error of [Accept] and the [select]
    after it, past [Start], in [wg.Wait] of the logger's [Close], returned. *)
Inductive main_phase :=
  | MAccept
  | MFailed (e : error)
  | MReturned
  | MClosing
  | MExited.

(** The signal goroutine: receiving, before [cancel()], returned. *)
Inductive signal_phase := SigWait | SigTaken | SigReturned.

#[export] Instance ql_phase_eq_dec : EqDecision ql_phase.
Proof. solve_decision. Defined.
#[export] Instance signal_phase_eq_dec : EqDecision signal_phase.
Proof. solve_decision. Defined.

(** What a step is: the process ending itself, anything from outside, a call of
    [Log]; with the event it is for the accept loop, if it is one. *)
Inductive p_label :=
  | Own (ev : option accept_event)
  | Env (ev : option accept_event)
  | LogCall.

Record Process (Req Sess : Type) := MkProcess {
  p_sigCh : bool;
  p_signal : signal_phase;
  p_ctx : bool;
  p_listener : bool;
  p_main : main_phase;
  p_logger : option QueryLogger;
  p_conns : list Conn;
  p_workers : list (Worker Req Sess);
}.
Arguments MkProcess {_ _} _ _ _ _ _ _ _ _.
Arguments p_sigCh {_ _} _.
Arguments p_signal {_ _} _.
Arguments p_ctx {_ _} _.
Arguments p_listener {_ _} _.
Arguments p_main {_ _} _.
Arguments p_logger {_ _} _.
Arguments p_conns {_ _} _.
Arguments p_workers {_ _} _.

(** ** The moves of the logger, with their labels *)

Section moves.
Context (cfg : QueryLoggerConfig).

Inductive logger_move : p_label -> QueryLogger -> QueryLogger -> Prop :=
  | lm_log entry ql : logger_move LogCall ql (Log cfg entry ql)
  | lm_handoff ok entry ql :
      lc_BufferSize cfg = 0 -> ql_phase_ ql = Flushing -> ql_entries ql = [] ->
      logger_move LogCall ql (on_entry cfg ok entry []
        (MkLogger [] (ql_batch ql) Flushing (ql_written ql) (ql_cancelled ql)
           (ql_queued ql ++ [entry]) (ql_dropped ql)))
  | lm_entry ok entry rest ql :
      ql_phase_ ql = Flushing -> ql_entries ql = entry :: rest ->
      logger_move (Env None) ql (on_entry cfg ok entry rest ql)
  | lm_tick ok ql : ql_phase_ ql = Flushing -> logger_move (Env None) ql (on_tick ok ql)
  | lm_done ql :
      ql_phase_ ql = Flushing -> ql_cancelled ql = true -> logger_move (Own None) ql (on_done ql)
  | lm_drain entry rest ql :
      ql_phase_ ql = Draining -> ql_entries ql = entry :: rest ->
      logger_move (Own None) ql (drain_entry entry rest ql)
  | lm_drained ok ql :
      ql_phase_ ql = Draining -> ql_entries ql = [] -> logger_move (Own None) ql (drain_end ok ql).

(** They are the steps of file QueryLogger but the cancellation, which is [main]'s. *)
Lemma logger_move_step l ql ql' : logger_move l ql ql' -> ql_step cfg ql ql'.
Proof. destruct 1; by econstructor. Qed.

Lemma logger_move_cancelled l ql ql' : logger_move l ql ql' -> ql_cancelled ql' = ql_cancelled ql.
Proof. destruct 1; unfold Log, on_entry, on_tick; by repeat case_match. Qed.
End moves.

(** ** The process *)

Section process.
Context {Req Sess : Type} (cfg : QueryLoggerConfig).
(** The workers' queue size, [processRequest] and [dead], as in file WorkerLifecycle. *)
Context (cap : nat) (serve : timing -> Req -> Sess -> Sess) (dead : Sess -> bool).

Implicit Types s : Process Req Sess.

(** In the accept loop, with the logger running if there is one. *)
Definition NewProcess (has_logger : bool) : Process Req Sess :=
  MkProcess false SigWait false true MAccept (if has_logger then Some NewQueryLogger else None) [] [].

(** *** The signal goroutine and the one that closes the listener *)

(** A signal goes into [sigCh], which has room for one. *)
Definition notify (s : Process Req Sess) : Process Req Sess :=
  MkProcess true (p_signal s) (p_ctx s) (p_listener s) (p_main s) (p_logger s) (p_conns s) (p_workers s).
Definition take_signal (s : Process Req Sess) : Process Req Sess :=
  MkProcess false SigTaken (p_ctx s) (p_listener s) (p_main s) (p_logger s) (p_conns s) (p_workers s).
Definition signal_cancel (s : Process Req Sess) : Process Req Sess :=
  MkProcess (p_sigCh s) SigReturned true (p_listener s) (p_main s) (p_logger s) (p_conns s) (p_workers s).
Definition close_listener (s : Process Req Sess) : Process Req Sess :=
  MkProcess (p_sigCh s) (p_signal s) (p_ctx s) false (p_main s) (p_logger s) (p_conns s) (p_workers s).

(** *** [main] *)

Definition set_main m (s : Process Req Sess) : Process Req Sess :=
  MkProcess (p_sigCh s) (p_signal s) (p_ctx s) (p_listener s) m (p_logger s) (p_conns s) (p_workers s).
(** [go p.handleConnection(conn, logger)]. *)
Definition start_handler conn (s : Process Req Sess) : Process Req Sess :=
  MkProcess (p_sigCh s) (p_signal s) (p_ctx s) (p_listener s) MAccept (p_logger s)
    (p_conns s ++ [conn]) (p_workers s).
(** The [select] after an error of [Accept]. *)
Definition accept_failed (s : Process Req Sess) : Process Req Sess := set_main (if p_ctx s then MReturned else MAccept) s.
(** The deferred calls: [listener.Close()] of [Start], then [cancel()] and, when
    there is a logger, [Close] of it up to its wait. *)
Definition run_deferred (s : Process Req Sess) : Process Req Sess :=
  MkProcess (p_sigCh s) (p_signal s) true false
    (match p_logger s with Some _ => MClosing | None => MExited end)
    (QueryLogger.cancel <$> p_logger s) (p_conns s) (p_workers s).

(** *** The rest *)

Definition set_logger ql (s : Process Req Sess) : Process Req Sess :=
  MkProcess (p_sigCh s) (p_signal s) (p_ctx s) (p_listener s) (p_main s) (Some ql) (p_conns s) (p_workers s).
Definition set_workers ws (s : Process Req Sess) : Process Req Sess :=
  MkProcess (p_sigCh s) (p_signal s) (p_ctx s) (p_listener s) (p_main s) (p_logger s) (p_conns s) ws.

Inductive p_move : Process Req Sess -> p_label -> Process Req Sess -> Prop :=
  | ps_signal s : p_move s (Env None) (notify s)
  | ps_take s : p_signal s = SigWait -> p_sigCh s = true -> p_move s (Own None) (take_signal s)
  | ps_cancel s : p_signal s = SigTaken -> p_move s (Own (Some CtxDone)) (signal_cancel s)
  | ps_close s : p_ctx s = true -> p_listener s = true -> p_move s (Own None) (close_listener s)
  | ps_accept conn s :
      p_main s = MAccept -> p_listener s = true -> p_move s (Env (Some (Accepted conn))) (start_handler conn s)
  | ps_error e s :
      p_main s = MAccept -> p_listener s = true -> p_move s (Env None) (set_main (MFailed e) s)
  | ps_closed e s :
      p_main s = MAccept -> p_listener s = false -> p_move s (Own None) (set_main (MFailed e) s)
  | ps_retry e s :
      p_main s = MFailed e -> p_ctx s = false -> p_move s (Env (Some (AcceptError e))) (accept_failed s)
  | ps_return e s :
      p_main s = MFailed e -> p_ctx s = true -> p_move s (Own (Some (AcceptError e))) (accept_failed s)
  | ps_deferred s : p_main s = MReturned -> p_move s (Own None) (run_deferred s)
  | ps_exit ql s :
      p_main s = MClosing -> p_logger s = Some ql -> ql_phase_ ql = Finished ->
      p_move s (Own None) (set_main MExited s)
  | ps_logger l ql ql' s : p_logger s = Some ql -> logger_move cfg l ql ql' -> p_move s l (set_logger ql' s)
  | ps_spawn sess s :
      length (p_workers s) < length (p_conns s) ->
      p_move s (Env None) (set_workers (p_workers s ++ [NewWorker sess]) s)
  | ps_worker i w w' s :
      p_workers s !! i = Some w -> w_step cap serve dead w w' ->
      p_move s (Env None) (set_workers (<[i:=w']> (p_workers s)) s).

(** When [main] returns, the process is gone. *)
Definition p_step s (l : p_label) s' : Prop := p_main s <> MExited /\ p_move s l s'.

Inductive p_steps : Process Req Sess -> list p_label -> Process Req Sess -> Prop :=
  | p_refl s : p_steps s [] s
  | p_snoc s s' s'' ls l : p_steps s ls s' -> p_step s' l s'' -> p_steps s (ls ++ [l]) s''.

Definition p_reachable has_logger s : Prop := exists ls, p_steps (NewProcess has_logger) ls s.

(** A signal has been sent. *)
Definition signalled s : bool := p_sigCh s || bool_decide (p_signal s <> SigWait).

(** [Start] has returned. *)
Definition start_returned (m : main_phase) : bool :=
  match m with MAccept | MFailed _ => false | _ => true end.

(** *** The invariant *)

Record p_inv (has_logger : bool) s : Prop := {
  pi_logger : forall ql, p_logger s = Some ql -> ql_reachable cfg ql;
  pi_has : bool_decide (is_Some (p_logger s)) = has_logger;
  pi_listener : p_listener s = false -> p_ctx s = true;
  pi_ctx : p_ctx s = bool_decide (p_signal s = SigReturned);
  pi_returned : start_returned (p_main s) = true -> p_ctx s = true;
  pi_cancelled : forall ql, p_logger s = Some ql ->
    ql_cancelled ql = true <-> p_main s = MClosing \/ p_main s = MExited;
  pi_flushing : forall ql, p_logger s = Some ql -> ql_phase_ ql <> Flushing -> ql_cancelled ql = true;
  pi_closing : p_main s = MClosing -> is_Some (p_logger s);
  pi_exited : forall ql, p_logger s = Some ql -> p_main s = MExited -> ql_phase_ ql = Finished;
  pi_workers : Forall (fun w => exists sess, w_reachable cap serve dead sess w) (p_workers s);
  pi_count : length (p_workers s) <= length (p_conns s);
}.

Lemma p_inv_new has_logger : p_inv has_logger (NewProcess has_logger).
Proof.
  split; simpl; try done; destruct has_logger; try done; try (intros ql [= <-]).
  - apply rtc_refl.
  - split; [done|]. by intros [|].
  - done.
Qed.

(** A move of the logger or of a worker keeps what it has of the invariant. *)
Lemma logger_move_phase l ql ql' :
  logger_move cfg l ql ql' -> ql_phase_ ql' <> Flushing -> ql_phase_ ql <> Flushing \/ ql_cancelled ql = true.
Proof.
  destruct 1; unfold Log, on_entry, on_tick; repeat case_match; simpl; intros; try tauto; left; congruence.
Qed.

Lemma logger_move_finished l ql ql' :
  logger_move cfg l ql ql' -> ql_phase_ ql = Finished -> ql_phase_ ql' = Finished.
Proof. destruct 1; unfold Log, on_entry, on_tick; repeat case_match; simpl; congruence. Qed.

Lemma p_inv_logger has_logger l ql ql' s :
  p_inv has_logger s -> p_logger s = Some ql -> logger_move cfg l ql ql' -> p_inv has_logger (set_logger ql' s).
Proof.
  intros [Hl Hh Hn Hc Hr Hk Hf Hm He Hw Hlen] E Hmv.
  pose proof (logger_move_cancelled _ _ _ _ Hmv) as Ek. split; simpl; try done; try (intros _; by eexists).
  - intros ? [= <-]. eapply rtc_r; [by apply Hl|]. by eapply logger_move_step.
  - rewrite <- Hh, E. done.
  - intros ? [= <-]. rewrite Ek. by apply Hk.
  - intros ? [= <-] Hp. rewrite Ek. destruct (logger_move_phase _ _ _ Hmv Hp); [by apply Hf|done].
  - intros ? [= <-] Hx. eapply logger_move_finished; [done|by apply He].
Qed.

Lemma p_inv_move has_logger s l s' : p_inv has_logger s -> p_step s l s' -> p_inv has_logger s'.
Proof.
  intros Hi [Hx Hmv]. destruct Hmv as [s|s H1 H2|s H1|s H1 H2|conn s H1 H2|e s H1 H2|e s H1 H2|e s H1 H2|e s H1 H2|s H1
    |ql s H1 H2 H3|l ql ql' s H1 H2|sess s H1|i w w' s H1 H2]; try (by eapply p_inv_logger);
    destruct Hi as [Hl Hh Hn Hc Hr Hk Hf Hm He Hw Hlen].
  - by split.
  - split; simpl; try done. by rewrite Hc, H1.
  - split; simpl; try done.
  - split; simpl; try done.
  - split; simpl; try done; try (by rewrite H1 in *). rewrite length_app. simpl. lia.
  - split; simpl; try done. intros ql E. rewrite (Hk ql E), H1. split; by intros [|].
  - split; simpl; try done. intros ql E. rewrite (Hk ql E), H1. split; by intros [|].
  - unfold accept_failed. rewrite H2. split; simpl; try done. intros ql E. rewrite (Hk ql E), H1. split; by intros [|].
  - unfold accept_failed. rewrite H2. split; simpl; try done. intros ql E. rewrite (Hk ql E), H1. split; by intros [|].
  - pose proof (Hr ltac:(by rewrite H1)) as Ec. unfold run_deferred.
    destruct (p_logger s) as [ql|] eqn:El; split; simpl; try done; try (by rewrite <- Ec).
    + intros ? [= <-]. eapply rtc_r; [by apply Hl|]. apply step_cancel.
    + intros ? [= <-]. simpl. split; [by left|done].
    + intros ? [= <-]. simpl. done.
  - pose proof (Hr ltac:(by rewrite H1)) as Ec. split; simpl; try done.
    + intros ql' E. rewrite (Hk ql' E), H1. split; [by right|by left].
    + congruence.
  - split; simpl; try done.
    + apply Forall_app. split; [done|]. apply list.Forall_singleton. exists sess. apply rtc_refl.
    + rewrite length_app. simpl. lia.
  - split; simpl; try done; [|by rewrite length_insert].
    apply Forall_insert; [done|]. destruct (proj1 (list.Forall_lookup _ _) Hw _ _ H1) as [sess Hs]. exists sess.
    by eapply rtc_r.
Qed.

Lemma p_inv_steps has_logger s ls s' : p_steps s ls s' -> p_inv has_logger s -> p_inv has_logger s'.
Proof. induction 1; [done|]. intros Hi. eapply p_inv_move; [by apply IHp_steps|done]. Qed.

Lemma p_reachable_inv has_logger s : p_reachable has_logger s -> p_inv has_logger s.
Proof. intros [ls Hls]. eapply p_inv_steps; [done|apply p_inv_new]. Qed.

(** ** How far the end is *)

Definition signal_rank (p : signal_phase) : nat := match p with SigWait => 2 | SigTaken => 1 | SigReturned => 0 end.
Definition main_rank (ctx : bool) (m : main_phase) : nat :=
  match m with MAccept => 5 | MFailed _ => if ctx then 4 else 5 | MReturned => 3 | MClosing => 2 | MExited => 0 end.
Definition logger_rank (ql : QueryLogger) : nat :=
  match ql_phase_ ql with
  | Flushing => 2 + length (ql_entries ql)
  | Draining => 1 + length (ql_entries ql)
  | Finished => 0
  end.
Definition rank s : nat :=
  signal_rank (p_signal s) + (if p_listener s then 1 else 0) + main_rank (p_ctx s) (p_main s) +
  from_option logger_rank 0 (p_logger s).

Definition is_own (l : p_label) : bool := match l with Own _ => true | _ => false end.
Definition is_log (l : p_label) : bool := match l with LogCall => true | _ => false end.
Definition count (f : p_label -> bool) (ls : list p_label) : nat := length (base.filter (fun l => f l = true) ls).

Lemma count_app f ls l : count f (ls ++ [l]) = count f ls + (if f l then 1 else 0).
Proof.
  unfold count. rewrite filter_app, length_app. f_equal. rewrite filter_cons. simpl. by destruct (f l).
Qed.

(** A step of the process's own brings the end closer, a call of [Log] puts it off by
    at most one step, and nothing else puts it off. *)
Lemma logger_move_rank l ql ql' :
  logger_move cfg l ql ql' ->
  logger_rank ql' + (if is_own l then 1 else 0) <= logger_rank ql + (if is_log l then 1 else 0).
Proof.
  destruct 1 as [entry ql|ok entry ql H0 H1 H2|ok entry rest ql H1 H2|ok ql H1|ql H1 H2|entry rest ql H1 H2|ok ql H1 H2];
    unfold logger_rank, Log, on_entry, on_tick; simpl.
  - case_bool_decide; simpl; destruct (ql_phase_ ql); rewrite ?length_app; simpl; lia.
  - destruct (_ <=? _)%Z; simpl; rewrite H1; lia.
  - destruct (_ <=? _)%Z; simpl; rewrite H1, H2; simpl; lia.
  - destruct (ql_batch ql); simpl; rewrite H1; lia.
  - rewrite H1. lia.
  - rewrite H1, H2. simpl. lia.
  - rewrite H1. lia.
Qed.

Lemma rank_step has_logger s l s' :
  p_inv has_logger s -> p_step s l s' ->
  rank s' + (if is_own l then 1 else 0) <= rank s + (if is_log l then 1 else 0).
Proof.
  intros Hi [Hx Hmv]. destruct Hmv as [s|s H1 H2|s H1|s H1 H2|conn s H1 H2|e s H1 H2|e s H1 H2|e s H1 H2|e s H1 H2|s H1
    |ql s H1 H2 H3|l ql ql' s H1 H2|sess s H1|i w w' s H1 H2]; unfold rank, accept_failed, run_deferred; simpl;
    rewrite ?H1, ?H2; simpl; try lia.
  - destruct (p_main s), (p_ctx s); simpl; lia.
  - case_match; lia.
  - rewrite (pi_listener _ _ Hi H2). lia.
  - destruct (p_logger s) as [ql|]; simpl; [|case_match; lia]. unfold logger_rank. simpl. case_match; lia.
  - pose proof (logger_move_rank _ _ _ H2). lia.
Qed.

Lemma rank_bound has_logger s : p_inv has_logger s -> rank s <= 10 + lc_BufferSize cfg.
Proof.
  intros Hi. unfold rank. assert (from_option logger_rank 0 (p_logger s) <= 2 + lc_BufferSize cfg).
  { destruct (p_logger s) as [ql|] eqn:E; simpl; [|lia].
    pose proof (inv_buffer _ _ (ql_reachable_inv _ _ (pi_logger _ _ Hi ql E))). unfold logger_rank. case_match; lia. }
  destruct (p_signal s), (p_listener s), (p_main s), (p_ctx s); simpl; lia.
Qed.

Lemma rank_steps has_logger s ls s' :
  p_inv has_logger s -> p_steps s ls s' -> rank s' + count is_own ls <= rank s + count is_log ls.
Proof.
  intros Hi Hs. induction Hs as [s|s s' s'' ls l Hs IH Hl]; [done|]. specialize (IH Hi).
  pose proof (rank_step _ _ _ _ (p_inv_steps _ _ _ _ Hs Hi) Hl). rewrite !count_app. lia.
Qed.

Lemma signalled_steps s ls s' : p_steps s ls s' -> signalled s = true -> signalled s' = true.
Proof.
  induction 1 as [s|s s' s'' ls l Hs IH [_ Hl]]; [done|]. intros H. specialize (IH H). unfold signalled in *.
  destruct Hl; simpl; try done; by apply orb_true_r.
Qed.

(** Until the process is gone there is a step of its own to take; it leaves the
    workers alone. *)
Lemma own_progress has_logger s :
  p_inv has_logger s -> signalled s = true -> p_main s <> MExited ->
  exists ev s', p_step s (Own ev) s' /\ p_workers s' = p_workers s.
Proof.
  intros [Hl Hh Hn Hc Hr Hk Hf Hm He Hw Hlen] Hs Hx. unfold signalled in Hs.
  assert (Hmove : forall ev s', p_move s (Own ev) s' -> p_workers s' = p_workers s ->
                    exists ev s', p_step s (Own ev) s' /\ p_workers s' = p_workers s).
  { intros ev s' Hmv Ew. exists ev, s'. by split; [split|]. }
  destruct (p_signal s) eqn:Es.
  - rewrite bool_decide_false, orb_false_r in Hs by tauto. by eapply Hmove; [apply ps_take|].
  - by eapply Hmove; [apply ps_cancel|].
  - assert (Ec : p_ctx s = true) by by rewrite Hc.
    destruct (p_main s) as [|e| | |] eqn:Em; [|by eapply Hmove; [eapply ps_return|unfold accept_failed; rewrite Ec]
      |by eapply Hmove; [apply ps_deferred|]| |done].
    + destruct (p_listener s) eqn:Eo; [by eapply Hmove; [apply ps_close|]|].
      by eapply Hmove; [apply (ps_closed (ErrConn "use of closed network connection"))|].
    + destruct (Hm eq_refl) as [ql Eq]. pose proof (proj2 (Hk ql Eq) (or_introl eq_refl)) as Ek.
      destruct (ql_phase_ ql) eqn:Ep; [| |by eapply Hmove; [eapply ps_exit|]].
      * by eapply Hmove; [eapply ps_logger; [done|by apply lm_done]|].
      * destruct (ql_entries ql) as [|e es] eqn:Ee.
        -- by eapply Hmove; [eapply ps_logger; [done|by apply (lm_drained _ true)]|].
        -- by eapply Hmove; [eapply ps_logger; [done|by apply lm_drain]|].
Qed.

Lemma p_steps_app s ls s' ls' s'' : p_steps s ls s' -> p_steps s' ls' s'' -> p_steps s (ls ++ ls') s''.
Proof.
  intros H H'. revert H. induction H' as [s'|s' s1 s2 ls' l _ IH Hl]; intros H; [by rewrite app_nil_r|].
  rewrite app_assoc. by eapply p_snoc; [apply IH|].
Qed.

(** So it can end by steps of its own alone. *)
Lemma own_run has_logger n : forall s,
  rank s <= n -> p_inv has_logger s -> signalled s = true ->
  exists ls s', p_steps s ls s' /\ Forall (fun l => is_own l = true) ls /\ p_main s' = MExited /\
    p_workers s' = p_workers s.
Proof.
  induction n as [|n IH]; intros s Hn Hi Hs.
  - exists [], s. split_and!; [apply p_refl|constructor| |done]. unfold rank in Hn.
    destruct (p_main s), (p_ctx s); simpl in Hn; lia || done.
  - destruct (p_main s) as [|e| | |] eqn:Em; [| | | |exists [], s; split_and!; [apply p_refl|constructor|done|done]].
    all: destruct (own_progress _ s Hi Hs) as (ev & s1 & H1 & W1); [by rewrite Em|].
    all: pose proof (rank_step _ _ _ _ Hi H1) as Hr; simpl in Hr.
    all: assert (H1' : p_steps s [Own ev] s1) by (apply (p_snoc s s s1 [] (Own ev)); [apply p_refl|done]).
    all: destruct (IH s1) as (ls & s' & H2 & Ho & Hx & W2);
      [lia|by eapply p_inv_steps|by eapply signalled_steps|].
    all: exists (Own ev :: ls), s'; split_and!; [by eapply (p_steps_app s [Own ev])|by constructor|done|congruence].
Qed.

(** ** The accept loop *)

Definition event_of (l : p_label) : option accept_event :=
  match l with Own ev | Env ev => ev | LogCall => None end.
Definition events (ls : list p_label) : list accept_event := omap event_of ls.

Lemma accept_loop_snoc d evs ev :
  accept_loop d (evs ++ [ev])
  = let '(conns, returned) := accept_loop d evs in
    if returned then (conns, true)
    else match ev with
         | Accepted c => (conns ++ [c], false)
         | AcceptError _ => (conns, d || existsb is_done evs)
         | CtxDone => (conns, false)
         end.
Proof.
  revert d. induction evs as [|[c|e|] evs IH]; intros d; simpl.
  - destruct ev; [done| |done]. by destruct d.
  - rewrite IH. destruct (accept_loop d evs) as [cs []]; [done|]. by destruct ev.
  - destruct d; [done|apply IH].
  - rewrite IH. destruct (accept_loop true evs) as [cs []]; [done|]. by rewrite orb_true_r.
Qed.

Lemma start_run has_logger ls s :
  p_steps (NewProcess has_logger) ls s ->
  accept_loop false (events ls) = (p_conns s, start_returned (p_main s)) /\ existsb is_done (events ls) = p_ctx s.
Proof.
  intros H. remember (NewProcess has_logger) as s0 eqn:E0. induction H as [s|start s' s'' ls l Hs IH Hl]; [by subst|].
  specialize (IH E0) as [IH1 IH2]. assert (Hi : p_inv has_logger s').
  { eapply p_inv_steps; [done|]. rewrite E0. apply p_inv_new. }
  assert (Ee : events (ls ++ [l]) = events ls ++ match event_of l with Some ev => [ev] | None => [] end).
  { unfold events. rewrite omap_app. simpl. by destruct (event_of l). }
  rewrite Ee. destruct Hl as [Hx Hmv]. destruct Hmv as [s|s H1 H2|s H1|s H1 H2|conn s H1 H2|e s H1 H2|e s H1 H2|e s H1 H2
    |e s H1 H2|s H1|ql s H1 H2 H3|l ql ql' s H1 H2|sess s H1|i w w' s H1 H2]; simpl;
    rewrite ?app_nil_r, ?accept_loop_snoc, ?existsb_app, ?IH1, ?IH2, ?H1; simpl; rewrite ?orb_false_r; try done.
  - split; [by destruct (start_returned (p_main s))|]. by rewrite orb_true_r.
  - unfold accept_failed. simpl. by rewrite H2.
  - unfold accept_failed. simpl. by rewrite H2.
  - pose proof (pi_returned _ _ Hi ltac:(by rewrite H1)) as ->. by destruct (p_logger s).
  - destruct H2; simpl; by rewrite ?app_nil_r, ?orb_false_r.
Qed.

(** ** What has been written when the process is gone *)

Lemma logger_move_keeps l ql ql' :
  logger_move cfg l ql ql' ->
  (exists more, ql_queued ql' = ql_queued ql ++ more) /\
  (ql_phase_ ql = Finished -> ql_written ql' = ql_written ql) /\
  (ql_phase_ ql <> Finished -> ql_phase_ ql' = Finished -> ql_entries ql' = []).
Proof.
  destruct 1; unfold Log, on_entry, on_tick; repeat case_match; simpl;
    (split; [first [by eexists; rewrite app_nil_r | by eexists]|]); split; intros; congruence || done.
Qed.

Definition kept (es : list QueryLogEntry) (ql : QueryLogger) : Prop :=
  exists more, match ql_phase_ ql with Finished => all_written ql | _ => ql_queued ql end = es ++ more.

Lemma kept_move es l ql ql' :
  ql_reachable cfg ql -> logger_move cfg l ql ql' -> kept es ql -> kept es ql'.
Proof.
  intros Hr Hmv [more Hm]. pose proof (logger_move_keeps _ _ _ Hmv) as ([more' Hq] & Hw & He).
  assert (Hr' : ql_reachable cfg ql') by (eapply rtc_r; [done|by eapply logger_move_step]).
  destruct (ql_reachable_inv _ _ Hr') as [Hc _ Hf _ _]. unfold kept in *.
  destruct (decide (ql_phase_ ql = Finished)) as [E|E].
  - rewrite (logger_move_finished _ _ _ Hmv E). rewrite E in Hm. exists more. unfold all_written. by rewrite Hw.
  - assert (Hm' : ql_queued ql = es ++ more) by by destruct (ql_phase_ ql). destruct (ql_phase_ ql') eqn:E'.
    3: rewrite (He E eq_refl), (Hf eq_refl), !app_nil_r in Hc; rewrite Hc.
    all: rewrite Hq, Hm', <- app_assoc; eauto.
Qed.

Lemma kept_steps has_logger es s ls s' :
  p_steps s ls s' -> p_inv has_logger s ->
  (forall ql, p_logger s = Some ql -> kept es ql) -> forall ql', p_logger s' = Some ql' -> kept es ql'.
Proof.
  induction 1 as [s|start s' s'' ls l Hs IH [_ Hl]]; [done|]. intros Hi H0 ql' E'. specialize (IH Hi H0).
  pose proof (p_inv_steps _ _ _ _ Hs Hi) as Hi'.
  destruct Hl as [| | | | | | | | |s H1| |l ql ql2 s H1 H2| |]; simpl in E'; try (by apply IH).
  - destruct (p_logger s) as [ql|] eqn:E; [|done]. injection E' as <-. exact (IH ql eq_refl).
  - injection E' as <-. eapply kept_move; [by apply (pi_logger _ _ Hi')|done|by apply IH].
Qed.

(** ** Properties *)

(** C19: [Start] as a function of events is what the running process does. Whatever the
    goroutines do in whatever order, the handlers started so far are those of the
    accept loop on the connections, errors and cancellation seen so far, and [Start]
    has returned exactly when the accept loop has; no shadow worker exists without a
    connection; and [Start] never returns unless a signal was sent. *)
Theorem start_refines_accept_loop has_logger ls s :
  p_steps (NewProcess has_logger) ls s ->
  accept_loop false (events ls) = (p_conns s, start_returned (p_main s)) /\
  length (p_workers s) <= length (p_conns s) /\
  (start_returned (p_main s) = true -> signalled s = true).
Proof.
  intros H. assert (Hi : p_inv has_logger s) by (apply p_reachable_inv; by exists ls).
  split; [by eapply start_run|]. split; [by apply (pi_count _ _ Hi)|].
  intros Hr. apply (pi_returned _ _ Hi) in Hr. rewrite (pi_ctx _ _ Hi) in Hr. apply bool_decide_eq_true in Hr.
  unfold signalled. rewrite Hr. apply orb_true_r.
Qed.

(** C17: A signal ends the process. Once one was sent, the process is gone or has a step
    of its own to take, whatever else has happened; and of its own steps at most ten
    more than the logger's buffer holds, and one more for every call of [Log] made
    meanwhile, are left. Clients, backends and shadow workers can neither block nor
    undo the shutdown. *)
Theorem signal_ends_process has_logger s ls s' :
  p_reachable has_logger s -> signalled s = true -> p_steps s ls s' ->
  (p_main s' = MExited \/ exists ev s'', p_step s' (Own ev) s'') /\
  count is_own ls <= 10 + lc_BufferSize cfg + count is_log ls.
Proof.
  intros Hr Hs H. apply p_reachable_inv in Hr. pose proof (p_inv_steps _ _ _ _ H Hr) as Hi'. split.
  - destruct (p_main s') as [|e| | |] eqn:Em; [right..|by left].
    all: edestruct (own_progress _ s' Hi') as (ev & s'' & H1 & _); [by eapply signalled_steps|by rewrite Em|eauto].
  - pose proof (rank_steps _ _ _ _ Hr H). pose proof (rank_bound _ _ Hr). lia.
Qed.

(** C18: The query log is complete at exit. When the process is gone, everything [Log]
    had accepted at any moment before the flush loop returned - so in particular
    before the signal took effect - has been written, in order; what was accepted and
    is not written was accepted after that. *)
Theorem exit_writes_log has_logger s ql ls s' ql' :
  p_reachable has_logger s -> p_logger s = Some ql -> ql_phase_ ql <> Finished ->
  p_steps s ls s' -> p_main s' = MExited -> p_logger s' = Some ql' ->
  (exists later, all_written ql' = ql_queued ql ++ later) /\
  ql_queued ql' = all_written ql' ++ ql_entries ql'.
Proof.
  intros Hr El Hp H Hx El'. apply p_reachable_inv in Hr. pose proof (p_inv_steps _ _ _ _ H Hr) as Hi'.
  pose proof (pi_exited _ _ Hi' _ El' Hx) as Hf.
  destruct (ql_reachable_inv _ _ (pi_logger _ _ Hi' _ El')) as [Hc _ Hb _ _]. split.
  - destruct (kept_steps has_logger (ql_queued ql) s ls s' H Hr) with (ql' := ql') as [later Hk]; [|done|].
    + intros ? E. rewrite El in E. injection E as <-. exists []. rewrite app_nil_r. by destruct (ql_phase_ ql).
    + rewrite Hf in Hk. eauto.
  - by rewrite <- Hc, (Hb Hf).
Qed.

(** C40: A signal abandons the shadow queues. From every state of the running process it
    can end without any shadow worker having moved: nothing tells the workers of the
    shutdown and nothing waits for them, so that what they have accepted and not yet
    processed is lost. *)
Theorem exit_abandons_workers has_logger s :
  p_reachable has_logger s -> p_main s <> MExited ->
  exists ls s', p_steps s ls s' /\ p_main s' = MExited /\ p_workers s' = p_workers s.
Proof.
  intros Hr Hx. apply p_reachable_inv in Hr.
  assert (H1 : p_steps s [Env None] (notify s)) by (apply (p_snoc s s _ []); [apply p_refl|by split; [|apply ps_signal]]).
  destruct (own_run has_logger _ (notify s) (le_n _)) as (ls & s' & H2 & _ & Hx' & W).
  - by eapply p_inv_steps.
  - done.
  - exists ([Env None] ++ ls), s'. split; [by eapply p_steps_app|done].
Qed.

(** The drain loop goes on for as long as entries arrive: with [Log] calls keeping up,
    it takes any number of steps, and its batch grows by one entry with each. *)
Theorem drain_outlasted n s ql e :
  0 < lc_BufferSize cfg -> p_main s = MClosing -> p_logger s = Some ql -> ql_phase_ ql = Draining -> ql_entries ql = [] ->
  exists ls s' ql', p_steps s ls s' /\ count is_own ls = n /\ p_main s' = MClosing /\ p_logger s' = Some ql' /\
    ql_phase_ ql' = Draining /\ ql_entries ql' = [] /\ ql_batch ql' = ql_batch ql ++ repeat e n.
Proof.
  intros Hb Hm. revert s ql Hm. induction n as [|n IH]; intros s ql Hm El Hp He.
  - exists [], s, ql. split_and!; try done; [apply p_refl|]. by rewrite app_nil_r.
  - set (ql1 := Log cfg e ql). set (ql2 := drain_entry e [] ql1).
    assert (E1 : ql1 = MkLogger [e] (ql_batch ql) Draining (ql_written ql) (ql_cancelled ql) (ql_queued ql ++ [e]) (ql_dropped ql)).
    { unfold ql1, Log. by rewrite He, bool_decide_true, Hp. }
    assert (H2 : p_steps s ([LogCall] ++ [Own None]) (set_logger ql2 (set_logger ql1 s))).
    { apply (p_snoc s (set_logger ql1 s)); [apply (p_snoc s s _ []); [apply p_refl|]|]; (split; [simpl; by rewrite Hm|]).
      - eapply ps_logger; [done|apply lm_log].
      - eapply ps_logger; [done|apply lm_drain; by rewrite E1]. }
    destruct (IH (set_logger ql2 (set_logger ql1 s)) ql2) as (ls & s' & ql' & H3 & Hc & Hm' & El' & Hp' & He' & Hb');
      [done|done|by unfold ql2; rewrite E1|done|].
    exists (([LogCall] ++ [Own None]) ++ ls), s', ql'. split_and!; try done.
    + by eapply p_steps_app.
    + by rewrite <- Hc.
    + rewrite Hb'. unfold ql2. rewrite E1. simpl. by rewrite <- app_assoc.
Qed.
End process.

(** ** Witnesses *)

Definition sd_cfg : QueryLoggerConfig := log_cfg.
(** A worker that remembers what it processed. *)
Definition sd_serve (t : timing) (r : bytes) (done : list bytes) : list bytes := done ++ [r].
Definition sd_dead (done : list bytes) : bool := false.

(** A client connected, its request was accepted by the shadow worker and logged, and
    then a signal came. *)
Definition sd_worker : Worker bytes (list bytes) :=
  MkWorker [B "q"] [] false false false false WLoop CIdle [B "q"] [] [] [].
Definition sd_conn : Conn := MkConn [] [] [].
Definition sd_signalled : Process bytes (list bytes) :=
  MkProcess true SigWait false true MAccept (Some (Log sd_cfg (log_entry (B "1")) NewQueryLogger)) [sd_conn] [sd_worker].
Definition sd_start : list p_label := [Env (Some (Accepted sd_conn)); Env None; Env None; Env None; LogCall; Env None].

Lemma sd_start_run : p_steps sd_cfg 1 sd_serve sd_dead (NewProcess true) sd_start sd_signalled.
Proof.
  set (s1 := start_handler sd_conn (NewProcess (Req := bytes) (Sess := list bytes) true)).
  set (w1 := NewWorker (Req := bytes) (@nil bytes)). set (w2 := send_check sd_dead (B "q") w1).
  set (s2 := set_workers [w1] s1). set (s3 := set_workers [w2] s2). set (s4 := set_workers [sd_worker] s3).
  set (s5 := set_logger (Log sd_cfg (log_entry (B "1")) NewQueryLogger) s4).
  assert (H1 : p_steps sd_cfg 1 sd_serve sd_dead (NewProcess true) [Env (Some (Accepted sd_conn))] s1).
  { apply (p_snoc _ _ _ _ _ (NewProcess true) _ []); [apply p_refl|]. by split; [|apply ps_accept]. }
  assert (H2 : p_step sd_cfg 1 sd_serve sd_dead s1 (Env None) s2) by (split; [done|]; apply (ps_spawn sd_cfg 1 sd_serve sd_dead [] s1); simpl; lia).
  assert (H3 : p_step sd_cfg 1 sd_serve sd_dead s2 (Env None) s3).
  { split; [done|]. apply (ps_worker sd_cfg 1 sd_serve sd_dead 0 w1 w2 s2); [done|]. by apply ws_send_check. }
  assert (H4 : p_step sd_cfg 1 sd_serve sd_dead s3 (Env None) s4).
  { split; [done|]. apply (ps_worker sd_cfg 1 sd_serve sd_dead 0 w2 sd_worker s3); [done|].
    by apply (ws_send_select 1 sd_serve sd_dead (B "q") w2). }
  assert (H5 : p_step sd_cfg 1 sd_serve sd_dead s4 LogCall s5).
  { split; [done|]. eapply ps_logger; [done|apply lm_log]. }
  pose proof (p_snoc _ _ _ _ _ _ _ _ _ (p_snoc _ _ _ _ _ _ _ _ _ (p_snoc _ _ _ _ _ _ _ _ _
    (p_snoc _ _ _ _ _ _ _ _ _ H1 H2) H3) H4) H5) as H.
  apply (p_snoc _ _ _ _ _ _ _ _ (Env None) H). by split; [|apply ps_signal].
Qed.

Lemma start_refines_accept_loop_witness :
  accept_loop false [Accepted sd_conn] = ([sd_conn], false) /\ length (p_workers sd_signalled) <= 1 /\
  (start_returned (p_main sd_signalled) = true -> signalled sd_signalled = true).
Proof. exact (start_refines_accept_loop sd_cfg 1 sd_serve sd_dead true sd_start sd_signalled sd_start_run). Defined.

(** What is left for it then: the signal, the listener, the accept loop, the logger. *)
Definition sd_ended : Process bytes (list bytes) :=
  MkProcess false SigReturned true false MExited
    (Some (MkLogger [] [] Finished [Object [log_entry (B "1")]] true [log_entry (B "1")] [])) [sd_conn] [sd_worker].
Definition sd_end : list p_label :=
  [Own None; Own (Some CtxDone); Own None; Own None; Own (Some (AcceptError (ErrConn "closed"))); Own None; Own None;
   Own None; Own None; Own None].

(** One step of the run: the state it leads to, and why. *)
Tactic Notation "p_go" constr(state) uconstr(rule) :=
  eapply (p_steps_app _ _ _ _ _ [_] state);
    [apply (p_snoc _ _ _ _ _ _ state [] _ (p_refl _ _ _ _ _)); split; [done|exact rule]|].

Lemma sd_end_run : p_steps sd_cfg 1 sd_serve sd_dead sd_signalled sd_end sd_ended.
Proof.
  unfold sd_end. set (s1 := take_signal sd_signalled). set (s2 := signal_cancel s1). set (s3 := close_listener s2).
  set (s4 := set_main (MFailed (ErrConn "closed")) s3). set (s5 := accept_failed s4). set (s6 := run_deferred s5).
  set (q1 := QueryLogger.cancel (Log sd_cfg (log_entry (B "1")) NewQueryLogger)).
  set (q2 := drain_entry (log_entry (B "1")) [] (on_done q1)).
  p_go s1 (ps_take _ _ _ _ sd_signalled eq_refl eq_refl). p_go s2 (ps_cancel _ _ _ _ s1 eq_refl).
  p_go s3 (ps_close _ _ _ _ s2 eq_refl eq_refl). p_go s4 (ps_closed _ _ _ _ _ s3 eq_refl eq_refl).
  p_go s5 (ps_return _ _ _ _ _ s4 eq_refl eq_refl). p_go s6 (ps_deferred _ _ _ _ s5 eq_refl).
  p_go (set_logger (on_done q1) s6) (ps_logger _ _ _ _ _ _ _ s6 eq_refl (lm_done sd_cfg q1 eq_refl eq_refl)).
  p_go (set_logger q2 s6) (ps_logger _ _ _ _ _ _ _ (set_logger (on_done q1) s6) eq_refl
    (lm_drain sd_cfg _ _ (on_done q1) eq_refl eq_refl)).
  p_go (set_logger (drain_end true q2) s6) (ps_logger _ _ _ _ _ _ _ (set_logger q2 s6) eq_refl
    (lm_drained sd_cfg true q2 eq_refl eq_refl)).
  p_go sd_ended (ps_exit _ _ _ _ _ (set_logger (drain_end true q2) s6) eq_refl eq_refl eq_refl). apply p_refl.
Qed.

Lemma sd_reachable : p_reachable sd_cfg 1 sd_serve sd_dead true sd_signalled.
Proof. exists sd_start. exact sd_start_run. Qed.

Lemma signal_ends_process_witness :
  count is_own sd_end = 10 /\ count is_own sd_end <= 10 + 2 + count is_log sd_end /\
  (p_main sd_ended = MExited \/ exists ev s'', p_step sd_cfg 1 sd_serve sd_dead sd_ended (Own ev) s'').
Proof.
  split; [reflexivity|].
  destruct (signal_ends_process sd_cfg 1 sd_serve sd_dead true sd_signalled sd_end sd_ended sd_reachable eq_refl sd_end_run).
  by split.
Defined.

Lemma exit_writes_log_witness :
  exists ql', p_logger sd_ended = Some ql' /\
  (exists later, all_written ql' = [log_entry (B "1")] ++ later) /\ ql_queued ql' = all_written ql' ++ ql_entries ql'.
Proof.
  eexists. split; [reflexivity|].
  apply (exit_writes_log sd_cfg 1 sd_serve sd_dead true sd_signalled (Log sd_cfg (log_entry (B "1")) NewQueryLogger)
           sd_end sd_ended _ sd_reachable eq_refl ltac:(done) sd_end_run eq_refl eq_refl).
Defined.

(** The request that was accepted is lost. *)
Lemma exit_abandons_workers_witness :
  exists ls s' w, p_steps sd_cfg 1 sd_serve sd_dead sd_signalled ls s' /\ p_main s' = MExited /\
    p_workers s' = [w] /\ w_accepted w = [B "q"] /\ w_processed w = [] /\ w_skipped w = [].
Proof.
  destruct (exit_abandons_workers sd_cfg 1 sd_serve sd_dead true sd_signalled sd_reachable) as (ls & s' & H & Hx & W);
    [done|]. exists ls, s', sd_worker. by split_and!.
Defined.

Lemma drain_outlasted_witness :
  exists ls s' ql',
    p_steps sd_cfg 1 sd_serve sd_dead
      (MkProcess false SigReturned true false MClosing (Some (on_done (QueryLogger.cancel NewQueryLogger))) [] []) ls s' /\
    count is_own ls = 1000 /\ p_main s' = MClosing /\ p_logger s' = Some ql' /\
    ql_phase_ ql' = Draining /\ ql_entries ql' = [] /\ ql_batch ql' = repeat (log_entry (B "1")) 1000.
Proof.
  apply (drain_outlasted sd_cfg 1 sd_serve sd_dead 1000 _ (on_done (QueryLogger.cancel NewQueryLogger)) (log_entry (B "1")));
    [vm_compute; lia|done..].
Defined.
